(* ===== verification/_CoqProject ===== *)
-Q . S2P
Prelude.v
Double.v
Wire.v
Tlv.v
Msg.v
Grammar.v
State.v
Ffsplit.v
Select.v
Handlers.v
Lifecycle.v
Invariant.v
HandlerFacts.v
InitFacts.v
VoteOrder.v
Safety.v
Scenarios.v
Typed.v
Shift.v
Chunks.v
Delivery.v
Outputs.v
Arbiter.v
Progress.v
Phases.v
Election.v
Correctness.v
Calls.v
Deadlines.v
Status.v
Transport.v
Component.v
ComponentLoop.v
Stream.v
Host.v
HostTests.v
