(* ===== verification/Prelude.v ===== *)
(** * A verification of the qnetd quorum arbiter

    esphome-qnetd is a corosync-qnetd server for microcontrollers: cluster nodes
    connect over TCP, report their configuration and membership, and the server
    decides which partition of a split cluster may continue (the ffsplit
    algorithm).  This library models the C++ code - the portable core, the
    ESPHome component and the POSIX server that embed it - and proves it correct.

    ** The program and its model

    - tlv.h: wire enums and structs are in [Wire]; the big-endian primitives,
      [TlvWriter] and [TlvIterator] in [Tlv], a reader with an explicit [Fault]
      outcome for reads outside the buffer.
    - msg.h, msg.cpp: [MsgDecoded], [msg_decode] and the [build_*] functions are in
      [Msg]; [vote_str] and [msg_type_str] in [Status].
    - server.h: the state is in [State].  A [Session &] is the index of the
      session; calls into [Transport] and [on_state_change] are appended to the
      list of effects [sv_out], which no code reads.  The interface forbids the
      transport to call back, so recording the calls loses nothing.
    - server.cpp: the ffsplit algorithm is in [Ffsplit], the handlers and the
      cluster bookkeeping in [Handlers], the calls of the interface
      ([on_connect], [on_data], [on_disconnected], [tick]) and the introspection
      functions in [Lifecycle], [status_string] in [Status].  The deadline of a
      client is a product in [double]; [Double] computes it in binary64.
    - The [Transport] interface is a type class with laws in [Transport], together
      with a call of the server whose effects are carried out by a transport.
      Both programs that embed the server are instances of it.
    - qnetd_component.cpp: the 64-bit clock and the transmit side of a connection
      are in [Component], against a type class of stream sockets; the setters,
      [setup], [loop] and [publish_] in [ComponentLoop].
    - host/qnetd_lite.cpp: [PosixTransport] and [main] are in [Host], against a type
      class of system calls.
    - host/test_main.cpp: the client-side frame builders, and runs of the server on
      real bytes that the other files use, are in [Scenarios]; the test program
      itself, every test with every check, is in [HostTests], where it is
      evaluated on the model.

    Every definition is executable.  Machine integers are [Z] reduced modulo
    [2^w] where the code converts or overflows; a [std::string] or byte vector is
    a list of byte values; the fixed arrays are lists of length [MAX_CLIENTS] and
    [MAX_CLUSTERS].  Sizes and indices are [nat]: a frame length is a [size_t] sum
    of the header length and a payload length of at most [max_rx_frame], 32768 in
    both programs, so it does not wrap.  Receiving data, ticking and connecting are pure functions
    from state to state; [Lifecycle.reachable] is the set of states any sequence
    of calls with any bytes can produce.

    ** Theorems

    - [Msg]: the decoder is memory safe and total, returns well-typed messages and
      ignores unknown options; the builders round-trip through it.  [Grammar]: a
      relational grammar of payloads, stated without the decoder - option types,
      lengths, values and what they say - and the theorem that the decoder accepts
      exactly its payloads, with the messages they describe.
    - [Select] (lemmas) and [Election]: the stability test means agreement of the
      clients' views; every winner has a quorum; in a 50:50 split the score, the
      active partition and the tie-breaker decide in that order; what a decision,
      after a report or a departure, does to the sessions and which frames it sends.
    - [Invariant], [HandlerFacts], [InitFacts], [Safety]: the structural
      invariant [inv] and the safety invariant [safe] are preserved by every
      handler and every call; [VoteOrder]: ACKs wait for unanswered NACKs.
    - [Correctness]: the theorems on executions - all ACK holders of a cluster in
      one quorate partition, two-phase votes, unique node ids, consistent
      clusters, sessions and introspection.  The first and the third need that no
      client sends INIT again once it is active ([Safety.reachable_clean]); this
      cannot be dropped, because [handle_init] overwrites the node id of an active
      session before it rejects the message
      ([Correctness.repeated_init_overwrites_node_id]).
    - [Calls]: the functional behaviour of each call, admission by INIT,
      termination of the frame loop, the bound on the receive buffers.
    - [Double], [Deadlines]: the deadline computed in floating point is exact, and
      a client that falls silent is given up after exactly one and a half
      heartbeats, not before, whatever the others do; the timeout of the handshake
      bounds the silence of a client, not the handshake.
    - [Typed]: every field of a session and of a cluster is within the bounds the
      code enforces and within the range of its C++ type, in every execution.
    - [Shift]: states that differ only in receive buffers and recorded effects are
      equivalent for all reading operations ([Proper] instances), and all writing
      operations commute with changing them.  [Chunks]: how the byte stream is cut
      into calls of [on_data] does not matter.
    - [Outputs]: the effects of every call obey the transport contract - frames
      and closes only for open connections, and the sessions in use are exactly
      the open connections afterwards.
    - [Arbiter]: an abstract arbiter, per cluster three sets of node ids and five
      labelled actions, and the refinement theorem: in executions without a repeated
      INIT each call performs a trace of actions that is exactly what can be
      observed of it - the VOTE_INFO frames sent, the decisions counted, the answers
      received, the connections lost or closed.
    - [Delivery]: a complete frame is one run of its handler, and what the frames
      that answer a vote decode to.  [Progress]: a vote transfer completes once its
      clients have sent their answers, with the votes the decision intended - and
      what goes wrong when a client answers an old NACK after a new decision.
      [Phases]: in every execution a cluster in a vote phase has a client that
      owes it an answer, so no state is a dead end.
    - [Status], [Component]: the status line; exactness of the clock and integrity
      of the transmitted stream.
    - [ComponentLoop], [Host]: both embedders keep their connection tables in step
      with the sessions of the server, whatever the sockets or the system calls
      do; the sensors are never stale; the component's loop returns; a frame is
      sent whole across partial and interrupted writes.  The proofs use the
      transport contract only, through the laws of [Transport].  [Stream]: what
      the component reads reaches the server as if in one piece, and a disconnection
      is reported only after the socket has reported the end or an error.

    ** Fuel

    Five loops carry fuel.  The TLV loop gets one more than the payload length
    and every step consumes at least four bytes; running out is [Fault], which
    [Msg.msg_decode_memory_safe] excludes.  The frame loop of [on_data] gets one
    more than the buffer length and each iteration that continues consumes a
    header; [Calls.on_data_loop_terminates] shows that more fuel changes nothing.
    [drain_closes] gets the number of pending closes, which only shrinks
    meanwhile ([Invariant.drain_loop_post]: it ends with none pending).  The read
    loop of the component needs more fuel than there are bytes waiting on the
    socket; without it the result is [None], which [ComponentLoop.loop_terminates]
    excludes.  The send loop of the POSIX server needs more than the length of the
    frame plus the number of interruptions ([Host.posix_send_frame_complete]).

    ** Not modelled

    Log and console output, [dump_config] included (no state depends on it); the
    sockets, the operating system and [inet_ntop], which are type classes or
    parameters; what ESPHome does with a published value; the Python code that
    generates the configuration.

    This file holds what all components share: machine integers, the outcome
    monad of the parsers, record update and the tactics. *)
From stdpp Require Export base tactics list numbers sets.
From Stdlib Require Export ZArith Lia.

#[export] Set Default Goal Selector "!".
Declare Scope qnetd_scope.
Delimit Scope qnetd_scope with qnetd.
Open Scope Z_scope.

(** ** Machine integers

    A [w]-bit unsigned C++ integer is a [Z]; a conversion to the type is the
    reduction modulo [2^w] that the C++ standard prescribes. *)
Definition u8 (v : Z) : Z := v mod 2 ^ 8.
Definition u16 (v : Z) : Z := v mod 2 ^ 16.
Definition u32 (v : Z) : Z := v mod 2 ^ 32.
Definition u64 (v : Z) : Z := v mod 2 ^ 64.

Definition is_u8 (v : Z) : Prop := 0 <= v < 2 ^ 8.
Definition is_u16 (v : Z) : Prop := 0 <= v < 2 ^ 16.
Definition is_u32 (v : Z) : Prop := 0 <= v < 2 ^ 32.
Definition is_u64 (v : Z) : Prop := 0 <= v < 2 ^ 64.

#[export] Instance is_u8_dec v : Decision (is_u8 v).
Proof. unfold is_u8. apply _. Defined.
#[export] Instance is_u16_dec v : Decision (is_u16 v).
Proof. unfold is_u16. apply _. Defined.
#[export] Instance is_u32_dec v : Decision (is_u32 v).
Proof. unfold is_u32. apply _. Defined.
#[export] Instance is_u64_dec v : Decision (is_u64 v).
Proof. unfold is_u64. apply _. Defined.

(** A buffer of bytes, [std::vector<uint8_t>] or a [const uint8_t *] with its length. *)
Abbreviation bytes := (list Z).
Abbreviation is_bytes := (Forall is_u8).

Create HintDb qnetd discriminated.

Lemma u8_range v : is_u8 (u8 v).
Proof. unfold u8, is_u8. apply Z.mod_pos_bound. lia. Qed.
Lemma u16_range v : is_u16 (u16 v).
Proof. unfold u16, is_u16. apply Z.mod_pos_bound. lia. Qed.
Lemma u32_range v : is_u32 (u32 v).
Proof. unfold u32, is_u32. apply Z.mod_pos_bound. lia. Qed.
Lemma u64_range v : is_u64 (u64 v).
Proof. unfold u64, is_u64. apply Z.mod_pos_bound. lia. Qed.

Lemma u8_id v : is_u8 v -> u8 v = v.
Proof. unfold u8, is_u8. apply Z.mod_small. Qed.
Lemma u16_id v : is_u16 v -> u16 v = v.
Proof. unfold u16, is_u16. apply Z.mod_small. Qed.
Lemma u32_id v : is_u32 v -> u32 v = v.
Proof. unfold u32, is_u32. apply Z.mod_small. Qed.
Lemma u64_id v : is_u64 v -> u64 v = v.
Proof. unfold u64, is_u64. apply Z.mod_small. Qed.

#[export] Hint Resolve u8_range u16_range u32_range u64_range : qnetd.

(** ** Outcomes of parsing code

    [Ok a]: the code returned normally with [a]; [Reject]: the code took a
    [return false]; [Fault]: the code read outside its buffer, or its loop did
    not end within the fuel of the model.  [Fault] is what the safety theorems
    of the parsers exclude. *)
Inductive outcome (A : Type) : Type :=
| Ok (a : A)
| Reject
| Fault.
Arguments Ok {A} _.
Arguments Reject {A}.
Arguments Fault {A}.

#[export] Instance outcome_ret : MRet outcome := λ A a, Ok a.
#[export] Instance outcome_bind : MBind outcome := λ A B f m,
  match m with Ok a => f a | Reject => Reject | Fault => Fault end.
#[export] Instance outcome_eq_dec {A} `{EqDecision A} : EqDecision (outcome A).
Proof. solve_decision. Defined.

Lemma outcome_bind_ok {A B} (a : A) (k : A → outcome B) : (Ok a ≫= k) = k a.
Proof. reflexivity. Qed.

(** Lift of an optional value whose absence is a rejection. *)
Definition of_option {A} (o : option A) : outcome A :=
  match o with Some a => Ok a | None => Reject end.

(** ** Field update

    [r <| f := v |>] is the record [r] with field [f] assigned; the instances
    are derived from the eta expansion of the record type. *)
Class EtaExpand (R : Type) := eta_expand : R → R.
Class Setter {R T : Type} (proj : R → T) := set_field : (T → T) → R → R.
Arguments set_field {R T} proj {_} _ _.

Ltac derive_setter :=
  lazymatch goal with
  | |- @Setter ?R ?T ?proj =>
      let upd := fresh "upd" in
      let r := fresh "r" in
      unfold Setter; intros upd r;
      let e := eval hnf in (eta_expand r) in
      let p := eval pattern (proj r) in e in
      lazymatch p with
      | ?F _ => let t := eval cbv beta in (F (upd (proj r))) in exact t
      end
  end.

Notation "r <| f := v |>" := (set_field f (fun _ => v) r)
  (at level 1, left associativity, format "r  <| f  :=  v |>") : qnetd_scope.
Notation "r <| f ::= g |>" := (set_field f g r)
  (at level 1, left associativity, format "r  <| f  ::=  g |>") : qnetd_scope.
Open Scope qnetd_scope.

(** ** Tactics *)

(** Split conjunctions and existentials of the context. *)
Ltac crush_hyps :=
  repeat match goal with
  | H : _ ∧ _ |- _ => destruct H
  | H : ∃ _, _ |- _ => destruct H
  end.

(** Case analysis on the scrutinee of a [match] or [if], then clean up. *)
Ltac split_match :=
  match goal with
  | |- context [match ?x with _ => _ end] => destruct x eqn:?
  | H : context [match ?x with _ => _ end] |- _ => destruct x eqn:?
  end; simplify_eq/=; try done.
Ltac split_matches := repeat split_match.

(** Turn boolean tests of the context into propositions. *)
Ltac bool_to_prop :=
  repeat match goal with
  | H : _ && _ = true |- _ => apply andb_prop in H as [? ?]
  | H : negb _ = true |- _ => apply negb_true_iff in H
  | H : negb _ = false |- _ => apply negb_false_iff in H
  | H : _ || _ = false |- _ => apply orb_false_elim in H as [? ?]
  | H : (_ =? _)%Z = true |- _ => apply Z.eqb_eq in H
  | H : (_ =? _)%Z = false |- _ => apply Z.eqb_neq in H
  | H : (_ <? _)%Z = true |- _ => apply Z.ltb_lt in H
  | H : (_ <? _)%Z = false |- _ => apply Z.ltb_ge in H
  | H : (_ <=? _)%Z = true |- _ => apply Z.leb_le in H
  | H : (_ <=? _)%Z = false |- _ => apply Z.leb_gt in H
  | H : (_ =? _)%nat = true |- _ => apply Nat.eqb_eq in H
  | H : (_ =? _)%nat = false |- _ => apply Nat.eqb_neq in H
  | H : (_ <? _)%nat = true |- _ => apply Nat.ltb_lt in H
  | H : (_ <? _)%nat = false |- _ => apply Nat.ltb_ge in H
  | H : bool_decide _ = true |- _ => apply bool_decide_eq_true in H
  | H : bool_decide _ = false |- _ => apply bool_decide_eq_false in H
  end.
