(* ===== verification/Double.v ===== *)
(** * Double precision arithmetic

    The one floating-point expression of the server, [uint64_t(DPD_COEFFICIENT *
    s.heartbeat_ms)] in [reschedule_dpd], over the Standard Library's
    specification of IEEE 754 binary64: the conversions, the rounded product and
    the truncation, and the proof that none of them loses anything. *)
From S2P Require Import Prelude.
From Stdlib Require Import SpecFloat.
Open Scope Z_scope.

(** A literal or an integer as a [double], rounded to nearest even. *)
Definition double_of (m e : Z) : spec_float := binary_normalize 53 1024 m e false.
Definition double_mul : spec_float → spec_float → spec_float := SFmul 53 1024.

(** The conversion to [uint64_t] truncates; outside of its range, and for
    infinities and NaN, it is undefined. *)
Definition u64_of_double (x : spec_float) : option Z :=
  match x with
  | S754_zero _ => Some 0
  | S754_finite false m e =>
      let v := Z.shiftl (Zpos m) e in if v <? 2 ^ 64 then Some v else None
  | _ => None
  end.

(** [constexpr double DPD_COEFFICIENT = 1.5]. *)
Definition DPD_COEFFICIENT : spec_float := double_of 3 (-1).

(** [uint64_t(DPD_COEFFICIENT * heartbeat_ms)]. *)
Definition dpd_interval (heartbeat_ms : Z) : option Z :=
  u64_of_double (double_mul DPD_COEFFICIENT (double_of heartbeat_ms 0)).

(** ** Rounding an exact value *)

Lemma digits_log2 p : Zpos (digits2_pos p) = Z.log2 (Zpos p) + 1.
Proof.
  assert (digits2_pos p = Pos.size p) as -> by (induction p; cbn; congruence).
  destruct p; cbn; lia.
Qed.

Lemma iter_pos_nat {A} (f : A → A) n x : iter_pos f n x = Nat.iter (Pos.to_nat n) f x.
Proof.
  revert x. induction n as [n IH|n IH|]; intros x; cbn [iter_pos]; [| |done].
  - rewrite !IH, <-Nat.iter_add, <-Nat.iter_succ_r. f_equal. lia.
  - rewrite !IH, <-Nat.iter_add. f_equal. lia.
Qed.

(** Shifting out zeros is exact. *)
Lemma shr_zeros (k : nat) m : 0 < m →
  Nat.iter k shr_1 (Build_shr_record (m * 2 ^ Z.of_nat k) false false) = Build_shr_record m false false.
Proof.
  intros Hm. induction k as [|k IH].
  - cbn [Nat.iter]. by rewrite Z.mul_1_r.
  - rewrite Nat.iter_succ_r, <-IH. f_equal. rewrite Nat2Z.inj_succ, Z.pow_succ_r by lia.
    replace (m * (2 * 2 ^ Z.of_nat k)) with (2 * (m * 2 ^ Z.of_nat k)) by lia.
    assert (0 < m * 2 ^ Z.of_nat k) as Hp by lia. by destruct (m * 2 ^ Z.of_nat k).
Qed.

(** A mantissa of [53 + k] digits whose last [k] are zero is rounded to its
    first 53, without loss. *)
Lemma round_exact m k e : 0 < m → Z.log2 m = 52 → 0 <= k → -1074 <= e + k <= 971 →
  binary_round_aux 53 1024 false (m * 2 ^ k) e loc_Exact = S754_finite false (Z.to_pos m) (e + k).
Proof.
  intros Hm Hlog Hk He.
  assert (∀ n d, 0 < n → Zdigits2 n + d = Z.log2 n + 1 + d) as Hd.
  { intros n d Hn. destruct n as [|p|p]; [lia| |lia]. cbn [Zdigits2]. by rewrite digits_log2. }
  assert (fexp 53 1024 (e + k + 53) = e + k) as Hfe by (unfold fexp, emin; lia).
  assert (shr_fexp 53 1024 (m * 2 ^ k) e loc_Exact = (Build_shr_record m false false, e + k)) as H1.
  { unfold shr_fexp. rewrite Hd, Z.log2_mul_pow2, Hlog by lia.
    replace (k + 52 + 1 + e) with (e + k + 53) by lia. rewrite Hfe.
    replace (e + k - e) with k by lia. unfold shr. cbn [shr_record_of_loc].
    destruct k as [|p|p]; [by rewrite Z.mul_1_r, Z.add_0_r| |lia].
    by rewrite iter_pos_nat, <-(positive_nat_Z p), shr_zeros. }
  assert (shr_fexp 53 1024 m (e + k) loc_Exact = (Build_shr_record m false false, e + k)) as H2.
  { unfold shr_fexp. rewrite Hd, Hlog by lia. replace (52 + 1 + (e + k)) with (e + k + 53) by lia.
    by rewrite Hfe, Z.sub_diag. }
  unfold binary_round_aux. rewrite H1. cbn [shr_m loc_of_shr_record round_nearest_even]. rewrite H2. cbn [shr_m].
  destruct m as [|p|p]; [lia| |lia]. rewrite (proj2 (Z.leb_le _ _)) by lia. done.
Qed.

(** A positive integer of at most 53 digits. *)
Lemma double_of_exact m : 0 < m → Z.log2 m <= 52 →
  double_of m 0 = S754_finite false (Z.to_pos (m * 2 ^ (52 - Z.log2 m))) (Z.log2 m - 52).
Proof.
  intros Hm Hl. unfold double_of, binary_normalize. destruct m as [|p|p]; [lia| |lia].
  set (n := Z.log2 (Zpos p)) in *. pose proof (Z.log2_nonneg (Zpos p)) as Hn. fold n in Hn.
  unfold binary_round, shl_align. rewrite digits_log2. fold n.
  assert (fexp 53 1024 (n + 1 + 0) - 0 = n - 52) as -> by (unfold fexp, emin; lia).
  assert (∀ d, Zpos (Pos.iter xO p d) = Zpos p * 2 ^ Zpos d) as Hi.
  { induction d as [|d IH] using Pos.peano_ind; [cbn; lia|].
    rewrite Pos.iter_succ, Pos2Z.inj_succ, Z.pow_succ_r by lia. rewrite (Pos2Z.inj_xO (Pos.iter xO p d)), IH. lia. }
  set (m := Zpos p * 2 ^ (52 - n)).
  assert (0 < m ∧ Z.log2 m = 52) as [Hm' Hlog].
  { unfold m. split; [lia|]. rewrite Z.log2_mul_pow2 by lia. fold n. lia. }
  assert (∀ e, -1074 <= e <= 971 → binary_round_aux 53 1024 false m e loc_Exact = S754_finite false (Z.to_pos m) e) as Hr.
  { intros e He. pose proof (round_exact m 0 e Hm' Hlog ltac:(lia) ltac:(lia)) as H.
    by rewrite Z.mul_1_r, Z.add_0_r in H. }
  destruct (n - 52) as [|d|d] eqn:E; [|lia|].
  - replace (Zpos p) with m by (unfold m; replace (52 - n) with 0 by lia; lia). rewrite Hr by lia. done.
  - rewrite Hi. replace (Zpos d) with (52 - n) by lia. fold m.
    replace (fexp 53 1024 (n + 1 + 0)) with (n - 52) by (unfold fexp, emin; lia). rewrite Hr by lia. by rewrite E.
Qed.

(** One and a half heartbeats, rounded down. *)
Lemma dpd_interval_half hb : is_u32 hb → dpd_interval hb = Some (3 * hb / 2).
Proof.
  intros [H0 Hhi]. destruct (Z.eq_dec hb 0) as [->|Hne]; [done|]. unfold dpd_interval.
  assert (0 <= Z.log2 hb <= 31) as Hl.
  { split; [apply Z.log2_nonneg|]. assert (Z.log2 hb < 32); [|lia]. apply Z.log2_lt_pow2; lia. }
  rewrite double_of_exact by lia. set (n := Z.log2 hb) in *.
  assert (double_mul DPD_COEFFICIENT (S754_finite false (Z.to_pos (hb * 2 ^ (52 - n))) (n - 52)) =
    binary_round_aux 53 1024 false (3 * hb * 2 ^ (103 - n)) (n - 104) loc_Exact) as ->.
  { unfold double_mul, SFmul. assert (DPD_COEFFICIENT = S754_finite false (Z.to_pos (3 * 2 ^ 51)) (-52)) as -> by done.
    f_equal; [|lia]. rewrite Pos2Z.inj_mul, !Z2Pos.id by lia.
    replace (103 - n) with (51 + (52 - n)) by lia. rewrite Z.pow_add_r by lia. lia. }
  assert (n + 1 <= Z.log2 (3 * hb) <= n + 2) as Hs.
  { pose proof (Z.log2_spec hb ltac:(lia)) as Hspec. fold n in Hspec. rewrite Z.pow_succ_r in Hspec by lia. split.
    - apply Z.log2_le_pow2; [lia|]. rewrite Z.pow_add_r by lia. lia.
    - assert (Z.log2 (3 * hb) < n + 3); [|lia]. apply Z.log2_lt_pow2; [lia|]. rewrite Z.pow_add_r by lia. lia. }
  set (s := Z.log2 (3 * hb)) in *. set (m := 3 * hb * 2 ^ (52 - s)).
  assert (3 * hb * 2 ^ (103 - n) = m * 2 ^ (51 + s - n)) as ->.
  { unfold m. rewrite <-(Z.mul_assoc (3 * hb)), <-Z.pow_add_r by lia. f_equal. f_equal. lia. }
  rewrite round_exact; [|unfold m; lia|unfold m; rewrite Z.log2_mul_pow2 by lia; fold s; lia|lia|lia].
  unfold u64_of_double. rewrite Z2Pos.id by (unfold m; lia).
  assert (Z.shiftl m (n - 104 + (51 + s - n)) = 3 * hb / 2) as ->.
  { replace (n - 104 + (51 + s - n)) with (- (53 - s)) by lia. rewrite Z.shiftl_opp_r, Z.shiftr_div_pow2 by lia.
    unfold m. replace (53 - s) with (1 + (52 - s)) by lia. rewrite Z.pow_add_r by lia.
    rewrite Z.div_mul_cancel_r by lia. done. }
  rewrite (proj2 (Z.ltb_lt _ _)); [done|]. pose proof (Z.div_lt_upper_bound (3 * hb) 2 (2 ^ 64)). lia.
Qed.

(** The timeout interval is exact.  For every 32-bit heartbeat the conversion
    of [1.5 * heartbeat_ms] to an integer is defined, and it is one and a half
    heartbeats rounded down: neither the conversion of the heartbeat to [double]
    nor the product loses anything. *)
Theorem dpd_interval_exact hb : is_u32 hb → dpd_interval hb = Some (3 * hb / 2).
Proof. apply dpd_interval_half. Qed.
Lemma dpd_interval_exact_witness : dpd_interval 8001 = Some 12001 ∧ dpd_interval 4294967295 = Some (3 * 4294967295 / 2).
Proof.
  split; [vm_compute; reflexivity|]. apply (dpd_interval_exact 4294967295). apply (bool_decide_unpack _). vm_compute. exact I.
Defined.
