(* ===== verification/Wire.v ===== *)
(** * Wire types (tlv.h, lines 11-146)

    The enumerations of the protocol with their wire values, and the plain data
    structures the decoder and the server share: [RingId], [TieBreaker],
    [NodeInfo] and [NodeList].

    A C++ [enum class] with a fixed underlying type can hold every value of that
    type.  The enumerations the code fills from unchecked wire bytes
    ([MsgType], [TlvOpt], [Algorithm], [NodeState]) therefore have a constructor
    [*_OTHER] that carries any other wire value; the enumerations that are only
    converted after a range check are closed, and the conversion is partial. *)
From S2P Require Import Prelude.

Inductive MsgType : Set :=
| MT_PREINIT
| MT_PREINIT_REPLY
| MT_STARTTLS
| MT_INIT
| MT_INIT_REPLY
| MT_SERVER_ERROR
| MT_SET_OPTION
| MT_SET_OPTION_REPLY
| MT_ECHO_REQUEST
| MT_ECHO_REPLY
| MT_NODE_LIST
| MT_NODE_LIST_REPLY
| MT_ASK_FOR_VOTE
| MT_ASK_FOR_VOTE_REPLY
| MT_VOTE_INFO
| MT_VOTE_INFO_REPLY
| MT_HEURISTICS_CHANGE
| MT_HEURISTICS_CHANGE_REPLY
| MT_OTHER (v : Z).
#[export] Instance MsgType_eq_dec : EqDecision MsgType.
Proof. solve_decision. Defined.

(** The wire value, [uint16_t(x)]. *)
Definition MsgType_to_Z (x : MsgType) : Z :=
  match x with
  | MT_PREINIT => 0
  | MT_PREINIT_REPLY => 1
  | MT_STARTTLS => 2
  | MT_INIT => 3
  | MT_INIT_REPLY => 4
  | MT_SERVER_ERROR => 5
  | MT_SET_OPTION => 6
  | MT_SET_OPTION_REPLY => 7
  | MT_ECHO_REQUEST => 8
  | MT_ECHO_REPLY => 9
  | MT_NODE_LIST => 10
  | MT_NODE_LIST_REPLY => 11
  | MT_ASK_FOR_VOTE => 12
  | MT_ASK_FOR_VOTE_REPLY => 13
  | MT_VOTE_INFO => 14
  | MT_VOTE_INFO_REPLY => 15
  | MT_HEURISTICS_CHANGE => 16
  | MT_HEURISTICS_CHANGE_REPLY => 17
  | MT_OTHER v => v
  end.

(** The conversion [MsgType(v)] of a wire value. *)
Definition MsgType_of_Z (v : Z) : MsgType :=
  match v with
  | 0 => MT_PREINIT
  | 1 => MT_PREINIT_REPLY
  | 2 => MT_STARTTLS
  | 3 => MT_INIT
  | 4 => MT_INIT_REPLY
  | 5 => MT_SERVER_ERROR
  | 6 => MT_SET_OPTION
  | 7 => MT_SET_OPTION_REPLY
  | 8 => MT_ECHO_REQUEST
  | 9 => MT_ECHO_REPLY
  | 10 => MT_NODE_LIST
  | 11 => MT_NODE_LIST_REPLY
  | 12 => MT_ASK_FOR_VOTE
  | 13 => MT_ASK_FOR_VOTE_REPLY
  | 14 => MT_VOTE_INFO
  | 15 => MT_VOTE_INFO_REPLY
  | 16 => MT_HEURISTICS_CHANGE
  | 17 => MT_HEURISTICS_CHANGE_REPLY
  | _ => MT_OTHER v
  end.

Lemma MsgType_to_of_Z v : MsgType_to_Z (MsgType_of_Z v) = v.
Proof. unfold MsgType_of_Z. repeat case_match; reflexivity. Qed.

Inductive TlvOpt : Set :=
| OPT_MSG_SEQ_NUMBER
| OPT_CLUSTER_NAME
| OPT_TLS_SUPPORTED
| OPT_TLS_CLIENT_CERT_REQUIRED
| OPT_SUPPORTED_MESSAGES
| OPT_SUPPORTED_OPTIONS
| OPT_REPLY_ERROR_CODE
| OPT_SERVER_MAXIMUM_REQUEST_SIZE
| OPT_SERVER_MAXIMUM_REPLY_SIZE
| OPT_NODE_ID
| OPT_SUPPORTED_DECISION_ALGORITHMS
| OPT_DECISION_ALGORITHM
| OPT_HEARTBEAT_INTERVAL
| OPT_RING_ID
| OPT_CONFIG_VERSION
| OPT_DATA_CENTER_ID
| OPT_NODE_STATE
| OPT_NODE_INFO
| OPT_NODE_LIST_TYPE
| OPT_VOTE
| OPT_QUORATE
| OPT_TIE_BREAKER
| OPT_HEURISTICS
| OPT_KEEP_ACTIVE_PARTITION_TIE_BREAKER
| OPT_OTHER (v : Z).
#[export] Instance TlvOpt_eq_dec : EqDecision TlvOpt.
Proof. solve_decision. Defined.

(** The wire value, [uint16_t(x)]. *)
Definition TlvOpt_to_Z (x : TlvOpt) : Z :=
  match x with
  | OPT_MSG_SEQ_NUMBER => 0
  | OPT_CLUSTER_NAME => 1
  | OPT_TLS_SUPPORTED => 2
  | OPT_TLS_CLIENT_CERT_REQUIRED => 3
  | OPT_SUPPORTED_MESSAGES => 4
  | OPT_SUPPORTED_OPTIONS => 5
  | OPT_REPLY_ERROR_CODE => 6
  | OPT_SERVER_MAXIMUM_REQUEST_SIZE => 7
  | OPT_SERVER_MAXIMUM_REPLY_SIZE => 8
  | OPT_NODE_ID => 9
  | OPT_SUPPORTED_DECISION_ALGORITHMS => 10
  | OPT_DECISION_ALGORITHM => 11
  | OPT_HEARTBEAT_INTERVAL => 12
  | OPT_RING_ID => 13
  | OPT_CONFIG_VERSION => 14
  | OPT_DATA_CENTER_ID => 15
  | OPT_NODE_STATE => 16
  | OPT_NODE_INFO => 17
  | OPT_NODE_LIST_TYPE => 18
  | OPT_VOTE => 19
  | OPT_QUORATE => 20
  | OPT_TIE_BREAKER => 21
  | OPT_HEURISTICS => 22
  | OPT_KEEP_ACTIVE_PARTITION_TIE_BREAKER => 23
  | OPT_OTHER v => v
  end.

(** The conversion [TlvOpt(v)] of a wire value. *)
Definition TlvOpt_of_Z (v : Z) : TlvOpt :=
  match v with
  | 0 => OPT_MSG_SEQ_NUMBER
  | 1 => OPT_CLUSTER_NAME
  | 2 => OPT_TLS_SUPPORTED
  | 3 => OPT_TLS_CLIENT_CERT_REQUIRED
  | 4 => OPT_SUPPORTED_MESSAGES
  | 5 => OPT_SUPPORTED_OPTIONS
  | 6 => OPT_REPLY_ERROR_CODE
  | 7 => OPT_SERVER_MAXIMUM_REQUEST_SIZE
  | 8 => OPT_SERVER_MAXIMUM_REPLY_SIZE
  | 9 => OPT_NODE_ID
  | 10 => OPT_SUPPORTED_DECISION_ALGORITHMS
  | 11 => OPT_DECISION_ALGORITHM
  | 12 => OPT_HEARTBEAT_INTERVAL
  | 13 => OPT_RING_ID
  | 14 => OPT_CONFIG_VERSION
  | 15 => OPT_DATA_CENTER_ID
  | 16 => OPT_NODE_STATE
  | 17 => OPT_NODE_INFO
  | 18 => OPT_NODE_LIST_TYPE
  | 19 => OPT_VOTE
  | 20 => OPT_QUORATE
  | 21 => OPT_TIE_BREAKER
  | 22 => OPT_HEURISTICS
  | 23 => OPT_KEEP_ACTIVE_PARTITION_TIE_BREAKER
  | _ => OPT_OTHER v
  end.

Lemma TlvOpt_to_of_Z v : TlvOpt_to_Z (TlvOpt_of_Z v) = v.
Proof. unfold TlvOpt_of_Z. repeat case_match; reflexivity. Qed.

Inductive TlsSupported : Set :=
| TLS_UNSUPPORTED
| TLS_SUPPORTED
| TLS_REQUIRED.
#[export] Instance TlsSupported_eq_dec : EqDecision TlsSupported.
Proof. solve_decision. Defined.

(** The wire value, [uint8_t(x)]. *)
Definition TlsSupported_to_Z (x : TlsSupported) : Z :=
  match x with
  | TLS_UNSUPPORTED => 0
  | TLS_SUPPORTED => 1
  | TLS_REQUIRED => 2
  end.

(** The conversion [TlsSupported(v)]; [None] when [v] is not the value of an enumerator. *)
Definition TlsSupported_of_Z (v : Z) : option TlsSupported :=
  match v with
  | 0 => Some TLS_UNSUPPORTED
  | 1 => Some TLS_SUPPORTED
  | 2 => Some TLS_REQUIRED
  | _ => None
  end.

Lemma TlsSupported_of_to_Z x : TlsSupported_of_Z (TlsSupported_to_Z x) = Some x.
Proof. by destruct x. Qed.

Lemma TlsSupported_of_Z_Some v : 0 <= v <= 2 -> ∃ x, TlsSupported_of_Z v = Some x ∧ TlsSupported_to_Z x = v.
Proof. intros H. unfold TlsSupported_of_Z. repeat case_match; eauto; lia. Qed.

Inductive ReplyErrorCode : Set :=
| ERR_NO_ERROR
| ERR_UNSUPPORTED_NEEDED_MESSAGE
| ERR_UNSUPPORTED_NEEDED_OPTION
| ERR_TLS_REQUIRED
| ERR_UNSUPPORTED_MESSAGE
| ERR_MESSAGE_TOO_LONG
| ERR_PREINIT_REQUIRED
| ERR_DOESNT_CONTAIN_REQUIRED_OPTION
| ERR_UNEXPECTED_MESSAGE
| ERR_ERROR_DECODING_MSG
| ERR_INTERNAL_ERROR
| ERR_INIT_REQUIRED
| ERR_UNSUPPORTED_DECISION_ALGORITHM
| ERR_INVALID_HEARTBEAT_INTERVAL
| ERR_UNSUPPORTED_DECISION_ALGORITHM_MESSAGE
| ERR_TIE_BREAKER_DIFFERS_FROM_OTHER_NODES
| ERR_ALGORITHM_DIFFERS_FROM_OTHER_NODES
| ERR_DUPLICATE_NODE_ID
| ERR_INVALID_CONFIG_NODE_LIST
| ERR_INVALID_MEMBERSHIP_NODE_LIST.
#[export] Instance ReplyErrorCode_eq_dec : EqDecision ReplyErrorCode.
Proof. solve_decision. Defined.

(** The wire value, [uint16_t(x)]. *)
Definition ReplyErrorCode_to_Z (x : ReplyErrorCode) : Z :=
  match x with
  | ERR_NO_ERROR => 0
  | ERR_UNSUPPORTED_NEEDED_MESSAGE => 1
  | ERR_UNSUPPORTED_NEEDED_OPTION => 2
  | ERR_TLS_REQUIRED => 3
  | ERR_UNSUPPORTED_MESSAGE => 4
  | ERR_MESSAGE_TOO_LONG => 5
  | ERR_PREINIT_REQUIRED => 6
  | ERR_DOESNT_CONTAIN_REQUIRED_OPTION => 7
  | ERR_UNEXPECTED_MESSAGE => 8
  | ERR_ERROR_DECODING_MSG => 9
  | ERR_INTERNAL_ERROR => 10
  | ERR_INIT_REQUIRED => 11
  | ERR_UNSUPPORTED_DECISION_ALGORITHM => 12
  | ERR_INVALID_HEARTBEAT_INTERVAL => 13
  | ERR_UNSUPPORTED_DECISION_ALGORITHM_MESSAGE => 14
  | ERR_TIE_BREAKER_DIFFERS_FROM_OTHER_NODES => 15
  | ERR_ALGORITHM_DIFFERS_FROM_OTHER_NODES => 16
  | ERR_DUPLICATE_NODE_ID => 17
  | ERR_INVALID_CONFIG_NODE_LIST => 18
  | ERR_INVALID_MEMBERSHIP_NODE_LIST => 19
  end.

Inductive Algorithm : Set :=
| ALG_TEST
| ALG_FFSPLIT
| ALG_TWONODELMS
| ALG_LMS
| ALG_OTHER (v : Z).
#[export] Instance Algorithm_eq_dec : EqDecision Algorithm.
Proof. solve_decision. Defined.

(** The wire value, [uint16_t(x)]. *)
Definition Algorithm_to_Z (x : Algorithm) : Z :=
  match x with
  | ALG_TEST => 0
  | ALG_FFSPLIT => 1
  | ALG_TWONODELMS => 2
  | ALG_LMS => 3
  | ALG_OTHER v => v
  end.

(** The conversion [Algorithm(v)] of a wire value. *)
Definition Algorithm_of_Z (v : Z) : Algorithm :=
  match v with
  | 0 => ALG_TEST
  | 1 => ALG_FFSPLIT
  | 2 => ALG_TWONODELMS
  | 3 => ALG_LMS
  | _ => ALG_OTHER v
  end.

Lemma Algorithm_to_of_Z v : Algorithm_to_Z (Algorithm_of_Z v) = v.
Proof. unfold Algorithm_of_Z. repeat case_match; reflexivity. Qed.

Inductive NodeState : Set :=
| NS_NOT_SET
| NS_MEMBER
| NS_DEAD
| NS_LEAVING
| NS_OTHER (v : Z).
#[export] Instance NodeState_eq_dec : EqDecision NodeState.
Proof. solve_decision. Defined.

(** The wire value, [uint8_t(x)]. *)
Definition NodeState_to_Z (x : NodeState) : Z :=
  match x with
  | NS_NOT_SET => 0
  | NS_MEMBER => 1
  | NS_DEAD => 2
  | NS_LEAVING => 3
  | NS_OTHER v => v
  end.

(** The conversion [NodeState(v)] of a wire value. *)
Definition NodeState_of_Z (v : Z) : NodeState :=
  match v with
  | 0 => NS_NOT_SET
  | 1 => NS_MEMBER
  | 2 => NS_DEAD
  | 3 => NS_LEAVING
  | _ => NS_OTHER v
  end.

Lemma NodeState_to_of_Z v : NodeState_to_Z (NodeState_of_Z v) = v.
Proof. unfold NodeState_of_Z. repeat case_match; reflexivity. Qed.

Inductive NodeListType : Set :=
| NLT_INITIAL_CONFIG
| NLT_CHANGED_CONFIG
| NLT_MEMBERSHIP
| NLT_QUORUM.
#[export] Instance NodeListType_eq_dec : EqDecision NodeListType.
Proof. solve_decision. Defined.

(** The wire value, [uint8_t(x)]. *)
Definition NodeListType_to_Z (x : NodeListType) : Z :=
  match x with
  | NLT_INITIAL_CONFIG => 0
  | NLT_CHANGED_CONFIG => 1
  | NLT_MEMBERSHIP => 2
  | NLT_QUORUM => 3
  end.

(** The conversion [NodeListType(v)]; [None] when [v] is not the value of an enumerator. *)
Definition NodeListType_of_Z (v : Z) : option NodeListType :=
  match v with
  | 0 => Some NLT_INITIAL_CONFIG
  | 1 => Some NLT_CHANGED_CONFIG
  | 2 => Some NLT_MEMBERSHIP
  | 3 => Some NLT_QUORUM
  | _ => None
  end.

Lemma NodeListType_of_to_Z x : NodeListType_of_Z (NodeListType_to_Z x) = Some x.
Proof. by destruct x. Qed.

Lemma NodeListType_of_Z_Some v : 0 <= v <= 3 -> ∃ x, NodeListType_of_Z v = Some x ∧ NodeListType_to_Z x = v.
Proof. intros H. unfold NodeListType_of_Z. repeat case_match; eauto; lia. Qed.

Inductive Vote : Set :=
| VOTE_UNDEFINED
| VOTE_ACK
| VOTE_NACK
| VOTE_ASK_LATER
| VOTE_WAIT_FOR_REPLY
| VOTE_NO_CHANGE.
#[export] Instance Vote_eq_dec : EqDecision Vote.
Proof. solve_decision. Defined.

(** The wire value, [uint8_t(x)]. *)
Definition Vote_to_Z (x : Vote) : Z :=
  match x with
  | VOTE_UNDEFINED => 0
  | VOTE_ACK => 1
  | VOTE_NACK => 2
  | VOTE_ASK_LATER => 3
  | VOTE_WAIT_FOR_REPLY => 4
  | VOTE_NO_CHANGE => 5
  end.

(** The conversion [Vote(v)]; [None] when [v] is not the value of an enumerator. *)
Definition Vote_of_Z (v : Z) : option Vote :=
  match v with
  | 0 => Some VOTE_UNDEFINED
  | 1 => Some VOTE_ACK
  | 2 => Some VOTE_NACK
  | 3 => Some VOTE_ASK_LATER
  | 4 => Some VOTE_WAIT_FOR_REPLY
  | 5 => Some VOTE_NO_CHANGE
  | _ => None
  end.

Lemma Vote_of_to_Z x : Vote_of_Z (Vote_to_Z x) = Some x.
Proof. by destruct x. Qed.

Lemma Vote_of_Z_Some v : 0 <= v <= 5 -> ∃ x, Vote_of_Z v = Some x ∧ Vote_to_Z x = v.
Proof. intros H. unfold Vote_of_Z. repeat case_match; eauto; lia. Qed.

Inductive Heuristics : Set :=
| HEUR_UNDEFINED
| HEUR_PASS
| HEUR_FAIL.
#[export] Instance Heuristics_eq_dec : EqDecision Heuristics.
Proof. solve_decision. Defined.

(** The wire value, [uint8_t(x)]. *)
Definition Heuristics_to_Z (x : Heuristics) : Z :=
  match x with
  | HEUR_UNDEFINED => 0
  | HEUR_PASS => 1
  | HEUR_FAIL => 2
  end.

(** The conversion [Heuristics(v)]; [None] when [v] is not the value of an enumerator. *)
Definition Heuristics_of_Z (v : Z) : option Heuristics :=
  match v with
  | 0 => Some HEUR_UNDEFINED
  | 1 => Some HEUR_PASS
  | 2 => Some HEUR_FAIL
  | _ => None
  end.

Lemma Heuristics_of_to_Z x : Heuristics_of_Z (Heuristics_to_Z x) = Some x.
Proof. by destruct x. Qed.

Lemma Heuristics_of_Z_Some v : 0 <= v <= 2 -> ∃ x, Heuristics_of_Z v = Some x ∧ Heuristics_to_Z x = v.
Proof. intros H. unfold Heuristics_of_Z. repeat case_match; eauto; lia. Qed.

Inductive TieBreakerMode : Set :=
| TBM_LOWEST
| TBM_HIGHEST
| TBM_NODE_ID.
#[export] Instance TieBreakerMode_eq_dec : EqDecision TieBreakerMode.
Proof. solve_decision. Defined.

(** The wire value, [uint8_t(x)]. *)
Definition TieBreakerMode_to_Z (x : TieBreakerMode) : Z :=
  match x with
  | TBM_LOWEST => 1
  | TBM_HIGHEST => 2
  | TBM_NODE_ID => 3
  end.

(** The conversion [TieBreakerMode(v)]; [None] when [v] is not the value of an enumerator. *)
Definition TieBreakerMode_of_Z (v : Z) : option TieBreakerMode :=
  match v with
  | 1 => Some TBM_LOWEST
  | 2 => Some TBM_HIGHEST
  | 3 => Some TBM_NODE_ID
  | _ => None
  end.

Lemma TieBreakerMode_of_to_Z x : TieBreakerMode_of_Z (TieBreakerMode_to_Z x) = Some x.
Proof. by destruct x. Qed.

Lemma TieBreakerMode_of_Z_Some v : 1 <= v <= 3 -> ∃ x, TieBreakerMode_of_Z v = Some x ∧ TieBreakerMode_to_Z x = v.
Proof. intros H. unfold TieBreakerMode_of_Z. repeat case_match; eauto; lia. Qed.

(** ** Structures *)

(** [struct RingId] with its default member initialisers. *)
Record RingId : Set := mkRingId { ri_node_id : Z; ri_seq : Z }.
Definition RingId0 : RingId := mkRingId 0 0.
#[export] Instance RingId_eq_dec : EqDecision RingId.
Proof. solve_decision. Defined.

(** [RingId::operator==]; [operator!=] is its negation. *)
Definition RingId_eqb (a b : RingId) : bool :=
  (ri_node_id a =? ri_node_id b) && (ri_seq a =? ri_seq b).

Lemma RingId_eqb_eq a b : RingId_eqb a b = true ↔ a = b.
Proof.
  destruct a, b. unfold RingId_eqb. simpl.
  rewrite andb_true_iff, !Z.eqb_eq. naive_solver.
Qed.

(** [struct TieBreaker]; [node_id] is only meaningful for mode [NODE_ID]. *)
Record TieBreaker : Set := mkTieBreaker { tb_mode : TieBreakerMode; tb_node_id : Z }.
Definition TieBreaker0 : TieBreaker := mkTieBreaker TBM_LOWEST 0.
#[export] Instance TieBreaker_eq_dec : EqDecision TieBreaker.
Proof. solve_decision. Defined.

(** [TieBreaker::operator==] ignores the node id unless the mode is [NODE_ID]. *)
Definition TieBreaker_eqb (a o : TieBreaker) : bool :=
  if bool_decide (tb_mode a = tb_mode o) then
    negb (bool_decide (tb_mode a = TBM_NODE_ID)) || (tb_node_id a =? tb_node_id o)
  else false.

(** [struct NodeInfo]; a data centre of 0 means "not set". *)
Record NodeInfo : Set := mkNodeInfo {
  ni_node_id : Z;
  ni_data_center_id : Z;
  ni_state : NodeState;
}.
Definition NodeInfo0 : NodeInfo := mkNodeInfo 0 0 NS_NOT_SET.
#[export] Instance NodeInfo_eq_dec : EqDecision NodeInfo.
Proof. solve_decision. Defined.
#[export] Instance NodeInfo_eta : EtaExpand NodeInfo :=
  λ r, mkNodeInfo (ni_node_id r) (ni_data_center_id r) (ni_state r).
#[export] Instance set_ni_node_id : Setter ni_node_id := ltac:(derive_setter).
#[export] Instance set_ni_data_center_id : Setter ni_data_center_id := ltac:(derive_setter).
#[export] Instance set_ni_state : Setter ni_state := ltac:(derive_setter).

(** [struct NodeList]: the vector [nodes]; [empty], [size] and [clear] are the
    list's own. *)
Abbreviation NodeList := (list NodeInfo).

(** [NodeList::find]: the first entry with the id, [None] for [nullptr]. *)
Fixpoint nl_find (l : NodeList) (id : Z) : option NodeInfo :=
  match l with
  | [] => None
  | n :: l => if ni_node_id n =? id then Some n else nl_find l id
  end.

(** [l.find(id) != nullptr]. *)
Definition nl_mem (l : NodeList) (id : Z) : bool := bool_decide (is_Some (nl_find l id)).

(** [l.empty()]. *)
Definition nl_empty (l : NodeList) : bool := match l with [] => true | _ => false end.

Definition nl_ids (l : NodeList) : list Z := ni_node_id <$> l.

Lemma nl_find_Some l id n : nl_find l id = Some n → n ∈ l ∧ ni_node_id n = id.
Proof.
  induction l as [|x l IH]; simpl; [done|].
  destruct (Z.eqb_spec (ni_node_id x) id); intros; simplify_eq; set_solver.
Qed.

Lemma nl_find_is_Some l id : is_Some (nl_find l id) ↔ id ∈ nl_ids l.
Proof.
  induction l as [|x l IH]; simpl.
  - split; [intros [? ?]; done | set_solver].
  - destruct (Z.eqb_spec (ni_node_id x) id) as [<-|]; simpl.
    + split; [set_solver | eauto].
    + rewrite IH. unfold nl_ids. simpl. rewrite elem_of_cons. naive_solver.
Qed.

Lemma nl_mem_true l id : nl_mem l id = true ↔ id ∈ nl_ids l.
Proof. unfold nl_mem. rewrite bool_decide_eq_true. apply nl_find_is_Some. Qed.

Lemma nl_mem_false l id : nl_mem l id = false ↔ id ∉ nl_ids l.
Proof. rewrite <-nl_mem_true. by destruct (nl_mem l id). Qed.
