(* ===== verification/Tlv.v ===== *)
(** * TLV encoding (tlv.h, lines 148-275)

    The big-endian helpers, [TlvWriter] (which appends options to a byte
    buffer) and [TlvIterator] (a cursor over a raw payload), with a reference
    grammar of option sequences: [tlv_bytes] prints a list of options,
    [tlv_split] parses one.  The cursor loop of the code is shown equal to a
    fold over the parsed options ([tlv_loop_split]); reads outside the payload
    and running out of fuel are [Fault]. *)
From S2P Require Import Prelude Wire.

(** ** Big-endian helpers *)

Definition be_put16 (b : bytes) (v : Z) : bytes :=
  b ++ [u8 (Z.shiftr v 8); u8 v].
Definition be_put32 (b : bytes) (v : Z) : bytes :=
  b ++ [u8 (Z.shiftr v 24); u8 (Z.shiftr v 16); u8 (Z.shiftr v 8); u8 v].
Definition be_put64 (b : bytes) (v : Z) : bytes :=
  be_put32 (be_put32 b (u32 (Z.shiftr v 32))) (u32 v).

(** [p[i]]: a read through a pointer; [p] is the readable rest of the buffer. *)
Definition rd (p : bytes) (i : nat) : outcome Z :=
  match p !! i with Some b => Ok b | None => Fault end.

Definition be_get16 (p : bytes) : outcome Z :=
  p0 ← rd p 0; p1 ← rd p 1;
  Ok (u16 (Z.lor (Z.shiftl p0 8) p1)).
Definition be_get32 (p : bytes) : outcome Z :=
  p0 ← rd p 0; p1 ← rd p 1; p2 ← rd p 2; p3 ← rd p 3;
  Ok (u32 (Z.lor (Z.lor (Z.lor (Z.shiftl p0 24) (Z.shiftl p1 16)) (Z.shiftl p2 8)) p3)).
Definition be_get64 (p : bytes) : outcome Z :=
  hi ← be_get32 p; lo ← be_get32 (drop 4 p);
  Ok (u64 (Z.lor (Z.shiftl hi 32) lo)).

(** ** [TlvWriter]

    The writer holds a reference to the buffer; every operation returns the
    buffer after the call. *)
Module TlvWriter.

(** [add(opt, data, len)]: [data] is the pointed-to memory, [len] a [uint16_t]. *)
Definition add (buf : bytes) (opt : TlvOpt) (data : bytes) (len : Z) : bytes :=
  be_put16 (be_put16 buf (TlvOpt_to_Z opt)) len ++ take (Z.to_nat len) data.
Definition add_u8 (buf : bytes) (opt : TlvOpt) (v : Z) : bytes := add buf opt [v] 1.
Definition add_u16 (buf : bytes) (opt : TlvOpt) (v : Z) : bytes :=
  add buf opt [u8 (Z.shiftr v 8); u8 v] 2.
Definition add_u32 (buf : bytes) (opt : TlvOpt) (v : Z) : bytes :=
  add buf opt [u8 (Z.shiftr v 24); u8 (Z.shiftr v 16); u8 (Z.shiftr v 8); u8 v] 4.
(** The loop [t[i] = uint8_t(v >> (56 - 8 * i))] for [i] from 0 to 7. *)
Definition u64_bytes (v : Z) : bytes :=
  (λ i : nat, u8 (Z.shiftr v (56 - 8 * Z.of_nat i))) <$> seq 0 8.
Definition add_u64 (buf : bytes) (opt : TlvOpt) (v : Z) : bytes :=
  add buf opt (u64_bytes v) 8.
Definition add_string (buf : bytes) (opt : TlvOpt) (s : bytes) (len : Z) : bytes :=
  add buf opt s (u16 len).
Definition add_u16_array (buf : bytes) (opt : TlvOpt) (arr : list Z) : bytes :=
  foldl be_put16
    (be_put16 (be_put16 buf (TlvOpt_to_Z opt)) (u16 (Z.of_nat (length arr) * 2))) arr.
Definition add_ring_id (buf : bytes) (r : RingId) : bytes :=
  add buf OPT_RING_ID
    ([u8 (Z.shiftr (ri_node_id r) 24); u8 (Z.shiftr (ri_node_id r) 16);
      u8 (Z.shiftr (ri_node_id r) 8); u8 (ri_node_id r)] ++ u64_bytes (ri_seq r)) 12.
Definition add_tie_breaker (buf : bytes) (tb : TieBreaker) : bytes :=
  let id := if bool_decide (tb_mode tb = TBM_NODE_ID) then tb_node_id tb else 0 in
  add buf OPT_TIE_BREAKER
    [u8 (TieBreakerMode_to_Z (tb_mode tb));
     u8 (Z.shiftr id 24); u8 (Z.shiftr id 16); u8 (Z.shiftr id 8); u8 id] 5.
(** Node info is a nested TLV blob. *)
Definition add_node_info (buf : bytes) (ni : NodeInfo) : bytes :=
  let sub := add_u32 [] OPT_NODE_ID (ni_node_id ni) in
  let sub := if negb (ni_data_center_id ni =? 0)
             then add_u32 sub OPT_DATA_CENTER_ID (ni_data_center_id ni) else sub in
  let sub := if negb (bool_decide (ni_state ni = NS_NOT_SET))
             then add_u8 sub OPT_NODE_STATE (u8 (NodeState_to_Z (ni_state ni))) else sub in
  add buf OPT_NODE_INFO sub (u16 (Z.of_nat (length sub))).

End TlvWriter.

(** ** [TlvIterator] *)
Module TlvIterator.

Record t : Set := mk {
  p_ : bytes;
  len_ : nat;
  pos_ : nat;
  cur_type_ : Z;
  cur_len_ : Z;
  first_ : bool;
}.

(** The constructor [TlvIterator(payload, len)]. *)
Definition make (payload : bytes) (len : nat) : t := mk payload len 0 0 0 true.

(** [next()]: 1 = positioned, 0 = clean end, -1 = malformed. *)
Definition next (it : t) : outcome (t * Z) :=
  let next_pos := (if first_ it then 0 else pos_ it + 4 + Z.to_nat (cur_len_ it))%nat in
  let it := mk (p_ it) (len_ it) (pos_ it) (cur_type_ it) (cur_len_ it) false in
  if (next_pos =? len_ it)%nat then Ok (it, 0)
  else if (len_ it <? next_pos + 4)%nat then Ok (it, -1)
  else
    ty ← be_get16 (drop next_pos (p_ it));
    ln ← be_get16 (drop (next_pos + 2) (p_ it));
    let it := mk (p_ it) (len_ it) next_pos ty ln false in
    if (len_ it <? next_pos + 4 + Z.to_nat ln)%nat then Ok (it, -1)
    else Ok (it, 1).

(** [type()] and [length()] are [cur_type_] and [cur_len_]; [data()] is the
    pointer [p_ + pos_ + 4]. *)
Definition data (it : t) : bytes := drop (pos_ it + 4) (p_ it).

(** The loop [while ((r = it.next()) > 0) body] of the decoders, followed by
    their final test [r == 0]. *)
Fixpoint tlv_loop {A} (fuel : nat) (body : Z → Z → bytes → A → outcome A) (it : t) (acc : A)
    : outcome A :=
  match fuel with
  | O => Fault
  | S fuel =>
      '(it, r) ← next it;
      if 0 <? r then
        acc ← body (cur_type_ it) (cur_len_ it) (data it) acc;
        tlv_loop fuel body it acc
      else if r =? 0 then Ok acc else Reject
  end.

End TlvIterator.

(** ** Reference grammar *)

Definition be16 (hi lo : Z) : Z := u16 (Z.lor (Z.shiftl hi 8) lo).

(** One option: type, length, value. *)
Definition tlv_enc (o : Z * bytes) : bytes :=
  [u8 (Z.shiftr o.1 8); u8 o.1;
   u8 (Z.shiftr (Z.of_nat (length o.2)) 8); u8 (Z.of_nat (length o.2))] ++ o.2.
Definition tlv_bytes (os : list (Z * bytes)) : bytes := concat (tlv_enc <$> os).
Definition tlv_ok (o : Z * bytes) : Prop :=
  is_u16 o.1 ∧ Z.of_nat (length o.2) < 2 ^ 16 ∧ is_bytes o.2.

Fixpoint tlv_split_fuel (fuel : nat) (p : bytes) : option (list (Z * bytes)) :=
  match fuel with
  | O => None
  | S fuel =>
      match p with
      | [] => Some []
      | t1 :: t0 :: l1 :: l0 :: rest =>
          let l := Z.to_nat (be16 l1 l0) in
          if (length rest <? l)%nat then None
          else os ← tlv_split_fuel fuel (drop l rest); Some ((be16 t1 t0, take l rest) :: os)
      | _ => None
      end
  end.
(** A payload as its sequence of options, [None] when it is malformed. *)
Definition tlv_split (p : bytes) : option (list (Z * bytes)) := tlv_split_fuel (S (length p)) p.

(** The decoder loop on a parsed payload. *)
Fixpoint tlv_fold {A} (body : Z → Z → bytes → A → outcome A) (os : list (Z * bytes)) (acc : A)
    : outcome A :=
  match os with
  | [] => Ok acc
  | (ty, v) :: os => acc ← body ty (Z.of_nat (length v)) v acc; tlv_fold body os acc
  end.

(** ** Byte arithmetic *)

Lemma lor_shiftl_add a b n : 0 <= n → 0 <= b < 2 ^ n → Z.lor (Z.shiftl a n) b = a * 2 ^ n + b.
Proof.
  intros Hn Hb. rewrite <-Z.shiftl_mul_pow2 by done.
  assert (Z.land (Z.shiftl a n) b = 0) as Hd.
  { apply Z.bits_inj'. intros i Hi. rewrite Z.land_spec, Z.bits_0.
    destruct (decide (i < n)).
    - by rewrite Z.shiftl_spec_low.
    - rewrite <-(Z.mod_small b (2 ^ n)) by done.
      rewrite Z.mod_pow2_bits_high by lia. apply andb_false_r. }
  rewrite <-Z.lxor_lor, Z.add_nocarry_lxor; done.
Qed.

Lemma be16_enc v : is_u16 v → be16 (u8 (Z.shiftr v 8)) (u8 v) = v.
Proof.
  intros Hv. unfold be16. pose proof (u8_range v). unfold is_u8 in *.
  rewrite lor_shiftl_add by lia. rewrite Z.shiftr_div_pow2 by lia.
  unfold u16, u8, is_u16 in *. Z.div_mod_to_equations. lia.
Qed.

Lemma be16_range a b : is_u16 (be16 a b).
Proof. apply u16_range. Qed.

Lemma be16_bytes a b : is_u8 a → is_u8 b →
  u8 (Z.shiftr (be16 a b) 8) = a ∧ u8 (be16 a b) = b.
Proof.
  intros Ha Hb. unfold be16, is_u8 in *. rewrite lor_shiftl_add by lia.
  rewrite Z.shiftr_div_pow2 by lia. unfold u16, u8.
  split; Z.div_mod_to_equations; lia.
Qed.

Lemma lor_bytes (a b c d : Z) : 0 <= a < 2 ^ 8 → 0 <= b < 2 ^ 8 → 0 <= c < 2 ^ 8 → 0 <= d < 2 ^ 8 →
  Z.lor (Z.lor (Z.lor (Z.shiftl a 24) (Z.shiftl b 16)) (Z.shiftl c 8)) d = a * 2 ^ 24 + b * 2 ^ 16 + c * 2 ^ 8 + d.
Proof.
  intros. replace (Z.shiftl a 24) with (Z.shiftl (Z.shiftl a 8) 16) by (by rewrite Z.shiftl_shiftl by lia).
  rewrite <-Z.shiftl_lor. rewrite (lor_shiftl_add a b 8) by lia.
  replace (Z.shiftl (a * 2 ^ 8 + b) 16) with (Z.shiftl (Z.shiftl (a * 2 ^ 8 + b) 8) 8)
    by (by rewrite Z.shiftl_shiftl by lia).
  rewrite <-Z.shiftl_lor, (lor_shiftl_add _ c 8), (lor_shiftl_add _ d 8) by lia. lia.
Qed.

Definition u32_bytes (v : Z) : bytes :=
  [u8 (Z.shiftr v 24); u8 (Z.shiftr v 16); u8 (Z.shiftr v 8); u8 v].

Lemma be_get32_bytes v rest : is_u32 v → be_get32 (u32_bytes v ++ rest) = Ok v.
Proof.
  intros Hv. unfold be_get32, rd. simpl. f_equal.
  pose proof (u8_range v). pose proof (u8_range (Z.shiftr v 8)).
  pose proof (u8_range (Z.shiftr v 16)). pose proof (u8_range (Z.shiftr v 24)).
  unfold is_u8 in *.
  rewrite lor_bytes by done. rewrite !Z.shiftr_div_pow2 by lia.
  unfold u32, u8, is_u32 in *. clear -Hv. Z.div_mod_to_equations. lia.
Qed.

Lemma be_get16_cons a b rest : be_get16 (a :: b :: rest) = Ok (be16 a b).
Proof. reflexivity. Qed.

Lemma u64_bytes_split v : is_u64 v →
  TlvWriter.u64_bytes v = u32_bytes (v / 2 ^ 32) ++ u32_bytes (v mod 2 ^ 32).
Proof.
  intros Hv. unfold TlvWriter.u64_bytes, u32_bytes. simpl.
  rewrite !Z.shiftr_div_pow2 by lia. unfold u8, is_u64 in *.
  repeat (apply f_equal2; [Z.div_mod_to_equations; lia|]). done.
Qed.

Lemma be_get64_bytes v rest : is_u64 v → be_get64 (TlvWriter.u64_bytes v ++ rest) = Ok v.
Proof.
  intros Hv. rewrite u64_bytes_split by done. unfold be_get64. rewrite <-app_assoc.
  assert (is_u32 (v / 2 ^ 32) ∧ is_u32 (v mod 2 ^ 32)) as [H1 H2].
  { unfold is_u32, is_u64 in *. split; Z.div_mod_to_equations; lia. }
  rewrite be_get32_bytes by done. rewrite outcome_bind_ok.
  change (drop 4 (u32_bytes (v / 2 ^ 32) ++ ?l)) with l.
  rewrite be_get32_bytes by done. rewrite outcome_bind_ok. f_equal.
  unfold is_u32 in *. rewrite lor_shiftl_add by lia.
  rewrite u64_id; unfold is_u64 in *; Z.div_mod_to_equations; lia.
Qed.

Lemma u32_bytes_ok v : is_bytes (u32_bytes v).
Proof. unfold u32_bytes. repeat constructor; apply u8_range. Qed.
Lemma u64_bytes_ok v : is_bytes (TlvWriter.u64_bytes v).
Proof. unfold TlvWriter.u64_bytes. apply Forall_fmap, Forall_forall. intros. apply u8_range. Qed.
#[export] Hint Resolve u32_bytes_ok u64_bytes_ok be16_range : qnetd.

(** ** The grammar: printing and parsing are inverse *)

Lemma tlv_enc_length o : length (tlv_enc o) = (4 + length o.2)%nat.
Proof. done. Qed.

Lemma tlv_bytes_cons ty v os :
  tlv_bytes ((ty, v) :: os) =
    u8 (Z.shiftr ty 8) :: u8 ty :: u8 (Z.shiftr (Z.of_nat (length v)) 8)
    :: u8 (Z.of_nat (length v)) :: v ++ tlv_bytes os.
Proof. done. Qed.

Lemma tlv_split_fuel_bytes os fuel :
  Forall tlv_ok os → (length (tlv_bytes os) < fuel)%nat → tlv_split_fuel fuel (tlv_bytes os) = Some os.
Proof.
  intros Hok. revert fuel. induction Hok as [|[ty v] os [Ht [Hl Hv]] Hok IH]; intros [|fuel] Hf;
    [lia|done|lia|].
  rewrite tlv_bytes_cons in *. simpl in *.
  rewrite (be16_enc ty) by done.
  rewrite be16_enc by (split; [lia|done]).
  rewrite Nat2Z.id, length_app in *.
  destruct (Nat.ltb_spec (length v + length (tlv_bytes os)) (length v)); [lia|].
  rewrite drop_app_length, take_app_length, IH by lia. done.
Qed.

Lemma tlv_split_fuel_inv fuel p os :
  is_bytes p → tlv_split_fuel fuel p = Some os → p = tlv_bytes os ∧ Forall tlv_ok os.
Proof.
  revert p os. induction fuel as [|fuel IH]; intros p os Hp H; simpl in H; [done|].
  destruct p as [|t1 [|t0 [|l1 [|l0 rest]]]]; simplify_eq; [done|].
  destruct (Nat.ltb_spec (length rest) (Z.to_nat (be16 l1 l0))) as [|Hl]; [done|].
  apply bind_Some in H as [os' [H ?]]; simplify_eq.
  repeat match goal with H : Forall _ (_ :: _) |- _ => inversion H; clear H; subst end.
  apply IH in H as [Hd Hok]; [|by apply Forall_drop].
  pose proof (be16_range l1 l0) as Hr. unfold is_u16 in Hr.
  assert (Z.of_nat (length (take (Z.to_nat (be16 l1 l0)) rest)) = be16 l1 l0) as Hlen.
  { rewrite length_take_le by done. lia. }
  split.
  - rewrite tlv_bytes_cons, Hlen.
    destruct (be16_bytes t1 t0) as [-> ->]; [done..|].
    destruct (be16_bytes l1 l0) as [-> ->]; [done..|].
    rewrite <-Hd, take_drop. done.
  - constructor; [|done]. split_and!; simpl; [apply be16_range|rewrite Hlen; lia|by apply Forall_take].
Qed.

(** Parsing inverts printing. *)
Lemma tlv_split_bytes os : Forall tlv_ok os → tlv_split (tlv_bytes os) = Some os.
Proof. intros. apply tlv_split_fuel_bytes; [done|lia]. Qed.

(** What parses is what the grammar prints. *)
Lemma tlv_split_inv p os : is_bytes p → tlv_split p = Some os → p = tlv_bytes os ∧ Forall tlv_ok os.
Proof. apply tlv_split_fuel_inv. Qed.

Lemma tlv_bytes_app os1 os2 : tlv_bytes (os1 ++ os2) = tlv_bytes os1 ++ tlv_bytes os2.
Proof. unfold tlv_bytes. by rewrite fmap_app, concat_app. Qed.

Lemma tlv_fold_app {A} (body : Z → Z → bytes → A → outcome A) os1 os2 acc :
  tlv_fold body (os1 ++ os2) acc = (acc ← tlv_fold body os1 acc; tlv_fold body os2 acc).
Proof.
  revert acc. induction os1 as [|[ty v] os1 IH]; intros acc; simpl; [done|].
  by destruct (body ty _ v acc); simpl.
Qed.

(** ** The cursor loop computes the fold over the parsed payload *)
Section loop.
Context {A : Type} (body : Z → Z → bytes → A → outcome A).
(** The body reads only the [len] bytes of the option, and all of its reads succeed. *)
Context (body_local : ∀ ty v rest acc, is_u16 ty → (Z.of_nat (length v) < 2 ^ 16) →
  body ty (Z.of_nat (length v)) (v ++ rest) acc = body ty (Z.of_nat (length v)) v acc).
Context (body_safe : ∀ ty v acc, is_u16 ty → (Z.of_nat (length v) < 2 ^ 16) →
  body ty (Z.of_nat (length v)) v acc ≠ Fault).

Definition it_next_pos (it : TlvIterator.t) : nat :=
  if TlvIterator.first_ it then 0 else TlvIterator.pos_ it + 4 + Z.to_nat (TlvIterator.cur_len_ it).

Lemma tlv_loop_split_fuel fuel it acc :
  let rest := drop (it_next_pos it) (take (TlvIterator.len_ it) (TlvIterator.p_ it)) in
  (TlvIterator.len_ it ≤ length (TlvIterator.p_ it))%nat →
  (it_next_pos it ≤ TlvIterator.len_ it)%nat →
  (length rest < fuel)%nat →
  TlvIterator.tlv_loop fuel body it acc =
    match tlv_split_fuel fuel rest with
    | Some os => tlv_fold body os acc
    | None => Reject
    end.
Proof.
  revert it acc. induction fuel as [|fuel IH]; intros it acc rest Hp Hn Hf; [lia|].
  simpl. unfold TlvIterator.next. fold (it_next_pos it).
  set (n := it_next_pos it) in *. destruct it as [p len pos cty cln fst]; simpl in *.
  assert (length rest = len - n)%nat as Hlen.
  { unfold rest. rewrite length_drop, length_take_le by done. done. }
  destruct (Nat.eqb_spec n len) as [->|Hne]; simpl.
  { destruct rest; simpl in *; [done|lia]. }
  destruct (Nat.ltb_spec len (n + 4)); simpl.
  { destruct rest as [|? [|? [|? [|]]]]; simpl in *; done || lia. }
  destruct rest as [|t1 [|t0 [|l1 [|l0 r]]]] eqn:Hr; simpl in Hlen; try lia.
  assert (drop n p = t1 :: t0 :: l1 :: l0 :: r ++ drop len p) as Hd.
  { rewrite <-(take_drop len p) at 1. rewrite drop_app_le by (rewrite length_take; lia).
    unfold rest in Hr. by rewrite Hr. }
  assert (drop (n + 2) p = l1 :: l0 :: r ++ drop len p) as Hd2.
  { rewrite <-drop_drop, Hd. done. }
  rewrite Hd, be_get16_cons, outcome_bind_ok, Hd2, be_get16_cons, outcome_bind_ok.
  simpl in *. set (l := Z.to_nat (be16 l1 l0)) in *.
  destruct (Nat.ltb_spec len (n + 4 + l)), (Nat.ltb_spec (length r) l); try lia; [done|].
  simpl.
  assert (TlvIterator.data (TlvIterator.mk p len n (be16 t1 t0) (be16 l1 l0) false)
          = take l r ++ (drop l r ++ drop len p)) as Hdata.
  { unfold TlvIterator.data. simpl. rewrite <-drop_drop, Hd. simpl.
    rewrite app_assoc. by rewrite take_drop. }
  rewrite Hdata. pose proof (be16_range l1 l0) as Hrange.
  assert (be16 l1 l0 = Z.of_nat (length (take l r))) as Hl.
  { rewrite length_take_le by done. unfold l, is_u16 in *. lia. }
  rewrite Hl at 1. rewrite body_local; [|apply be16_range|unfold is_u16 in *; lia].
  specialize (body_safe (be16 t1 t0) (take l r) acc (be16_range _ _)).
  destruct (tlv_split_fuel fuel (drop l r)) eqn:Hs; simpl;
    (destruct (body _ _ (take l r) acc) as [a| |] eqn:Hb; simpl;
     [|done|exfalso; apply body_safe; [unfold is_u16 in *; lia|done]]);
    (rewrite IH; unfold it_next_pos; simpl; fold l;
     [|lia|lia|rewrite length_drop, length_take_le by done; lia]);
    (replace (drop (n + 4 + l) (take len p)) with (drop l r);
     [by rewrite Hs|]);
    (rewrite <-Nat.add_assoc, <-drop_drop; unfold rest in Hr; rewrite Hr; done).
Qed.

Lemma tlv_loop_split payload len acc :
  (len ≤ length payload)%nat →
  TlvIterator.tlv_loop (S len) body (TlvIterator.make payload len) acc =
    match tlv_split (take len payload) with
    | Some os => tlv_fold body os acc
    | None => Reject
    end.
Proof.
  intros Hl. unfold tlv_split. rewrite length_take_le by done.
  apply tlv_loop_split_fuel; unfold it_next_pos; simpl; [done|lia|].
  rewrite drop_0, length_take_le by done. lia.
Qed.
End loop.

(** ** What the writer appends *)

Lemma add_spec buf opt data len :
  len = Z.of_nat (length data) → len < 2 ^ 16 →
  TlvWriter.add buf opt data len = buf ++ tlv_enc (TlvOpt_to_Z opt, data).
Proof.
  intros -> Hl. unfold TlvWriter.add, be_put16, tlv_enc.
  rewrite Nat2Z.id, take_ge by done. simpl. rewrite <-!app_assoc. done.
Qed.

Lemma add_u8_spec buf opt v :
  TlvWriter.add_u8 buf opt v = buf ++ tlv_enc (TlvOpt_to_Z opt, [v]).
Proof. by apply add_spec. Qed.
Lemma add_u16_spec buf opt v :
  TlvWriter.add_u16 buf opt v = buf ++ tlv_enc (TlvOpt_to_Z opt, [u8 (Z.shiftr v 8); u8 v]).
Proof. by apply add_spec. Qed.
Lemma add_u32_spec buf opt v :
  TlvWriter.add_u32 buf opt v = buf ++ tlv_enc (TlvOpt_to_Z opt, u32_bytes v).
Proof. by apply add_spec. Qed.
Lemma add_u64_spec buf opt v :
  TlvWriter.add_u64 buf opt v = buf ++ tlv_enc (TlvOpt_to_Z opt, TlvWriter.u64_bytes v).
Proof. by apply add_spec. Qed.
Lemma add_ring_id_spec buf r :
  TlvWriter.add_ring_id buf r =
    buf ++ tlv_enc (13, u32_bytes (ri_node_id r) ++ TlvWriter.u64_bytes (ri_seq r)).
Proof. by apply (add_spec _ OPT_RING_ID). Qed.
Lemma add_tie_breaker_spec buf tb :
  TlvWriter.add_tie_breaker buf tb =
    buf ++ tlv_enc (21, TieBreakerMode_to_Z (tb_mode tb) ::
      u32_bytes (if bool_decide (tb_mode tb = TBM_NODE_ID) then tb_node_id tb else 0)).
Proof.
  unfold TlvWriter.add_tie_breaker. rewrite add_spec by done. simpl.
  rewrite u8_id by (by destruct tb as [[] ?]). done.
Qed.

Definition u16s_bytes (arr : list Z) : bytes := arr ≫= λ v, [u8 (Z.shiftr v 8); u8 v].

Lemma u16s_bytes_length arr : length (u16s_bytes arr) = (length arr * 2)%nat.
Proof. induction arr; simpl in *; lia. Qed.
#[global] Arguments u16s_bytes : simpl never.

Lemma add_u16_array_spec buf opt arr :
  Z.of_nat (length arr) * 2 < 2 ^ 16 →
  TlvWriter.add_u16_array buf opt arr = buf ++ tlv_enc (TlvOpt_to_Z opt, u16s_bytes arr).
Proof.
  intros Hl. unfold TlvWriter.add_u16_array, tlv_enc. simpl.
  rewrite u16s_bytes_length, Nat2Z.inj_mul. change (Z.of_nat 2) with 2.
  rewrite u16_id by (unfold is_u16; lia).
  assert (∀ b, foldl be_put16 b arr = b ++ u16s_bytes arr) as Hf.
  { clear. induction arr as [|v arr IH]; intros b; simpl; [by rewrite app_nil_r|].
    rewrite IH. unfold be_put16, u16s_bytes. by rewrite <-app_assoc. }
  rewrite Hf. unfold be_put16. by rewrite <-!app_assoc.
Qed.

Create Rewrite HintDb tlvw.
#[export] Hint Rewrite add_u8_spec add_u16_spec add_u32_spec add_u64_spec add_ring_id_spec
  add_tie_breaker_spec : tlvw.

(** ** Reads inside an option *)

Lemma rd_app v rest i : (i < length v)%nat → rd (v ++ rest) i = rd v i.
Proof. intros. unfold rd. by rewrite lookup_app_l. Qed.
Lemma rd_ok v i : (i < length v)%nat → ∃ b, rd v i = Ok b ∧ b ∈ v.
Proof.
  intros. unfold rd. destruct (lookup_lt_is_Some_2 v i) as [b Hb]; [done|].
  rewrite Hb. exists b. split; [done|]. by eapply list_elem_of_lookup_2.
Qed.

Lemma be_get16_app v rest : (2 ≤ length v)%nat → be_get16 (v ++ rest) = be_get16 v.
Proof. intros. unfold be_get16. by rewrite !rd_app by lia. Qed.
Lemma be_get32_app v rest : (4 ≤ length v)%nat → be_get32 (v ++ rest) = be_get32 v.
Proof. intros. unfold be_get32. by rewrite !rd_app by lia. Qed.
Lemma be_get64_app v rest : (8 ≤ length v)%nat → be_get64 (v ++ rest) = be_get64 v.
Proof.
  intros. unfold be_get64. rewrite drop_app_le, !be_get32_app by (rewrite ?length_drop; lia). done.
Qed.

Lemma be_get16_ok v : (2 ≤ length v)%nat → ∃ x, be_get16 v = Ok x ∧ is_u16 x.
Proof.
  intros. unfold be_get16. destruct (rd_ok v 0) as [? [-> _]]; [lia|].
  destruct (rd_ok v 1) as [? [-> _]]; [lia|]. simpl. eauto using u16_range.
Qed.
Lemma be_get32_ok v : (4 ≤ length v)%nat → ∃ x, be_get32 v = Ok x ∧ is_u32 x.
Proof.
  intros. unfold be_get32. destruct (rd_ok v 0) as [? [-> _]]; [lia|].
  destruct (rd_ok v 1) as [? [-> _]]; [lia|]. destruct (rd_ok v 2) as [? [-> _]]; [lia|].
  destruct (rd_ok v 3) as [? [-> _]]; [lia|]. simpl. eauto using u32_range.
Qed.
Lemma be_get64_ok v : (8 ≤ length v)%nat → ∃ x, be_get64 v = Ok x ∧ is_u64 x.
Proof.
  intros. unfold be_get64. destruct (be_get32_ok v) as [? [-> _]]; [lia|].
  destruct (be_get32_ok (drop 4 v)) as [? [-> _]]; [rewrite length_drop; lia|].
  simpl. eauto using u64_range.
Qed.

#[global] Arguments be_get16 : simpl never.
#[global] Arguments be_get32 : simpl never.
#[global] Arguments be_get64 : simpl never.
