(* ===== verification/Msg.v ===== *)
(** * Frames: decoding and building (msg.h, msg.cpp)

    [MsgDecoded], the payload decoder [msg_decode] with its nested
    [decode_node_info], and the builders of the frames the server sends.  The
    decoder is shown to read only inside the payload and to be a fold over the
    options of the reference grammar; every frame that is built decodes to what
    was put into it. *)
From S2P Require Import Prelude Wire Tlv.

Definition MSG_HEADER_LEN : nat := 6.
Definition MAX_NODES_PER_LIST : nat := 16.

Definition SUPPORTED_MESSAGES : list Z :=
  [0; 1; 2; 3; 4; 5; 6; 7; 8; 9; 10; 11; 12; 13; 14; 15; 16; 17].
Definition SUPPORTED_OPTIONS : list Z :=
  [0; 1; 2; 3; 4; 5; 6; 7; 8; 9; 10; 11; 12; 13; 14; 15; 16; 17; 18; 19; 20; 21; 22; 23].
Definition SUPPORTED_ALGORITHMS : list Z := [Algorithm_to_Z ALG_FFSPLIT].

(** ** The decoded message *)

Record MsgDecoded : Set := mkMsg {
  m_type : MsgType;
  m_seq_number_set : bool;
  m_seq_number : Z;
  m_cluster_name : bytes;
  m_tls_supported_set : bool;
  m_tls_supported : TlsSupported;
  m_tls_client_cert_required_set : bool;
  m_tls_client_cert_required : Z;
  m_supported_messages_present : bool;
  m_supported_options_present : bool;
  m_node_id_set : bool;
  m_node_id : Z;
  m_decision_algorithm_set : bool;
  m_decision_algorithm : Algorithm;
  m_heartbeat_interval_set : bool;
  m_heartbeat_interval : Z;
  m_ring_id_set : bool;
  m_ring_id : RingId;
  m_config_version_set : bool;
  m_config_version : Z;
  m_nodes : NodeList;
  m_node_list_type_set : bool;
  m_node_list_type : NodeListType;
  m_vote_set : bool;
  m_vote : Vote;
  m_quorate_set : bool;
  m_quorate : Z;
  m_tie_breaker_set : bool;
  m_tie_breaker : TieBreaker;
  m_heuristics : Heuristics;
  m_keep_active_partition_tie_breaker_set : bool;
  m_keep_active_partition_tie_breaker : Z;
}.

(** [MsgDecoded()]: the default member initialisers. *)
Definition MsgDecoded0 : MsgDecoded := {|
  m_type := MT_PREINIT;
  m_seq_number_set := false;
  m_seq_number := 0;
  m_cluster_name := [];
  m_tls_supported_set := false;
  m_tls_supported := TLS_UNSUPPORTED;
  m_tls_client_cert_required_set := false;
  m_tls_client_cert_required := 0;
  m_supported_messages_present := false;
  m_supported_options_present := false;
  m_node_id_set := false;
  m_node_id := 0;
  m_decision_algorithm_set := false;
  m_decision_algorithm := ALG_TEST;
  m_heartbeat_interval_set := false;
  m_heartbeat_interval := 0;
  m_ring_id_set := false;
  m_ring_id := RingId0;
  m_config_version_set := false;
  m_config_version := 0;
  m_nodes := [];
  m_node_list_type_set := false;
  m_node_list_type := NLT_INITIAL_CONFIG;
  m_vote_set := false;
  m_vote := VOTE_UNDEFINED;
  m_quorate_set := false;
  m_quorate := 0;
  m_tie_breaker_set := false;
  m_tie_breaker := TieBreaker0;
  m_heuristics := HEUR_UNDEFINED;
  m_keep_active_partition_tie_breaker_set := false;
  m_keep_active_partition_tie_breaker := 0 |}.

#[export] Instance MsgDecoded_eq_dec : EqDecision MsgDecoded.
Proof. solve_decision. Defined.
#[export] Instance MsgDecoded_eta : EtaExpand MsgDecoded := λ r, {|
  m_type := m_type r;
  m_seq_number_set := m_seq_number_set r;
  m_seq_number := m_seq_number r;
  m_cluster_name := m_cluster_name r;
  m_tls_supported_set := m_tls_supported_set r;
  m_tls_supported := m_tls_supported r;
  m_tls_client_cert_required_set := m_tls_client_cert_required_set r;
  m_tls_client_cert_required := m_tls_client_cert_required r;
  m_supported_messages_present := m_supported_messages_present r;
  m_supported_options_present := m_supported_options_present r;
  m_node_id_set := m_node_id_set r;
  m_node_id := m_node_id r;
  m_decision_algorithm_set := m_decision_algorithm_set r;
  m_decision_algorithm := m_decision_algorithm r;
  m_heartbeat_interval_set := m_heartbeat_interval_set r;
  m_heartbeat_interval := m_heartbeat_interval r;
  m_ring_id_set := m_ring_id_set r;
  m_ring_id := m_ring_id r;
  m_config_version_set := m_config_version_set r;
  m_config_version := m_config_version r;
  m_nodes := m_nodes r;
  m_node_list_type_set := m_node_list_type_set r;
  m_node_list_type := m_node_list_type r;
  m_vote_set := m_vote_set r;
  m_vote := m_vote r;
  m_quorate_set := m_quorate_set r;
  m_quorate := m_quorate r;
  m_tie_breaker_set := m_tie_breaker_set r;
  m_tie_breaker := m_tie_breaker r;
  m_heuristics := m_heuristics r;
  m_keep_active_partition_tie_breaker_set := m_keep_active_partition_tie_breaker_set r;
  m_keep_active_partition_tie_breaker := m_keep_active_partition_tie_breaker r |}.
#[export] Instance set_m_type : Setter m_type := ltac:(derive_setter).
#[export] Instance set_m_seq_number_set : Setter m_seq_number_set := ltac:(derive_setter).
#[export] Instance set_m_seq_number : Setter m_seq_number := ltac:(derive_setter).
#[export] Instance set_m_cluster_name : Setter m_cluster_name := ltac:(derive_setter).
#[export] Instance set_m_tls_supported_set : Setter m_tls_supported_set := ltac:(derive_setter).
#[export] Instance set_m_tls_supported : Setter m_tls_supported := ltac:(derive_setter).
#[export] Instance set_m_tls_client_cert_required_set : Setter m_tls_client_cert_required_set := ltac:(derive_setter).
#[export] Instance set_m_tls_client_cert_required : Setter m_tls_client_cert_required := ltac:(derive_setter).
#[export] Instance set_m_supported_messages_present : Setter m_supported_messages_present := ltac:(derive_setter).
#[export] Instance set_m_supported_options_present : Setter m_supported_options_present := ltac:(derive_setter).
#[export] Instance set_m_node_id_set : Setter m_node_id_set := ltac:(derive_setter).
#[export] Instance set_m_node_id : Setter m_node_id := ltac:(derive_setter).
#[export] Instance set_m_decision_algorithm_set : Setter m_decision_algorithm_set := ltac:(derive_setter).
#[export] Instance set_m_decision_algorithm : Setter m_decision_algorithm := ltac:(derive_setter).
#[export] Instance set_m_heartbeat_interval_set : Setter m_heartbeat_interval_set := ltac:(derive_setter).
#[export] Instance set_m_heartbeat_interval : Setter m_heartbeat_interval := ltac:(derive_setter).
#[export] Instance set_m_ring_id_set : Setter m_ring_id_set := ltac:(derive_setter).
#[export] Instance set_m_ring_id : Setter m_ring_id := ltac:(derive_setter).
#[export] Instance set_m_config_version_set : Setter m_config_version_set := ltac:(derive_setter).
#[export] Instance set_m_config_version : Setter m_config_version := ltac:(derive_setter).
#[export] Instance set_m_nodes : Setter m_nodes := ltac:(derive_setter).
#[export] Instance set_m_node_list_type_set : Setter m_node_list_type_set := ltac:(derive_setter).
#[export] Instance set_m_node_list_type : Setter m_node_list_type := ltac:(derive_setter).
#[export] Instance set_m_vote_set : Setter m_vote_set := ltac:(derive_setter).
#[export] Instance set_m_vote : Setter m_vote := ltac:(derive_setter).
#[export] Instance set_m_quorate_set : Setter m_quorate_set := ltac:(derive_setter).
#[export] Instance set_m_quorate : Setter m_quorate := ltac:(derive_setter).
#[export] Instance set_m_tie_breaker_set : Setter m_tie_breaker_set := ltac:(derive_setter).
#[export] Instance set_m_tie_breaker : Setter m_tie_breaker := ltac:(derive_setter).
#[export] Instance set_m_heuristics : Setter m_heuristics := ltac:(derive_setter).
#[export] Instance set_m_keep_active_partition_tie_breaker_set : Setter m_keep_active_partition_tie_breaker_set := ltac:(derive_setter).
#[export] Instance set_m_keep_active_partition_tie_breaker : Setter m_keep_active_partition_tie_breaker := ltac:(derive_setter).

(** ** Decoding *)

(** The switch of [decode_node_info]; the state is [(out, have_id)]. *)
Definition node_info_opt (ty l : Z) (d : bytes) (acc : NodeInfo * bool) : outcome (NodeInfo * bool) :=
  let '(out, have_id) := acc in
  match TlvOpt_of_Z ty with
  | OPT_NODE_ID =>
      if negb (l =? 4) then Reject else
      v ← be_get32 d; Ok (out <| ni_node_id := v |>, true)
  | OPT_DATA_CENTER_ID =>
      if negb (l =? 4) then Reject else
      v ← be_get32 d; Ok (out <| ni_data_center_id := v |>, have_id)
  | OPT_NODE_STATE =>
      if negb (l =? 1) then Reject else
      v ← rd d 0; Ok (out <| ni_state := NodeState_of_Z v |>, have_id)
  | _ => Ok (out, have_id)
  end.

(** [decode_node_info(data, len, out)]. *)
Definition decode_node_info (data : bytes) (len : nat) : outcome NodeInfo :=
  '(out, have_id) ← TlvIterator.tlv_loop (S len) node_info_opt (TlvIterator.make data len)
                      (NodeInfo0, false);
  if have_id : bool then Ok out else Reject.

(** The switch of [msg_decode] on one option: [d] is [it.data()], [l] is [it.length()]. *)
Definition msg_decode_opt (ty l : Z) (d : bytes) (out : MsgDecoded) : outcome MsgDecoded :=
  match TlvOpt_of_Z ty with
  | OPT_MSG_SEQ_NUMBER =>
      if negb (l =? 4) then Reject else
      v ← be_get32 d; Ok (out <| m_seq_number := v |> <| m_seq_number_set := true |>)
  | OPT_CLUSTER_NAME =>
      if (length d <? Z.to_nat l)%nat then Fault else
      Ok (out <| m_cluster_name := take (Z.to_nat l) d |>)
  | OPT_TLS_SUPPORTED =>
      if negb (l =? 1) then Reject else
      d0 ← rd d 0;
      if 2 <? d0 then Reject else
      v ← of_option (TlsSupported_of_Z d0);
      Ok (out <| m_tls_supported := v |> <| m_tls_supported_set := true |>)
  | OPT_TLS_CLIENT_CERT_REQUIRED =>
      if negb (l =? 1) then Reject else
      d0 ← rd d 0;
      Ok (out <| m_tls_client_cert_required := d0 |> <| m_tls_client_cert_required_set := true |>)
  | OPT_SUPPORTED_MESSAGES =>
      if negb (l mod 2 =? 0) then Reject else Ok (out <| m_supported_messages_present := true |>)
  | OPT_SUPPORTED_OPTIONS =>
      if negb (l mod 2 =? 0) then Reject else Ok (out <| m_supported_options_present := true |>)
  | OPT_NODE_ID =>
      if negb (l =? 4) then Reject else
      v ← be_get32 d; Ok (out <| m_node_id := v |> <| m_node_id_set := true |>)
  | OPT_DECISION_ALGORITHM =>
      if negb (l =? 2) then Reject else
      v ← be_get16 d;
      Ok (out <| m_decision_algorithm := Algorithm_of_Z v |> <| m_decision_algorithm_set := true |>)
  | OPT_HEARTBEAT_INTERVAL =>
      if negb (l =? 4) then Reject else
      v ← be_get32 d;
      Ok (out <| m_heartbeat_interval := v |> <| m_heartbeat_interval_set := true |>)
  | OPT_RING_ID =>
      if negb (l =? 12) then Reject else
      n ← be_get32 d; s ← be_get64 (drop 4 d);
      Ok (out <| m_ring_id := mkRingId n s |> <| m_ring_id_set := true |>)
  | OPT_CONFIG_VERSION =>
      if negb (l =? 8) then Reject else
      v ← be_get64 d; Ok (out <| m_config_version := v |> <| m_config_version_set := true |>)
  | OPT_NODE_INFO =>
      ni ← decode_node_info d (Z.to_nat l);
      if (MAX_NODES_PER_LIST <=? length (m_nodes out))%nat then Reject
      else Ok (out <| m_nodes ::= λ ns, ns ++ [ni] |>)
  | OPT_NODE_LIST_TYPE =>
      if negb (l =? 1) then Reject else
      d0 ← rd d 0;
      if 3 <? d0 then Reject else
      v ← of_option (NodeListType_of_Z d0);
      Ok (out <| m_node_list_type := v |> <| m_node_list_type_set := true |>)
  | OPT_VOTE =>
      if negb (l =? 1) then Reject else
      d0 ← rd d 0;
      if 5 <? d0 then Reject else
      v ← of_option (Vote_of_Z d0);
      Ok (out <| m_vote := v |> <| m_vote_set := true |>)
  | OPT_QUORATE =>
      if negb (l =? 1) then Reject else
      d0 ← rd d 0;
      if 1 <? d0 then Reject else
      Ok (out <| m_quorate := d0 |> <| m_quorate_set := true |>)
  | OPT_TIE_BREAKER =>
      if negb (l =? 5) then Reject else
      d0 ← rd d 0;
      if (d0 <? 1) || (3 <? d0) then Reject else
      mode ← of_option (TieBreakerMode_of_Z d0);
      id ← be_get32 (drop 1 d);
      Ok (out <| m_tie_breaker := mkTieBreaker mode id |> <| m_tie_breaker_set := true |>)
  | OPT_HEURISTICS =>
      if negb (l =? 1) then Reject else
      d0 ← rd d 0;
      if 2 <? d0 then Reject else
      v ← of_option (Heuristics_of_Z d0);
      Ok (out <| m_heuristics := v |>)
  | OPT_KEEP_ACTIVE_PARTITION_TIE_BREAKER =>
      if negb (l =? 1) then Reject else
      d0 ← rd d 0;
      Ok (out <| m_keep_active_partition_tie_breaker := d0 |>
              <| m_keep_active_partition_tie_breaker_set := true |>)
  | _ => Ok out
  end.

(** [msg_decode(type, payload, len, out)]: [Ok m] is [true] with [out = m]. *)
Definition msg_decode (type : MsgType) (payload : bytes) (len : nat) : outcome MsgDecoded :=
  TlvIterator.tlv_loop (S len) msg_decode_opt (TlvIterator.make payload len)
    (MsgDecoded0 <| m_type := type |>).

(** ** Builders *)

Abbreviation Frame := bytes.

Definition begin_frame (type : MsgType) : Frame := be_put32 (be_put16 [] (MsgType_to_Z type)) 0.

Definition end_frame (f : Frame) : Frame :=
  let len := u32 (Z.of_nat (length f - MSG_HEADER_LEN)) in
  <[5%nat := u8 len]> (<[4%nat := u8 (Z.shiftr len 8)]>
    (<[3%nat := u8 (Z.shiftr len 16)]> (<[2%nat := u8 (Z.shiftr len 24)]> f))).

Definition add_seq (f : Frame) (seq_set : bool) (seq : Z) : Frame :=
  if seq_set then TlvWriter.add_u32 f OPT_MSG_SEQ_NUMBER seq else f.

Definition build_preinit_reply (seq_set : bool) (seq : Z) (tls : TlsSupported) (cert_required : Z)
    : Frame :=
  let f := add_seq (begin_frame MT_PREINIT_REPLY) seq_set seq in
  let f := TlvWriter.add_u8 f OPT_TLS_SUPPORTED (TlsSupported_to_Z tls) in
  let f := TlvWriter.add_u8 f OPT_TLS_CLIENT_CERT_REQUIRED cert_required in
  end_frame f.

Definition build_server_error (seq_set : bool) (seq : Z) (code : ReplyErrorCode) : Frame :=
  let f := add_seq (begin_frame MT_SERVER_ERROR) seq_set seq in
  let f := TlvWriter.add_u16 f OPT_REPLY_ERROR_CODE (ReplyErrorCode_to_Z code) in
  end_frame f.

Definition build_init_reply (seq_set : bool) (seq : Z) (code : ReplyErrorCode)
    (include_supported_messages include_supported_options : bool)
    (max_request_size max_reply_size : Z) : Frame :=
  let f := add_seq (begin_frame MT_INIT_REPLY) seq_set seq in
  let f := TlvWriter.add_u16 f OPT_REPLY_ERROR_CODE (ReplyErrorCode_to_Z code) in
  let f := if include_supported_messages
           then TlvWriter.add_u16_array f OPT_SUPPORTED_MESSAGES SUPPORTED_MESSAGES else f in
  let f := if include_supported_options
           then TlvWriter.add_u16_array f OPT_SUPPORTED_OPTIONS SUPPORTED_OPTIONS else f in
  let f := TlvWriter.add_u32 f OPT_SERVER_MAXIMUM_REQUEST_SIZE max_request_size in
  let f := TlvWriter.add_u32 f OPT_SERVER_MAXIMUM_REPLY_SIZE max_reply_size in
  let f := TlvWriter.add_u16_array f OPT_SUPPORTED_DECISION_ALGORITHMS SUPPORTED_ALGORITHMS in
  end_frame f.

Definition build_set_option_reply (seq_set : bool) (seq : Z) (hb_set : bool) (hb : Z)
    (kaptb_set : bool) (kaptb : Z) : Frame :=
  let f := add_seq (begin_frame MT_SET_OPTION_REPLY) seq_set seq in
  let f := if hb_set then TlvWriter.add_u32 f OPT_HEARTBEAT_INTERVAL hb else f in
  let f := if kaptb_set
           then TlvWriter.add_u8 f OPT_KEEP_ACTIVE_PARTITION_TIE_BREAKER kaptb else f in
  end_frame f.

(** A byte copy of the request with the type rewritten. *)
Definition build_echo_reply (request_frame : bytes) (frame_len : nat) : Frame :=
  let f := take frame_len request_frame in
  <[1%nat := u8 (MsgType_to_Z MT_ECHO_REPLY)]>
    (<[0%nat := u8 (Z.shiftr (MsgType_to_Z MT_ECHO_REPLY) 8)]> f).

Definition build_node_list_reply (seq : Z) (type : NodeListType) (ring : RingId) (vote : Vote)
    : Frame :=
  let f := TlvWriter.add_u32 (begin_frame MT_NODE_LIST_REPLY) OPT_MSG_SEQ_NUMBER seq in
  let f := TlvWriter.add_u8 f OPT_NODE_LIST_TYPE (NodeListType_to_Z type) in
  let f := TlvWriter.add_ring_id f ring in
  let f := TlvWriter.add_u8 f OPT_VOTE (Vote_to_Z vote) in
  end_frame f.

Definition build_vote_info (seq : Z) (ring : RingId) (vote : Vote) : Frame :=
  let f := TlvWriter.add_u32 (begin_frame MT_VOTE_INFO) OPT_MSG_SEQ_NUMBER seq in
  let f := TlvWriter.add_u8 f OPT_VOTE (Vote_to_Z vote) in
  let f := TlvWriter.add_ring_id f ring in
  end_frame f.

Definition build_heuristics_change_reply (seq_set : bool) (seq : Z) (vote : Vote) : Frame :=
  let f := add_seq (begin_frame MT_HEURISTICS_CHANGE_REPLY) seq_set seq in
  let f := TlvWriter.add_u8 f OPT_VOTE (Vote_to_Z vote) in
  end_frame f.

(** ** The decoder reads only inside the payload *)

(** Case analysis on the option type of a decoder switch. *)
Ltac decode_cases ty := destruct (TlvOpt_of_Z ty) eqn:?; simpl; try done.

(** Settle a length test of a decoder switch, keeping the bound as a [nat] fact. *)
Ltac length_test :=
  match goal with
  | |- context [negb (Z.of_nat (length ?v) =? ?k)] =>
      let H := fresh "Hlen" in
      destruct (Z.eqb_spec (Z.of_nat (length v)) k) as [H|H]; simpl; [|done]
  end.

Lemma node_info_opt_local ty v rest acc : is_u16 ty → Z.of_nat (length v) < 2 ^ 16 →
  node_info_opt ty (Z.of_nat (length v)) (v ++ rest) acc =
  node_info_opt ty (Z.of_nat (length v)) v acc.
Proof.
  intros _ _. destruct acc as [out b]. unfold node_info_opt.
  decode_cases ty; length_test; by rewrite ?be_get32_app, ?rd_app by lia.
Qed.

Lemma node_info_opt_safe ty v acc : is_u16 ty → Z.of_nat (length v) < 2 ^ 16 →
  node_info_opt ty (Z.of_nat (length v)) v acc ≠ Fault.
Proof.
  intros _ _. destruct acc as [out b]. unfold node_info_opt. decode_cases ty; length_test;
    (destruct (be_get32_ok v) as [? [-> _]]; [lia|done]) ||
    (destruct (rd_ok v 0) as [? [-> _]]; [lia|done]).
Qed.

(** [decode_node_info] on the parsed blob. *)
Definition node_info_spec (os : list (Z * bytes)) : outcome NodeInfo :=
  '(out, have_id) ← tlv_fold node_info_opt os (NodeInfo0, false);
  if have_id : bool then Ok out else Reject.

Lemma decode_node_info_split data len : (len ≤ length data)%nat →
  decode_node_info data len =
    match tlv_split (take len data) with Some os => node_info_spec os | None => Reject end.
Proof.
  intros Hl. unfold decode_node_info.
  rewrite (tlv_loop_split node_info_opt node_info_opt_local node_info_opt_safe) by done.
  by destruct (tlv_split (take len data)).
Qed.

Lemma tlv_fold_safe {A} (body : Z → Z → bytes → A → outcome A) os acc :
  (∀ ty v acc, is_u16 ty → Z.of_nat (length v) < 2 ^ 16 →
     body ty (Z.of_nat (length v)) v acc ≠ Fault) →
  Forall (λ o, is_u16 o.1 ∧ Z.of_nat (length o.2) < 2 ^ 16) os → tlv_fold body os acc ≠ Fault.
Proof.
  intros Hb Hos. revert acc. induction Hos as [|[ty v] os [H1 H2] Hos IH]; intros acc; simpl; [done|].
  specialize (Hb ty v acc H1 H2). destruct (body ty _ v acc); simpl; [apply IH|done|done].
Qed.

Lemma tlv_split_fuel_sizes fuel p os : tlv_split_fuel fuel p = Some os →
  Forall (λ o, is_u16 o.1 ∧ Z.of_nat (length o.2) < 2 ^ 16) os.
Proof.
  revert p os. induction fuel as [|fuel IH]; intros p os H; simpl in H; [done|].
  destruct p as [|t1 [|t0 [|l1 [|l0 rest]]]]; simplify_eq; [constructor|].
  destruct (Nat.ltb_spec (length rest) (Z.to_nat (be16 l1 l0))); [done|].
  apply bind_Some in H as [os' [H ?]]; simplify_eq. constructor; [|by eapply IH].
  simpl. split; [apply be16_range|]. rewrite length_take_le by done.
  pose proof (be16_range l1 l0). unfold is_u16 in *. lia.
Qed.

Lemma decode_node_info_local v rest :
  decode_node_info (v ++ rest) (length v) = decode_node_info v (length v).
Proof.
  rewrite !decode_node_info_split by (rewrite ?length_app; lia).
  by rewrite take_app_length, take_ge.
Qed.

Lemma decode_node_info_safe v : decode_node_info v (length v) ≠ Fault.
Proof.
  rewrite decode_node_info_split by done. destruct (tlv_split _) as [os|] eqn:Hs; [|done].
  apply tlv_split_fuel_sizes in Hs. unfold node_info_spec.
  pose proof (tlv_fold_safe node_info_opt os (NodeInfo0, false) node_info_opt_safe Hs).
  destruct (tlv_fold _ os _) as [[? []]| |]; simpl; done.
Qed.

Lemma msg_decode_opt_local ty v rest acc : is_u16 ty → Z.of_nat (length v) < 2 ^ 16 →
  msg_decode_opt ty (Z.of_nat (length v)) (v ++ rest) acc =
  msg_decode_opt ty (Z.of_nat (length v)) v acc.
Proof.
  intros _ _. unfold msg_decode_opt. decode_cases ty; try length_test;
    rewrite ?drop_app_le by lia;
    rewrite ?be_get16_app, ?be_get32_app, ?be_get64_app, ?rd_app by (rewrite ?length_drop; lia);
    try done.
  - rewrite Nat2Z.id, length_app, take_app_length, (take_ge v) by done.
    destruct (Nat.ltb_spec (length v + length rest) (length v)),
      (Nat.ltb_spec (length v) (length v)); done || lia.
  - by rewrite Nat2Z.id, decode_node_info_local.
Qed.

Lemma msg_decode_opt_safe ty v acc : is_u16 ty → Z.of_nat (length v) < 2 ^ 16 →
  msg_decode_opt ty (Z.of_nat (length v)) v acc ≠ Fault.
Proof.
  intros _ _. unfold msg_decode_opt. decode_cases ty; try length_test;
    try (destruct (be_get16_ok v) as [? [-> _]]; [lia|done]);
    try (destruct (be_get32_ok v) as [? [-> _]]; [lia|done]);
    try (destruct (be_get64_ok v) as [? [-> _]]; [lia|done]);
    try (destruct (rd_ok v 0) as [? [-> _]]; [lia|]; simpl; case_match; [done|];
         match goal with |- context [of_option ?o] => destruct o; simpl end; done);
    try (destruct (rd_ok v 0) as [? [-> _]]; [lia|]; simpl; by repeat case_match).
  - rewrite Nat2Z.id. destruct (Nat.ltb_spec (length v) (length v)); done || lia.
  - by case_match.
  - by case_match.
  - destruct (be_get32_ok v) as [? [-> _]]; [lia|].
    destruct (be_get64_ok (drop 4 v)) as [? [-> _]]; [rewrite length_drop; lia|done].
  - rewrite Nat2Z.id. pose proof (decode_node_info_safe v).
    destruct (decode_node_info v (length v)); simpl; [|done..]. by case_match.
  - destruct (rd_ok v 0) as [? [-> _]]; [lia|]. simpl. case_match; [done|].
    destruct (TieBreakerMode_of_Z _); simpl; [|done].
    destruct (be_get32_ok (drop 1 v)) as [? [-> _]]; [rewrite length_drop; lia|done].
Qed.

(** The decoder of a payload that is a well-formed option sequence. *)
Definition msg_spec (type : MsgType) (os : list (Z * bytes)) : outcome MsgDecoded :=
  tlv_fold msg_decode_opt os (MsgDecoded0 <| m_type := type |>).

Lemma msg_decode_split type payload len : (len ≤ length payload)%nat →
  msg_decode type payload len =
    match tlv_split (take len payload) with Some os => msg_spec type os | None => Reject end.
Proof.
  intros Hl. unfold msg_decode.
  by rewrite (tlv_loop_split msg_decode_opt msg_decode_opt_local msg_decode_opt_safe).
Qed.

Lemma msg_decode_safe type payload len : (len ≤ length payload)%nat →
  msg_decode type payload len ≠ Fault.
Proof.
  intros Hl. rewrite msg_decode_split by done. destruct (tlv_split _) as [os|] eqn:Hs; [|done].
  apply tlv_split_fuel_sizes in Hs. by apply tlv_fold_safe; [apply msg_decode_opt_safe|].
Qed.

(** ** Frames *)

(** The frame of type [type] that carries the options [os]. *)
Definition frame_bytes (type : MsgType) (os : list (Z * bytes)) : Frame :=
  [u8 (Z.shiftr (MsgType_to_Z type) 8); u8 (MsgType_to_Z type)]
  ++ u32_bytes (Z.of_nat (length (tlv_bytes os))) ++ tlv_bytes os.

Lemma end_frame_spec type os :
  Z.of_nat (length (tlv_bytes os)) < 2 ^ 32 →
  end_frame (begin_frame type ++ tlv_bytes os) = frame_bytes type os.
Proof.
  intros Hl. unfold end_frame, MSG_HEADER_LEN. rewrite length_app. simpl.
  rewrite !Nat.sub_0_r, u32_id by (unfold is_u32; lia). done.
Qed.

(** Decoding a complete frame, as a peer does: the type from the header, then
    the payload behind it. *)
Definition frame_decode (f : Frame) : outcome MsgDecoded :=
  ty ← be_get16 f; msg_decode (MsgType_of_Z ty) (drop MSG_HEADER_LEN f) (length f - MSG_HEADER_LEN).

Lemma MsgType_of_to_Z type : (∀ v, type ≠ MT_OTHER v) → MsgType_of_Z (MsgType_to_Z type) = type.
Proof. destruct type; try done. intros H. by destruct (H v). Qed.

Lemma frame_decode_bytes type os :
  (∀ v, type ≠ MT_OTHER v) → Forall tlv_ok os → frame_decode (frame_bytes type os) = msg_spec type os.
Proof.
  intros Ht Hos. unfold frame_decode, frame_bytes. cbn [app].
  rewrite be_get16_cons, outcome_bind_ok, be16_enc
    by (destruct type; try done; by destruct (Ht v)).
  rewrite MsgType_of_to_Z by done. simpl. rewrite !Nat.sub_0_r, drop_0.
  rewrite msg_decode_split, take_ge, tlv_split_bytes by done. done.
Qed.

(** The header of a frame: its type and the length of what follows. *)
Lemma frame_header type os : (∀ v, type ≠ MT_OTHER v) →
  Z.of_nat (length (tlv_bytes os)) < 2 ^ 32 →
  be_get16 (frame_bytes type os) = Ok (MsgType_to_Z type) ∧
  be_get32 (drop 2 (frame_bytes type os)) =
    Ok (Z.of_nat (length (frame_bytes type os) - MSG_HEADER_LEN)).
Proof.
  intros Ht Hl. unfold frame_bytes, MSG_HEADER_LEN. cbn [app].
  rewrite be_get16_cons, be16_enc by (destruct type; try done; by destruct (Ht v)).
  split; [done|]. change (drop 2 _) with (u32_bytes (Z.of_nat (length (tlv_bytes os))) ++ tlv_bytes os).
  rewrite be_get32_bytes by (unfold is_u32; lia).
  simpl. by rewrite Nat.sub_0_r.
Qed.

(** *** One option at a time *)

Lemma be_get32_bytes' v : is_u32 v → be_get32 (u32_bytes v) = Ok v.
Proof. intros. rewrite <-(app_nil_r (u32_bytes v)). by apply be_get32_bytes. Qed.
Lemma be_get64_bytes' v : is_u64 v → be_get64 (TlvWriter.u64_bytes v) = Ok v.
Proof. intros. rewrite <-(app_nil_r (TlvWriter.u64_bytes v)). by apply be_get64_bytes. Qed.

Definition ring_ok (r : RingId) : Prop := is_u32 (ri_node_id r) ∧ is_u64 (ri_seq r).

(** The value of each option the server's frames carry, and what decoding it does. *)
Inductive opt_decodes : Z * bytes → (MsgDecoded → MsgDecoded) → Prop :=
| od_seq v : is_u32 v →
    opt_decodes (0, u32_bytes v) (λ m, m <| m_seq_number := v |> <| m_seq_number_set := true |>)
| od_tls v :
    opt_decodes (2, [TlsSupported_to_Z v])
      (λ m, m <| m_tls_supported := v |> <| m_tls_supported_set := true |>)
| od_cert v : is_u8 v →
    opt_decodes (3, [v])
      (λ m, m <| m_tls_client_cert_required := v |> <| m_tls_client_cert_required_set := true |>)
| od_msgs arr : (length arr < 1000)%nat →
    opt_decodes (4, u16s_bytes arr) (λ m, m <| m_supported_messages_present := true |>)
| od_opts arr : (length arr < 1000)%nat →
    opt_decodes (5, u16s_bytes arr) (λ m, m <| m_supported_options_present := true |>)
| od_error v : is_bytes v → (length v < 1000)%nat → opt_decodes (6, v) (λ m, m)
| od_max_request v : opt_decodes (7, u32_bytes v) (λ m, m)
| od_max_reply v : opt_decodes (8, u32_bytes v) (λ m, m)
| od_node_id v : is_u32 v →
    opt_decodes (9, u32_bytes v) (λ m, m <| m_node_id := v |> <| m_node_id_set := true |>)
| od_algos v : is_bytes v → (length v < 1000)%nat → opt_decodes (10, v) (λ m, m)
| od_hb v : is_u32 v →
    opt_decodes (12, u32_bytes v)
      (λ m, m <| m_heartbeat_interval := v |> <| m_heartbeat_interval_set := true |>)
| od_ring r : ring_ok r →
    opt_decodes (13, u32_bytes (ri_node_id r) ++ TlvWriter.u64_bytes (ri_seq r))
      (λ m, m <| m_ring_id := r |> <| m_ring_id_set := true |>)
| od_nlt v :
    opt_decodes (18, [NodeListType_to_Z v])
      (λ m, m <| m_node_list_type := v |> <| m_node_list_type_set := true |>)
| od_vote v :
    opt_decodes (19, [Vote_to_Z v]) (λ m, m <| m_vote := v |> <| m_vote_set := true |>)
| od_kaptb v : is_u8 v →
    opt_decodes (23, [v])
      (λ m, m <| m_keep_active_partition_tie_breaker := v |>
              <| m_keep_active_partition_tie_breaker_set := true |>).
#[export] Hint Constructors opt_decodes : qnetd.

Lemma u16s_bytes_ok arr : is_bytes (u16s_bytes arr).
Proof. unfold u16s_bytes. induction arr; simpl; [constructor|]. repeat constructor; [apply u8_range..|done]. Qed.
#[export] Hint Resolve u16s_bytes_ok : qnetd.

Lemma tlv_ok_intro ty v :
  bool_decide (is_u16 ty) → (length v < 2000)%nat → is_bytes v → tlv_ok (ty, v).
Proof.
  intros Ht%bool_decide_unpack Hl Hv. split_and!; simpl; [done| |done].
  change (2 ^ 16) with 65536. lia.
Qed.

Lemma is_byte_singleton v : is_u8 v → is_bytes [v].
Proof. intros. apply Forall_singleton. done. Qed.
Lemma is_byte_pair a b : is_u8 a → is_u8 b → is_bytes [a; b].
Proof. intros. apply Forall_cons. split; [done|]. by apply is_byte_singleton. Qed.
#[export] Hint Resolve is_byte_singleton is_byte_pair Forall_app_2 : qnetd.
#[export] Hint Extern 2 (length _ < 1000)%nat => (simpl; lia) : qnetd.

Lemma opt_decodes_ok o g : opt_decodes o g → tlv_ok o.
Proof.
  destruct 1; apply tlv_ok_intro;
    first [vm_compute; exact I | rewrite ?u16s_bytes_length; simpl; lia | auto with qnetd].
  all: by destruct v; apply is_byte_singleton.
Qed.

Lemma opt_decodes_step o g m : opt_decodes o g →
  msg_decode_opt o.1 (Z.of_nat (length o.2)) o.2 m = Ok (g m).
Proof.
  assert (∀ v (k : Z → MsgDecoded), is_u32 v → (x ← be_get32 (u32_bytes v); Ok (k x)) = Ok (k v))
    as H32 by (intros v k Hv; by rewrite be_get32_bytes').
  destruct 1 as [v Hv|[]|v Hv|arr ?|arr ?|v Hv ?|v|v|v Hv|v Hv ?|v Hv|r [Hr1 Hr2]|[]|[]|v Hv];
    try reflexivity.
  - exact (H32 v (λ x, m <| m_seq_number := x |> <| m_seq_number_set := true |>) Hv).
  - unfold msg_decode_opt. simpl. rewrite u16s_bytes_length, Nat2Z.inj_mul, Z.mod_mul by lia. done.
  - unfold msg_decode_opt. simpl. rewrite u16s_bytes_length, Nat2Z.inj_mul, Z.mod_mul by lia. done.
  - exact (H32 v (λ x, m <| m_node_id := x |> <| m_node_id_set := true |>) Hv).
  - exact (H32 v (λ x, m <| m_heartbeat_interval := x |> <| m_heartbeat_interval_set := true |>) Hv).
  - trans (n ← be_get32 (u32_bytes (ri_node_id r) ++ TlvWriter.u64_bytes (ri_seq r));
           s ← be_get64 (TlvWriter.u64_bytes (ri_seq r));
           Ok (m <| m_ring_id := mkRingId n s |> <| m_ring_id_set := true |>)); [reflexivity|].
    rewrite be_get32_bytes, outcome_bind_ok, be_get64_bytes' by done. by destruct r.
Qed.

(** Find what decodes each option of a concrete option list. *)
Ltac solve_opts :=
  repeat first [apply List.Forall2_nil | apply List.Forall2_cons; [solve [eauto 8 with qnetd]|]].

Lemma tlv_fold_decodes os gs m :
  Forall2 opt_decodes os gs → tlv_fold msg_decode_opt os m = Ok (foldl (λ m g, g m) m gs).
Proof.
  intros H. revert m. induction H as [|[ty v] g os gs Ho H IH]; intros m; simpl; [done|].
  rewrite (opt_decodes_step (ty, v) g) by done. rewrite outcome_bind_ok. apply IH.
Qed.

(** A frame whose options all decode gives the message they describe. *)
Lemma frame_decode_opts type os gs :
  (∀ v, type ≠ MT_OTHER v) → Forall2 opt_decodes os gs →
  frame_decode (frame_bytes type os) =
    Ok (foldl (λ m g, g m) (MsgDecoded0 <| m_type := type |>) gs).
Proof.
  intros Ht H. rewrite frame_decode_bytes; [by apply tlv_fold_decodes|done|].
  clear Ht. induction H; constructor; eauto using opt_decodes_ok.
Qed.

(** *** The builders *)

Lemma frame_snoc f os o : (f ++ tlv_bytes os) ++ tlv_enc o = f ++ tlv_bytes (os ++ [o]).
Proof.
  rewrite tlv_bytes_app, app_assoc. f_equal. unfold tlv_bytes.
  change (concat (tlv_enc <$> [o])) with (tlv_enc o ++ []). by rewrite app_nil_r.
Qed.

Lemma begin_frame_nil type : begin_frame type = begin_frame type ++ tlv_bytes [].
Proof. by rewrite app_nil_r. Qed.

(** Collect what the writer calls of a builder append. *)
Ltac collect_options :=
  rewrite begin_frame_nil; autorewrite with tlvw;
  rewrite ?add_u16_array_spec by (simpl; lia);
  rewrite ?frame_snoc; autorewrite with tlvw; rewrite ?frame_snoc;
  apply end_frame_spec; vm_compute; reflexivity.

Definition seq_opt (seq_set : bool) (seq : Z) : list (Z * bytes) :=
  if seq_set then [(0, u32_bytes seq)] else [].

Lemma build_preinit_reply_spec seq_set seq tls cert :
  build_preinit_reply seq_set seq tls cert =
    frame_bytes MT_PREINIT_REPLY (seq_opt seq_set seq ++ [(2, [TlsSupported_to_Z tls]); (3, [cert])]).
Proof. unfold build_preinit_reply, add_seq. destruct seq_set; collect_options. Qed.

Lemma build_server_error_spec seq_set seq code :
  build_server_error seq_set seq code =
    frame_bytes MT_SERVER_ERROR (seq_opt seq_set seq ++
      [(6, [u8 (Z.shiftr (ReplyErrorCode_to_Z code) 8); u8 (ReplyErrorCode_to_Z code)])]).
Proof. unfold build_server_error, add_seq. destruct seq_set; collect_options. Qed.

Lemma build_init_reply_spec seq_set seq code im io mrq mrp :
  build_init_reply seq_set seq code im io mrq mrp =
    frame_bytes MT_INIT_REPLY (seq_opt seq_set seq ++
      [(6, [u8 (Z.shiftr (ReplyErrorCode_to_Z code) 8); u8 (ReplyErrorCode_to_Z code)])] ++
      (if im then [(4, u16s_bytes SUPPORTED_MESSAGES)] else []) ++
      (if io then [(5, u16s_bytes SUPPORTED_OPTIONS)] else []) ++
      [(7, u32_bytes mrq); (8, u32_bytes mrp); (10, u16s_bytes SUPPORTED_ALGORITHMS)]).
Proof. unfold build_init_reply, add_seq. destruct seq_set, im, io; collect_options. Qed.

Lemma build_set_option_reply_spec seq_set seq hb_set hb kaptb_set kaptb :
  build_set_option_reply seq_set seq hb_set hb kaptb_set kaptb =
    frame_bytes MT_SET_OPTION_REPLY (seq_opt seq_set seq ++
      (if hb_set then [(12, u32_bytes hb)] else []) ++ (if kaptb_set then [(23, [kaptb])] else [])).
Proof. unfold build_set_option_reply, add_seq. destruct seq_set, hb_set, kaptb_set; collect_options. Qed.

Lemma build_node_list_reply_spec seq type ring vote :
  build_node_list_reply seq type ring vote =
    frame_bytes MT_NODE_LIST_REPLY
      [(0, u32_bytes seq); (18, [NodeListType_to_Z type]);
       (13, u32_bytes (ri_node_id ring) ++ TlvWriter.u64_bytes (ri_seq ring));
       (19, [Vote_to_Z vote])].
Proof. unfold build_node_list_reply. collect_options. Qed.

Lemma build_vote_info_spec seq ring vote :
  build_vote_info seq ring vote =
    frame_bytes MT_VOTE_INFO
      [(0, u32_bytes seq); (19, [Vote_to_Z vote]);
       (13, u32_bytes (ri_node_id ring) ++ TlvWriter.u64_bytes (ri_seq ring))].
Proof. unfold build_vote_info. collect_options. Qed.

Lemma build_heuristics_change_reply_spec seq_set seq vote :
  build_heuristics_change_reply seq_set seq vote =
    frame_bytes MT_HEURISTICS_CHANGE_REPLY (seq_opt seq_set seq ++ [(19, [Vote_to_Z vote])]).
Proof. unfold build_heuristics_change_reply, add_seq. destruct seq_set; collect_options. Qed.

(** ** The decoded message is well typed *)

Definition ni_wf (n : NodeInfo) : Prop :=
  is_u32 (ni_node_id n) ∧ is_u32 (ni_data_center_id n) ∧ is_u8 (NodeState_to_Z (ni_state n)).

Record msg_wf (m : MsgDecoded) : Prop := {
  wf_seq : is_u32 (m_seq_number m);
  wf_name : is_bytes (m_cluster_name m);
  wf_cert : is_u8 (m_tls_client_cert_required m);
  wf_node_id : is_u32 (m_node_id m);
  wf_algorithm : is_u16 (Algorithm_to_Z (m_decision_algorithm m));
  wf_heartbeat : is_u32 (m_heartbeat_interval m);
  wf_ring : ring_ok (m_ring_id m);
  wf_version : is_u64 (m_config_version m);
  wf_nodes_bound : (length (m_nodes m) ≤ MAX_NODES_PER_LIST)%nat;
  wf_nodes : Forall ni_wf (m_nodes m);
  wf_quorate : m_quorate m = 0 ∨ m_quorate m = 1;
  wf_tie_breaker : is_u32 (tb_node_id (m_tie_breaker m));
  wf_kaptb : is_u8 (m_keep_active_partition_tie_breaker m);
}.

Lemma msg_wf0 type : msg_wf (MsgDecoded0 <| m_type := type |>).
Proof. by split; simpl; try done; auto; vm_compute; repeat constructor. Qed.

Lemma rd_inv v i b : is_bytes v → rd v i = Ok b → is_u8 b.
Proof.
  unfold rd. intros Hv. destruct (v !! i) eqn:E; [|done]. intros ?; simplify_eq.
  by eapply Forall_lookup_1 in Hv.
Qed.
Lemma be_get16_inv v x : be_get16 v = Ok x → is_u16 x.
Proof. unfold be_get16, rd. repeat case_match; simpl; intros; simplify_eq; try done. apply u16_range. Qed.
Lemma be_get32_inv v x : be_get32 v = Ok x → is_u32 x.
Proof. unfold be_get32, rd. repeat case_match; simpl; intros; simplify_eq; try done. apply u32_range. Qed.
Lemma be_get64_inv v x : be_get64 v = Ok x → is_u64 x.
Proof.
  unfold be_get64. destruct (be_get32 v); simpl; [|done..].
  destruct (be_get32 (drop 4 v)); simpl; [|done..]. intros; simplify_eq. apply u64_range.
Qed.

Lemma outcome_bind_Ok {A B} (m : outcome A) (k : A → outcome B) b :
  (m ≫= k) = Ok b → ∃ a, m = Ok a ∧ k a = Ok b.
Proof. destruct m; simpl; naive_solver. Qed.

Lemma of_option_Ok {A} (o : option A) a : of_option o = Ok a → o = Some a.
Proof. destruct o; simpl; naive_solver. Qed.

(** Invert a successful run of a decoder switch. *)
Ltac invert_ok :=
  repeat match goal with
  | H : (_ ≫= _) = Ok _ |- _ => apply outcome_bind_Ok in H as [? [? ?]]
  | H : (if ?b then _ else _) = Ok _ |- _ => destruct b eqn:?
  | H : Reject = Ok _ |- _ => discriminate H
  | H : Fault = Ok _ |- _ => discriminate H
  | H : Ok _ = Ok _ |- _ => injection H as H; subst
  end.

Lemma tlv_fold_inv {A} (P : A → Prop) body os acc acc' :
  (∀ ty v acc acc', is_bytes v → P acc → body ty (Z.of_nat (length v)) v acc = Ok acc' → P acc') →
  Forall (λ o, is_bytes o.2) os → P acc → tlv_fold body os acc = Ok acc' → P acc'.
Proof.
  intros Hb Hos. revert acc. induction Hos as [|[ty v] os Hv Hos IH]; intros acc HP H; simpl in H.
  - by simplify_eq.
  - apply outcome_bind_Ok in H as [a [H1 H2]]. eauto.
Qed.

Lemma node_info_opt_wf ty v acc acc' : is_bytes v → ni_wf acc.1 →
  node_info_opt ty (Z.of_nat (length v)) v acc = Ok acc' → ni_wf acc'.1.
Proof.
  intros Hv Hwf H. unfold node_info_opt in H. destruct acc as [out b]. destruct Hwf as (?&?&?).
  destruct (TlvOpt_of_Z ty); invert_ok; split_and!; simpl; eauto using be_get32_inv.
  rewrite NodeState_to_of_Z. by eapply rd_inv.
Qed.

Lemma decode_node_info_wf v ni : is_bytes v → decode_node_info v (length v) = Ok ni → ni_wf ni.
Proof.
  intros Hv. rewrite decode_node_info_split, take_ge by done.
  destruct (tlv_split v) as [os|] eqn:Hs; [|done]. apply tlv_split_inv in Hs as [-> Hos]; [|done].
  unfold node_info_spec. intros H. apply outcome_bind_Ok in H as [[out b] [H1 H2]].
  destruct b; simplify_eq.
  apply (tlv_fold_inv (λ a, ni_wf a.1) _ _ _ _ node_info_opt_wf) in H1; [done|..].
  - eapply Forall_impl; [exact Hos|]. by intros o (_&_&?).
  - by split_and!; vm_compute.
Qed.

Lemma msg_decode_opt_wf ty v m m' : is_bytes v → msg_wf m →
  msg_decode_opt ty (Z.of_nat (length v)) v m = Ok m' → msg_wf m'.
Proof.
  intros Hv [] H. unfold msg_decode_opt in H.
  destruct (TlvOpt_of_Z ty); invert_ok; split; simpl;
    eauto using be_get32_inv, be_get64_inv, rd_inv, Forall_take.
  - rewrite Algorithm_to_of_Z. eauto using be_get16_inv.
  - split; simpl; eauto using be_get32_inv, be_get64_inv.
  - rewrite length_app. simpl. bool_to_prop. apply Nat.leb_gt in Heqb. lia.
  - apply Forall_app_2; [done|]. apply Forall_singleton.
    rewrite Nat2Z.id in *. eauto using decode_node_info_wf.
  - bool_to_prop. assert (is_u8 x) as Hx by eauto using rd_inv. unfold is_u8 in Hx. lia.
Qed.

Lemma msg_decode_wf type payload len m :
  is_bytes payload → (len ≤ length payload)%nat → msg_decode type payload len = Ok m → msg_wf m.
Proof.
  intros Hp Hl. rewrite msg_decode_split by done.
  destruct (tlv_split _) as [os|] eqn:Hs; [|done].
  apply tlv_split_inv in Hs as [_ Hos]; [|by apply Forall_take].
  apply (tlv_fold_inv msg_wf _ _ _ _ msg_decode_opt_wf); [|apply msg_wf0].
  eapply Forall_impl; [exact Hos|]. by intros o (_&_&?).
Qed.

Lemma msg_decode_opt_type ty l v m m' :
  msg_decode_opt ty l v m = Ok m' → m_type m' = m_type m.
Proof. unfold msg_decode_opt. destruct (TlvOpt_of_Z ty); intros; invert_ok; done. Qed.

(** ** Properties of the codec *)

(** C18: on any bytes of any length, [msg_decode] ends without reading outside
    the [len] bytes of the payload: it never faults, and its result does not
    depend on what follows the payload in memory. *)
Theorem msg_decode_memory_safe type payload rest :
  msg_decode type (payload ++ rest) (length payload) ≠ Fault ∧
  msg_decode type (payload ++ rest) (length payload) = msg_decode type payload (length payload).
Proof.
  split; [apply msg_decode_safe; rewrite length_app; lia|].
  rewrite !msg_decode_split by (rewrite ?length_app; lia).
  by rewrite take_app_length, take_ge.
Qed.

(** A PREINIT payload: sequence number 7 and the cluster name "ab". *)
Definition ex_preinit : bytes := [0; 0; 0; 4; 0; 0; 0; 7; 0; 1; 0; 2; 97; 98].

(** Whatever the decoder accepts is well typed: every field is in the range
    of its C++ type, [quorate] is 0 or 1, at most [MAX_NODES_PER_LIST] nodes are
    stored, and the type is the one of the header. *)
Theorem msg_decode_well_typed type payload m :
  is_bytes payload → msg_decode type payload (length payload) = Ok m →
  msg_wf m ∧ m_type m = type.
Proof.
  intros Hp H. split; [by eapply msg_decode_wf in H|].
  rewrite msg_decode_split, take_ge in H by done. destruct (tlv_split payload) as [os|] eqn:Hs; [|done].
  apply tlv_split_inv in Hs as [_ Hos]; [|done].
  apply (tlv_fold_inv (λ m, m_type m = type)) in H; [done| |by eapply Forall_impl; [exact Hos|intros o (_&_&?)]|done].
  intros ???? _ <-. apply msg_decode_opt_type.
Qed.

Lemma msg_decode_well_typed_witness :
  match msg_decode MT_PREINIT ex_preinit (length ex_preinit) with
  | Ok m => msg_wf m ∧ m_type m = MT_PREINIT
  | _ => False
  end.
Proof.
  apply (msg_decode_well_typed MT_PREINIT ex_preinit).
  - apply (bool_decide_unpack _). vm_compute. exact I.
  - vm_compute. reflexivity.
Defined.

(** Options the protocol does not define are skipped: a payload with such an
    option decodes exactly like the payload without it. *)
Theorem msg_decode_ignores_unknown type os1 os2 ty v :
  Forall tlv_ok os1 → Forall tlv_ok os2 → tlv_ok (ty, v) → 24 <= ty →
  let p := tlv_bytes (os1 ++ (ty, v) :: os2) in
  let q := tlv_bytes (os1 ++ os2) in
  msg_decode type p (length p) = msg_decode type q (length q).
Proof.
  intros H1 H2 Ht Hty p q. rewrite !msg_decode_split, !take_ge by done.
  unfold p, q. rewrite !tlv_split_bytes by (apply Forall_app_2; auto).
  unfold msg_spec. rewrite !tlv_fold_app. destruct (tlv_fold _ os1 _) as [m| |]; [|done..].
  assert (TlvOpt_of_Z ty = OPT_OTHER ty) as E.
  { unfold TlvOpt_of_Z. repeat case_match; done || lia. }
  rewrite !outcome_bind_ok. cbn [tlv_fold].
  assert (msg_decode_opt ty (Z.of_nat (length v)) v m = Ok m) as ->
    by (unfold msg_decode_opt; by rewrite E). done.
Qed.

Lemma msg_decode_ignores_unknown_witness :
  let p := tlv_bytes ([(0, [0; 0; 0; 7])] ++ (99, [1; 2; 3]) :: [(1, [97; 98])]) in
  msg_decode MT_PREINIT p (length p) = msg_decode MT_PREINIT ex_preinit (length ex_preinit).
Proof.
  apply (msg_decode_ignores_unknown MT_PREINIT [(0, [0; 0; 0; 7])] [(1, [97; 98])] 99 [1; 2; 3]).
  - repeat constructor; vm_compute; done.
  - repeat constructor; vm_compute; done.
  - repeat constructor; vm_compute; done.
  - lia.
Defined.

(** C34: a VOTE_INFO frame decodes to the sequence number, vote and ring id it was
    built from, and its header announces its type and exact payload length. *)
Theorem vote_info_roundtrip seq ring vote :
  is_u32 seq → ring_ok ring →
  let f := build_vote_info seq ring vote in
  be_get16 f = Ok (MsgType_to_Z MT_VOTE_INFO) ∧
  be_get32 (drop 2 f) = Ok (Z.of_nat (length f - MSG_HEADER_LEN)) ∧
  frame_decode f = Ok (MsgDecoded0 <| m_type := MT_VOTE_INFO |>
    <| m_seq_number := seq |> <| m_seq_number_set := true |>
    <| m_vote := vote |> <| m_vote_set := true |>
    <| m_ring_id := ring |> <| m_ring_id_set := true |>).
Proof.
  intros Hs Hr f. unfold f. rewrite build_vote_info_spec.
  destruct (frame_header MT_VOTE_INFO [(0, u32_bytes seq); (19, [Vote_to_Z vote]);
    (13, u32_bytes (ri_node_id ring) ++ TlvWriter.u64_bytes (ri_seq ring))]) as [H1 H2]; [done..|].
  split; [exact H1|]. split; [exact H2|].
  erewrite frame_decode_opts; [|done|solve_opts]. reflexivity.
Qed.

Lemma vote_info_roundtrip_witness :
  is_u32 7 ∧ frame_decode (build_vote_info 7 (mkRingId 4 2940) VOTE_ACK) =
  Ok (MsgDecoded0 <| m_type := MT_VOTE_INFO |>
    <| m_seq_number := 7 |> <| m_seq_number_set := true |>
    <| m_vote := VOTE_ACK |> <| m_vote_set := true |>
    <| m_ring_id := mkRingId 4 2940 |> <| m_ring_id_set := true |>).
Proof.
  split; [done|]. apply (vote_info_roundtrip 7 (mkRingId 4 2940) VOTE_ACK); [done|].
  split; vm_compute; split; done.
Defined.

(** The replies to node lists and heuristics changes decode to the vote and
    identification they were built from. *)
Theorem vote_replies_roundtrip seq_set seq type ring vote :
  is_u32 seq → ring_ok ring →
  frame_decode (build_node_list_reply seq type ring vote) =
    Ok (MsgDecoded0 <| m_type := MT_NODE_LIST_REPLY |>
      <| m_seq_number := seq |> <| m_seq_number_set := true |>
      <| m_node_list_type := type |> <| m_node_list_type_set := true |>
      <| m_ring_id := ring |> <| m_ring_id_set := true |>
      <| m_vote := vote |> <| m_vote_set := true |>) ∧
  frame_decode (build_heuristics_change_reply seq_set seq vote) =
    Ok (MsgDecoded0 <| m_type := MT_HEURISTICS_CHANGE_REPLY |>
      <| m_seq_number := if seq_set then seq else 0 |> <| m_seq_number_set := seq_set |>
      <| m_vote := vote |> <| m_vote_set := true |>).
Proof.
  intros Hs Hr. rewrite build_node_list_reply_spec, build_heuristics_change_reply_spec. split.
  - erewrite frame_decode_opts; [|done|solve_opts]. reflexivity.
  - destruct seq_set; (erewrite frame_decode_opts; [|done|solve_opts]); reflexivity.
Qed.

Lemma vote_replies_roundtrip_witness :
  is_u32 7 ∧ frame_decode (build_heuristics_change_reply true 7 VOTE_NACK) =
  Ok (MsgDecoded0 <| m_type := MT_HEURISTICS_CHANGE_REPLY |>
      <| m_seq_number := 7 |> <| m_seq_number_set := true |>
      <| m_vote := VOTE_NACK |> <| m_vote_set := true |>).
Proof.
  split; [done|].
  apply (vote_replies_roundtrip true 7 NLT_QUORUM (mkRingId 4 2940) VOTE_NACK); [done|].
  split; vm_compute; split; done.
Defined.

(** The handshake replies decode to what they announce: PREINIT_REPLY its TLS
    mode, INIT_REPLY the presence of the two capability lists it was asked for,
    SET_OPTION_REPLY exactly the options that were set, SERVER_ERROR its sequence
    number. *)
Theorem handshake_replies_roundtrip seq_set seq tls cert code im io mrq mrp hb_set hb kaptb_set kaptb :
  is_u32 seq → is_u8 cert → is_u32 hb → is_u8 kaptb →
  let m0 t := MsgDecoded0 <| m_type := t |>
    <| m_seq_number := if seq_set then seq else 0 |> <| m_seq_number_set := seq_set |> in
  frame_decode (build_preinit_reply seq_set seq tls cert) =
    Ok ((m0 MT_PREINIT_REPLY) <| m_tls_supported := tls |> <| m_tls_supported_set := true |>
      <| m_tls_client_cert_required := cert |> <| m_tls_client_cert_required_set := true |>) ∧
  frame_decode (build_init_reply seq_set seq code im io mrq mrp) =
    Ok ((m0 MT_INIT_REPLY) <| m_supported_messages_present := im |>
      <| m_supported_options_present := io |>) ∧
  frame_decode (build_set_option_reply seq_set seq hb_set hb kaptb_set kaptb) =
    Ok ((m0 MT_SET_OPTION_REPLY)
      <| m_heartbeat_interval := if hb_set then hb else 0 |> <| m_heartbeat_interval_set := hb_set |>
      <| m_keep_active_partition_tie_breaker := if kaptb_set then kaptb else 0 |>
      <| m_keep_active_partition_tie_breaker_set := kaptb_set |>) ∧
  frame_decode (build_server_error seq_set seq code) = Ok (m0 MT_SERVER_ERROR).
Proof.
  intros Hs Hc Hh Hk m0.
  rewrite build_preinit_reply_spec, build_init_reply_spec, build_set_option_reply_spec,
    build_server_error_spec. split_and!.
  - destruct seq_set; (erewrite frame_decode_opts; [|done|solve_opts]); reflexivity.
  - destruct seq_set, im, io;
      (erewrite frame_decode_opts;
       [|done|solve_opts]);
      reflexivity.
  - destruct seq_set, hb_set, kaptb_set;
      (erewrite frame_decode_opts; [|done|solve_opts]); reflexivity.
  - destruct seq_set; (erewrite frame_decode_opts;
      [|done|solve_opts]); reflexivity.
Qed.

Lemma handshake_replies_roundtrip_witness :
  frame_decode (build_preinit_reply true 7 TLS_UNSUPPORTED 0) =
  Ok (MsgDecoded0 <| m_type := MT_PREINIT_REPLY |>
    <| m_seq_number := 7 |> <| m_seq_number_set := true |>
    <| m_tls_supported := TLS_UNSUPPORTED |> <| m_tls_supported_set := true |>
    <| m_tls_client_cert_required := 0 |> <| m_tls_client_cert_required_set := true |>).
Proof.
  apply (handshake_replies_roundtrip true 7 TLS_UNSUPPORTED 0 ERR_NO_ERROR true true 1 1
           true 8000 true 1); done.
Defined.

(** *** Node lists *)

Definition ni_opts (ni : NodeInfo) : list (Z * bytes) :=
  [(9, u32_bytes (ni_node_id ni))]
  ++ (if ni_data_center_id ni =? 0 then [] else [(15, u32_bytes (ni_data_center_id ni))])
  ++ (if bool_decide (ni_state ni = NS_NOT_SET) then []
      else [(16, [u8 (NodeState_to_Z (ni_state ni))])]).

(** A node whose state is an enumerator or a byte without one: what fits the wire. *)
Definition ni_wire (n : NodeInfo) : Prop :=
  ni_wf n ∧ NodeState_of_Z (NodeState_to_Z (ni_state n)) = ni_state n.

Lemma ni_opts_bytes ni :
  (length (tlv_bytes (ni_opts ni)) ≤ 21)%nat ∧ is_bytes (tlv_bytes (ni_opts ni)).
Proof.
  assert (∀ os, Forall (λ o, is_bytes o.2) os → is_bytes (tlv_bytes os)) as Hb.
  { induction 1 as [|[ty v] os Hv _ IH]; [constructor|]. rewrite tlv_bytes_cons.
    repeat (apply Forall_cons; split; [apply u8_range|]). by apply Forall_app_2. }
  unfold ni_opts. split.
  - destruct (_ =? 0), (bool_decide _); simpl; lia.
  - apply Hb. destruct (_ =? 0), (bool_decide _); simpl;
      repeat (apply Forall_cons; split); try apply Forall_nil; auto with qnetd.
Qed.

Lemma add_node_info_spec buf ni :
  TlvWriter.add_node_info buf ni = buf ++ tlv_enc (17, tlv_bytes (ni_opts ni)).
Proof.
  destruct (ni_opts_bytes ni) as [Hl _].
  unfold TlvWriter.add_node_info. cbv zeta.
  match goal with |- TlvWriter.add _ _ ?sub _ = _ => assert (sub = tlv_bytes (ni_opts ni)) as Hsub end.
  { unfold ni_opts. destruct (_ =? 0), (bool_decide _); cbn [negb]; autorewrite with tlvw;
      unfold tlv_bytes; simpl; rewrite ?app_nil_r; reflexivity. }
  rewrite Hsub. rewrite u16_id by (unfold is_u16; lia). by apply add_spec; [|lia].
Qed.

Lemma node_info_opt_u32 (k : Z → NodeInfo * bool) v :
  is_u32 v → (x ← be_get32 (u32_bytes v); Ok (k x)) = Ok (k v).
Proof. intros. by rewrite be_get32_bytes'. Qed.

Lemma node_info_spec_opts ni : ni_wire ni → node_info_spec (ni_opts ni) = Ok ni.
Proof.
  intros [(H1 & H2 & H3) H4]. destruct ni as [id dc st]; simpl in *.
  assert (∀ n b, node_info_opt 9 4 (u32_bytes id) (n, b) = Ok (n <| ni_node_id := id |>, true)) as E1
    by (intros n b; exact (node_info_opt_u32 (λ x, (n <| ni_node_id := x |>, true)) id H1)).
  assert (∀ n b, node_info_opt 15 4 (u32_bytes dc) (n, b) = Ok (n <| ni_data_center_id := dc |>, b)) as E2
    by (intros n b; exact (node_info_opt_u32 (λ x, (n <| ni_data_center_id := x |>, b)) dc H2)).
  assert (∀ n b, node_info_opt 16 1 [u8 (NodeState_to_Z st)] (n, b) = Ok (n <| ni_state := st |>, b)) as E3
    by (intros n b; unfold node_info_opt; simpl; by rewrite u8_id, H4).
  unfold node_info_spec, ni_opts. cbn [ni_node_id ni_data_center_id ni_state].
  destruct (Z.eqb_spec dc 0) as [->|], (bool_decide_reflect (st = NS_NOT_SET)) as [->|];
    cbn [app tlv_fold]; rewrite E1, outcome_bind_ok; rewrite ?E2, ?outcome_bind_ok;
    rewrite ?E3, ?outcome_bind_ok; reflexivity.
Qed.

Lemma ni_opts_ok ni : Forall tlv_ok (ni_opts ni).
Proof.
  unfold ni_opts. repeat (apply Forall_app; split).
  - apply Forall_singleton, tlv_ok_intro; [by vm_compute|simpl; lia|auto with qnetd].
  - destruct (_ =? 0); [apply Forall_nil_2|].
    apply Forall_singleton, tlv_ok_intro; [by vm_compute|simpl; lia|auto with qnetd].
  - destruct (bool_decide _); [apply Forall_nil_2|].
    apply Forall_singleton, tlv_ok_intro; [by vm_compute|simpl; lia|auto with qnetd].
Qed.

Lemma decode_node_info_opts ni : ni_wire ni →
  decode_node_info (tlv_bytes (ni_opts ni)) (length (tlv_bytes (ni_opts ni))) = Ok ni.
Proof.
  intros Hni. rewrite decode_node_info_split, take_ge, tlv_split_bytes by (done || apply ni_opts_ok).
  by apply node_info_spec_opts.
Qed.

Lemma add_node_info_list buf ns :
  foldl TlvWriter.add_node_info buf ns = buf ++ tlv_bytes ((λ n, (17, tlv_bytes (ni_opts n))) <$> ns).
Proof.
  revert buf. induction ns as [|n ns IH]; intros buf; simpl; [by rewrite app_nil_r|].
  rewrite IH, add_node_info_spec, <-app_assoc. done.
Qed.

Lemma msg_decode_opt_node_info l d m :
  msg_decode_opt 17 l d m =
    (ni ← decode_node_info d (Z.to_nat l);
     if (MAX_NODES_PER_LIST <=? length (m_nodes m))%nat then Reject
     else Ok (m <| m_nodes ::= λ ns, ns ++ [ni] |>)).
Proof. reflexivity. Qed.

Lemma msg_spec_nodes ns m :
  Forall ni_wire ns →
  tlv_fold msg_decode_opt ((λ n, (17, tlv_bytes (ni_opts n))) <$> ns) m =
    if decide (ns = [] ∨ length (m_nodes m) + length ns ≤ MAX_NODES_PER_LIST)%nat
    then Ok (m <| m_nodes ::= λ l, l ++ ns |>) else Reject (A := MsgDecoded).
Proof.
  intros Hns. revert m. induction Hns as [|n ns Hn Hns IH]; intros m.
  { rewrite decide_True by auto. destruct m. unfold set_field, set_m_nodes. simpl. by rewrite app_nil_r. }
  rewrite fmap_cons. cbn [tlv_fold].
  rewrite msg_decode_opt_node_info.
  rewrite Nat2Z.id, decode_node_info_opts, outcome_bind_ok by done.
  unfold MAX_NODES_PER_LIST in *.
  destruct (Nat.leb_spec 16 (length (m_nodes m))).
  { rewrite decide_False; [done|]. intros [|]; [done|]. simpl in *. lia. }
  rewrite outcome_bind_ok, IH. cbn [m_nodes set_field set_m_nodes]. rewrite length_app. cbn [length].
  destruct (decide (ns = [] ∨ (length (m_nodes m) + 1 + length ns ≤ 16)%nat)) as [Hd|Hd].
  - rewrite decide_True by (right; destruct Hd as [->|]; simpl; lia).
    f_equal. destruct m. unfold set_field, set_m_nodes. simpl. by rewrite <-app_assoc.
  - rewrite decide_False; [done|]. intros [|]; [done|]. apply Hd. right. lia.
Qed.

(** C35: a node list written with [add_node_info] decodes to the same nodes in the
    same order, data centre and state included, up to [MAX_NODES_PER_LIST]
    entries; a longer list is rejected. *)
Theorem node_list_roundtrip type ns :
  Forall ni_wire ns →
  let p := foldl TlvWriter.add_node_info [] ns in
  msg_decode type p (length p) =
    if (length ns <=? MAX_NODES_PER_LIST)%nat
    then Ok (MsgDecoded0 <| m_type := type |> <| m_nodes := ns |>) else Reject.
Proof.
  intros Hns p. unfold p. rewrite add_node_info_list, app_nil_l.
  rewrite msg_decode_split, take_ge by done.
  rewrite tlv_split_bytes.
  2: { apply Forall_fmap, Forall_forall. intros n _. destruct (ni_opts_bytes n).
       apply tlv_ok_intro; [by vm_compute|lia|done]. }
  unfold msg_spec. rewrite msg_spec_nodes by done.
  change (length (m_nodes MsgDecoded0 <| m_type := type |>)) with 0%nat.
  destruct (Nat.leb_spec (length ns) MAX_NODES_PER_LIST) as [Hl|Hl].
  - by rewrite decide_True by (right; exact Hl).
  - rewrite decide_False; [done|]. intros [->|]; unfold MAX_NODES_PER_LIST in *; simpl in *; lia.
Qed.

Lemma node_list_roundtrip_witness :
  let ns := [mkNodeInfo 2 0 NS_MEMBER; mkNodeInfo 4 7 NS_NOT_SET; mkNodeInfo 9 0 (NS_OTHER 77)] in
  let p := foldl TlvWriter.add_node_info [] ns in
  msg_decode MT_NODE_LIST p (length p) =
    Ok (MsgDecoded0 <| m_type := MT_NODE_LIST |> <| m_nodes := ns |>).
Proof.
  apply (node_list_roundtrip MT_NODE_LIST
    [mkNodeInfo 2 0 NS_MEMBER; mkNodeInfo 4 7 NS_NOT_SET; mkNodeInfo 9 0 (NS_OTHER 77)]).
  repeat (apply Forall_cons; split); try apply Forall_nil; repeat split; vm_compute; done.
Defined.

(** An echo reply has the length and every byte of the request after its
    type, and its type is ECHO_REPLY. *)
Theorem echo_reply_copies frame :
  (2 ≤ length frame)%nat →
  let f := build_echo_reply frame (length frame) in
  be_get16 f = Ok (MsgType_to_Z MT_ECHO_REPLY) ∧ drop 2 f = drop 2 frame ∧ length f = length frame.
Proof.
  intros Hl. destruct frame as [|a [|b frame]]; simpl in Hl; [lia..|].
  unfold build_echo_reply. rewrite take_ge by done. done.
Qed.

Lemma echo_reply_copies_witness :
  drop 2 (build_echo_reply [0; 8; 0; 0; 0; 0] 6) = [0; 0; 0; 0].
Proof. apply (echo_reply_copies [0; 8; 0; 0; 0; 0]). simpl. lia. Defined.
