(* ===== verification/Grammar.v ===== *)
(** * The grammar of messages

    A specification of the payloads of the qnetd protocol, independent of the
    decoder: which options there are, which values they may have and what they say
    about a message.  [msg_decode] accepts exactly the payloads of the grammar and
    returns the message they describe. *)
From S2P Require Import Prelude Wire Tlv Msg.

(** ** Values *)

(** The number a sequence of bytes stands for, most significant byte first. *)
Definition be_val (v : bytes) : Z := foldl (λ a b, a * 256 + b) 0 v.

(** A sequence of options read from left to right, each with a meaning [R]. *)
Inductive reading {A} (R : A → Z * bytes → A → Prop) : A → list (Z * bytes) → A → Prop :=
| rd_nil a : reading R a [] a
| rd_cons a o a' os a'' : R a o a' → reading R a' os a'' → reading R a (o :: os) a''.

(** ** Options of a node *)

Inductive node_option : NodeInfo → Z * bytes → NodeInfo → Prop :=
| no_id n v : length v = 4%nat → node_option n (9, v) (n <| ni_node_id := be_val v |>)
| no_data_center n v : length v = 4%nat → node_option n (15, v) (n <| ni_data_center_id := be_val v |>)
| no_state n b : node_option n (16, [b]) (n <| ni_state := NodeState_of_Z b |>)
| no_ignored n ty v : ty ∉ [9; 15; 16] → node_option n (ty, v) n.

(** A blob of options that describes a node; it names the node id. *)
Definition describes_node (v : bytes) (n : NodeInfo) : Prop := ∃ os,
  Forall tlv_ok os ∧ v = tlv_bytes os ∧ 9 ∈ os.*1 ∧ reading node_option NodeInfo0 os n.

(** ** Options of a message *)

Inductive msg_option : MsgDecoded → Z * bytes → MsgDecoded → Prop :=
| mo_seq m v : length v = 4%nat →
    msg_option m (0, v) (m <| m_seq_number := be_val v |> <| m_seq_number_set := true |>)
| mo_cluster_name m v : msg_option m (1, v) (m <| m_cluster_name := v |>)
| mo_tls m t : msg_option m (2, [TlsSupported_to_Z t]) (m <| m_tls_supported := t |> <| m_tls_supported_set := true |>)
| mo_cert m b : msg_option m (3, [b])
    (m <| m_tls_client_cert_required := b |> <| m_tls_client_cert_required_set := true |>)
| mo_messages m v : Nat.Even (length v) → msg_option m (4, v) (m <| m_supported_messages_present := true |>)
| mo_options m v : Nat.Even (length v) → msg_option m (5, v) (m <| m_supported_options_present := true |>)
| mo_node_id m v : length v = 4%nat → msg_option m (9, v) (m <| m_node_id := be_val v |> <| m_node_id_set := true |>)
| mo_algorithm m v : length v = 2%nat → msg_option m (11, v)
    (m <| m_decision_algorithm := Algorithm_of_Z (be_val v) |> <| m_decision_algorithm_set := true |>)
| mo_heartbeat m v : length v = 4%nat →
    msg_option m (12, v) (m <| m_heartbeat_interval := be_val v |> <| m_heartbeat_interval_set := true |>)
| mo_ring m v w : length v = 4%nat → length w = 8%nat →
    msg_option m (13, v ++ w) (m <| m_ring_id := mkRingId (be_val v) (be_val w) |> <| m_ring_id_set := true |>)
| mo_config_version m v : length v = 8%nat →
    msg_option m (14, v) (m <| m_config_version := be_val v |> <| m_config_version_set := true |>)
| mo_node_info m v n : describes_node v n → (length (m_nodes m) < 16)%nat →
    msg_option m (17, v) (m <| m_nodes ::= λ ns, ns ++ [n] |>)
| mo_list_type m t : msg_option m (18, [NodeListType_to_Z t])
    (m <| m_node_list_type := t |> <| m_node_list_type_set := true |>)
| mo_vote m t : msg_option m (19, [Vote_to_Z t]) (m <| m_vote := t |> <| m_vote_set := true |>)
| mo_quorate m (b : bool) : msg_option m (20, [if b then 1 else 0])
    (m <| m_quorate := if b then 1 else 0 |> <| m_quorate_set := true |>)
| mo_tie_breaker m t v : length v = 4%nat → msg_option m (21, TieBreakerMode_to_Z t :: v)
    (m <| m_tie_breaker := mkTieBreaker t (be_val v) |> <| m_tie_breaker_set := true |>)
| mo_heuristics m t : msg_option m (22, [Heuristics_to_Z t]) (m <| m_heuristics := t |>)
| mo_keep_active m b : msg_option m (23, [b])
    (m <| m_keep_active_partition_tie_breaker := b |> <| m_keep_active_partition_tie_breaker_set := true |>)
| mo_ignored m ty v : ty ∈ [6; 7; 8; 10; 15; 16] ∨ 24 <= ty → msg_option m (ty, v) m.

(** A payload that describes the message [m] of type [type]. *)
Definition describes (type : MsgType) (payload : bytes) (m : MsgDecoded) : Prop := ∃ os,
  Forall tlv_ok os ∧ payload = tlv_bytes os ∧ reading msg_option (MsgDecoded0 <| m_type := type |>) os m.

(** ** Reads of the decoder *)

Lemma be16_val v : is_bytes v → length v = 2%nat → be_get16 v = Ok (be_val v).
Proof.
  intros Hb Hl. destruct v as [|a [|b [|]]]; try done. rewrite be_get16_cons. f_equal.
  apply Forall_cons in Hb as [Ha [Hb _]%Forall_cons]. unfold be16, be_val, is_u8 in *. cbn [foldl].
  rewrite lor_shiftl_add by lia. unfold u16. rewrite Z.mod_small; lia.
Qed.
Lemma be32_val v : is_bytes v → length v = 4%nat → be_get32 v = Ok (be_val v) ∧ is_u32 (be_val v).
Proof.
  intros Hb Hl. destruct v as [|a [|b [|c [|d [|]]]]]; try done.
  apply Forall_cons in Hb as [Ha [Hb [Hc [Hd _]%Forall_cons]%Forall_cons]%Forall_cons].
  unfold is_u8, be_val, is_u32 in *. cbn [foldl]. split; [|lia]. unfold be_get32, rd. cbn. f_equal.
  rewrite lor_bytes by lia. unfold u32. rewrite Z.mod_small; lia.
Qed.
Lemma be64_val v : is_bytes v → length v = 8%nat → be_get64 v = Ok (be_val v).
Proof.
  intros Hb Hl. rewrite <-(take_drop 4 v) in Hb |- *. set (h := take 4 v) in *. set (l := drop 4 v) in *.
  assert (length h = 4%nat ∧ length l = 4%nat) as [Hh Hll] by (unfold h, l; rewrite length_take, length_drop; lia).
  apply Forall_app in Hb as [Hbh Hbl]. destruct (be32_val h Hbh Hh) as [Eh Rh], (be32_val l Hbl Hll) as [El Rl].
  unfold be_get64. rewrite be_get32_app by lia. rewrite Eh, outcome_bind_ok.
  rewrite (drop_app_length' h l) by done. rewrite El, outcome_bind_ok. f_equal. unfold is_u32 in *.
  assert (be_val (h ++ l) = be_val h * 2 ^ 32 + be_val l) as ->.
  { clear -Hll. unfold be_val. rewrite foldl_app. generalize (foldl (λ a b, a * 256 + b) 0 h). intros x.
    destruct l as [|a [|b [|c [|d [|]]]]]; try done. cbn [foldl]. lia. }
  rewrite lor_shiftl_add by lia. unfold u64. rewrite Z.mod_small; lia.
Qed.

Lemma rd0_val (b : Z) (v : bytes) : rd (b :: v) 0 = Ok b.
Proof. done. Qed.
Lemma byte_val (v : bytes) : length v = 1%nat → ∃ b, v = [b].
Proof. destruct v as [|b []]; try done. eauto. Qed.

Lemma even_mod (n : nat) : (Z.of_nat n mod 2 =? 0) = true ↔ Nat.Even n.
Proof.
  rewrite Z.eqb_eq. split.
  - intros H. exists (Z.to_nat (Z.of_nat n / 2)). Z.div_mod_to_equations. lia.
  - intros [k ->]. Z.div_mod_to_equations. lia.
Qed.

(** ** Options of the grammar are decoded *)

Lemma opt_type ty o : TlvOpt_of_Z ty = o → ty = TlvOpt_to_Z o.
Proof. intros <-. by rewrite TlvOpt_to_of_Z. Qed.

(** The types the switches ignore. *)
Lemma node_option_ignored ty l v acc : ty ∉ [9; 15; 16] → node_info_opt ty l v acc = Ok acc.
Proof.
  intros Hty. destruct acc as [n b]. unfold node_info_opt. destruct (TlvOpt_of_Z ty) eqn:E; try done;
    apply opt_type in E; subst ty; exfalso; apply Hty; set_solver.
Qed.
Lemma msg_option_ignored ty l v m : ty ∈ [6; 7; 8; 10; 15; 16] ∨ 24 <= ty → msg_decode_opt ty l v m = Ok m.
Proof.
  intros Hty. unfold msg_decode_opt. destruct (TlvOpt_of_Z ty) eqn:E; try done;
    apply opt_type in E; cbn in E; subst ty; exfalso; (destruct Hty as [Hty|Hty]; [|lia]);
    revert Hty; apply (bool_decide_unpack _); vm_compute; exact I.
Qed.

Lemma node_option_decodes n b o n' : is_bytes o.2 → node_option n o n' →
  node_info_opt o.1 (Z.of_nat (length o.2)) o.2 (n, b) = Ok (n', b || (o.1 =? 9)).
Proof.
  intros Hb. destruct 1 as [n v Hl|n v Hl|n s|n ty v Hty]; cbn [fst snd] in *.
  - unfold node_info_opt. rewrite Hl. cbn. destruct (be32_val v Hb Hl) as [-> _]. by rewrite orb_true_r.
  - unfold node_info_opt. rewrite Hl. cbn. destruct (be32_val v Hb Hl) as [-> _]. by rewrite orb_false_r.
  - by rewrite orb_false_r.
  - rewrite node_option_ignored by done. destruct (Z.eqb_spec ty 9) as [->|]; [set_solver|]. by rewrite orb_false_r.
Qed.

Lemma reading_node_decodes os n b n' : Forall tlv_ok os → reading node_option n os n' →
  tlv_fold node_info_opt os (n, b) = Ok (n', b || bool_decide (9 ∈ os.*1)).
Proof.
  intros Hok Hr. revert b Hok. induction Hr as [n|n [ty v] n1 os n' Ho Hr IH]; intros b Hok; [by rewrite orb_false_r|].
  apply Forall_cons in Hok as [(_ & _ & Hv) Hok]. cbn [tlv_fold].
  pose proof (node_option_decodes n b (ty, v) n1 Hv Ho) as E. cbn [fst snd] in E. rewrite E, outcome_bind_ok, IH by done. f_equal. f_equal.
  rewrite <-orb_assoc. f_equal. apply eq_true_iff_eq. rewrite orb_true_iff, !bool_decide_eq_true, Z.eqb_eq.
  rewrite fmap_cons, elem_of_cons. cbn [fst]. split; (intros [?|?]; [left|right]; congruence).
Qed.

Lemma describes_node_decodes v n : describes_node v n → decode_node_info v (length v) = Ok n.
Proof.
  intros (os & Hok & -> & H9 & Hr). rewrite decode_node_info_split, take_ge, tlv_split_bytes by done.
  unfold node_info_spec. rewrite (reading_node_decodes os NodeInfo0 false n Hok Hr), outcome_bind_ok.
  by rewrite (bool_decide_eq_true_2 _ H9).
Qed.

Lemma msg_option_decodes m o m' : is_bytes o.2 → msg_option m o m' →
  msg_decode_opt o.1 (Z.of_nat (length o.2)) o.2 m = Ok m'.
Proof.
  intros Hb. destruct 1; cbn [fst snd] in *;
    try (unfold msg_decode_opt; match goal with H : length _ = _ |- _ => rewrite H end; cbn;
         first [by rewrite be16_val|by rewrite (proj1 (be32_val v Hb ltac:(done)))|by rewrite be64_val]);
    try reflexivity.
  - unfold msg_decode_opt. cbn [TlvOpt_of_Z]. by rewrite Nat2Z.id, (proj2 (Nat.ltb_ge _ _)), take_ge by done.
  - by destruct t.
  - unfold msg_decode_opt. cbn. by rewrite (proj2 (even_mod _)).
  - unfold msg_decode_opt. cbn. by rewrite (proj2 (even_mod _)).
  - unfold msg_decode_opt. rewrite length_app. replace (Z.of_nat (length v + length w)) with 12 by lia. cbn.
    apply Forall_app in Hb as [Hv Hw]. rewrite be_get32_app by lia. destruct (be32_val v Hv) as [-> _]; [done|].
    rewrite outcome_bind_ok, (drop_app_length' v w) by done. by rewrite be64_val.
  - unfold msg_decode_opt. cbn [TlvOpt_of_Z]. rewrite Nat2Z.id, (describes_node_decodes v n) by done. rewrite outcome_bind_ok.
    unfold MAX_NODES_PER_LIST. by rewrite (proj2 (Nat.leb_gt _ _)).
  - by destruct t.
  - by destruct t.
  - by destruct b.
  - apply Forall_cons in Hb as [_ Hv]. destruct (be32_val v Hv) as [E _]; [done|].
    trans (id ← be_get32 v; Ok (m <| m_tie_breaker := mkTieBreaker t id |> <| m_tie_breaker_set := true |>)); [|by rewrite E].
    unfold msg_decode_opt. cbn [length]. replace (Z.of_nat (S (length v))) with 5 by lia. by destruct t.
  - by destruct t.
  - by apply msg_option_ignored.
Qed.

(** ** Decoded options are of the grammar *)

(** The length test of a successful switch. *)
Ltac accepted_length H :=
  match type of H with
  | context [Z.of_nat (length ?v) =? ?k] =>
      let Hl := fresh "Hl" in destruct (Z.eqb_spec (Z.of_nat (length v)) k) as [Hl|Hl]; [|done]; cbn [negb] in H
  end.

Lemma node_decodes_option n b ty v n' b' : is_bytes v →
  node_info_opt ty (Z.of_nat (length v)) v (n, b) = Ok (n', b') → node_option n (ty, v) n' ∧ b' = b || (ty =? 9).
Proof.
  intros Hb H. destruct (decide (ty ∈ [9; 15; 16])) as [Hty|Hty].
  2: { rewrite node_option_ignored in H by done. injection H as <- <-. split; [by constructor|].
       destruct (Z.eqb_spec ty 9) as [->|]; [set_solver|]. by rewrite orb_false_r. }
  assert (ty = 9 ∨ ty = 15 ∨ ty = 16) as [->|[->| ->]] by set_solver; unfold node_info_opt in H;
    cbn [TlvOpt_of_Z] in H; accepted_length H.
  - destruct (be32_val v Hb) as [E _]; [lia|]. rewrite E in H. injection H as <- <-.
    split; [constructor; lia|by rewrite orb_true_r].
  - destruct (be32_val v Hb) as [E _]; [lia|]. rewrite E in H. injection H as <- <-.
    split; [constructor; lia|by rewrite orb_false_r].
  - destruct (byte_val v) as [x ->]; [lia|]. injection H as <- <-. split; [constructor|by rewrite orb_false_r].
Qed.

Lemma node_decodes_reading os n b n' b' : Forall tlv_ok os → tlv_fold node_info_opt os (n, b) = Ok (n', b') →
  reading node_option n os n' ∧ (b' = true → b = true ∨ 9 ∈ os.*1).
Proof.
  intros Hok. revert n b. induction Hok as [|[ty v] os (_ & _ & Hv) Hok IH]; intros n b; cbn [tlv_fold].
  - intros [= <- <-]. split; [constructor|by left].
  - intros ([n1 b1] & E1 & E2)%outcome_bind_Ok. destruct (node_decodes_option _ _ _ _ _ _ Hv E1) as [Ho ->].
    destruct (IH _ _ E2) as [Hr H9]. split; [by econstructor|]. intros [[->| ->%Z.eqb_eq]%orb_true_iff|Hin]%H9; [by left|..];
      right; rewrite fmap_cons; [left|by right].
Qed.

Lemma node_decodes_describes v n : is_bytes v → decode_node_info v (length v) = Ok n → describes_node v n.
Proof.
  intros Hb. rewrite decode_node_info_split, take_ge by done. destruct (tlv_split v) as [os|] eqn:Hs; [|done].
  apply tlv_split_inv in Hs as [-> Hos]; [|done]. unfold node_info_spec. intros ([n' b] & E & H)%outcome_bind_Ok.
  destruct b; [|done]. injection H as ->. destruct (node_decodes_reading _ _ _ _ _ Hos E) as [Hr H9].
  exists os. split_and!; [done..| |done]. by destruct H9.
Qed.

Lemma opt_known ty x : 0 <= ty < 24 → TlvOpt_of_Z ty ≠ OPT_OTHER x.
Proof. intros Hty. unfold TlvOpt_of_Z. repeat case_match; done || lia. Qed.

Lemma msg_decodes_option m ty v m' : tlv_ok (ty, v) → msg_decode_opt ty (Z.of_nat (length v)) v m = Ok m' →
  msg_option m (ty, v) m'.
Proof.
  intros (Hty & _ & Hb) H. cbn [fst snd] in *. destruct (Z.leb_spec 24 ty) as [Ho|Ho].
  { rewrite msg_option_ignored in H by (by right). injection H as <-. apply mo_ignored. by right. }
  unfold msg_decode_opt in H. pose proof (opt_known ty) as Hk. unfold is_u16 in Hty.
  destruct (TlvOpt_of_Z ty) eqn:Et; [..|by destruct (Hk v0); [lia|]]; clear Hk; apply opt_type in Et; cbn [TlvOpt_to_Z] in Et; subst ty;
    try (injection H as <-; apply mo_ignored; left; apply (bool_decide_unpack _); vm_compute; exact I);
    try accepted_length H;
    try (destruct (be32_val v Hb) as [E _]; [lia|]; rewrite E in H; injection H as <-; constructor; lia);
    try (rewrite be64_val in H by (done || lia); injection H as <-; constructor; lia);
    try (destruct (byte_val v) as [x ->]; [lia|]; rewrite rd0_val, outcome_bind_ok in H;
         apply Forall_cons in Hb as [Hx _]; unfold is_u8 in Hx).
  - rewrite Nat2Z.id, (proj2 (Nat.ltb_ge _ _)), take_ge in H by done. injection H as <-. constructor.
  - destruct (Z.ltb_spec 2 x); [done|]. destruct (TlsSupported_of_Z_Some x) as (t & E & <-); [lia|]. rewrite E in H.
    injection H as <-. constructor.
  - injection H as <-. constructor.
  - destruct (_ mod 2 =? 0) eqn:E; [|done]. injection H as <-. constructor. by apply even_mod.
  - destruct (_ mod 2 =? 0) eqn:E; [|done]. injection H as <-. constructor. by apply even_mod.
  - rewrite be16_val in H by (done || lia). injection H as <-. constructor. lia.
  - rewrite <-(take_drop 4 v) in Hb |- *. apply Forall_app in Hb as [Hv Hw].
    assert (length (take 4 v) = 4%nat ∧ length (drop 4 v) = 8%nat) as [L1 L2] by (rewrite length_take, length_drop; lia).
    rewrite <-(take_drop 4 v), be_get32_app in H by lia. destruct (be32_val _ Hv L1) as [E1 _].
    rewrite E1, outcome_bind_ok, (drop_app_length' (take 4 v)) in H by done.
    rewrite be64_val in H by done. injection H as <-. by constructor.
  - apply outcome_bind_Ok in H as (n & En & H). rewrite Nat2Z.id in En.
    destruct (Nat.leb_spec MAX_NODES_PER_LIST (length (m_nodes m))) as [|Hl]; [done|]. injection H as <-.
    constructor; [by apply node_decodes_describes|exact Hl].
  - destruct (Z.ltb_spec 3 x); [done|]. destruct (NodeListType_of_Z_Some x) as (t & E & <-); [lia|]. rewrite E in H.
    injection H as <-. constructor.
  - destruct (Z.ltb_spec 5 x); [done|]. destruct (Vote_of_Z_Some x) as (t & E & <-); [lia|]. rewrite E in H.
    injection H as <-. constructor.
  - destruct (Z.ltb_spec 1 x); [done|]. injection H as <-.
    assert (x = 0 ∨ x = 1) as [->| ->] by lia; [apply (mo_quorate m false)|apply (mo_quorate m true)].
  - destruct v as [|x v]; [done|]. rewrite rd0_val, outcome_bind_ok in H. apply Forall_cons in Hb as [Hx Hb].
    destruct ((x <? 1) || (3 <? x)) eqn:Ex; [done|]. apply orb_false_elim in Ex as [?%Z.ltb_ge ?%Z.ltb_ge].
    destruct (TieBreakerMode_of_Z_Some x) as (t & E & <-); [lia|]. rewrite E in H. cbn in Hl. cbn [of_option] in H.
    rewrite outcome_bind_ok in H. destruct (be32_val v Hb) as [E1 _]; [lia|].
    change (drop 1 (TieBreakerMode_to_Z t :: v)) with v in H. rewrite E1 in H. injection H as <-. constructor. lia.
  - destruct (Z.ltb_spec 2 x); [done|]. destruct (Heuristics_of_Z_Some x) as (t & E & <-); [lia|]. rewrite E in H.
    injection H as <-. constructor.
  - injection H as <-. constructor.
Qed.

(** ** Messages *)

Lemma msg_fold_reading os m m' : Forall tlv_ok os → tlv_fold msg_decode_opt os m = Ok m' ↔ reading msg_option m os m'.
Proof.
  intros Hok. split.
  - revert m. induction Hok as [|[ty v] os Ho Hok IH]; intros m; cbn [tlv_fold].
    + intros [= <-]. constructor.
    + intros (m1 & E1 & E2)%outcome_bind_Ok. econstructor; [by apply msg_decodes_option|by apply IH].
  - intros Hr. induction Hr as [m|m [ty v] m1 os m' Ho Hr IH]; [done|]. apply Forall_cons in Hok as [(_ & _ & Hv) Hok].
    cbn [tlv_fold]. pose proof (msg_option_decodes m (ty, v) m1 Hv Ho) as E. cbn [fst snd] in E.
    rewrite E, outcome_bind_ok. by apply IH.
Qed.

(** C17: [msg_decode] accepts exactly the payloads of the grammar - sequences of
    well-formed options whose lengths and values are the ones the protocol allows,
    with at most 16 nodes, each with a node id - and returns the message they
    describe: every field has the value of the last option that sets it, in
    network byte order, nodes are listed in order and options without a field
    are skipped.  Every other payload is rejected. *)
Theorem msg_decode_refines_grammar type payload :
  is_bytes payload →
  (∀ m, msg_decode type payload (length payload) = Ok m ↔ describes type payload m) ∧
  ((¬ ∃ m, describes type payload m) → msg_decode type payload (length payload) = Reject).
Proof.
  intros Hp.
  assert (∀ m, msg_decode type payload (length payload) = Ok m ↔ describes type payload m) as Hiff.
  { intros m. rewrite msg_decode_split, take_ge by done. split.
    - destruct (tlv_split payload) as [os|] eqn:Hs; [|done]. apply tlv_split_inv in Hs as [-> Hos]; [|done].
      intros Hm. exists os. split_and!; [done..|]. by apply msg_fold_reading.
    - intros (os & Hos & -> & Hr). rewrite tlv_split_bytes by done. by apply msg_fold_reading. }
  split; [exact Hiff|]. intros Hno. pose proof (msg_decode_safe type payload (length payload) ltac:(done)) as Hf.
  destruct (msg_decode type payload (length payload)) as [m| |] eqn:E; [|done..]. exfalso. apply Hno. exists m. by apply Hiff.
Qed.
(** A PREINIT payload is accepted; with a sequence number of 3 bytes it is not. *)
Lemma msg_decode_refines_grammar_witness :
  (∃ m, describes MT_PREINIT ex_preinit m ∧ m_seq_number m = 7 ∧ m_cluster_name m = [97; 98]) ∧
  ¬ (∃ m, describes MT_PREINIT [0; 0; 0; 3; 0; 0; 7] m).
Proof.
  split.
  - eexists. split.
    + apply (msg_decode_refines_grammar MT_PREINIT ex_preinit).
      * apply (bool_decide_unpack _). vm_compute. exact I.
      * vm_compute. reflexivity.
    + split; vm_compute; reflexivity.
  - intros [m Hm]. apply (msg_decode_refines_grammar MT_PREINIT [0; 0; 0; 3; 0; 0; 7]) in Hm.
    + vm_compute in Hm. discriminate Hm.
    + apply (bool_decide_unpack _). vm_compute. exact I.
Defined.
