(* ===== verification/State.v ===== *)
(** * Server state (server.h, lines 13-171)

    The data of class [Server]: sessions, clusters, the deferred closes and the
    decision counter.  What the server does to the outside world - frames handed
    to [Transport::send_frame], connections closed with
    [Transport::close_connection], calls of [on_state_change] - is the ordered
    list [sv_out] of effects, appended to and never read by the code.  A
    [Session *] or [Session &] of the code is the index of the session in
    [sv_sessions]; log output is not modelled. *)
From S2P Require Import Prelude Wire Tlv Msg.

Definition MAX_CLIENTS : nat := 8.
Definition MAX_CLUSTERS : nat := 2.
Definition HEARTBEAT_MIN_MS : Z := 1000.
Definition HEARTBEAT_MAX_MS : Z := 2 * 60 * 1000.
Definition PREACTIVE_TIMEOUT_MS : Z := 30000.

Inductive Phase : Set := FREE | WAIT_PREINIT | WAIT_INIT | ACTIVE.
#[export] Instance Phase_eq_dec : EqDecision Phase.
Proof. solve_decision. Defined.

Inductive FfClientState : Set := FC_WAITING_FOR_CHANGE | FC_SENDING_NACK | FC_SENDING_ACK.
#[export] Instance FfClientState_eq_dec : EqDecision FfClientState.
Proof. solve_decision. Defined.

Inductive FfClusterState : Set :=
| FCL_WAITING_FOR_CHANGE
| FCL_WAITING_FOR_STABLE_MEMBERSHIP
| FCL_SENDING_NACKS
| FCL_SENDING_ACKS.
#[export] Instance FfClusterState_eq_dec : EqDecision FfClusterState.
Proof. solve_decision. Defined.

Record Cluster : Set := mkCluster {
  cl_used : bool;
  cl_name : bytes;
  cl_members : Z;
  cl_state : FfClusterState;
  cl_quorate_partition : NodeList;
}.

(** [Cluster()]. *)
Definition Cluster0 : Cluster := {|
  cl_used := false;
  cl_name := [];
  cl_members := 0;
  cl_state := FCL_WAITING_FOR_CHANGE;
  cl_quorate_partition := [] |}.
#[export] Instance Cluster_eq_dec : EqDecision Cluster.
Proof. solve_decision. Defined.
#[export] Instance Cluster_eta : EtaExpand Cluster := λ r, {|
  cl_used := cl_used r;
  cl_name := cl_name r;
  cl_members := cl_members r;
  cl_state := cl_state r;
  cl_quorate_partition := cl_quorate_partition r |}.
#[export] Instance set_cl_used : Setter cl_used := ltac:(derive_setter).
#[export] Instance set_cl_name : Setter cl_name := ltac:(derive_setter).
#[export] Instance set_cl_members : Setter cl_members := ltac:(derive_setter).
#[export] Instance set_cl_state : Setter cl_state := ltac:(derive_setter).
#[export] Instance set_cl_quorate_partition : Setter cl_quorate_partition := ltac:(derive_setter).

Record Session : Set := mkSession {
  s_phase : Phase;
  s_peer : bytes;
  s_cluster_name : bytes;
  s_cluster : Z;
  s_node_id : Z;
  s_last_ring_id : RingId;
  s_heartbeat_ms : Z;
  s_tie_breaker : TieBreaker;
  s_algorithm : Algorithm;
  s_keep_active_partition_tb : bool;
  s_config_list : NodeList;
  s_config_version_set : bool;
  s_config_version : Z;
  s_membership_list : NodeList;
  s_quorum_list : NodeList;
  s_last_heuristics : Heuristics;
  s_last_sent_vote : Vote;
  s_last_ack_nack : Vote;
  s_ff_state : FfClientState;
  s_vote_info_seq : Z;
  s_deadline_ms : Z;
  s_schedule_disconnect : bool;
  s_rx : bytes;
}.

(** [Session()]; [reset()] assigns it. *)
Definition Session0 : Session := {|
  s_phase := FREE;
  s_peer := [];
  s_cluster_name := [];
  s_cluster := -1;
  s_node_id := 0;
  s_last_ring_id := RingId0;
  s_heartbeat_ms := 0;
  s_tie_breaker := TieBreaker0;
  s_algorithm := ALG_FFSPLIT;
  s_keep_active_partition_tb := true;
  s_config_list := [];
  s_config_version_set := false;
  s_config_version := 0;
  s_membership_list := [];
  s_quorum_list := [];
  s_last_heuristics := HEUR_UNDEFINED;
  s_last_sent_vote := VOTE_UNDEFINED;
  s_last_ack_nack := VOTE_UNDEFINED;
  s_ff_state := FC_WAITING_FOR_CHANGE;
  s_vote_info_seq := 0;
  s_deadline_ms := 0;
  s_schedule_disconnect := false;
  s_rx := [] |}.
#[export] Instance Session_eq_dec : EqDecision Session.
Proof. solve_decision. Defined.
#[export] Instance Session_eta : EtaExpand Session := λ r, {|
  s_phase := s_phase r;
  s_peer := s_peer r;
  s_cluster_name := s_cluster_name r;
  s_cluster := s_cluster r;
  s_node_id := s_node_id r;
  s_last_ring_id := s_last_ring_id r;
  s_heartbeat_ms := s_heartbeat_ms r;
  s_tie_breaker := s_tie_breaker r;
  s_algorithm := s_algorithm r;
  s_keep_active_partition_tb := s_keep_active_partition_tb r;
  s_config_list := s_config_list r;
  s_config_version_set := s_config_version_set r;
  s_config_version := s_config_version r;
  s_membership_list := s_membership_list r;
  s_quorum_list := s_quorum_list r;
  s_last_heuristics := s_last_heuristics r;
  s_last_sent_vote := s_last_sent_vote r;
  s_last_ack_nack := s_last_ack_nack r;
  s_ff_state := s_ff_state r;
  s_vote_info_seq := s_vote_info_seq r;
  s_deadline_ms := s_deadline_ms r;
  s_schedule_disconnect := s_schedule_disconnect r;
  s_rx := s_rx r |}.
#[export] Instance set_s_phase : Setter s_phase := ltac:(derive_setter).
#[export] Instance set_s_peer : Setter s_peer := ltac:(derive_setter).
#[export] Instance set_s_cluster_name : Setter s_cluster_name := ltac:(derive_setter).
#[export] Instance set_s_cluster : Setter s_cluster := ltac:(derive_setter).
#[export] Instance set_s_node_id : Setter s_node_id := ltac:(derive_setter).
#[export] Instance set_s_last_ring_id : Setter s_last_ring_id := ltac:(derive_setter).
#[export] Instance set_s_heartbeat_ms : Setter s_heartbeat_ms := ltac:(derive_setter).
#[export] Instance set_s_tie_breaker : Setter s_tie_breaker := ltac:(derive_setter).
#[export] Instance set_s_algorithm : Setter s_algorithm := ltac:(derive_setter).
#[export] Instance set_s_keep_active_partition_tb : Setter s_keep_active_partition_tb := ltac:(derive_setter).
#[export] Instance set_s_config_list : Setter s_config_list := ltac:(derive_setter).
#[export] Instance set_s_config_version_set : Setter s_config_version_set := ltac:(derive_setter).
#[export] Instance set_s_config_version : Setter s_config_version := ltac:(derive_setter).
#[export] Instance set_s_membership_list : Setter s_membership_list := ltac:(derive_setter).
#[export] Instance set_s_quorum_list : Setter s_quorum_list := ltac:(derive_setter).
#[export] Instance set_s_last_heuristics : Setter s_last_heuristics := ltac:(derive_setter).
#[export] Instance set_s_last_sent_vote : Setter s_last_sent_vote := ltac:(derive_setter).
#[export] Instance set_s_last_ack_nack : Setter s_last_ack_nack := ltac:(derive_setter).
#[export] Instance set_s_ff_state : Setter s_ff_state := ltac:(derive_setter).
#[export] Instance set_s_vote_info_seq : Setter s_vote_info_seq := ltac:(derive_setter).
#[export] Instance set_s_deadline_ms : Setter s_deadline_ms := ltac:(derive_setter).
#[export] Instance set_s_schedule_disconnect : Setter s_schedule_disconnect := ltac:(derive_setter).
#[export] Instance set_s_rx : Setter s_rx := ltac:(derive_setter).

(** Calls into the embedder: the [Transport] interface and [on_state_change]. *)
Inductive Effect : Set :=
| ESend (slot : nat) (frame : Frame)
| EClose (slot : nat)
| ENotify.
#[export] Instance Effect_eq_dec : EqDecision Effect.
Proof. solve_decision. Defined.

Record Server : Set := mkServer {
  sv_max_rx_frame : Z;
  sv_sessions : list Session;
  sv_clusters : list Cluster;
  sv_pending_close : list nat;
  sv_processing : bool;
  sv_decisions : Z;
  sv_out : list Effect;
}.
#[export] Instance Server_eq_dec : EqDecision Server.
Proof. solve_decision. Defined.
#[export] Instance Server_eta : EtaExpand Server := λ r, {|
  sv_max_rx_frame := sv_max_rx_frame r;
  sv_sessions := sv_sessions r;
  sv_clusters := sv_clusters r;
  sv_pending_close := sv_pending_close r;
  sv_processing := sv_processing r;
  sv_decisions := sv_decisions r;
  sv_out := sv_out r |}.
#[export] Instance set_sv_max_rx_frame : Setter sv_max_rx_frame := ltac:(derive_setter).
#[export] Instance set_sv_sessions : Setter sv_sessions := ltac:(derive_setter).
#[export] Instance set_sv_clusters : Setter sv_clusters := ltac:(derive_setter).
#[export] Instance set_sv_pending_close : Setter sv_pending_close := ltac:(derive_setter).
#[export] Instance set_sv_processing : Setter sv_processing := ltac:(derive_setter).
#[export] Instance set_sv_decisions : Setter sv_decisions := ltac:(derive_setter).
#[export] Instance set_sv_out : Setter sv_out := ltac:(derive_setter).

(** A freshly constructed server. *)
Definition Server0 (max_rx_frame : Z) : Server := {|
  sv_max_rx_frame := max_rx_frame;
  sv_sessions := replicate MAX_CLIENTS Session0;
  sv_clusters := replicate MAX_CLUSTERS Cluster0;
  sv_pending_close := [];
  sv_processing := false;
  sv_decisions := 0;
  sv_out := [] |}.

(** ** Array accesses *)

(** [sessions_[i]].  Every index the code uses is in range (see the invariant
    [inv]); the default outside is a free session. *)
Definition sess (st : Server) (i : nat) : Session := default Session0 (sv_sessions st !! i).
Definition upd_sess (i : nat) (f : Session → Session) (st : Server) : Server :=
  st <| sv_sessions ::= alter f i |>.

(** [clusters_[c]] for the [int] index [c] of a session. *)
Definition clus (st : Server) (c : Z) : Cluster :=
  if c <? 0 then Cluster0 else default Cluster0 (sv_clusters st !! Z.to_nat c).
Definition upd_clus (c : Z) (f : Cluster → Cluster) (st : Server) : Server :=
  if c <? 0 then st else st <| sv_clusters ::= alter f (Z.to_nat c) |>.

Definition emit (e : Effect) (st : Server) : Server := st <| sv_out ::= λ l, l ++ [e] |>.

(** The index ranges of the [for] loops. *)
Definition slots : list nat := seq 0 MAX_CLIENTS.
Definition cluster_slots : list nat := seq 0 MAX_CLUSTERS.

(** ** Plumbing *)

(** [send(slot, f)]. *)
Definition send (slot : nat) (f : Frame) (st : Server) : Server := emit (ESend slot f) st.
(** [send_err(slot, m, code)]. *)
Definition send_err (slot : nat) (m : MsgDecoded) (code : ReplyErrorCode) (st : Server) : Server :=
  send slot (build_server_error (m_seq_number_set m) (m_seq_number m) code) st.
(** [notify()]. *)
Definition notify (st : Server) : Server := emit ENotify st.

(** [s.phase == ACTIVE && s.cluster == c], the walk over the clients of a cluster. *)
Definition in_cluster (s : Session) (c : Z) : bool :=
  bool_decide (s_phase s = ACTIVE) && (s_cluster s =? c).

(** ** Reading after writing *)

Lemma sess_upd st i f j :
  sess (upd_sess i f st) j =
    if decide (i = j ∧ (i < length (sv_sessions st))%nat) then f (sess st j) else sess st j.
Proof.
  unfold sess, upd_sess. simpl. destruct (decide (i = j ∧ _)) as [[-> Hl]|Hn].
  - rewrite list_lookup_alter. rewrite decide_True by done.
    destruct (lookup_lt_is_Some_2 (sv_sessions st) j Hl) as [s ->]. done.
  - rewrite list_lookup_alter. destruct (decide (i = j)) as [->|]; [|done].
    rewrite (proj2 (lookup_ge_None (sv_sessions st) j)); [done|]. lia.
Qed.

Lemma sess_upd_ne st i f j : i ≠ j → sess (upd_sess i f st) j = sess st j.
Proof. intros. rewrite sess_upd. rewrite decide_False by naive_solver. done. Qed.

(** A session that is not free is in range. *)
Lemma sess_in_range st i : s_phase (sess st i) ≠ FREE → (i < length (sv_sessions st))%nat.
Proof.
  unfold sess. destruct (sv_sessions st !! i) eqn:E; [|done]. intros _. by eapply lookup_lt_Some.
Qed.

Lemma sess_upd_eq st i f : s_phase (sess st i) ≠ FREE → sess (upd_sess i f st) i = f (sess st i).
Proof. intros H%sess_in_range. rewrite sess_upd. by rewrite decide_True. Qed.

Lemma clus_upd st c f d :
  clus (upd_clus c f st) d =
    if decide (c = d ∧ 0 <= c < Z.of_nat (length (sv_clusters st))) then f (clus st d) else clus st d.
Proof.
  unfold clus, upd_clus. destruct (Z.ltb_spec c 0).
  { rewrite decide_False by lia. done. }
  destruct (Z.ltb_spec d 0); simpl.
  { rewrite decide_False by lia. done. }
  rewrite list_lookup_alter.
  destruct (decide (Z.to_nat c = Z.to_nat d)) as [E|E].
  - assert (c = d) as -> by lia.
    destruct (decide (d = d ∧ _)) as [[_ Hd]|Hd].
    + destruct (lookup_lt_is_Some_2 (sv_clusters st) (Z.to_nat d)) as [cl ->]; [lia|]. done.
    + rewrite (proj2 (lookup_ge_None (sv_clusters st) (Z.to_nat d))); [done|]. lia.
  - rewrite decide_False by lia. done.
Qed.

Lemma clus_upd_ne st c f d : c ≠ d → clus (upd_clus c f st) d = clus st d.
Proof. intros. rewrite clus_upd. rewrite decide_False by naive_solver. done. Qed.

(** Reads that a write does not affect. *)
Lemma sess_upd_clus st c f i : sess (upd_clus c f st) i = sess st i.
Proof. unfold upd_clus. by case_match. Qed.
Lemma clus_upd_sess st i f c : clus (upd_sess i f st) c = clus st c.
Proof. done. Qed.
Lemma sess_emit st e i : sess (emit e st) i = sess st i.
Proof. done. Qed.
Lemma clus_emit st e c : clus (emit e st) c = clus st c.
Proof. done. Qed.

(** What no handler touches: the configuration, the table sizes, the deferred
    closes and the processing flag. *)
Definition env (st : Server) : Z * nat * nat * list nat * bool :=
  (sv_max_rx_frame st, length (sv_sessions st), length (sv_clusters st), sv_pending_close st,
   sv_processing st).

Lemma env_upd_sess st i f : env (upd_sess i f st) = env st.
Proof. unfold env, upd_sess. simpl. by rewrite length_alter. Qed.
Lemma env_upd_clus st c f : env (upd_clus c f st) = env st.
Proof. unfold env, upd_clus. case_match; [done|]. simpl. by rewrite length_alter. Qed.
Lemma env_emit st e : env (emit e st) = env st.
Proof. done. Qed.

Lemma out_upd_sess st i f : sv_out (upd_sess i f st) = sv_out st.
Proof. done. Qed.
Lemma out_upd_clus st c f : sv_out (upd_clus c f st) = sv_out st.
Proof. unfold upd_clus. by case_match. Qed.
Lemma out_emit st e : sv_out (emit e st) = sv_out st ++ [e].
Proof. done. Qed.

Create Rewrite HintDb server.
#[export] Hint Rewrite sess_upd_clus clus_upd_sess sess_emit clus_emit env_upd_sess env_upd_clus
  env_emit out_upd_sess out_upd_clus out_emit : server.

Lemma env_sessions st st' : env st' = env st → length (sv_sessions st') = length (sv_sessions st).
Proof. unfold env. congruence. Qed.
Lemma env_clusters st st' : env st' = env st → length (sv_clusters st') = length (sv_clusters st).
Proof. unfold env. congruence. Qed.
Lemma env_pending st st' : env st' = env st → sv_pending_close st' = sv_pending_close st.
Proof. unfold env. congruence. Qed.
Lemma env_max st st' : env st' = env st → sv_max_rx_frame st' = sv_max_rx_frame st.
Proof. unfold env. congruence. Qed.
Lemma env_processing st st' : env st' = env st → sv_processing st' = sv_processing st.
Proof. unfold env. congruence. Qed.

Lemma in_cluster_true s c : in_cluster s c = true ↔ s_phase s = ACTIVE ∧ s_cluster s = c.
Proof. unfold in_cluster. rewrite andb_true_iff, bool_decide_eq_true, Z.eqb_eq. done. Qed.
Lemma in_cluster_false s c : in_cluster s c = false ↔ ¬ (s_phase s = ACTIVE ∧ s_cluster s = c).
Proof. rewrite <-in_cluster_true. by destruct (in_cluster s c). Qed.

Lemma elem_of_slots i : i ∈ slots ↔ (i < MAX_CLIENTS)%nat.
Proof. unfold slots. rewrite elem_of_seq. lia. Qed.

(** ** Loops over the sessions *)

(** A loop that applies [g i] to session [i] for the first [n] sessions. *)
Definition first_sess (n : nat) (g : nat → Session → Session) (st : Server) (j : nat) : Session :=
  if decide (j < n ∧ j < length (sv_sessions st))%nat then g j (sess st j) else sess st j.

Lemma loop_sess (step : Server → nat → Server) (g : nat → Session → Session) st n :
  (∀ k st', (k < n)%nat → env st' = env st → (∀ d, clus st' d = clus st d) →
     (∀ j, sess st' j = first_sess k g st j) →
     env (step st' k) = env st ∧ (∀ d, clus (step st' k) d = clus st d) ∧
     (∀ j, j ≠ k → sess (step st' k) j = sess st' j) ∧
     sess (step st' k) k = if decide (k < length (sv_sessions st))%nat then g k (sess st' k)
                           else sess st' k) →
  let st' := foldl step st (seq 0 n) in
  env st' = env st ∧ (∀ d, clus st' d = clus st d) ∧ (∀ j, sess st' j = first_sess n g st j).
Proof.
  induction n as [|n IH]; intros Hstep; cbv zeta.
  - split_and!; [done..|]. intros j. unfold first_sess. rewrite decide_False by lia. done.
  - rewrite seq_S, foldl_app. simpl.
    destruct IH as (He & Hc & Hs); [intros k st' Hk; apply Hstep; lia|].
    destruct (Hstep n _ ltac:(lia) He Hc Hs) as (He' & Hc' & Hne & Heq).
    split_and!; [done..|]. intros j. unfold first_sess in *.
    destruct (decide (j = n)) as [->|Hj].
    + rewrite Heq, Hs. rewrite (decide_False (P := (n < n ∧ _)%nat)) by lia.
      destruct (decide (n < length (sv_sessions st))%nat).
      * rewrite decide_True by lia. done.
      * rewrite decide_False by lia. done.
    + rewrite Hne, Hs by done. destruct (decide (j < n ∧ _)%nat).
      * rewrite decide_True by lia. done.
      * rewrite decide_False by lia. done.
Qed.
