(* ===== verification/Ffsplit.v ===== *)
(** * The ffsplit decision algorithm (server.h 130-161, server.cpp 497-779)

    The decision procedure over the sessions of one cluster: stability of the
    membership, selection of the quorate partition, and the two-phase vote
    transfer in which NACKs go out before ACKs. *)
From S2P Require Import Prelude Wire Tlv Msg State.

(** [struct TriggerView]: the incoming view of the triggering client.  The
    pointers of the code refer to lists that the algorithm does not write, so
    the model carries the lists themselves. *)
Record TriggerView : Set := mkTV {
  tv_slot : nat;
  tv_leaving : bool;
  tv_ring_id : RingId;
  tv_config : NodeList;
  tv_membership : NodeList;
  tv_heuristics : Heuristics;
}.

Definition skip_in_cluster_walk (st : Server) (s : Session) (tv : TriggerView) : bool :=
  tv_leaving tv && (s_node_id s =? s_node_id (sess st (tv_slot tv))).

(** The effective view of session [i]: [&s == &sessions_[tv.slot]] is the test
    [i = tv_slot tv]. *)
Definition overridden (tv : TriggerView) (i : nat) : bool :=
  negb (tv_leaving tv) && (i =? tv_slot tv)%nat.
Definition eff_config (st : Server) (i : nat) (tv : TriggerView) : NodeList :=
  if overridden tv i then tv_config tv else s_config_list (sess st i).
Definition eff_membership (st : Server) (i : nat) (tv : TriggerView) : NodeList :=
  if overridden tv i then tv_membership tv else s_membership_list (sess st i).
Definition eff_ring (st : Server) (i : nat) (tv : TriggerView) : RingId :=
  if overridden tv i then tv_ring_id tv else s_last_ring_id (sess st i).
Definition eff_heuristics (st : Server) (i : nat) (tv : TriggerView) : Heuristics :=
  if overridden tv i then tv_heuristics tv else s_last_heuristics (sess st i).

(** The walks skip sessions of other clusters and the leaving node. *)
Definition walks (st : Server) (c : Z) (tv : TriggerView) (i : nat) : bool :=
  in_cluster (sess st i) c && negb (skip_in_cluster_walk st (sess st i) tv).

(** [ffsplit_is_stable], first loop: equal configurations, pairwise. *)
Definition stable_configs (st : Server) (c : Z) (tv : TriggerView) : bool :=
  forallb (λ i,
    if negb (walks st c tv i) then true else
    forallb (λ j,
      if (i =? j)%nat || negb (walks st c tv j) then true else
      forallb (λ n, nl_mem (eff_config st j tv) (ni_node_id n)) (eff_config st i tv)) slots) slots.

(** The session of the cluster that has the node id, [nullptr] if none. *)
Definition walk_by_node_id (st : Server) (c : Z) (tv : TriggerView) (id : Z) : option nat :=
  List.find (λ j, walks st c tv j && (s_node_id (sess st j) =? id)) slots.

(** Second loop: members of one partition agree on ring id and membership. *)
Definition stable_rings (st : Server) (c : Z) (tv : TriggerView) : bool :=
  forallb (λ i,
    if negb (walks st c tv i) then true else
    let mem1 := eff_membership st i tv in
    let ring1 := eff_ring st i tv in
    forallb (λ n,
      match walk_by_node_id st c tv (ni_node_id n) with
      | None => true
      | Some j =>
          let mem2 := eff_membership st j tv in
          let ring2 := eff_ring st j tv in
          if negb (RingId_eqb ring1 ring2) then false
          else forallb (λ n3, nl_mem mem2 (ni_node_id n3)) mem1
      end) mem1) slots.

Definition ffsplit_is_stable (st : Server) (tv : TriggerView) : bool :=
  let cluster := s_cluster (sess st (tv_slot tv)) in
  stable_configs st cluster tv && stable_rings st cluster tv.

(** [nodes.front().node_id]; the caller has checked that the list is not empty. *)
Definition front_id (l : NodeList) : Z := match l with [] => 0 | n :: _ => ni_node_id n end.

Definition ffsplit_is_preferred_partition (st : Server) (c : nat) (cfg mem : NodeList) : bool :=
  let tb := s_tie_breaker (sess st c) in
  let preferred :=
    match tb_mode tb with
    | TBM_LOWEST => foldl (λ p n, if ni_node_id n <? p then ni_node_id n else p) (front_id cfg) cfg
    | TBM_HIGHEST => foldl (λ p n, if p <? ni_node_id n then ni_node_id n else p) (front_id cfg) cfg
    | TBM_NODE_ID => tb_node_id tb
    end in
  nl_mem mem preferred.

(** Counters of one partition: connected clients, heuristics passes and fails. *)
Record Stats : Set := mkStats { n_clients : nat; n_pass : nat; n_fail : nat }.

Definition count_node (st : Server) (c : nat) (h : Heuristics) (acc : Stats) (n : NodeInfo) : Stats :=
  match List.find (λ i, in_cluster (sess st i) (s_cluster (sess st c)) &&
                        (s_node_id (sess st i) =? ni_node_id n)) slots with
  | None => acc
  | Some i =>
      let eff := if (i =? c)%nat then h else s_last_heuristics (sess st i) in
      match eff with
      | HEUR_PASS => mkStats (S (n_clients acc)) (S (n_pass acc)) (n_fail acc)
      | HEUR_FAIL => mkStats (S (n_clients acc)) (n_pass acc) (S (n_fail acc))
      | HEUR_UNDEFINED => mkStats (S (n_clients acc)) (n_pass acc) (n_fail acc)
      end
  end.

(** A partition in the running: a client with its effective lists. *)
Record Candidate : Set := mkCandidate {
  cd_client : nat;
  cd_cfg : NodeList;
  cd_mem : NodeList;
  cd_h : Heuristics;
}.

(** [ffsplit_partition_stats]; [None] is the [nullptr] candidate. *)
Definition ffsplit_partition_stats (st : Server) (cd : option Candidate) : Stats :=
  match cd with
  | None => mkStats 0 0 0
  | Some cd => foldl (count_node st (cd_client cd) (cd_h cd)) (mkStats 0 0 0) (cd_mem cd)
  end.

Definition score (s : Stats) : Z :=
  Z.of_nat (n_clients s) + (Z.of_nat (n_pass s) - Z.of_nat (n_fail s)).

Definition ffsplit_partition_better (st : Server) (c1 : Candidate) (c2 : option Candidate)
    (prev_quorate : NodeList) (keep_active_tb : bool) : bool :=
  let cfg1 := cd_cfg c1 in
  let mem1 := cd_mem c1 in
  if negb (length cfg1 mod 2 =? 0)%nat then (length cfg1 / 2 <? length mem1)%nat
  else if (length cfg1 / 2 <? length mem1)%nat then true
  else if (length mem1 <? length cfg1 / 2)%nat then false
  else
    let s1 := ffsplit_partition_stats st (Some c1) in
    let s2 := ffsplit_partition_stats st c2 in
    if negb (score s1 =? score s2) then score s2 <? score s1
    else if negb (n_clients s1 =? n_clients s2)%nat then (n_clients s2 <? n_clients s1)%nat
    else
      let preferred := ffsplit_is_preferred_partition st (cd_client c1) cfg1 mem1 in
      match c2 with
      | Some c2 =>
          if keep_active_tb then
            let in1 := nl_mem prev_quorate (s_node_id (sess st (cd_client c1))) in
            let in2 := nl_mem prev_quorate (s_node_id (sess st (cd_client c2))) in
            if negb (eqb in1 in2) then in1 else preferred
          else preferred
      | None => preferred
      end.

(** The candidate of session [i], if the walk does not [continue] on it. *)
Definition candidate (st : Server) (c : Z) (tv : TriggerView) (i : nat) : option Candidate :=
  if negb (walks st c tv i) then None else
  let cfg := eff_config st i tv in
  let mem := eff_membership st i tv in
  let h := eff_heuristics st i tv in
  if nl_empty cfg || nl_empty mem then None else Some (mkCandidate i cfg mem h).

Definition select_step (st : Server) (c : Z) (tv : TriggerView) (keep_active_tb : bool)
    (best : option Candidate) (i : nat) : option Candidate :=
  match candidate st c tv i with
  | None => best
  | Some cd =>
      if ffsplit_partition_better st cd best (cl_quorate_partition (clus st c)) keep_active_tb
      then Some cd else best
  end.

(** [ffsplit_select_partition]; [None] is [nullptr]. *)
Definition ffsplit_select_partition (st : Server) (tv : TriggerView) : option NodeList :=
  let cluster := s_cluster (sess st (tv_slot tv)) in
  let keep_active_tb :=
    negb (existsb (λ i, in_cluster (sess st i) cluster &&
                        negb (s_keep_active_partition_tb (sess st i))) slots) in
  cd_mem <$> foldl (select_step st cluster tv keep_active_tb) None slots.

(** One iteration of the loop of [ffsplit_update_states]. *)
Definition update_state_step (tv : TriggerView) (winner : option NodeList) (cluster : Z)
    (st : Server) (i : nat) : Server :=
  let s := sess st i in
  if negb (in_cluster s cluster) then st
  else if tv_leaving tv && (s_node_id s =? s_node_id (sess st (tv_slot tv))) then
    upd_sess i (λ s, s <| s_ff_state := FC_WAITING_FOR_CHANGE |>) st
  else
    let lost := match winner with None => true | Some w => negb (nl_mem w (s_node_id s)) end in
    upd_sess i (λ s, s <| s_ff_state := if lost then FC_SENDING_NACK else FC_SENDING_ACK |>) st.

Definition ffsplit_update_states (tv : TriggerView) (winner : option NodeList) (st : Server) : Server :=
  let cluster := s_cluster (sess st (tv_slot tv)) in
  foldl (update_state_step tv winner cluster) st slots.

(** The vote session [s] is due in this round. *)
Definition due_vote (s : Session) (send_acks : bool) : Vote :=
  if send_acks && bool_decide (s_ff_state s = FC_SENDING_ACK) then VOTE_ACK
  else if negb send_acks && bool_decide (s_ff_state s = FC_SENDING_NACK) then VOTE_NACK
  else VOTE_UNDEFINED.

(** One iteration of the loop of [ffsplit_send_votes]; the state carries [sent]. *)
Definition send_vote_step (tv : TriggerView) (send_acks : bool) (cluster : Z)
    (acc : Server * nat) (i : nat) : Server * nat :=
  let '(st, sent) := acc in
  let s := sess st i in
  if negb (in_cluster s cluster) || skip_in_cluster_walk st s tv then (st, sent)
  else
    let v := due_vote s send_acks in
    if bool_decide (v = VOTE_UNDEFINED) then (st, sent)
    else
      let ring := eff_ring st i tv in
      let st := upd_sess i (λ s, s <| s_vote_info_seq ::= λ n, u32 (n + 1) |>
                                   <| s_last_sent_vote := v |> <| s_last_ack_nack := v |>) st in
      (send i (build_vote_info (s_vote_info_seq (sess st i)) ring v) st, S sent).

Definition ffsplit_send_votes (tv : TriggerView) (send_acks : bool) (st : Server) : Server * nat :=
  let cluster := s_cluster (sess st (tv_slot tv)) in
  foldl (send_vote_step tv send_acks cluster) (st, 0%nat) slots.

Definition ffsplit_count_state (st : Server) (cluster : Z) (fs : FfClientState) : nat :=
  length (filter (λ i, in_cluster (sess st i) cluster ∧ s_ff_state (sess st i) = fs) slots).

(** [ffsplit_do(tv, result)]: the new state, the code and [result]. *)
Definition ffsplit_do (tv : TriggerView) (st : Server) : Server * ReplyErrorCode * Vote :=
  let cluster := s_cluster (sess st (tv_slot tv)) in
  let st := upd_clus cluster (λ cl, cl <| cl_state := FCL_WAITING_FOR_STABLE_MEMBERSHIP |>) st in
  if negb (ffsplit_is_stable st tv) then (st, ERR_NO_ERROR, VOTE_WAIT_FOR_REPLY)
  else
    let winner := ffsplit_select_partition st tv in
    let st := st <| sv_decisions ::= λ n, u32 (n + 1) |> in
    let new_quorate := default [] winner in
    let st := ffsplit_update_states tv winner st in
    let st := upd_clus cluster (λ cl, cl <| cl_quorate_partition := new_quorate |>) st in
    let st := upd_clus cluster (λ cl, cl <| cl_state := FCL_SENDING_NACKS |>) st in
    let '(st, nacks) := ffsplit_send_votes tv false st in
    let st :=
      if (nacks =? 0)%nat then
        let st := upd_clus cluster (λ cl, cl <| cl_state := FCL_SENDING_ACKS |>) st in
        let '(st, acks) := ffsplit_send_votes tv true st in
        if (acks =? 0)%nat
        then upd_clus cluster (λ cl, cl <| cl_state := FCL_WAITING_FOR_CHANGE |>) st
        else st
      else st in
    (st, ERR_NO_ERROR, VOTE_NO_CHANGE).

(** ** The loops as maps over the sessions *)

Lemma foldl_keep {A B C} (F : A → C) (step : A → B → A) l a :
  (∀ a b, F (step a b) = F a) → F (foldl step a l) = F a.
Proof. intros H. revert a. induction l as [|b l IH]; intros a; simpl; [done|]. by rewrite IH. Qed.

(** The state [ffsplit_update_states] gives to a session of the cluster. *)
Definition new_ff (tv : TriggerView) (winner : option NodeList) (lid : Z) (s : Session)
    : FfClientState :=
  if tv_leaving tv && (s_node_id s =? lid) then FC_WAITING_FOR_CHANGE
  else match winner with
       | None => FC_SENDING_NACK
       | Some w => if nl_mem w (s_node_id s) then FC_SENDING_ACK else FC_SENDING_NACK
       end.
Definition ff_assign (tv : TriggerView) (winner : option NodeList) (c lid : Z) (s : Session) : Session :=
  if in_cluster s c then s <| s_ff_state := new_ff tv winner lid s |> else s.

Section loops.
Context (st : Server) (Hlen : length (sv_sessions st) = MAX_CLIENTS).

Lemma sess_out_of_range j : (MAX_CLIENTS ≤ j)%nat → sess st j = Session0.
Proof using Hlen.
  intros Hj. unfold sess. rewrite (proj2 (lookup_ge_None _ j)); [done|]. rewrite Hlen. done.
Qed.

(** A loop over all sessions whose body does nothing to free sessions. *)
Lemma first_sess_all (g : Session → Session) j :
  g Session0 = Session0 → first_sess MAX_CLIENTS (λ _, g) st j = g (sess st j).
Proof using Hlen.
  intros Hg. unfold first_sess. case_decide as Hd; [done|].
  rewrite sess_out_of_range by lia. done.
Qed.

Lemma update_states_spec tv winner :
  let c := s_cluster (sess st (tv_slot tv)) in
  let lid := s_node_id (sess st (tv_slot tv)) in
  let st' := ffsplit_update_states tv winner st in
  env st' = env st ∧ (∀ d, clus st' d = clus st d) ∧
  (∀ j, sess st' j = ff_assign tv winner c lid (sess st j)) ∧
  sv_out st' = sv_out st ∧ sv_decisions st' = sv_decisions st.
Proof using Hlen.
  intros c lid st'. unfold st', ffsplit_update_states. fold c.
  destruct (loop_sess (update_state_step tv winner c) (λ _, ff_assign tv winner c lid) st MAX_CLIENTS)
    as (He & Hc & Hs).
  - clear st'. intros k st' Hk He Hc Hs. unfold update_state_step.
    assert (s_node_id (sess st' (tv_slot tv)) = lid) as Hlid.
    { rewrite Hs. unfold first_sess, ff_assign, lid. repeat case_match; done. }
    rewrite Hlid. unfold ff_assign, new_ff.
    pose proof (sess_in_range st' k) as Hr. rewrite (env_sessions _ _ He) in Hr.
    destruct (in_cluster (sess st' k) c) eqn:Hin; simpl.
    + apply in_cluster_true in Hin as [Hact _]. rewrite Hact in Hr. specialize (Hr ltac:(done)).
      case_match; autorewrite with server; (split_and!; [done..| |]);
        intros; rewrite ?decide_True by done; try (by rewrite sess_upd_ne);
        rewrite sess_upd_eq by (by rewrite Hact); [done|].
      destruct winner as [w|]; simpl; [by destruct (nl_mem w _)|done].
    + split_and!; [done..|]. by case_match.
  - fold slots in *. split_and!; [done|done| | |].
    + intros j. rewrite Hs. by apply (first_sess_all (ff_assign tv winner c lid)).
    + apply foldl_keep. intros a b. unfold update_state_step. by repeat case_match.
    + apply foldl_keep. intros a b. unfold update_state_step. by repeat case_match.
Qed.
End loops.

(** The vote of a round and the client state that is due it. *)
Definition round_vote (send_acks : bool) : Vote := if send_acks then VOTE_ACK else VOTE_NACK.
Definition round_state (send_acks : bool) : FfClientState :=
  if send_acks then FC_SENDING_ACK else FC_SENDING_NACK.

Definition votes (tv : TriggerView) (send_acks : bool) (c lid : Z) (s : Session) : bool :=
  in_cluster s c && negb (tv_leaving tv && (s_node_id s =? lid)) &&
  bool_decide (s_ff_state s = round_state send_acks).

Definition cast_vote (v : Vote) (s : Session) : Session :=
  s <| s_vote_info_seq ::= λ n, u32 (n + 1) |> <| s_last_sent_vote := v |> <| s_last_ack_nack := v |>.

(** The VOTE_INFO frame a session is sent. *)
Definition vote_effect (st : Server) (tv : TriggerView) (v : Vote) (i : nat) : Effect :=
  ESend i (build_vote_info (u32 (s_vote_info_seq (sess st i) + 1)) (eff_ring st i tv) v).

Section send_votes.
Context (st : Server) (tv : TriggerView) (send_acks : bool).

(** The sessions of [l] that are sent a vote. *)
Definition voters (l : list nat) : list nat :=
  List.filter (λ i, votes tv send_acks (s_cluster (sess st (tv_slot tv)))
                      (s_node_id (sess st (tv_slot tv))) (sess st i)) l.

Lemma due_vote_spec s :
  due_vote s send_acks =
    if bool_decide (s_ff_state s = round_state send_acks) then round_vote send_acks else VOTE_UNDEFINED.
Proof. unfold due_vote. destruct send_acks; simpl; by destruct (s_ff_state s). Qed.

Lemma send_votes_loop n :
  let c := s_cluster (sess st (tv_slot tv)) in
  let lid := s_node_id (sess st (tv_slot tv)) in
  let r := foldl (send_vote_step tv send_acks c) (st, 0%nat) (seq 0 n) in
  env r.1 = env st ∧ (∀ d, clus r.1 d = clus st d) ∧ sv_decisions r.1 = sv_decisions st ∧
  (∀ j, sess r.1 j = first_sess n (λ _ s, if votes tv send_acks c lid s
                                          then cast_vote (round_vote send_acks) s else s) st j) ∧
  sv_out r.1 = sv_out st ++ (vote_effect st tv (round_vote send_acks) <$> voters (seq 0 n)) ∧
  r.2 = length (voters (seq 0 n)).
Proof.
  intros c lid. induction n as [|n IH]; cbv zeta.
  { split_and!; try done; simpl; by rewrite app_nil_r. }
  rewrite seq_S, foldl_app. unfold voters in IH |- *. fold c lid in IH |- *.
  rewrite List.filter_app, fmap_app, length_app.
  destruct (foldl _ _ (seq 0 n)) as [st' k]. simpl in IH.
  destruct IH as (He & Hc & Hd & Hs & Ho & Hk). simpl.
  assert (sess st' n = sess st n) as Hn.
  { rewrite Hs. unfold first_sess. by rewrite decide_False by lia. }
  assert (s_node_id (sess st' (tv_slot tv)) = lid) as Hlid.
  { rewrite Hs. unfold first_sess, lid. repeat case_match; done. }
  unfold skip_in_cluster_walk. rewrite Hn, Hlid, due_vote_spec.
  pose proof (sess_in_range st n) as Hr.
  destruct (votes tv send_acks c lid (sess st n)) eqn:Hv.
  - unfold votes in Hv. apply andb_true_iff in Hv as [[Hin Hsk]%andb_true_iff Hff].
    rewrite Hin, Hff. apply negb_true_iff in Hsk. rewrite Hsk. simpl.
    pose proof (proj1 (in_cluster_true _ _) Hin) as [Hact _].
    specialize (Hr ltac:(by rewrite Hact)).
    rewrite (bool_decide_eq_false_2 (round_vote send_acks = VOTE_UNDEFINED)) by (by destruct send_acks).
    simpl. unfold send. autorewrite with server. split_and!; try done.
    + intros j. rewrite sess_emit. destruct (decide (n = j)) as [<-|Hj].
      * rewrite sess_upd_eq by (by rewrite Hn, Hact). rewrite Hn. unfold first_sess.
        rewrite decide_True by lia. unfold votes.
        by rewrite Hin, Hsk, Hff.
      * rewrite sess_upd_ne, Hs by done. unfold first_sess.
        destruct (decide (j < n ∧ _)%nat); [rewrite decide_True by lia|rewrite decide_False by lia]; done.
    + rewrite Ho, <-app_assoc. do 2 f_equal. unfold vote_effect.
      rewrite sess_upd_eq by (by rewrite Hn, Hact). simpl. rewrite Hn. unfold eff_ring. by rewrite Hn.
    + lia.
  - unfold votes in Hv.
    destruct (in_cluster (sess st n) c) eqn:Hin, (tv_leaving tv && (s_node_id (sess st n) =? lid)) eqn:Hsk;
      simpl in *; try rewrite Hv; simpl;
      (split_and!; [done..| |by rewrite Ho, app_nil_r|lia]);
      intros j; rewrite Hs; unfold first_sess;
      (destruct (decide (j = n)) as [->|];
       [rewrite decide_False by lia; case_match; [|done]; unfold votes; rewrite Hin, Hsk; simpl;
          rewrite ?Hv; done
       |destruct (decide (j < n ∧ _)%nat); [rewrite decide_True by lia|rewrite decide_False by lia]; done]).
Qed.
End send_votes.

Lemma send_votes_spec st tv send_acks :
  length (sv_sessions st) = MAX_CLIENTS →
  let c := s_cluster (sess st (tv_slot tv)) in
  let lid := s_node_id (sess st (tv_slot tv)) in
  let r := ffsplit_send_votes tv send_acks st in
  env r.1 = env st ∧ (∀ d, clus r.1 d = clus st d) ∧ sv_decisions r.1 = sv_decisions st ∧
  (∀ j, sess r.1 j = if votes tv send_acks c lid (sess st j)
                     then cast_vote (round_vote send_acks) (sess st j) else sess st j) ∧
  sv_out r.1 = sv_out st ++ (vote_effect st tv (round_vote send_acks) <$> voters st tv send_acks slots) ∧
  r.2 = length (voters st tv send_acks slots).
Proof.
  intros Hlen c lid r. destruct (send_votes_loop st tv send_acks MAX_CLIENTS) as (?&?&?&Hs&?&?).
  split_and!; [done..| |done|done]. intros j. unfold r, ffsplit_send_votes, slots. rewrite Hs.
  by apply (first_sess_all st Hlen (λ s, if votes tv send_acks c lid s
                                         then cast_vote (round_vote send_acks) s else s)).
Qed.

(** ** The outcome of a decision *)

(** The sessions of the cluster that the winner assigns to a client state. *)
Definition assigned (st : Server) (tv : TriggerView) (w : option NodeList) (fs : FfClientState)
    : list nat :=
  List.filter (λ i, in_cluster (sess st i) (s_cluster (sess st (tv_slot tv))) &&
    bool_decide (new_ff tv w (s_node_id (sess st (tv_slot tv))) (sess st i) = fs)) slots.

(** A session after a decision: losers are NACKed at once, winners are ACKed at
    once only if there is nobody to NACK. *)
Definition decided_sess (tv : TriggerView) (w : option NodeList) (c lid : Z) (no_nacks : bool)
    (s : Session) : Session :=
  if in_cluster s c then
    let s' := s <| s_ff_state := new_ff tv w lid s |> in
    match new_ff tv w lid s with
    | FC_SENDING_NACK => cast_vote VOTE_NACK s'
    | FC_SENDING_ACK => if no_nacks then cast_vote VOTE_ACK s' else s'
    | FC_WAITING_FOR_CHANGE => s'
    end
  else s.

Definition decided_state (losers winners : list nat) : FfClusterState :=
  match losers, winners with
  | _ :: _, _ => FCL_SENDING_NACKS
  | [], _ :: _ => FCL_SENDING_ACKS
  | [], [] => FCL_WAITING_FOR_CHANGE
  end.

Lemma new_ff_not_skipped tv w lid s fs :
  new_ff tv w lid s = fs → fs ≠ FC_WAITING_FOR_CHANGE → tv_leaving tv && (s_node_id s =? lid) = false.
Proof. unfold new_ff. by case_match; intros <-. Qed.

Lemma filter_ext_slots (f g : nat → bool) l :
  (∀ i, f i = g i) → List.filter f l = List.filter g l.
Proof. intros H. induction l; simpl; [done|]. rewrite H, IHl. done. Qed.

(** After [update_states], the sessions that are due a vote are the assigned ones. *)
Lemma votes_assigned tv w c lid send_acks s :
  votes tv send_acks c lid (ff_assign tv w c lid s) =
    in_cluster s c && bool_decide (new_ff tv w lid s = round_state send_acks).
Proof.
  unfold votes, ff_assign. destruct (in_cluster s c) eqn:Hin; [|by rewrite Hin]. simpl.
  change (in_cluster (s <| s_ff_state := _ |>) c) with (in_cluster s c). rewrite Hin. simpl.
  destruct (bool_decide_reflect (new_ff tv w lid s = round_state send_acks)) as [E|E];
    [|by rewrite andb_false_r].
  rewrite (new_ff_not_skipped _ _ _ _ _ E); [done|]. by destruct send_acks.
Qed.

Section decision.
Context (tv : TriggerView) (st : Server) (w : option NodeList).
Context (Hlen : length (sv_sessions st) = MAX_CLIENTS).

Lemma assigned_elem fs j :
  j ∈ assigned st tv w fs ↔
    in_cluster (sess st j) (s_cluster (sess st (tv_slot tv))) = true ∧
    new_ff tv w (s_node_id (sess st (tv_slot tv))) (sess st j) = fs.
Proof using Hlen.
  unfold assigned. rewrite list_elem_of_In, List.filter_In, <-list_elem_of_In, elem_of_slots.
  rewrite andb_true_iff, bool_decide_eq_true.
  split; [naive_solver|]. intros [H1 H2]. split_and!; [|done..]. rewrite <-Hlen.
  apply sess_in_range. by apply in_cluster_true in H1 as [-> _].
Qed.

Lemma assigned_nil fs : assigned st tv w fs = [] → ∀ j,
  in_cluster (sess st j) (s_cluster (sess st (tv_slot tv))) = true →
  new_ff tv w (s_node_id (sess st (tv_slot tv))) (sess st j) ≠ fs.
Proof using Hlen.
  intros Hl j H1 H2. assert (j ∈ assigned st tv w fs) as Hj by (by apply assigned_elem).
  rewrite Hl in Hj. set_solver.
Qed.

(** The vote transfer: [update_states], the NACK round and the ACK round. *)
Lemma decision_rounds :
  let c := s_cluster (sess st (tv_slot tv)) in
  let lid := s_node_id (sess st (tv_slot tv)) in
  let st1 := ffsplit_update_states tv w st in
  let losers := assigned st tv w FC_SENDING_NACK in
  let winners := assigned st tv w FC_SENDING_ACK in
  ∀ st2, (∀ j, sess st2 j = sess st1 j) → env st2 = env st1 →
  let r := ffsplit_send_votes tv false st2 in
  r.2 = length losers ∧
  sv_out r.1 = sv_out st2 ++ (vote_effect st tv VOTE_NACK <$> losers) ∧
  (∀ j, sess r.1 j = decided_sess tv w c lid false (sess st j)) ∧
  (losers = [] → ∀ st3, (∀ j, sess st3 j = sess r.1 j) → env st3 = env st1 →
     let r' := ffsplit_send_votes tv true st3 in
     r'.2 = length winners ∧
     sv_out r'.1 = sv_out st3 ++ (vote_effect st tv VOTE_ACK <$> winners) ∧
     (∀ j, sess r'.1 j = decided_sess tv w c lid true (sess st j))).
Proof using Hlen.
  intros c lid st1 losers winners st2 Hs2 He2 r.
  destruct (update_states_spec st Hlen tv w) as (He1 & _ & Hs1 & _ & _).
  fold st1 in He1, Hs1. fold c lid in Hs1.
  assert (length (sv_sessions st2) = MAX_CLIENTS) as Hlen2.
  { rewrite (env_sessions _ _ He2), (env_sessions _ _ He1). done. }
  assert (∀ j, sess st2 j = ff_assign tv w c lid (sess st j)) as Hs.
  { intros j. rewrite Hs2. apply Hs1. }
  assert (∀ j, s_cluster (sess st2 j) = s_cluster (sess st j) ∧
               s_node_id (sess st2 j) = s_node_id (sess st j)) as Hk.
  { intros j. rewrite Hs. unfold ff_assign. by case_match. }
  destruct (Hk (tv_slot tv)) as [Hc Hlid]. fold c in Hc. fold lid in Hlid.
  assert (∀ v i, vote_effect st2 tv v i = vote_effect st tv v i) as Hve.
  { intros v i. unfold vote_effect, eff_ring. rewrite Hs. unfold ff_assign. by case_match. }
  assert (∀ b, voters st2 tv b slots = assigned st tv w (round_state b)) as Hv.
  { intros b. unfold voters, assigned. apply filter_ext_slots. intros i.
    rewrite Hc, Hlid, Hs. apply votes_assigned. }
  destruct (send_votes_spec st2 tv false Hlen2) as (He & _ & _ & Hr & Ho & Hn).
  rewrite Hc, Hlid in Hr. fold r in He, Hr, Ho, Hn. rewrite Hv in Ho, Hn.
  assert (∀ j, sess r.1 j = decided_sess tv w c lid false (sess st j)) as Hsr.
  { intros j. rewrite Hr, Hs, votes_assigned. unfold ff_assign, decided_sess.
    destruct (in_cluster (sess st j) c); [|done]. simpl. by destruct (new_ff tv w lid (sess st j)). }
  split_and!; [done| |done|].
  { rewrite Ho. f_equal. apply list_fmap_ext. intros. apply Hve. }
  intros Hl st3 Hs3 He3 r'.
  assert (∀ j, sess st3 j = sess st2 j) as Hs32.
  { intros j. rewrite Hs3, Hr, Hs, votes_assigned.
    destruct (in_cluster (sess st j) c && _) eqn:E; [|done]. exfalso.
    apply andb_true_iff in E as [E1 E2%bool_decide_eq_true]. by apply (assigned_nil _ Hl j). }
  assert (length (sv_sessions st3) = MAX_CLIENTS) as Hlen3.
  { rewrite (env_sessions _ _ He3), (env_sessions _ _ He1). done. }
  destruct (send_votes_spec st3 tv true Hlen3) as (_ & _ & _ & Hr' & Ho' & Hn').
  rewrite Hs32, Hc, Hlid in Hr'. fold r' in Hr', Ho', Hn'.
  assert (voters st3 tv true slots = winners) as Hw.
  { trans (voters st2 tv true slots); [|apply (Hv true)]. unfold voters. apply filter_ext_slots. intros i.
    by rewrite !Hs32. }
  rewrite Hw in Ho', Hn'. split_and!; [done| |].
  - rewrite Ho'. f_equal. apply list_fmap_ext. intros k i _. rewrite <-Hve.
    unfold vote_effect, eff_ring. by rewrite Hs32.
  - intros j. rewrite Hr', Hs32, Hs, votes_assigned. unfold ff_assign, decided_sess.
    destruct (in_cluster (sess st j) c) eqn:Hin; [|done]. simpl.
    destruct (new_ff tv w lid (sess st j)) eqn:Hff; simpl; try done.
    exfalso. by apply (assigned_nil _ Hl j).
Qed.
End decision.

(** The state the decision is computed in. *)
Definition pending_decision (tv : TriggerView) (st : Server) : Server :=
  upd_clus (s_cluster (sess st (tv_slot tv)))
    (λ cl, cl <| cl_state := FCL_WAITING_FOR_STABLE_MEMBERSHIP |>) st.

Lemma ffsplit_do_unstable tv st :
  ffsplit_is_stable (pending_decision tv st) tv = false →
  ffsplit_do tv st = (pending_decision tv st, ERR_NO_ERROR, VOTE_WAIT_FOR_REPLY).
Proof. intros H. unfold ffsplit_do. fold (pending_decision tv st). by rewrite H. Qed.

(** What a decision for partition [w] does. *)
Record decided (tv : TriggerView) (st : Server) (w : option NodeList) (st' : Server) : Prop := {
  dec_env : env st' = env st;
  dec_sess j : sess st' j =
    decided_sess tv w (s_cluster (sess st (tv_slot tv))) (s_node_id (sess st (tv_slot tv)))
      (bool_decide (assigned st tv w FC_SENDING_NACK = [])) (sess st j);
  dec_clus : clus st' (s_cluster (sess st (tv_slot tv))) =
    (clus st (s_cluster (sess st (tv_slot tv)))) <| cl_quorate_partition := default [] w |>
      <| cl_state := decided_state (assigned st tv w FC_SENDING_NACK)
                       (assigned st tv w FC_SENDING_ACK) |>;
  dec_clus_ne d : d ≠ s_cluster (sess st (tv_slot tv)) → clus st' d = clus st d;
  dec_out : sv_out st' = sv_out st ++ (vote_effect st tv VOTE_NACK <$> assigned st tv w FC_SENDING_NACK)
    ++ (if bool_decide (assigned st tv w FC_SENDING_NACK = [])
        then vote_effect st tv VOTE_ACK <$> assigned st tv w FC_SENDING_ACK else []);
  dec_decisions : sv_decisions st' = u32 (sv_decisions st + 1);
}.

(** The state in which the votes are sent: the counter, the client states and
    the cluster are updated. *)
Definition before_rounds (tv : TriggerView) (w : option NodeList) (st : Server) : Server :=
  let c := s_cluster (sess st (tv_slot tv)) in
  upd_clus c (λ cl, cl <| cl_state := FCL_SENDING_NACKS |>)
    (upd_clus c (λ cl, cl <| cl_quorate_partition := default [] w |>)
      (ffsplit_update_states tv w ((pending_decision tv st) <| sv_decisions ::= λ n, u32 (n + 1) |>))).

Lemma pending_decision_sess tv st j : sess (pending_decision tv st) j = sess st j.
Proof. apply sess_upd_clus. Qed.
Lemma pending_decision_env tv st : env (pending_decision tv st) = env st.
Proof. apply env_upd_clus. Qed.
Lemma pending_decision_clus_ne tv st d :
  d ≠ s_cluster (sess st (tv_slot tv)) → clus (pending_decision tv st) d = clus st d.
Proof. intros. by apply clus_upd_ne. Qed.

Lemma cl_state_twice cl a b : cl <| cl_state := a |> <| cl_state := b |> = cl <| cl_state := b |>.
Proof. by destruct cl. Qed.
Lemma cl_state_quorate cl a q :
  cl <| cl_state := a |> <| cl_quorate_partition := q |> = cl <| cl_quorate_partition := q |> <| cl_state := a |>.
Proof. by destruct cl. Qed.

Section do.
Context (tv : TriggerView) (st : Server).
Context (Hlen : length (sv_sessions st) = MAX_CLIENTS).
Context (Hc : 0 <= s_cluster (sess st (tv_slot tv)) < Z.of_nat (length (sv_clusters st))).

(** A write to the cluster in any state with the same tables. *)
Lemma clus_upd_here f st' : env st' = env st →
  clus (upd_clus (s_cluster (sess st (tv_slot tv))) f st') (s_cluster (sess st (tv_slot tv))) =
  f (clus st' (s_cluster (sess st (tv_slot tv)))).
Proof using Hc.
  intros He. rewrite clus_upd, decide_True; [done|]. by rewrite (env_clusters _ _ He).
Qed.

Lemma before_rounds_spec w :
  let st2 := before_rounds tv w st in
  let c := s_cluster (sess st (tv_slot tv)) in
  env st2 = env st ∧
  (∀ j, sess st2 j = sess (ffsplit_update_states tv w st) j) ∧
  clus st2 c = (clus st c) <| cl_quorate_partition := default [] w |> <| cl_state := FCL_SENDING_NACKS |> ∧
  (∀ d, d ≠ c → clus st2 d = clus st d) ∧
  sv_out st2 = sv_out st ∧ sv_decisions st2 = u32 (sv_decisions st + 1).
Proof using Hlen Hc.
  intros st2 c. unfold st2, before_rounds. fold c.
  set (st0 := (pending_decision tv st) <| sv_decisions ::= λ n, u32 (n + 1) |>).
  assert (∀ j, sess st0 j = sess st j) as Hs0 by (exact (pending_decision_sess tv st)).
  assert (env st0 = env st) as He0 by (exact (pending_decision_env tv st)).
  assert (∀ d, clus st0 d = clus (pending_decision tv st) d) as Hc0 by done.
  assert (length (sv_sessions st0) = MAX_CLIENTS) as Hlen0 by (by rewrite (env_sessions _ _ He0)).
  destruct (update_states_spec st0 Hlen0 tv w) as (He1 & Hc1 & Hs1 & Ho1 & Hd1).
  destruct (update_states_spec st Hlen tv w) as (_ & _ & Hs1' & _ & _).
  set (st1 := ffsplit_update_states tv w st0) in *. clearbody st1.
  assert (env st1 = env st) as He by congruence.
  autorewrite with server. split_and!; [done|..].
  - intros j. autorewrite with server. rewrite Hs1, Hs1'. by rewrite !Hs0.
  - rewrite clus_upd_here by (autorewrite with server; exact He). rewrite clus_upd_here, Hc1, Hc0 by done.
    unfold pending_decision. rewrite clus_upd_here by done.
    by rewrite cl_state_quorate, cl_state_twice.
  - intros d Hd. rewrite !clus_upd_ne, Hc1, Hc0 by done. by apply pending_decision_clus_ne.
  - rewrite Ho1. exact (out_upd_clus _ _ _).
  - trans (sv_decisions st1); [unfold upd_clus; by repeat case_match|]. rewrite Hd1.
    unfold st0, pending_decision, upd_clus. by case_match.
Qed.

(** The ACK round of a decision. *)
Definition ack_round (c : Z) (st3 : Server) : Server :=
  let '(st, acks) := ffsplit_send_votes tv true (upd_clus c (λ cl, cl <| cl_state := FCL_SENDING_ACKS |>) st3) in
  if (acks =? 0)%nat then upd_clus c (λ cl, cl <| cl_state := FCL_WAITING_FOR_CHANGE |>) st else st.

Lemma ack_round_decided w st3 :
  let c := s_cluster (sess st (tv_slot tv)) in
  let lid := s_node_id (sess st (tv_slot tv)) in
  assigned st tv w FC_SENDING_NACK = [] → env st3 = env st →
  clus st3 c = (clus st c) <| cl_quorate_partition := default [] w |> <| cl_state := FCL_SENDING_NACKS |> →
  (∀ d, d ≠ c → clus st3 d = clus st d) → sv_out st3 = sv_out st → sv_decisions st3 = u32 (sv_decisions st + 1) →
  (∀ st4, (∀ j, sess st4 j = sess st3 j) → env st4 = env st →
     let r := ffsplit_send_votes tv true st4 in
     r.2 = length (assigned st tv w FC_SENDING_ACK) ∧
     sv_out r.1 = sv_out st4 ++ (vote_effect st tv VOTE_ACK <$> assigned st tv w FC_SENDING_ACK) ∧
     (∀ j, sess r.1 j = decided_sess tv w c lid true (sess st j))) →
  decided tv st w (ack_round c st3).
Proof using Hlen Hc.
  intros c lid Hl He3 Hcl3 Hcl3' Ho3 Hd3 Hack. unfold ack_round.
  set (st4 := upd_clus c (λ cl, cl <| cl_state := FCL_SENDING_ACKS |>) st3).
  assert (env st4 = env st) as He4 by (unfold st4; autorewrite with server; done).
  destruct (Hack st4) as (Hn & Hout & Hsr); [intros j; apply sess_upd_clus|done|].
  assert (length (sv_sessions st4) = MAX_CLIENTS) as Hlen4 by (by rewrite (env_sessions _ _ He4)).
  pose proof (send_votes_spec _ tv true Hlen4) as (Her & Hcr & Hdr & _).
  assert (sv_out st4 = sv_out st ∧ sv_decisions st4 = u32 (sv_decisions st + 1)) as [Ho4 Hd4].
  { split; [rewrite <-Ho3; apply out_upd_clus|]. rewrite <-Hd3. unfold st4, upd_clus. by case_match. }
  assert (clus st4 c = (clus st c) <| cl_quorate_partition := default [] w |>
            <| cl_state := FCL_SENDING_ACKS |>) as Hcl4.
  { unfold st4, c. rewrite clus_upd_here by done. fold c. by rewrite Hcl3, cl_state_twice. }
  assert (∀ d, d ≠ c → clus st4 d = clus st d) as Hcl4'.
  { intros d Hd. unfold st4. rewrite clus_upd_ne by done. auto. }
  clearbody st4. destruct (ffsplit_send_votes tv true st4) as [st5 acks] eqn:E5. cbn [fst snd] in *.
  assert ((if (acks =? 0)%nat then FCL_WAITING_FOR_CHANGE else FCL_SENDING_ACKS) =
    decided_state (assigned st tv w FC_SENDING_NACK) (assigned st tv w FC_SENDING_ACK)) as Hfs.
  { rewrite Hl, Hn. by destruct (assigned st tv w FC_SENDING_ACK). }
  destruct (Nat.eqb_spec acks 0) as [Hz|Hz]; split; fold c; fold lid.
  all: try (autorewrite with server; congruence).
  all: try (intros j; autorewrite with server; rewrite Hsr, (bool_decide_eq_true_2 _ Hl); done).
  all: try (intros d Hd; rewrite ?clus_upd_ne, Hcr by done; by apply Hcl4').
  all: try (autorewrite with server; rewrite Hout, Ho4, Hl, bool_decide_eq_true_2 by done; done).
  all: try (unfold upd_clus; repeat case_match; simpl; congruence).
  - unfold c. rewrite clus_upd_here by congruence. fold c. by rewrite Hcr, Hcl4, <-Hfs, cl_state_twice.
  - by rewrite Hcr, Hcl4, <-Hfs.
Qed.

Lemma ffsplit_do_decided :
  ffsplit_is_stable (pending_decision tv st) tv = true →
  ∃ st', ffsplit_do tv st = (st', ERR_NO_ERROR, VOTE_NO_CHANGE) ∧
    decided tv st (ffsplit_select_partition (pending_decision tv st) tv) st'.
Proof using Hlen Hc.
  intros Hst. set (w := ffsplit_select_partition (pending_decision tv st) tv).
  pose proof (before_rounds_spec w) as (He2 & Hs2 & Hcl2 & Hcl2' & Ho2 & Hd2).
  destruct (update_states_spec st Hlen tv w) as (He1 & _).
  destruct (decision_rounds tv st w Hlen _ Hs2) as (Hn & Hout & Hsr & Hack); [congruence|].
  assert (length (sv_sessions (before_rounds tv w st)) = MAX_CLIENTS) as Hlen2
    by (by rewrite (env_sessions _ _ He2)).
  pose proof (send_votes_spec _ tv false Hlen2) as (Her & Hcr & Hdr & _).
  unfold ffsplit_do. fold (pending_decision tv st). rewrite Hst. cbn [negb]. cbv zeta.
  fold w. fold (before_rounds tv w st).
  destruct (ffsplit_send_votes tv false (before_rounds tv w st)) as [st3 nacks] eqn:E3.
  cbn [fst snd] in *. fold (ack_round (s_cluster (sess st (tv_slot tv))) st3).
  eexists. split; [reflexivity|].
  destruct (Nat.eqb_spec nacks 0) as [Hz|Hz].
  - assert (assigned st tv w FC_SENDING_NACK = []) as Hl by (apply length_zero_iff_nil; congruence).
    apply ack_round_decided; [done|congruence|by rewrite Hcr| | |congruence|].
    + intros d Hd. rewrite Hcr. by apply Hcl2'.
    + by rewrite Hout, Ho2, Hl, app_nil_r.
    + intros st4 Hs4 He4. apply Hack; [done|done|congruence].
  - destruct (assigned st tv w FC_SENDING_NACK) as [|l0 ls] eqn:Hl; [simpl in Hn; lia|].
    split; rewrite ?Hl.
    + congruence.
    + intros j. rewrite Hsr. done.
    + rewrite Hcr, Hcl2. done.
    + intros d Hd. rewrite Hcr. by apply Hcl2'.
    + rewrite Hout, Ho2. rewrite bool_decide_eq_false_2 by done. by rewrite app_nil_r.
    + congruence.
Qed.
End do.
