(* ===== verification/Select.v ===== *)
(** * Which partition wins (server.cpp 522-690)

    Specification of the stability test and of the partition selection: bounds
    of the heuristics score, the quorum every winner has, and the order of the
    criteria - majority, heuristics score, connected clients, the active
    partition, the tie-breaker. *)
From S2P Require Import Prelude Wire Tlv Msg State Ffsplit.

(** ** Heuristics scores *)

Lemma count_node_bounds st c h acc n :
  let r := count_node st c h acc n in
  (n_clients acc ≤ n_clients r ≤ S (n_clients acc) ∧
   n_pass acc ≤ n_pass r ∧ n_fail acc ≤ n_fail r ∧
   (n_pass r - n_pass acc) + (n_fail r - n_fail acc) ≤ n_clients r - n_clients acc)%nat.
Proof. unfold count_node. destruct (List.find _ _) as [k|]; [|simpl; lia]. repeat case_match; simpl; lia. Qed.

Lemma count_nodes_bounds st c h l acc :
  (n_pass acc + n_fail acc ≤ n_clients acc)%nat →
  let r := foldl (count_node st c h) acc l in
  (n_pass r + n_fail r ≤ n_clients r ∧ n_clients acc ≤ n_clients r ≤ n_clients acc + length l)%nat.
Proof.
  revert acc. induction l as [|n l IH]; intros acc H; cbn [foldl length]; [lia|].
  pose proof (count_node_bounds st c h acc n) as Hb. cbv zeta in Hb.
  destruct (IH (count_node st c h acc n)) as [H1 H2]; [lia|]. lia.
Qed.

Lemma stats_bounds st cd :
  let s := ffsplit_partition_stats st cd in
  (n_pass s + n_fail s ≤ n_clients s)%nat ∧
  (n_clients s ≤ match cd with Some cd => length (cd_mem cd) | None => 0 end)%nat.
Proof.
  destruct cd as [cd|]; cbn [ffsplit_partition_stats]; [|simpl; lia].
  pose proof (count_nodes_bounds st (cd_client cd) (cd_h cd) (cd_mem cd) (mkStats 0 0 0)) as H.
  cbv zeta in H. simpl in H. lia.
Qed.

(** ** Quorum *)

(** At least half of the configuration, and more than half if it is odd. *)
Definition quorum (cd : Candidate) : Prop :=
  (length (cd_cfg cd) < 2 * length (cd_mem cd))%nat ∨
  (Nat.even (length (cd_cfg cd)) = true ∧ length (cd_cfg cd) = 2 * length (cd_mem cd))%nat.
Definition majority (cd : Candidate) : Prop := (length (cd_cfg cd) < 2 * length (cd_mem cd))%nat.
(** An exact 50:50 split. *)
Definition half (cd : Candidate) : Prop := (length (cd_cfg cd) = 2 * length (cd_mem cd))%nat.

Lemma half_div n m : n = (2 * m)%nat → (n mod 2 = 0 ∧ n / 2 = m)%nat.
Proof.
  intros ->. rewrite Nat.mul_comm. split; [apply Nat.Div0.mod_mul|by apply Nat.div_mul].
Qed.
Lemma div2_bounds n : (2 * (n / 2) ≤ n ≤ 2 * (n / 2) + 1)%nat.
Proof. pose proof (Nat.div_mod n 2 ltac:(lia)). pose proof (Nat.mod_upper_bound n 2). lia. Qed.

Lemma better_quorum st c1 c2 prev keep :
  ffsplit_partition_better st c1 c2 prev keep = true → quorum c1.
Proof.
  unfold ffsplit_partition_better, quorum. pose proof (div2_bounds (length (cd_cfg c1))) as Hd.
  pose proof (Nat.div_mod (length (cd_cfg c1)) 2 ltac:(lia)) as Hm.
  destruct (Nat.eqb_spec (length (cd_cfg c1) mod 2) 0) as [He|He]; cbn [negb].
  - destruct (Nat.ltb_spec (length (cd_cfg c1) / 2) (length (cd_mem c1))) as [Hl|Hl]; [lia|].
    destruct (Nat.ltb_spec (length (cd_mem c1)) (length (cd_cfg c1) / 2)) as [Hg|Hg]; [done|].
    intros _. right. split; [|lia]. apply Nat.even_spec. exists (length (cd_cfg c1) / 2)%nat. lia.
  - intros H%Nat.ltb_lt. pose proof (Nat.mod_upper_bound (length (cd_cfg c1)) 2). lia.
Qed.

Lemma majority_better st c1 c2 prev keep :
  majority c1 → ffsplit_partition_better st c1 c2 prev keep = true.
Proof.
  unfold majority, ffsplit_partition_better. intros H. pose proof (div2_bounds (length (cd_cfg c1))) as Hd.
  assert (length (cd_cfg c1) / 2 <? length (cd_mem c1) = true)%nat as -> by (apply Nat.ltb_lt; lia).
  by destruct (negb _).
Qed.

(** The comparison in a 50:50 split. *)
Lemma half_better st c1 c2 prev keep : half c1 →
  ffsplit_partition_better st c1 c2 prev keep =
    let s1 := ffsplit_partition_stats st (Some c1) in
    let s2 := ffsplit_partition_stats st c2 in
    if negb (score s1 =? score s2) then score s2 <? score s1
    else if negb (n_clients s1 =? n_clients s2)%nat then (n_clients s2 <? n_clients s1)%nat
    else
      let preferred := ffsplit_is_preferred_partition st (cd_client c1) (cd_cfg c1) (cd_mem c1) in
      match c2 with
      | Some c2 =>
          if keep then
            let in1 := nl_mem prev (s_node_id (sess st (cd_client c1))) in
            let in2 := nl_mem prev (s_node_id (sess st (cd_client c2))) in
            if negb (eqb in1 in2) then in1 else preferred
          else preferred
      | None => preferred
      end.
Proof.
  unfold half, ffsplit_partition_better. intros H. destruct (half_div _ _ H) as [-> ->].
  by rewrite Nat.ltb_irrefl.
Qed.

(** ** The scan *)

Section scan.
Context (st : Server) (tv : TriggerView).
Local Abbreviation c := (s_cluster (sess st (tv_slot tv))).

(** The vote of the cluster on the active-partition criterion. *)
Definition keep_active : bool :=
  negb (existsb (λ i, in_cluster (sess st i) c && negb (s_keep_active_partition_tb (sess st i))) slots).

Local Abbreviation prev := (cl_quorate_partition (clus st c)).
Definition scan (l : list nat) (best : option Candidate) : option Candidate :=
  foldl (select_step st c tv keep_active) best l.

Lemma select_scan : ffsplit_select_partition st tv = cd_mem <$> scan slots None.
Proof. reflexivity. Qed.

(** The partitions in the running. *)
Definition is_candidate (cd : Candidate) : Prop := ∃ i, i ∈ slots ∧ candidate st c tv i = Some cd.

(** They can be enumerated. *)
Definition candidates : list Candidate := omap (candidate st c tv) slots.
Lemma elem_of_candidates cd : is_candidate cd ↔ cd ∈ candidates.
Proof. unfold is_candidate, candidates. by rewrite list_elem_of_omap. Qed.
Lemma candidates_Forall (P : Candidate → Prop) : Forall P candidates → ∀ cd, is_candidate cd → P cd.
Proof. rewrite Forall_forall. intros H cd Hcd. by apply H, elem_of_candidates. Qed.

(** The winner was chosen over whatever was best before. *)
Lemma scan_origin l best cd : scan l best = Some cd →
  best = Some cd ∨ ∃ i, i ∈ l ∧ candidate st c tv i = Some cd ∧
    ∃ b, ffsplit_partition_better st cd b prev keep_active = true.
Proof.
  revert best. induction l as [|i l IH]; intros best H; [by left|]. cbn [scan foldl] in H.
  destruct (IH _ H) as [Hb|(j & Hj & Hc & Hq)]; [|right; exists j; split; [by apply list_elem_of_further|done]].
  unfold select_step in Hb. destruct (candidate st c tv i) as [cd'|] eqn:E; [|by left].
  destruct (ffsplit_partition_better st cd' best _ _) eqn:Eb; [|by left]. injection Hb as ->.
  right. exists i. split; [apply list_elem_of_here|eauto].
Qed.

Lemma scan_some l best : is_Some best → is_Some (scan l best).
Proof.
  revert best. induction l as [|i l IH]; intros best H; [done|]. cbn [scan foldl]. apply IH.
  unfold select_step. destruct (candidate st c tv i); [|done]. by destruct (ffsplit_partition_better _ _ _ _ _).
Qed.

(** A criterion that wins every comparison decides the selection. *)
Lemma scan_prefers (P : Candidate → Prop) :
  (∀ cd best, is_candidate cd → P cd →
     match best with Some b => is_candidate b ∧ ¬ P b | None => True end →
     ffsplit_partition_better st cd best prev keep_active = true) →
  (∀ cd b, is_candidate cd → is_candidate b → P b → ¬ P cd →
     ffsplit_partition_better st cd (Some b) prev keep_active = false) →
  (∀ cd, Decision (P cd)) → (∃ cd, is_candidate cd ∧ P cd) →
  ∃ cd, scan slots None = Some cd ∧ is_candidate cd ∧ P cd.
Proof.
  intros Hwin Hkeep Hdec [cd0 [[i0 [Hi0 Hc0]] HP0]].
  set (ok := λ best : option Candidate, match best with Some b => is_candidate b | None => True end).
  set (good := λ best : option Candidate, match best with Some b => is_candidate b ∧ P b | None => False end).
  assert (∀ l best, l ⊆ slots → good best → good (scan l best)) as Hg.
  { induction l as [|i l IH]; intros best Hl Hb; [done|]. cbn [scan foldl].
    apply IH; [set_solver|]. unfold select_step. destruct (candidate st c tv i) as [cd|] eqn:E; [|done].
    assert (is_candidate cd) as Hcd by (exists i; set_solver).
    destruct best as [b|]; [|done]. destruct Hb as [Hb HPb]. destruct (Hdec cd) as [HP|HP].
    - destruct (ffsplit_partition_better st cd (Some b) prev keep_active); by split.
    - rewrite Hkeep by done. by split. }
  assert (∀ l best, l ⊆ slots → ok best → i0 ∈ l → good (scan l best)) as Hs.
  { induction l as [|i l IH]; intros best Hl Hb Hi; [by apply not_elem_of_nil in Hi|]. cbn [scan foldl].
    destruct (decide (i = i0)) as [->|Hne].
    - apply Hg; [set_solver|]. unfold select_step. rewrite Hc0.
      assert (is_candidate cd0) as Hcd0 by (exists i0; done).
      destruct best as [b|]; [destruct (Hdec b) as [HP|HP]|].
      + destruct (ffsplit_partition_better st cd0 (Some b) prev keep_active); by split.
      + rewrite Hwin by done. by split.
      + rewrite Hwin by done. by split.
    - apply IH; [set_solver| |apply elem_of_cons in Hi as [?|?]; [congruence|done]].
      unfold select_step. destruct (candidate st c tv i) as [cd|] eqn:E; [|done].
      destruct (ffsplit_partition_better _ _ _ _ _); [|done]. exists i. set_solver. }
  specialize (Hs slots None ltac:(set_solver) I Hi0).
  destruct (scan slots None) as [cd|]; [|done]. exists cd. split; [done|exact Hs].
Qed.
End scan.

(** ** Candidates *)

Lemma candidate_inv st c tv i cd : candidate st c tv i = Some cd →
  walks st c tv i = true ∧ cd = mkCandidate i (eff_config st i tv) (eff_membership st i tv) (eff_heuristics st i tv) ∧
  cd_cfg cd ≠ [] ∧ cd_mem cd ≠ [].
Proof.
  unfold candidate. destruct (walks st c tv i); cbn [negb]; [|done].
  destruct (eff_config st i tv), (eff_membership st i tv); cbn [nl_empty orb]; try done. by intros [= <-].
Qed.

Lemma candidate_of st c tv i : walks st c tv i = true → eff_config st i tv ≠ [] → eff_membership st i tv ≠ [] →
  candidate st c tv i = Some (mkCandidate i (eff_config st i tv) (eff_membership st i tv) (eff_heuristics st i tv)).
Proof.
  intros Hw Hc Hm. unfold candidate. rewrite Hw. cbn [negb].
  by destruct (eff_config st i tv), (eff_membership st i tv).
Qed.

Lemma walks_in_cluster st c tv i : walks st c tv i = true → in_cluster (sess st i) c = true.
Proof. unfold walks. intros H. bool_to_prop. done. Qed.

Lemma in_cluster_slot st c i : length (sv_sessions st) = MAX_CLIENTS → in_cluster (sess st i) c = true → i ∈ slots.
Proof.
  intros Hlen [Hp _]%in_cluster_true. apply elem_of_slots. rewrite <-Hlen. apply sess_in_range. by rewrite Hp.
Qed.

(** A client that lists itself is counted. *)
Lemma self_counted st cd :
  length (sv_sessions st) = MAX_CLIENTS → s_phase (sess st (cd_client cd)) = ACTIVE →
  s_node_id (sess st (cd_client cd)) ∈ nl_ids (cd_mem cd) →
  (0 < n_clients (ffsplit_partition_stats st (Some cd)))%nat.
Proof.
  intros Hlen Hp Hin. cbn [ffsplit_partition_stats]. generalize (mkStats 0 0 0).
  unfold nl_ids in Hin. induction (cd_mem cd) as [|n l IH]; intros acc; [by apply not_elem_of_nil in Hin|].
  cbn [foldl]. rewrite fmap_cons in Hin. apply elem_of_cons in Hin as [He|Hin]; [|by apply IH].
  assert (∀ l acc, n_clients acc ≤ n_clients (foldl (count_node st (cd_client cd) (cd_h cd)) acc l))%nat as Hmono.
  { clear. induction l as [|n l IH]; intros acc; cbn [foldl]; [lia|].
    pose proof (count_node_bounds st (cd_client cd) (cd_h cd) acc n) as Hb. cbv zeta in Hb.
    specialize (IH (count_node st (cd_client cd) (cd_h cd) acc n)). lia. }
  specialize (Hmono l (count_node st (cd_client cd) (cd_h cd) acc n)).
  assert (0 < n_clients (count_node st (cd_client cd) (cd_h cd) acc n))%nat; [|lia].
  unfold count_node. destruct (List.find _ slots) eqn:E; [repeat case_match; simpl; lia|].
  exfalso. assert (in_cluster (sess st (cd_client cd)) (s_cluster (sess st (cd_client cd))) = true) as Hic
    by (by apply in_cluster_true).
  pose proof (List.find_none _ _ E (cd_client cd)) as Hf. cbv beta in Hf.
  rewrite Hic, (proj2 (Z.eqb_eq _ _) He) in Hf. discriminate Hf.
  apply list_elem_of_In. by apply (in_cluster_slot st) in Hic.
Qed.

(** ** The tie-breaker *)

(** The node the tie-breaker of a client names. *)
Definition preferred_id (tb : TieBreaker) (cfg : NodeList) : Z :=
  match tb_mode tb with
  | TBM_LOWEST => foldl (λ p n, if ni_node_id n <? p then ni_node_id n else p) (front_id cfg) cfg
  | TBM_HIGHEST => foldl (λ p n, if p <? ni_node_id n then ni_node_id n else p) (front_id cfg) cfg
  | TBM_NODE_ID => tb_node_id tb
  end.

Lemma is_preferred_spec st i cfg mem :
  ffsplit_is_preferred_partition st i cfg mem = true ↔
  preferred_id (s_tie_breaker (sess st i)) cfg ∈ nl_ids mem.
Proof. apply nl_mem_true. Qed.

Lemma fold_lowest cfg p0 :
  let p := foldl (λ p n, if ni_node_id n <? p then ni_node_id n else p) p0 cfg in
  (p = p0 ∨ p ∈ nl_ids cfg) ∧ p <= p0 ∧ ∀ id, id ∈ nl_ids cfg → p <= id.
Proof.
  revert p0. induction cfg as [|n cfg IH]; intros p0; cbn [foldl].
  { split_and!; [by left|done|]. intros id ?%not_elem_of_nil. done. }
  destruct (IH (if ni_node_id n <? p0 then ni_node_id n else p0)) as (H1 & H2 & H3).
  cbv zeta. set (p := foldl _ _ cfg) in *. unfold nl_ids in *. rewrite fmap_cons. split_and!.
  - destruct (Z.ltb_spec (ni_node_id n) p0); set_solver.
  - destruct (Z.ltb_spec (ni_node_id n) p0); lia.
  - intros id [->|Hid]%elem_of_cons; [|auto]. destruct (Z.ltb_spec (ni_node_id n) p0); lia.
Qed.

Lemma fold_highest cfg p0 :
  let p := foldl (λ p n, if p <? ni_node_id n then ni_node_id n else p) p0 cfg in
  (p = p0 ∨ p ∈ nl_ids cfg) ∧ p0 <= p ∧ ∀ id, id ∈ nl_ids cfg → id <= p.
Proof.
  revert p0. induction cfg as [|n cfg IH]; intros p0; cbn [foldl].
  { split_and!; [by left|done|]. intros id ?%not_elem_of_nil. done. }
  destruct (IH (if p0 <? ni_node_id n then ni_node_id n else p0)) as (H1 & H2 & H3).
  cbv zeta. set (p := foldl _ _ cfg) in *. unfold nl_ids in *. rewrite fmap_cons. split_and!.
  - destruct (Z.ltb_spec p0 (ni_node_id n)); set_solver.
  - destruct (Z.ltb_spec p0 (ni_node_id n)); lia.
  - intros id [->|Hid]%elem_of_cons; [|auto]. destruct (Z.ltb_spec p0 (ni_node_id n)); lia.
Qed.

Lemma front_id_elem cfg : cfg ≠ [] → front_id cfg ∈ nl_ids cfg.
Proof. destruct cfg; [done|]. intros _. unfold nl_ids. rewrite fmap_cons. apply list_elem_of_here. Qed.

(** The lowest and highest node ids of the configuration. *)
Lemma preferred_lowest tb cfg : tb_mode tb = TBM_LOWEST → cfg ≠ [] →
  preferred_id tb cfg ∈ nl_ids cfg ∧ ∀ id, id ∈ nl_ids cfg → preferred_id tb cfg <= id.
Proof.
  intros Hm Hc. unfold preferred_id. rewrite Hm. destruct (fold_lowest cfg (front_id cfg)) as ([-> |?] & _ & ?);
    auto using front_id_elem.
Qed.
Lemma preferred_highest tb cfg : tb_mode tb = TBM_HIGHEST → cfg ≠ [] →
  preferred_id tb cfg ∈ nl_ids cfg ∧ ∀ id, id ∈ nl_ids cfg → id <= preferred_id tb cfg.
Proof.
  intros Hm Hc. unfold preferred_id. rewrite Hm. destruct (fold_highest cfg (front_id cfg)) as ([-> |?] & _ & ?);
    auto using front_id_elem.
Qed.

(** The preferred node depends on the set of configured node ids only. *)
Lemma preferred_id_ext tb cfg1 cfg2 : cfg1 ≠ [] → cfg2 ≠ [] →
  (∀ id, id ∈ nl_ids cfg1 ↔ id ∈ nl_ids cfg2) → preferred_id tb cfg1 = preferred_id tb cfg2.
Proof.
  intros H1 H2 Heq. destruct (tb_mode tb) eqn:Hm.
  - destruct (preferred_lowest tb cfg1 Hm H1) as [A1 A2], (preferred_lowest tb cfg2 Hm H2) as [B1 B2].
    apply Heq in A1. apply B2 in A1. apply Heq in B1. apply A2 in B1. lia.
  - destruct (preferred_highest tb cfg1 Hm H1) as [A1 A2], (preferred_highest tb cfg2 Hm H2) as [B1 B2].
    apply Heq in A1. apply B2 in A1. apply Heq in B1. apply A2 in B1. lia.
  - unfold preferred_id. by rewrite Hm.
Qed.

(** ** Stability *)

Lemma nl_forallb l1 l2 :
  forallb (λ n, nl_mem l2 (ni_node_id n)) l1 = true ↔ nl_ids l1 ⊆ nl_ids l2.
Proof.
  rewrite forallb_forall. split.
  - intros H id Hid. apply list_elem_of_fmap in Hid as (n & -> & Hn).
    apply nl_mem_true, H. by apply list_elem_of_In.
  - intros H n Hn. apply nl_mem_true, H. unfold nl_ids.
    apply list_elem_of_fmap. exists n. split; [done|]. by apply list_elem_of_In.
Qed.

Section stable.
Context (st : Server) (c : Z) (tv : TriggerView).
Context (Hlen : length (sv_sessions st) = MAX_CLIENTS).
Local Abbreviation walker i := (walks st c tv i = true).

Lemma walker_slot i : walker i → i ∈ slots.
Proof using Hlen. intros H%walks_in_cluster. by eapply in_cluster_slot. Qed.

Lemma walkers_forallb (f : nat → bool) :
  forallb (λ i, if negb (walks st c tv i) then true else f i) slots = true ↔ ∀ i, walker i → f i = true.
Proof using Hlen.
  rewrite forallb_forall. split.
  - intros H i Hi. specialize (H i). rewrite Hi in H. by apply H, list_elem_of_In, walker_slot.
  - intros H i _. destruct (walks st c tv i) eqn:E; [|done]. by apply H.
Qed.

Lemma stable_configs_spec :
  stable_configs st c tv = true ↔
  ∀ i j, walker i → walker j → i ≠ j → nl_ids (eff_config st i tv) ⊆ nl_ids (eff_config st j tv).
Proof using Hlen.
  unfold stable_configs. rewrite walkers_forallb. split.
  - intros H i j Hi Hj Hne. specialize (H i Hi). rewrite forallb_forall in H. specialize (H j).
    rewrite (proj2 (Nat.eqb_neq i j)), Hj in H by done. apply nl_forallb, H, list_elem_of_In, walker_slot, Hj.
  - intros H i Hi. apply forallb_forall. intros j _. destruct (Nat.eqb_spec i j) as [|Hne]; [done|]. cbn [orb].
    destruct (walks st c tv j) eqn:Hj; [|done]. apply nl_forallb. auto.
Qed.

Lemma walk_by_node_id_spec id :
  match walk_by_node_id st c tv id with
  | Some j => walker j ∧ s_node_id (sess st j) = id
  | None => ∀ j, walker j → s_node_id (sess st j) ≠ id
  end.
Proof using Hlen.
  unfold walk_by_node_id. destruct (List.find _ slots) eqn:E.
  - apply List.find_some in E as [_ E]. bool_to_prop. done.
  - intros j Hj Hid. pose proof (List.find_none _ _ E j) as Hn. cbv beta in Hn.
    rewrite Hj, (proj2 (Z.eqb_eq _ _) Hid) in Hn. discriminate Hn. by apply list_elem_of_In, walker_slot.
Qed.

(** With unique node ids, the second loop relates all members of a partition. *)
Lemma stable_rings_spec :
  (∀ i j, walker i → walker j → s_node_id (sess st i) = s_node_id (sess st j) → i = j) →
  stable_rings st c tv = true ↔
  ∀ i j, walker i → walker j → s_node_id (sess st j) ∈ nl_ids (eff_membership st i tv) →
    eff_ring st i tv = eff_ring st j tv ∧
    nl_ids (eff_membership st i tv) ⊆ nl_ids (eff_membership st j tv).
Proof using Hlen.
  intros Huniq. unfold stable_rings. rewrite walkers_forallb. split.
  - intros H i j Hi Hj Hin. specialize (H i Hi). cbv zeta in H. rewrite forallb_forall in H.
    apply list_elem_of_fmap in Hin as (n & Hn & Hin). specialize (H n (proj1 (list_elem_of_In _ _) Hin)).
    pose proof (walk_by_node_id_spec (ni_node_id n)) as Hf.
    destruct (walk_by_node_id st c tv (ni_node_id n)) as [k|]; [|by destruct (Hf j Hj)].
    destruct Hf as [Hk Hkid]. assert (k = j) as -> by (apply Huniq; congruence).
    destruct (RingId_eqb _ _) eqn:Er; cbn [negb] in H; [|done].
    apply RingId_eqb_eq in Er. by apply nl_forallb in H.
  - intros H i Hi. cbv zeta. apply forallb_forall. intros n Hn.
    pose proof (walk_by_node_id_spec (ni_node_id n)) as Hf.
    destruct (walk_by_node_id st c tv (ni_node_id n)) as [k|]; [|done]. destruct Hf as [Hk Hkid].
    destruct (H i k Hi Hk) as [Hr Hs].
    { rewrite Hkid. unfold nl_ids. apply list_elem_of_fmap. exists n. split; [done|]. by apply list_elem_of_In. }
    rewrite (proj2 (RingId_eqb_eq _ _) Hr). cbn [negb]. by apply nl_forallb.
Qed.
End stable.
