(* ===== verification/Handlers.v ===== *)
(** * Sessions, clusters and message handlers (server.cpp 24-97, 195-495)

    Cluster bookkeeping, deferred disconnection, and one definition per message
    handler.  Each handler takes the state to the state after the call; its
    guards and early returns are those of the code. *)
From S2P Require Import Prelude Double Wire Tlv Msg State Ffsplit.

(** ** Clusters *)

(** [find_or_create_cluster(name)]: the index, or -1, and the new state. *)
Definition find_or_create_cluster (name : bytes) (st : Server) : Z * Server :=
  match List.find (λ i : nat, let cl := clus st (Z.of_nat i) in
                      cl_used cl && bool_decide (cl_name cl = name)) cluster_slots with
  | Some i => (Z.of_nat i, st)
  | None =>
      match List.find (λ i : nat, negb (cl_used (clus st (Z.of_nat i)))) cluster_slots with
      | Some i =>
          (Z.of_nat i, upd_clus (Z.of_nat i)
             (λ _, Cluster0 <| cl_used := true |> <| cl_name := name |>) st)
      | None => (-1, st)
      end
  end.

(** [leave_cluster(slot, now_ms)]: re-run the algorithm without the leaving
    client, then drop it from its cluster. *)
Definition leave_cluster (slot : nat) (st : Server) : Server :=
  let s := sess st slot in
  if negb (bool_decide (s_phase s = ACTIVE)) || (s_cluster s <? 0) then st
  else
    let tv := mkTV slot true (s_last_ring_id s) (s_config_list s) (s_membership_list s)
                (s_last_heuristics s) in
    let '(st, _, _) := ffsplit_do tv st in
    let c := s_cluster (sess st slot) in
    let st := upd_clus c (λ cl, cl <| cl_members ::= λ n, n - 1 |>) st in
    let st := if cl_members (clus st c) <=? 0 then upd_clus c (λ _, Cluster0) st else st in
    upd_sess slot (λ s, s <| s_cluster := -1 |>) st.

(** [cluster_client_by_node_id(cluster, node_id, except_slot)]. *)
Definition cluster_client_by_node_id (st : Server) (cluster : Z) (node_id : Z) (except_slot : Z)
    : option nat :=
  List.find (λ i, negb (Z.of_nat i =? except_slot) && in_cluster (sess st i) cluster &&
                  (s_node_id (sess st i) =? node_id)) slots.

(** ** Deferred disconnection *)

(** [sessions_[slot].reset()]. *)
Definition reset_sess (slot : nat) (st : Server) : Server := upd_sess slot (λ _, Session0) st.

(** The loop of [drain_closes]; the fuel is the number of pending closes. *)
Fixpoint drain_loop (fuel : nat) (st : Server) : Server :=
  match fuel with
  | O => st
  | S fuel =>
      match last (sv_pending_close st) with
      | None => st
      | Some slot =>
          let st := st <| sv_pending_close ::= λ l, take (length l - 1) l |> in
          if bool_decide (s_phase (sess st slot) = FREE) then drain_loop fuel st
          else
            let st := leave_cluster slot st in
            let st := reset_sess slot st in
            drain_loop fuel (emit (EClose slot) st)
      end
  end.

Definition drain_closes (st : Server) : Server :=
  let st := st <| sv_processing := true |> in
  let st := drain_loop (length (sv_pending_close st)) st in
  notify (st <| sv_processing := false |>).

(** [disconnect_client(slot, now_ms, why)]. *)
Definition disconnect_client (slot : nat) (st : Server) : Server :=
  let s := sess st slot in
  if bool_decide (s_phase s = FREE) || s_schedule_disconnect s then st
  else
    let st := upd_sess slot (λ s, s <| s_schedule_disconnect := true |>) st in
    let st := st <| sv_pending_close ::= λ l, l ++ [slot] |> in
    if sv_processing st then st else drain_closes st.

(** ** Timers *)

(** [reschedule_dpd(s, now_ms)]; the conversion of the interval is defined
    ([dpd_interval_half]). *)
Definition reschedule_dpd (now_ms : Z) (s : Session) : Session :=
  if bool_decide (s_phase s = ACTIVE) && (0 <? s_heartbeat_ms s) then
    s <| s_deadline_ms := u64 (now_ms + default 0 (dpd_interval (s_heartbeat_ms s))) |>
  else if negb (bool_decide (s_phase s = FREE)) && negb (bool_decide (s_phase s = ACTIVE)) then
    s <| s_deadline_ms := u64 (now_ms + PREACTIVE_TIMEOUT_MS) |>
  else s.

(** ** Handshake *)

Definition handle_preinit (slot : nat) (m : MsgDecoded) (st : Server) : Server :=
  if bool_decide (m_cluster_name m = []) then
    send_err slot m ERR_DOESNT_CONTAIN_REQUIRED_OPTION st
  else if negb (bool_decide (s_phase (sess st slot) = WAIT_PREINIT)) then
    send_err slot m ERR_UNEXPECTED_MESSAGE st
  else
    let st := upd_sess slot (λ s, s <| s_cluster_name := m_cluster_name m |>
                                    <| s_phase := WAIT_INIT |>) st in
    send slot (build_preinit_reply (m_seq_number_set m) (m_seq_number m) TLS_UNSUPPORTED 0) st.

Definition is_no_error (code : ReplyErrorCode) : bool := bool_decide (code = ERR_NO_ERROR).

Definition heartbeat_invalid (hb : Z) : bool := (hb <? HEARTBEAT_MIN_MS) || (HEARTBEAT_MAX_MS <? hb).

(** The field checks of [handle_init], up to the decision algorithm: they write
    the session as they go. *)
Definition init_fields (m : MsgDecoded) (s : Session) : ReplyErrorCode * Session :=
  let code := if bool_decide (s_phase s = ACTIVE) then ERR_UNEXPECTED_MESSAGE else ERR_NO_ERROR in
  let '(code, s) :=
    if is_no_error code && negb (m_node_id_set m) then (ERR_DOESNT_CONTAIN_REQUIRED_OPTION, s)
    else (code, s <| s_node_id := m_node_id m |>) in
  let '(code, s) :=
    if is_no_error code && negb (m_ring_id_set m) then (ERR_DOESNT_CONTAIN_REQUIRED_OPTION, s)
    else (code, s <| s_last_ring_id := m_ring_id m |>) in
  let '(code, s) :=
    if is_no_error code then
      if negb (m_heartbeat_interval_set m) then (ERR_DOESNT_CONTAIN_REQUIRED_OPTION, s)
      else if heartbeat_invalid (m_heartbeat_interval m) then (ERR_INVALID_HEARTBEAT_INTERVAL, s)
      else (code, s <| s_heartbeat_ms := m_heartbeat_interval m |>)
    else (code, s) in
  let '(code, s) :=
    if is_no_error code then
      if negb (m_tie_breaker_set m) then (ERR_DOESNT_CONTAIN_REQUIRED_OPTION, s)
      else (code, s <| s_tie_breaker := m_tie_breaker m |>)
    else (code, s) in
  if is_no_error code then
    if negb (m_decision_algorithm_set m) then (ERR_DOESNT_CONTAIN_REQUIRED_OPTION, s)
    else if negb (bool_decide (m_decision_algorithm m = ALG_FFSPLIT)) then
      (ERR_UNSUPPORTED_DECISION_ALGORITHM, s)
    else (code, s <| s_algorithm := m_decision_algorithm m |>)
  else (code, s).

(** The consistency loop with the existing members: the code of the first
    session that disagrees. *)
Fixpoint init_consistency (st : Server) (slot : nat) (idx : list nat) : ReplyErrorCode :=
  match idx with
  | [] => ERR_NO_ERROR
  | i :: idx =>
      let s := sess st slot in
      let o := sess st i in
      if (i =? slot)%nat || negb (bool_decide (s_phase o = ACTIVE)) ||
         negb (bool_decide (s_cluster_name o = s_cluster_name s)) then init_consistency st slot idx
      else if negb (TieBreaker_eqb (s_tie_breaker s) (s_tie_breaker o)) then
        ERR_TIE_BREAKER_DIFFERS_FROM_OTHER_NODES
      else if negb (bool_decide (s_algorithm s = s_algorithm o)) then
        ERR_ALGORITHM_DIFFERS_FROM_OTHER_NODES
      else if s_node_id s =? s_node_id o then ERR_DUPLICATE_NODE_ID
      else init_consistency st slot idx
  end.

(** Admission to the cluster, the last step of [handle_init]. *)
Definition init_join (slot : nat) (now_ms : Z) (st : Server) : ReplyErrorCode * Server :=
  let '(c, st) := find_or_create_cluster (s_cluster_name (sess st slot)) st in
  if c <? 0 then (ERR_INTERNAL_ERROR, st)
  else
    let st := upd_sess slot (λ s, s <| s_cluster := c |>) st in
    let st :=
      if cl_members (clus st c) =? 0 then
        upd_clus c (λ cl, cl <| cl_state := FCL_WAITING_FOR_CHANGE |>
                             <| cl_quorate_partition := [] |>) st
      else st in
    let st := upd_clus c (λ cl, cl <| cl_members ::= λ n, n + 1 |>) st in
    let st := upd_sess slot (λ s, s <| s_phase := ACTIVE |>) st in
    (ERR_NO_ERROR, upd_sess slot (reschedule_dpd now_ms) st).

Definition handle_init (slot : nat) (m : MsgDecoded) (now_ms : Z) (st : Server) : Server :=
  let '(code, s) := init_fields m (sess st slot) in
  let st := upd_sess slot (λ _, s) st in
  let code := if is_no_error code then init_consistency st slot slots else code in
  let '(code, st) := if is_no_error code then init_join slot now_ms st else (code, st) in
  let st := send slot (build_init_reply (m_seq_number_set m) (m_seq_number m) code
                         (m_supported_messages_present m) (m_supported_options_present m)
                         (sv_max_rx_frame st) (sv_max_rx_frame st)) st in
  notify st.

Definition handle_set_option (slot : nat) (m : MsgDecoded) (now_ms : Z) (st : Server) : Server :=
  if m_heartbeat_interval_set m && heartbeat_invalid (m_heartbeat_interval m) then
    send_err slot m ERR_INVALID_HEARTBEAT_INTERVAL st
  else
    let st :=
      if m_heartbeat_interval_set m then
        let st := upd_sess slot (λ s, s <| s_heartbeat_ms := m_heartbeat_interval m |>) st in
        upd_sess slot (reschedule_dpd now_ms) st
      else st in
    let st :=
      if m_keep_active_partition_tie_breaker_set m then
        upd_sess slot (λ s, s <| s_keep_active_partition_tb :=
                                 negb (m_keep_active_partition_tie_breaker m =? 0) |>) st
      else st in
    let s := sess st slot in
    send slot (build_set_option_reply (m_seq_number_set m) (m_seq_number m)
                 (m_heartbeat_interval_set m) (s_heartbeat_ms s)
                 (m_keep_active_partition_tie_breaker_set m)
                 (if s_keep_active_partition_tb s then 1 else 0)) st.

(** ** Node lists *)

(** [s.last_sent_vote = result] and the update of [last_ack_nack]. *)
Definition record_vote (result : Vote) (s : Session) : Session :=
  let s := s <| s_last_sent_vote := result |> in
  if bool_decide (result = VOTE_ACK) || bool_decide (result = VOTE_NACK)
  then s <| s_last_ack_nack := result |> else s.

(** The first switch of [handle_node_list]: [inl] is an early return with an
    error, [inr] the code and vote after the algorithm. *)
Definition node_list_decide (slot : nat) (m : MsgDecoded) (st : Server)
    : ReplyErrorCode + (Server * ReplyErrorCode * Vote) :=
  let s := sess st slot in
  let bad_list := nl_empty (m_nodes m) || negb (nl_mem (m_nodes m) (s_node_id s)) in
  match m_node_list_type m with
  | NLT_INITIAL_CONFIG | NLT_CHANGED_CONFIG =>
      if bad_list then inl ERR_INVALID_CONFIG_NODE_LIST
      else
        let initial := bool_decide (m_node_list_type m = NLT_INITIAL_CONFIG) in
        if initial || nl_empty (s_membership_list s) then inr (st, ERR_NO_ERROR, VOTE_ASK_LATER)
        else inr (ffsplit_do (mkTV slot false (s_last_ring_id s) (m_nodes m) (s_membership_list s)
                                (s_last_heuristics s)) st)
  | NLT_MEMBERSHIP =>
      if negb (m_ring_id_set m) then inl ERR_DOESNT_CONTAIN_REQUIRED_OPTION
      else if bad_list then inl ERR_INVALID_MEMBERSHIP_NODE_LIST
      else if nl_empty (s_config_list s) then inr (st, ERR_NO_ERROR, VOTE_ASK_LATER)
      else inr (ffsplit_do (mkTV slot false (m_ring_id m) (s_config_list s) (m_nodes m)
                              (m_heuristics m)) st)
  | NLT_QUORUM =>
      if negb (m_quorate_set m) then inl ERR_DOESNT_CONTAIN_REQUIRED_OPTION
      else inr (st, ERR_NO_ERROR, VOTE_NO_CHANGE)
  end.

(** The second switch: the lists are stored after the algorithm ran. *)
Definition node_list_store (m : MsgDecoded) (s : Session) : Session :=
  match m_node_list_type m with
  | NLT_INITIAL_CONFIG | NLT_CHANGED_CONFIG =>
      s <| s_config_list := m_nodes m |> <| s_config_version_set := m_config_version_set m |>
        <| s_config_version := m_config_version m |>
  | NLT_MEMBERSHIP =>
      s <| s_membership_list := m_nodes m |> <| s_last_ring_id := m_ring_id m |>
        <| s_last_heuristics := m_heuristics m |>
  | NLT_QUORUM => s <| s_quorum_list := m_nodes m |>
  end.

Definition handle_node_list (slot : nat) (m : MsgDecoded) (st : Server) : Server :=
  if negb (m_node_list_type_set m) || negb (m_seq_number_set m) then
    send_err slot m ERR_DOESNT_CONTAIN_REQUIRED_OPTION st
  else
    match node_list_decide slot m st with
    | inl code => send_err slot m code st
    | inr (st, code, result) =>
        if negb (is_no_error code) then send_err slot m code st
        else
          let st := upd_sess slot (node_list_store m) st in
          let st := upd_sess slot (record_vote result) st in
          let st := send slot (build_node_list_reply (m_seq_number m) (m_node_list_type m)
                                 (s_last_ring_id (sess st slot)) result) st in
          notify st
    end.

(** ** Votes *)

Definition handle_vote_info_reply (slot : nat) (m : MsgDecoded) (st : Server) : Server :=
  if negb (m_seq_number_set m) then send_err slot m ERR_DOESNT_CONTAIN_REQUIRED_OPTION st
  else if negb (m_seq_number m =? s_vote_info_seq (sess st slot)) then st
  else
    let st := upd_sess slot (λ s, s <| s_ff_state := FC_WAITING_FOR_CHANGE |>) st in
    let s := sess st slot in
    let c := s_cluster s in
    let st :=
      match cl_state (clus st c) with
      | FCL_SENDING_NACKS =>
          if (ffsplit_count_state st c FC_SENDING_NACK =? 0)%nat then
            let st := upd_clus c (λ cl, cl <| cl_state := FCL_SENDING_ACKS |>) st in
            let tv := mkTV slot false (s_last_ring_id s) (s_config_list s) (s_membership_list s)
                        (s_last_heuristics s) in
            let '(st, acks) := ffsplit_send_votes tv true st in
            if (acks =? 0)%nat
            then upd_clus c (λ cl, cl <| cl_state := FCL_WAITING_FOR_CHANGE |>) st
            else st
          else st
      | FCL_SENDING_ACKS =>
          if (ffsplit_count_state st c FC_SENDING_ACK =? 0)%nat
          then upd_clus c (λ cl, cl <| cl_state := FCL_WAITING_FOR_CHANGE |>) st
          else st
      | _ => st
      end in
    notify st.

Definition handle_heuristics_change (slot : nat) (m : MsgDecoded) (st : Server) : Server :=
  if negb (m_seq_number_set m) || bool_decide (m_heuristics m = HEUR_UNDEFINED) then
    send_err slot m ERR_DOESNT_CONTAIN_REQUIRED_OPTION st
  else
    let s := sess st slot in
    let '(st, code, result) :=
      if nl_empty (s_config_list s) || nl_empty (s_membership_list s)
      then (st, ERR_NO_ERROR, VOTE_ASK_LATER)
      else ffsplit_do (mkTV slot false (s_last_ring_id s) (s_config_list s) (s_membership_list s)
                         (m_heuristics m)) st in
    if negb (is_no_error code) then send_err slot m code st
    else
      let st := upd_sess slot (λ s, s <| s_last_heuristics := m_heuristics m |>) st in
      let st := upd_sess slot (record_vote result) st in
      let st := send slot (build_heuristics_change_reply (m_seq_number_set m) (m_seq_number m)
                             result) st in
      notify st.

(** ** Dispatch *)

(** [handle_frame]: decode, gate on the phase, dispatch. *)
Definition dispatch (slot : nat) (type : MsgType) (m : MsgDecoded) (frame : bytes)
    (frame_len : nat) (now_ms : Z) (st : Server) : Server :=
  let s := sess st slot in
  if negb (bool_decide (type = MT_PREINIT)) && bool_decide (s_phase s = WAIT_PREINIT) then
    send_err slot m ERR_PREINIT_REQUIRED st
  else
    match type with
    | MT_PREINIT => handle_preinit slot m st
    | MT_INIT => handle_init slot m now_ms st
    | _ =>
        if negb (bool_decide (s_phase s = ACTIVE)) then send_err slot m ERR_INIT_REQUIRED st
        else
          match type with
          | MT_SET_OPTION => handle_set_option slot m now_ms st
          | MT_ECHO_REQUEST => send slot (build_echo_reply frame frame_len) st
          | MT_NODE_LIST => handle_node_list slot m st
          | MT_VOTE_INFO_REPLY => handle_vote_info_reply slot m st
          | MT_HEURISTICS_CHANGE => handle_heuristics_change slot m st
          | MT_ASK_FOR_VOTE => send_err slot m ERR_UNSUPPORTED_DECISION_ALGORITHM_MESSAGE st
          | MT_STARTTLS => send_err slot m ERR_UNSUPPORTED_MESSAGE st
          | _ => send_err slot m ERR_UNEXPECTED_MESSAGE st
          end
    end.

(** [frame] points at the header in the receive buffer.  [Fault] does not occur
    ([msg_decode_safe]). *)
Definition handle_frame (slot : nat) (type : MsgType) (frame : bytes) (frame_len : nat)
    (payload_len : nat) (now_ms : Z) (st : Server) : Server :=
  match msg_decode type (drop MSG_HEADER_LEN frame) payload_len with
  | Ok m => dispatch slot type m frame frame_len now_ms st
  | Reject | Fault =>
      disconnect_client slot (send_err slot MsgDecoded0 ERR_ERROR_DECODING_MSG st)
  end.
