(* ===== verification/Lifecycle.v ===== *)
(** * The server's interface (server.cpp 26-132, 783-817)

    [on_connect], [on_data], [on_disconnected], [tick] and the introspection
    functions, and the executions they generate. *)
From S2P Require Import Prelude Wire Tlv Msg State Ffsplit Handlers.

(** The sessions a call may use: [slot < 0 || slot >= MAX_CLIENTS || FREE] refused. *)
Definition bad_slot (slot : Z) (st : Server) : bool :=
  (slot <? 0) || (Z.of_nat MAX_CLIENTS <=? slot) ||
  bool_decide (s_phase (sess st (Z.to_nat slot)) = FREE).

(** [on_connect(now_ms, peer)]: the slot or -1, and the new state. *)
Definition on_connect (now_ms : Z) (peer : bytes) (st : Server) : Z * Server :=
  match List.find (λ i, bool_decide (s_phase (sess st i) = FREE)) slots with
  | Some i =>
      let st := reset_sess i st in
      let st := upd_sess i (λ s, s <| s_phase := WAIT_PREINIT |> <| s_peer := peer |>
                  <| s_deadline_ms := u64 (now_ms + PREACTIVE_TIMEOUT_MS) |>) st in
      (Z.of_nat i, notify st)
  | None => (-1, st)
  end.

Definition on_disconnected (slot : Z) (st : Server) : Server :=
  if bad_slot slot st then st
  else
    let i := Z.to_nat slot in
    let was_processing := sv_processing st in
    let st := st <| sv_processing := true |> in
    let st := leave_cluster i st in
    let st := reset_sess i st in
    let st := st <| sv_processing := was_processing |> in
    let st := if was_processing then st else drain_closes st in
    notify st.

(** One iteration of the loop of [tick]. *)
Definition tick_step (now_ms : Z) (st : Server) (i : nat) : Server :=
  let s := sess st i in
  if bool_decide (s_phase s = FREE) || (s_deadline_ms s =? 0) || s_schedule_disconnect s then st
  else if s_deadline_ms s <=? now_ms then disconnect_client i st
  else st.

Definition tick (now_ms : Z) (st : Server) : Server := foldl (tick_step now_ms) st slots.

(** One iteration of the [while] loop of [on_data]: [None] when it ends.  The sum
    of header and payload length is a [size_t] in the code; the payload length is
    at most [max_rx_frame] there, so the sum does not wrap. *)
Definition on_data_step (slot : nat) (now_ms : Z) (st : Server) : option (bool * Server) :=
  if bool_decide (s_phase (sess st slot) = FREE) || s_schedule_disconnect (sess st slot) then None
  else
    let rx := s_rx (sess st slot) in
    if (length rx <? MSG_HEADER_LEN)%nat then None
    else
      match be_get16 rx, be_get32 (drop 2 rx) with
      | Ok type, Ok plen =>
          if sv_max_rx_frame st <? plen then
            let st := send_err slot MsgDecoded0 ERR_MESSAGE_TOO_LONG st in
            Some (false, disconnect_client slot st)
          else
            let plen := Z.to_nat plen in
            if (length rx <? MSG_HEADER_LEN + plen)%nat then None
            else
              let st := handle_frame slot (MsgType_of_Z type) rx (MSG_HEADER_LEN + plen) plen now_ms st in
              Some (true, upd_sess slot (λ s, s <| s_rx ::= drop (MSG_HEADER_LEN + plen) |>) st)
      | _, _ => None
      end.

(** The [while] loop; every iteration that continues consumes a header, so the
    length of the receive buffer is enough fuel. *)
Fixpoint on_data_loop (fuel : nat) (slot : nat) (now_ms : Z) (st : Server) : Server :=
  match fuel with
  | O => st
  | S fuel =>
      match on_data_step slot now_ms st with
      | None => st
      | Some (false, st) => st
      | Some (true, st) => on_data_loop fuel slot now_ms st
      end
  end.

(** [on_data(slot, data, len, now_ms)]. *)
Definition on_data (slot : Z) (data : bytes) (now_ms : Z) (st : Server) : Server :=
  if bad_slot slot st then st
  else
    let i := Z.to_nat slot in
    if s_schedule_disconnect (sess st i) then st
    else
      let st := upd_sess i (λ s, s <| s_rx ::= λ rx, rx ++ data |>) st in
      let st := upd_sess i (reschedule_dpd now_ms) st in
      let st := st <| sv_processing := true |> in
      let st := on_data_loop (S (length (s_rx (sess st i)))) i now_ms st in
      let st := st <| sv_processing := false |> in
      drain_closes st.

(** ** Introspection *)

Definition connected_clients (st : Server) : Z :=
  foldl (λ n s, if bool_decide (s_phase s = ACTIVE) then n + 1 else n) 0 (sv_sessions st).

Definition any_ack (st : Server) : bool :=
  existsb (λ s, bool_decide (s_phase s = ACTIVE) && bool_decide (s_last_ack_nack s = VOTE_ACK))
    (sv_sessions st).

(** ** Executions *)

(** A call of the embedder. *)
Inductive Event : Set :=
| EvConnect (now_ms : Z) (peer : bytes)
| EvData (slot : Z) (data : bytes) (now_ms : Z)
| EvDisconnected (slot : Z)
| EvTick (now_ms : Z).

Definition exec (st : Server) (e : Event) : Server :=
  match e with
  | EvConnect now_ms peer => (on_connect now_ms peer st).2
  | EvData slot data now_ms => on_data slot data now_ms st
  | EvDisconnected slot => on_disconnected slot st
  | EvTick now_ms => tick now_ms st
  end.

(** The states of a server driven by any calls with any data. *)
Inductive reachable (max_rx_frame : Z) : Server → Prop :=
| reach_init : reachable max_rx_frame (Server0 max_rx_frame)
| reach_step st e : reachable max_rx_frame st → reachable max_rx_frame (exec st e).
