(* ===== verification/Invariant.v ===== *)
(** * The server invariant

    [inv] is the structural invariant of the server - table sizes, the relation
    between sessions and clusters, the two-phase vote protocol - and [safe] the
    safety invariant: within a cluster node ids are unique and every client that
    holds an ACK belongs to the one quorate partition.  Both are preserved by
    every operation; [safe] needs that no client re-sends INIT once active. *)
From S2P Require Import Prelude Wire Tlv Msg State Ffsplit Handlers Lifecycle.

Definition hb_ok (s : Session) : Prop := HEARTBEAT_MIN_MS <= s_heartbeat_ms s <= HEARTBEAT_MAX_MS.

(** ** Structure *)

(** A session, relative to the clusters. *)
Record sess_ok (cls : Z → Cluster) (s : Session) : Prop := {
  so_active : s_phase s = ACTIVE →
    0 <= s_cluster s < Z.of_nat MAX_CLUSTERS ∧ cl_used (cls (s_cluster s)) = true ∧
    cl_name (cls (s_cluster s)) = s_cluster_name s ∧ hb_ok s ∧ s_algorithm s = ALG_FFSPLIT;
  so_inactive : s_phase s ≠ ACTIVE →
    s_cluster s = -1 ∧ s_ff_state s = FC_WAITING_FOR_CHANGE ∧ s_last_ack_nack s = VOTE_UNDEFINED;
  so_free : s_phase s = FREE → s = Session0;
  so_nack : s_ff_state s = FC_SENDING_NACK → s_last_ack_nack s = VOTE_NACK;
  so_acks : s_phase s = ACTIVE → cl_state (cls (s_cluster s)) = FCL_SENDING_ACKS →
    s_ff_state s ≠ FC_SENDING_NACK;
}.

(** The number of active sessions of a cluster. *)
Definition cnt (st : Server) (c : Z) : nat :=
  length (List.filter (λ i, in_cluster (sess st i) c) slots).

Record inv (st : Server) : Prop := {
  inv_len_sessions : length (sv_sessions st) = MAX_CLIENTS;
  inv_len_clusters : length (sv_clusters st) = MAX_CLUSTERS;
  inv_sess i : sess_ok (clus st) (sess st i);
  inv_members c : 0 <= c < Z.of_nat MAX_CLUSTERS →
    if cl_used (clus st c)
    then cl_members (clus st c) = Z.of_nat (cnt st c) ∧ (0 < cnt st c)%nat
    else clus st c = Cluster0;
  inv_names c d : cl_used (clus st c) = true → cl_used (clus st d) = true →
    cl_name (clus st c) = cl_name (clus st d) → c = d;
}.

(** ** Safety *)

Record sess_safe (cls : Z → Cluster) (s : Session) : Prop := {
  ss_ack : s_phase s = ACTIVE → s_last_ack_nack s = VOTE_ACK →
    s_node_id s ∈ nl_ids (cl_quorate_partition (cls (s_cluster s)));
  ss_sending_ack : s_phase s = ACTIVE → s_ff_state s = FC_SENDING_ACK →
    s_node_id s ∈ nl_ids (cl_quorate_partition (cls (s_cluster s)));
  ss_sending_nack : s_phase s = ACTIVE → s_ff_state s = FC_SENDING_NACK →
    s_node_id s ∉ nl_ids (cl_quorate_partition (cls (s_cluster s)));
}.

Record safe (st : Server) : Prop := {
  safe_ids i j : s_phase (sess st i) = ACTIVE → s_phase (sess st j) = ACTIVE →
    s_cluster (sess st i) = s_cluster (sess st j) →
    s_node_id (sess st i) = s_node_id (sess st j) → i = j;
  safe_sess i : sess_safe (clus st) (sess st i);
}.

(** ** Counting members *)

Lemma filter_change (f g : nat → bool) (l : list nat) x :
  NoDup l → x ∈ l → (∀ y, y ≠ x → f y = g y) →
  (length (List.filter f l) + (if g x then 1 else 0) =
   length (List.filter g l) + (if f x then 1 else 0))%nat.
Proof.
  intros Hnd Hx Hfg. induction Hnd as [|y l Hy Hnd IH]; [by apply not_elem_of_nil in Hx|]. simpl.
  destruct (decide (y = x)) as [->|Hne].
  - assert (List.filter f l = List.filter g l) as E.
    { clear IH Hx. induction l as [|z l IHl]; [done|]. simpl.
      rewrite (Hfg z) by (intros ->; apply Hy, list_elem_of_here).
      rewrite IHl; [done|..]; [|by inversion Hnd]. intros ?. by apply Hy, list_elem_of_further. }
    rewrite E. destruct (f x), (g x); simpl; lia.
  - rewrite (Hfg y) by done. apply elem_of_cons in Hx as [->|Hx]; [done|].
    specialize (IH Hx). destruct (g y); simpl; lia.
Qed.

Lemma cnt_change st st' i c :
  (i < MAX_CLIENTS)%nat → (∀ j, j ≠ i → in_cluster (sess st' j) c = in_cluster (sess st j) c) →
  (cnt st' c + (if in_cluster (sess st i) c then 1 else 0) =
   cnt st c + (if in_cluster (sess st' i) c then 1 else 0))%nat.
Proof.
  intros Hi Heq. apply (filter_change (λ j, in_cluster (sess st' j) c) (λ j, in_cluster (sess st j) c));
    [apply NoDup_seq|by apply elem_of_slots|done].
Qed.

Lemma cnt_same st st' c :
  (∀ j, in_cluster (sess st' j) c = in_cluster (sess st j) c) → cnt st' c = cnt st c.
Proof. intros H. unfold cnt. f_equal. by apply filter_ext_slots. Qed.

(** ** Transfer of the invariants *)

Lemma sess_ok_ext cls cls' s : (∀ c, cls' c = cls c) → sess_ok cls s → sess_ok cls' s.
Proof. intros E []. split; rewrite ?E; auto. Qed.
Lemma sess_safe_ext cls cls' s : (∀ c, cls' c = cls c) → sess_safe cls s → sess_safe cls' s.
Proof. intros E []. split; rewrite ?E; auto. Qed.

Lemma sess_ok0 cls : sess_ok cls Session0.
Proof. by split. Qed.
Lemma sess_safe0 cls : sess_safe cls Session0.
Proof. by split. Qed.
#[export] Hint Resolve sess_ok0 sess_safe0 : qnetd.

(** The invariants read the sessions, the clusters and the table sizes. *)
Lemma inv_same st st' :
  length (sv_sessions st') = length (sv_sessions st) →
  length (sv_clusters st') = length (sv_clusters st) →
  (∀ i, sess st' i = sess st i) → (∀ c, clus st' c = clus st c) → inv st → inv st'.
Proof.
  intros H1 H2 Hs Hc []. split; try congruence.
  - intros i. rewrite Hs. by eapply sess_ok_ext.
  - intros c Hr. rewrite Hc. rewrite (cnt_same st st'); [by apply inv_members0|]. intros. by rewrite Hs.
  - intros c d. rewrite !Hc. auto.
Qed.

Lemma safe_same st st' :
  (∀ i, sess st' i = sess st i) → (∀ c, clus st' c = clus st c) → safe st → safe st'.
Proof.
  intros Hs Hc []. split; [intros i j; rewrite !Hs; auto|].
  intros i. rewrite Hs. by eapply sess_safe_ext.
Qed.

Lemma inv_emit e st : inv st → inv (emit e st).
Proof. by apply inv_same. Qed.
Lemma safe_emit e st : safe st → safe (emit e st).
Proof. by apply safe_same. Qed.
#[export] Hint Resolve inv_emit safe_emit : qnetd.

(** An update of one session that keeps its phase and cluster. *)
Lemma inv_upd_sess st i f :
  inv st → s_phase (f (sess st i)) = s_phase (sess st i) →
  s_cluster (f (sess st i)) = s_cluster (sess st i) →
  sess_ok (clus st) (f (sess st i)) → inv (upd_sess i f st).
Proof.
  intros [] Hp Hc Hok. split.
  - unfold upd_sess. simpl. by rewrite length_alter.
  - done.
  - intros j. rewrite sess_upd. case_decide as Hd; [|done]. by destruct Hd as [-> _].
  - intros c Hr. rewrite clus_upd_sess, (cnt_same st); [by apply inv_members0|]. intros j. rewrite sess_upd.
    case_decide as Hd; [|done]. destruct Hd as [-> _]. unfold in_cluster. by rewrite Hp, Hc.
  - done.
Qed.

Lemma safe_upd_sess st i f :
  safe st → s_phase (f (sess st i)) = s_phase (sess st i) →
  s_cluster (f (sess st i)) = s_cluster (sess st i) →
  s_node_id (f (sess st i)) = s_node_id (sess st i) →
  sess_safe (clus st) (f (sess st i)) → safe (upd_sess i f st).
Proof.
  intros [Hid Hs] Hp Hc Hn Hok. split.
  - assert (∀ j, s_phase (sess (upd_sess i f st) j) = s_phase (sess st j) ∧
                 s_cluster (sess (upd_sess i f st) j) = s_cluster (sess st j) ∧
                 s_node_id (sess (upd_sess i f st) j) = s_node_id (sess st j)) as E.
    { intros j. rewrite sess_upd. case_decide as Hd; [|done]. by destruct Hd as [-> _]. }
    intros j k. destruct (E j) as (-> & -> & ->), (E k) as (-> & -> & ->). auto.
  - intros j. rewrite sess_upd. case_decide as Hd; [|done]. by destruct Hd as [-> _].
Qed.

(** ** What the algorithm changes in a session *)

(** A session without the fields of the vote protocol. *)
Definition unvoted (s : Session) : Session :=
  s <| s_ff_state := FC_WAITING_FOR_CHANGE |> <| s_last_ack_nack := VOTE_UNDEFINED |>
    <| s_last_sent_vote := VOTE_UNDEFINED |> <| s_vote_info_seq := 0 |>.

Lemma decided_sess_unvoted tv w c lid b s : unvoted (decided_sess tv w c lid b s) = unvoted s.
Proof. unfold decided_sess. by repeat case_match. Qed.

(** Derive equality of a field from equality of the sessions up to votes. *)
Lemma unvoted_proj {A} (F : Session → A) s s' :
  (∀ s, F (unvoted s) = F s) → unvoted s' = unvoted s → F s' = F s.
Proof. intros HF E. rewrite <-(HF s'), <-(HF s). by rewrite E. Qed.

Lemma unvoted_phase s s' : unvoted s' = unvoted s → s_phase s' = s_phase s.
Proof. by apply unvoted_proj. Qed.
Lemma unvoted_cluster s s' : unvoted s' = unvoted s → s_cluster s' = s_cluster s.
Proof. by apply unvoted_proj. Qed.
Lemma unvoted_node_id s s' : unvoted s' = unvoted s → s_node_id s' = s_node_id s.
Proof. by apply unvoted_proj. Qed.
Lemma unvoted_in_cluster s s' c : unvoted s' = unvoted s → in_cluster s' c = in_cluster s c.
Proof. by apply (unvoted_proj (λ s, in_cluster s c)). Qed.

(** A decision leaves each session well formed. *)
Lemma decided_sess_ok tv st w st' j :
  inv st → decided tv st w st' → sess_ok (clus st') (sess st' j).
Proof.
  intros Hinv Hd. pose proof (inv_sess _ Hinv j) as [H1 H2 H3 H4 H5].
  pose proof (dec_sess _ _ _ _ Hd j) as Hj.
  pose proof (dec_clus _ _ _ _ Hd) as Hcc. pose proof (dec_clus_ne _ _ _ _ Hd) as Hcn.
  set (c := s_cluster (sess st (tv_slot tv))) in *. set (lid := s_node_id (sess st (tv_slot tv))) in *.
  pose proof (decided_sess_unvoted tv w c lid
    (bool_decide (assigned st tv w FC_SENDING_NACK = [])) (sess st j)) as Hu. rewrite <-Hj in Hu.
  destruct (in_cluster (sess st j) c) eqn:Hin.
  - pose proof (proj1 (in_cluster_true _ _) Hin) as [Hact Hcl].
    destruct (H1 Hact) as (?&?&?&?&?).
    assert (s_cluster (sess st' j) = c) as Hc' by (rewrite (unvoted_cluster _ _ Hu); done).
    assert (s_phase (sess st' j) = ACTIVE) as Hp' by (rewrite (unvoted_phase _ _ Hu); done).
    split; rewrite ?Hp', ?Hc'; try done.
    + intros _. rewrite Hcc. simpl. unfold hb_ok.
      rewrite (unvoted_proj s_cluster_name _ _ (λ _, eq_refl) Hu),
        (unvoted_proj s_heartbeat_ms _ _ (λ _, eq_refl) Hu),
        (unvoted_proj s_algorithm _ _ (λ _, eq_refl) Hu). rewrite Hcl in *. done.
    + rewrite Hj. unfold decided_sess. rewrite Hin. by repeat case_match.
    + intros _. rewrite Hcc. simpl. intros Hst Hff.
      assert (assigned st tv w FC_SENDING_NACK = []) as Hl
        by (unfold decided_state in Hst; by case_match).
      apply (assigned_nil tv st w (inv_len_sessions _ Hinv) _ Hl j); [done|]. fold lid.
      rewrite <-Hff, Hj. unfold decided_sess. rewrite Hin. by repeat case_match.
  - assert (sess st' j = sess st j) as E by (rewrite Hj; unfold decided_sess; by rewrite Hin).
    rewrite E. apply in_cluster_false in Hin. split; try done.
    + intros Hact. rewrite Hcn by naive_solver. auto.
    + intros Hact. rewrite Hcn by naive_solver. auto.
Qed.

(** After a decision, every session that was not left out agrees with the new
    quorate partition. *)
Lemma decided_sess_safe tv st w st' j :
  safe st → decided tv st w st' →
  ¬ (tv_leaving tv = true ∧ in_cluster (sess st j) (s_cluster (sess st (tv_slot tv))) = true ∧
     s_node_id (sess st j) = s_node_id (sess st (tv_slot tv))) →
  sess_safe (clus st') (sess st' j).
Proof.
  intros Hsafe Hd Hskip. pose proof (safe_sess _ Hsafe j) as [H1 H2 H3].
  pose proof (dec_sess _ _ _ _ Hd j) as Hj.
  pose proof (dec_clus _ _ _ _ Hd) as Hcc. pose proof (dec_clus_ne _ _ _ _ Hd) as Hcn.
  set (c := s_cluster (sess st (tv_slot tv))) in *. set (lid := s_node_id (sess st (tv_slot tv))) in *.
  destruct (in_cluster (sess st j) c) eqn:Hin.
  - pose proof (proj1 (in_cluster_true _ _) Hin) as [Hact Hcl].
    assert (tv_leaving tv && (s_node_id (sess st j) =? lid) = false) as Hsk.
    { destruct (tv_leaving tv); simpl; [|done]. apply Z.eqb_neq. intros E. by apply Hskip. }
    assert (cl_quorate_partition (clus st' (s_cluster (sess st' j))) = default [] w ∧
            s_node_id (sess st' j) = s_node_id (sess st j)) as [Hq Hn].
    { rewrite Hj. split.
      - rewrite (unvoted_cluster _ _ (decided_sess_unvoted tv w c lid _ (sess st j))), Hcl.
        rewrite Hcc. done.
      - by apply unvoted_node_id, decided_sess_unvoted. }
    split; rewrite Hq, Hn, Hj; unfold decided_sess; rewrite Hin; unfold new_ff; rewrite Hsk;
      intros _; (destruct w as [w|];
        [destruct (nl_mem w (s_node_id (sess st j))) eqn:Hm; [apply nl_mem_true in Hm|apply nl_mem_false in Hm]|]);
      simpl; repeat case_match; done || set_solver.
  - assert (sess st' j = sess st j) as E by (rewrite Hj; unfold decided_sess; by rewrite Hin).
    rewrite E. apply in_cluster_false in Hin.
    split; intros Hact; rewrite Hcn by naive_solver; auto.
Qed.

(** ** The algorithm preserves the invariants *)

(** The identity of a cluster, which the algorithm does not touch. *)
Definition cl_ident (cl : Cluster) : bool * bytes * Z := (cl_used cl, cl_name cl, cl_members cl).

(** What holds after the algorithm ran: the invariant, everything but votes and
    cluster states as before. *)
Record algo_post (st st' : Server) : Prop := {
  ap_env : env st' = env st;
  ap_unvoted j : unvoted (sess st' j) = unvoted (sess st j);
  ap_ident d : cl_ident (clus st' d) = cl_ident (clus st d);
  ap_inv : inv st';
}.

(** The structural part of the invariant follows from the sessions. *)
Lemma inv_algo st st' :
  inv st → env st' = env st → (∀ j, unvoted (sess st' j) = unvoted (sess st j)) →
  (∀ d, cl_ident (clus st' d) = cl_ident (clus st d)) →
  (∀ d, cl_used (clus st d) = false → clus st' d = clus st d) →
  (∀ j, sess_ok (clus st') (sess st' j)) → inv st'.
Proof.
  intros [] He Hu Hi Hun Hok. unfold cl_ident in Hi. split; [|..|done| |].
  - by rewrite (env_sessions _ _ He).
  - by rewrite (env_clusters _ _ He).
  - intros c Hc. rewrite (cnt_same st st') by (intros; by apply unvoted_in_cluster).
    specialize (inv_members0 c Hc). specialize (Hi c) as Hi'. injection Hi' as -> _ ->.
    destruct (cl_used (clus st c)) eqn:Hused; [done|]. by rewrite Hun.
  - intros c d. specialize (Hi c) as Hi1. specialize (Hi d) as Hi2.
    injection Hi1 as -> -> _. injection Hi2 as -> -> _. auto.
Qed.

Lemma pending_decision_post tv st :
  inv st → s_phase (sess st (tv_slot tv)) = ACTIVE → algo_post st (pending_decision tv st).
Proof.
  intros Hinv Hact. pose proof (inv_sess _ Hinv (tv_slot tv)) as Hsl.
  destruct (so_active _ _ Hsl Hact) as (Hc & Hu & _).
  set (c := s_cluster (sess st (tv_slot tv))) in *.
  assert (∀ d, clus (pending_decision tv st) d =
    if decide (c = d) then (clus st d) <| cl_state := FCL_WAITING_FOR_STABLE_MEMBERSHIP |>
    else clus st d) as Hcl.
  { intros d. unfold pending_decision. fold c. rewrite clus_upd.
    rewrite (inv_len_clusters _ Hinv). repeat case_decide; naive_solver. }
  assert (∀ d, cl_ident (clus (pending_decision tv st) d) = cl_ident (clus st d)) as Hi.
  { intros d. rewrite Hcl. by case_decide. }
  split; [apply pending_decision_env|intros; by rewrite pending_decision_sess|done|].
  apply (inv_algo st); try done.
  - apply pending_decision_env.
  - intros j. by rewrite pending_decision_sess.
  - intros d Hd. rewrite Hcl. case_decide; [|done]. congruence.
  - intros j. rewrite pending_decision_sess. destruct (inv_sess _ Hinv j) as [H1 H2 H3 H4 H5].
    split; try done; rewrite Hcl; case_decide; try done; auto.
Qed.

Lemma pending_decision_safe tv st : safe st → safe (pending_decision tv st).
Proof.
  intros [Hid Hs]. split.
  - intros i j. rewrite !pending_decision_sess. auto.
  - intros j. rewrite pending_decision_sess.
    assert (∀ d, cl_quorate_partition (clus (pending_decision tv st) d) =
                 cl_quorate_partition (clus st d)) as Hq.
    { intros d. unfold pending_decision. rewrite clus_upd. by case_decide. }
    destruct (Hs j) as [H1 H2 H3]. split; rewrite Hq; auto.
Qed.

Lemma ffsplit_do_post tv st :
  inv st → s_phase (sess st (tv_slot tv)) = ACTIVE →
  ∃ st' result, ffsplit_do tv st = (st', ERR_NO_ERROR, result) ∧
    (result = VOTE_WAIT_FOR_REPLY ∨ result = VOTE_NO_CHANGE) ∧ algo_post st st' ∧
    (safe st → ∀ j,
       ¬ (tv_leaving tv = true ∧ in_cluster (sess st j) (s_cluster (sess st (tv_slot tv))) = true ∧
          s_node_id (sess st j) = s_node_id (sess st (tv_slot tv))) →
       sess_safe (clus st') (sess st' j)).
Proof.
  intros Hinv Hact. pose proof (inv_sess _ Hinv (tv_slot tv)) as Hsl.
  destruct (so_active _ _ Hsl Hact) as (Hc & Hu & _).
  destruct (ffsplit_is_stable (pending_decision tv st) tv) eqn:Hst.
  - destruct (ffsplit_do_decided tv st) as (st' & Hdo & Hd); [by apply inv_len_sessions| |done|].
    { by rewrite (inv_len_clusters _ Hinv). }
    exists st', VOTE_NO_CHANGE. split_and!; [done|by right| |].
    + assert (∀ d, cl_ident (clus st' d) = cl_ident (clus st d)) as Hi.
      { intros d. destruct (decide (d = s_cluster (sess st (tv_slot tv)))) as [->|]; [by rewrite (dec_clus _ _ _ _ Hd)|].
        by rewrite (dec_clus_ne _ _ _ _ Hd). }
      assert (∀ j, unvoted (sess st' j) = unvoted (sess st j)) as Hun.
      { intros j. rewrite (dec_sess _ _ _ _ Hd). apply decided_sess_unvoted. }
      split; [apply (dec_env _ _ _ _ Hd)|done|done|].
      apply (inv_algo st); try done; [apply (dec_env _ _ _ _ Hd)| |].
      * intros d Hd'. rewrite (dec_clus_ne _ _ _ _ Hd); [done|]. intros ->. congruence.
      * intros j. by eapply decided_sess_ok.
    + intros Hs j Hsk. by eapply decided_sess_safe.
  - rewrite ffsplit_do_unstable by done. eexists _, _. split_and!; [done|by left| |].
    + by apply pending_decision_post.
    + intros Hs j _. rewrite pending_decision_sess. rewrite <-(pending_decision_sess tv st).
      by apply safe_sess, pending_decision_safe.
Qed.

(** A trigger that is not leaving keeps [safe]. *)
Lemma algo_safe st st' : safe st → algo_post st st' →
  (∀ j, sess_safe (clus st') (sess st' j)) → safe st'.
Proof.
  intros [Hid _] [_ Hu _ _] Hs. split; [|done]. intros i j.
  rewrite !(unvoted_phase _ _ (Hu _)), !(unvoted_cluster _ _ (Hu _)), !(unvoted_node_id _ _ (Hu _)).
  auto.
Qed.

(** ** Leaving a cluster *)

Definition leave_reset (slot : nat) (st : Server) : Server := reset_sess slot (leave_cluster slot st).

Lemma cnt_pos st j c :
  length (sv_sessions st) = MAX_CLIENTS → in_cluster (sess st j) c = true → (0 < cnt st c)%nat.
Proof.
  intros Hlen Hin. unfold cnt. destruct (List.filter _ slots) eqn:E; [|simpl; lia].
  assert (In j (List.filter (λ i, in_cluster (sess st i) c) slots)) as Hj.
  { apply List.filter_In. split; [|done]. apply list_elem_of_In, elem_of_slots. rewrite <-Hlen.
    apply sess_in_range. by apply in_cluster_true in Hin as [-> _]. }
  by rewrite E in Hj.
Qed.

(** The cluster after its client count went down. *)
Definition left_cluster (cl : Cluster) : Cluster :=
  if cl_members cl - 1 <=? 0 then Cluster0 else cl <| cl_members ::= λ n, n - 1 |>.

(** [leave_reset] of an active client, on top of the algorithm's state. *)
Lemma leave_reset_active slot st st1 code res :
  inv st → inv st1 → env st1 = env st → (∀ j, unvoted (sess st1 j) = unvoted (sess st j)) →
  s_phase (sess st slot) = ACTIVE →
  ffsplit_do (mkTV slot true (s_last_ring_id (sess st slot)) (s_config_list (sess st slot))
                (s_membership_list (sess st slot)) (s_last_heuristics (sess st slot))) st
    = (st1, code, res) →
  let st' := leave_reset slot st in
  let c := s_cluster (sess st slot) in
  env st' = env st ∧ sess st' slot = Session0 ∧ (∀ j, j ≠ slot → sess st' j = sess st1 j) ∧
  clus st' c = left_cluster (clus st1 c) ∧ (∀ d, d ≠ c → clus st' d = clus st1 d) ∧
  sv_out st' = sv_out st1.
Proof.
  intros Hinv Hinv1 He Hu Hact Hdo st' c.
  destruct (so_active _ _ (inv_sess _ Hinv slot) Hact) as (Hc & _). fold c in Hc.
  assert (s_cluster (sess st1 slot) = c) as Hc1 by (by rewrite (unvoted_cluster _ _ (Hu slot))).
  unfold st', leave_reset, leave_cluster. rewrite Hact. fold c.
  rewrite (proj2 (Z.ltb_ge c 0)) by lia. rewrite bool_decide_eq_true_2 by done. cbn [negb orb].
  rewrite Hdo, Hc1.
  set (st2 := upd_clus c (λ cl, cl <| cl_members ::= λ n, n - 1 |>) st1).
  assert (clus st2 c = (clus st1 c) <| cl_members ::= λ n, n - 1 |>) as Hc2.
  { unfold st2. rewrite clus_upd, decide_True; [done|]. by rewrite (inv_len_clusters _ Hinv1). }
  set (st3 := if cl_members (clus st2 c) <=? 0 then upd_clus c (λ _, Cluster0) st2 else st2).
  assert (env st3 = env st) as He3.
  { unfold st3, st2. case_match; autorewrite with server; done. }
  assert (∀ j, sess st3 j = sess st1 j) as Hs3.
  { intros j. unfold st3, st2. case_match; by autorewrite with server. }
  unfold reset_sess. split_and!.
  - by autorewrite with server.
  - rewrite sess_upd. case_decide as Hd; [done|]. exfalso. apply Hd. split; [done|].
    rewrite (env_sessions _ _ (env_upd_sess _ _ _)), (env_sessions _ _ He3).
    apply sess_in_range. by rewrite Hact.
  - intros j Hj. by rewrite !sess_upd_ne.
  - rewrite !clus_upd_sess. unfold st3, left_cluster. rewrite Hc2. simpl.
    case_match; [|done]. rewrite clus_upd, decide_True; [done|]. split; [done|].
    unfold st2. rewrite (env_clusters _ _ (env_upd_clus _ _ _)). by rewrite (inv_len_clusters _ Hinv1).
  - intros d Hd. rewrite !clus_upd_sess. unfold st3, st2.
    case_match; by rewrite !clus_upd_ne by done.
  - autorewrite with server. unfold st3, st2. case_match; by autorewrite with server.
Qed.

Lemma leave_reset_inactive slot st :
  s_phase (sess st slot) ≠ ACTIVE → leave_reset slot st = reset_sess slot st.
Proof.
  intros H. unfold leave_reset, leave_cluster. by rewrite (bool_decide_eq_false_2 (_ = ACTIVE)).
Qed.

(** The effect of [leave_reset] on the invariants. *)
Record left_post (slot : nat) (st st' : Server) : Prop := {
  lp_env : env st' = env st;
  lp_free : sess st' slot = Session0;
  lp_unvoted j : j ≠ slot → unvoted (sess st' j) = unvoted (sess st j);
  lp_inv : inv st';
  lp_safe : safe st → safe st';
}.

Lemma left_cluster_inv slot st1 st' c :
  inv st1 → in_cluster (sess st1 slot) c = true → 0 <= c < Z.of_nat MAX_CLUSTERS →
  env st' = env st1 → sess st' slot = Session0 → (∀ j, j ≠ slot → sess st' j = sess st1 j) →
  clus st' c = left_cluster (clus st1 c) → (∀ d, d ≠ c → clus st' d = clus st1 d) → inv st'.
Proof.
  intros Hinv Hin Hc He Hs0 Hs Hcl Hcl'. pose proof (proj1 (in_cluster_true _ _) Hin) as [Hact Hsc].
  assert (slot < MAX_CLIENTS)%nat as Hr.
  { rewrite <-(inv_len_sessions _ Hinv). apply sess_in_range. by rewrite Hact. }
  assert (∀ d, cnt st' d + (if decide (d = c) then 1 else 0) = cnt st1 d)%nat as Hcnt.
  { intros d. pose proof (cnt_change st1 st' slot d Hr) as H. rewrite Hs0 in H.
    replace (in_cluster Session0 d) with false in H by done.
    replace (in_cluster (sess st1 slot) d) with (bool_decide (d = c)) in H.
    - rewrite bool_decide_decide in H. destruct (decide (d = c)); simpl in H;
        rewrite H by (intros j Hj; by rewrite Hs); lia.
    - symmetry. case_bool_decide as Hdc; [by rewrite Hdc|]. apply in_cluster_false. naive_solver. }
  destruct (so_active _ _ (inv_sess _ Hinv slot) Hact) as (_ & Hused & _). rewrite Hsc in Hused.
  pose proof (inv_members _ Hinv c Hc) as Hm. rewrite Hused in Hm. destruct Hm as [Hm Hpos].
  pose proof (Hcnt c) as Hcc. rewrite decide_True in Hcc by done.
  unfold left_cluster in Hcl. split.
  - rewrite (env_sessions _ _ He). by apply inv_len_sessions.
  - rewrite (env_clusters _ _ He). by apply inv_len_clusters.
  - intros j. destruct (decide (j = slot)) as [->|Hj]; [rewrite Hs0; apply sess_ok0|].
    rewrite Hs by done. destruct (inv_sess _ Hinv j) as [H1 H2 H3 H4 H5].
    split; try done; intros Hactj; destruct (decide (s_cluster (sess st1 j) = c)) as [Hjc|Hjc].
    2, 4: rewrite Hcl' by done; auto.
    all: assert (0 < cnt st' c)%nat as Hp by
      (apply (cnt_pos st' j); [rewrite (env_sessions _ _ He); by apply inv_len_sessions|];
       rewrite Hs by done; by apply in_cluster_true).
    all: specialize (H1 Hactj); specialize (H5 Hactj); rewrite Hjc in *; rewrite Hcl.
    all: destruct (Z.leb_spec (cl_members (clus st1 c) - 1) 0); [lia|]; first [exact H1|exact H5].
  - intros d Hd. destruct (decide (d = c)) as [->|Hdc].
    + rewrite Hcl. destruct (Z.leb_spec (cl_members (clus st1 c) - 1) 0); simpl; [done|].
      rewrite Hused. lia.
    + rewrite Hcl' by done. specialize (Hcnt d). rewrite decide_False in Hcnt by done.
      replace (cnt st' d) with (cnt st1 d) by lia. by apply inv_members.
  - assert (∀ d, cl_used (clus st' d) = true → cl_used (clus st1 d) = true ∧
               cl_name (clus st' d) = cl_name (clus st1 d)) as Hn.
    { intros d. destruct (decide (d = c)) as [->|Hdc]; [|by rewrite Hcl'].
      rewrite Hcl. by case_match. }
    intros d1 d2 H1 H2. apply Hn in H1 as [H1 ->], H2 as [H2 ->]. by apply inv_names.
Qed.

Lemma reset_inactive_inv slot st :
  inv st → s_phase (sess st slot) ≠ ACTIVE → inv (reset_sess slot st).
Proof.
  intros Hinv Hp. destruct Hinv. unfold reset_sess.
  assert (∀ j c, in_cluster (sess (upd_sess slot (λ _, Session0) st) j) c = in_cluster (sess st j) c) as Hin.
  { intros j c. rewrite sess_upd. case_decide as Hd; [|done]. destruct Hd as [<- _].
    symmetry. apply in_cluster_false. naive_solver. }
  split.
  - unfold upd_sess. simpl. by rewrite length_alter.
  - done.
  - intros j. rewrite sess_upd. case_decide; [apply sess_ok0|done].
  - intros c Hc. rewrite clus_upd_sess, (cnt_same st) by auto. by apply inv_members0.
  - done.
Qed.

Lemma leave_reset_post slot st :
  inv st → s_phase (sess st slot) ≠ FREE → left_post slot st (leave_reset slot st).
Proof.
  intros Hinv Hfree. destruct (decide (s_phase (sess st slot) = ACTIVE)) as [Hact|Hact].
  - destruct (ffsplit_do_post (mkTV slot true (s_last_ring_id (sess st slot)) (s_config_list (sess st slot))
      (s_membership_list (sess st slot)) (s_last_heuristics (sess st slot))) st Hinv Hact)
      as (st1 & res & Hdo & _ & [He Hu Hi Hinv1] & Hsafe). simpl in Hsafe.
    destruct (leave_reset_active slot st st1 ERR_NO_ERROR res Hinv Hinv1 He Hu Hact Hdo)
      as (He' & Hs0 & Hs & Hcl & Hcl' & _).
    set (c := s_cluster (sess st slot)) in *.
    destruct (so_active _ _ (inv_sess _ Hinv slot) Hact) as (Hc & _). fold c in Hc.
    assert (in_cluster (sess st1 slot) c = true) as Hin.
    { rewrite (unvoted_in_cluster _ _ c (Hu slot)). by apply in_cluster_true. }
    assert (inv (leave_reset slot st)) as Hinv'.
    { eapply (left_cluster_inv slot st1); eauto. congruence. }
    split; [done|done| |done|].
    + intros j Hj. by rewrite Hs.
    + intros Hst. assert (∀ j, j ≠ slot → s_phase (sess st j) = ACTIVE → s_cluster (sess st j) = c →
        s_node_id (sess st j) ≠ s_node_id (sess st slot)) as Hne.
      { intros j Hj Hp Hjc E. apply Hj. by apply (safe_ids _ Hst). }
      split.
      * intros i j. destruct (decide (i = slot)) as [->|Hi']; [by rewrite Hs0|].
        destruct (decide (j = slot)) as [->|Hj]; [by rewrite Hs0|]. rewrite !Hs by done.
        rewrite !(unvoted_phase _ _ (Hu _)), !(unvoted_cluster _ _ (Hu _)), !(unvoted_node_id _ _ (Hu _)).
        by apply safe_ids.
      * intros j. destruct (decide (j = slot)) as [->|Hj]; [rewrite Hs0; apply sess_safe0|].
        assert (sess_safe (clus st1) (sess st1 j)) as [H1 H2 H3].
        { apply (Hsafe Hst). intros (_ & Hjc%in_cluster_true & E). destruct Hjc. by eapply Hne. }
        pose proof (inv_sess _ Hinv' j) as Hok. rewrite !Hs in * by done.
        destruct (decide (s_cluster (sess st1 j) = c)) as [Hjc|Hjc].
        -- split; intros Hp; destruct (so_active _ _ Hok Hp) as (_ & Hu' & _); revert Hu';
             specialize (H1 Hp); specialize (H2 Hp); specialize (H3 Hp);
             rewrite Hjc, Hcl in *; unfold left_cluster; case_match; done.
        -- split; rewrite Hcl' by done; auto.
  - rewrite leave_reset_inactive by done. unfold reset_sess.
    assert (sess (upd_sess slot (λ _, Session0) st) slot = Session0) as Hs0 by (by rewrite sess_upd_eq).
    split; [by autorewrite with server|done| |by apply reset_inactive_inv|].
    + intros j Hj. by rewrite sess_upd_ne.
    + intros [Hid Hss]. split.
      * intros i j. destruct (decide (i = slot)) as [->|Hi']; [by rewrite Hs0|].
        destruct (decide (j = slot)) as [->|Hj]; [by rewrite Hs0|]. rewrite !sess_upd_ne by done. auto.
      * intros j. destruct (decide (j = slot)) as [->|Hj]; [rewrite Hs0; apply sess_safe0|].
        rewrite sess_upd_ne by done. apply Hss.
Qed.

(** ** Deferred closes *)

(** The pending closes are the sessions scheduled for disconnection. *)
Record sched (st : Server) : Prop := {
  sched_iff i : s_schedule_disconnect (sess st i) = true ↔ i ∈ sv_pending_close st;
  sched_nodup : NoDup (sv_pending_close st);
}.

Record drained (st st' : Server) : Prop := {
  dr_max : sv_max_rx_frame st' = sv_max_rx_frame st;
  dr_processing : sv_processing st' = sv_processing st;
  dr_pending : sv_pending_close st' = [];
  dr_closed i : i ∈ sv_pending_close st → sess st' i = Session0;
  dr_kept i : i ∉ sv_pending_close st → unvoted (sess st' i) = unvoted (sess st i);
  dr_inv : inv st';
  dr_safe : safe st → safe st';
}.

Lemma sched_not_free st i : inv st → sched st → i ∈ sv_pending_close st → s_phase (sess st i) ≠ FREE.
Proof.
  intros Hinv [Hs _] Hi%Hs Hf. by rewrite (so_free _ _ (inv_sess _ Hinv i) Hf) in Hi.
Qed.

(** One iteration of the loop: the last pending session leaves, is reset and closed. *)
Lemma drain_step n st l x : inv st → sched st → sv_pending_close st = l ++ [x] →
  let st0 := st <| sv_pending_close := l |> in
  let st1 := emit (EClose x) (leave_reset x st0) in
  drain_loop (S n) st = drain_loop n st1 ∧ s_phase (sess st x) ≠ FREE ∧ x ∉ l ∧ inv st0 ∧
  left_post x st0 (leave_reset x st0) ∧ sched st1 ∧ sv_pending_close st1 = l.
Proof.
  intros Hinv Hsch E st0 st1.
  assert (st <| sv_pending_close ::= λ l0, take (length l0 - 1) l0 |> = st0) as E0.
  { change (st <| sv_pending_close := take (length (sv_pending_close st) - 1) (sv_pending_close st) |> = st0).
    by rewrite E, length_app, Nat.add_sub, take_app_length. }
  pose proof (sched_not_free st x Hinv Hsch) as Hx. rewrite E in Hx. specialize (Hx ltac:(set_solver)).
  assert (inv st0) as Hinv0 by (by apply (inv_same st)).
  pose proof (leave_reset_post x st0 Hinv0 Hx) as Hl. pose proof Hl as [He Hf Hu Hi Hs].
  assert (sv_pending_close st1 = l) as E1 by exact (env_pending _ _ He).
  destruct Hsch as [Hiff Hnd]. rewrite E in Hnd. apply NoDup_app in Hnd as (Hnd & Hxl & _).
  assert (x ∉ l) as Hxl' by (intros ?; by eapply Hxl; [|apply list_elem_of_singleton]).
  split_and!; try done.
  - simpl. rewrite E, last_snoc. cbv zeta. rewrite E0. change (sess st0 x) with (sess st x).
    by rewrite bool_decide_eq_false_2.
  - split; [|by rewrite E1]. intros i. rewrite E1. change (sess st1 i) with (sess (leave_reset x st0) i).
    destruct (decide (i = x)) as [->|Hne]; [rewrite Hf; split; [done|]; by intros ?%Hxl'|].
    rewrite (unvoted_proj s_schedule_disconnect _ _ (λ _, eq_refl) (Hu i Hne)).
    change (sess st0 i) with (sess st i). rewrite Hiff, E. set_solver.
Qed.

Lemma drain_loop_post n st :
  inv st → sched st → n = length (sv_pending_close st) → drained st (drain_loop n st).
Proof.
  revert st. induction n as [|n IH]; intros st Hinv Hsch Hn.
  - symmetry in Hn. apply length_zero_iff_nil in Hn. simpl. split; try done. by rewrite Hn; intros i ?%not_elem_of_nil.
  - destruct (sv_pending_close st) as [|x l _] eqn:E using rev_ind; [simpl in Hn; lia|].
    rewrite length_app in Hn. simpl in Hn.
    destruct (drain_step n st l x Hinv Hsch E) as (-> & Hx & Hxl & Hinv0 & [He Hf Hu Hi Hs] & Hsch1 & E1).
    set (st0 := st <| sv_pending_close := l |>) in *. set (st1 := emit (EClose x) (leave_reset x st0)) in *.
    destruct (IH st1) as [H1 H2 H3 H4 H5 H6 H7]; [by apply inv_emit|done|rewrite E1; lia|].
    rewrite E1 in H4, H5.
    assert (∀ i, i ∉ l → i ≠ x → unvoted (sess (drain_loop n st1) i) = unvoted (sess st i)) as Hk.
    { intros i Hi1 Hi2. rewrite H5 by done. exact (Hu i Hi2). }
    split; try done.
    + rewrite H1. unfold env in He. simpl in *. congruence.
    + rewrite H2. exact (env_processing _ _ He).
    + intros i. rewrite E. intros [Hil|Hil]%elem_of_app; [auto|]. apply list_elem_of_singleton in Hil as ->.
      apply (so_free _ _ (inv_sess _ H6 x)).
      rewrite (unvoted_phase _ _ (H5 x Hxl)). change (sess st1 x) with (sess (leave_reset x st0) x).
      by rewrite Hf.
    + intros i Hil. rewrite E in Hil. apply Hk; set_solver.
    + intros Hst. apply H7. by apply safe_emit, Hs, (safe_same st).
Qed.
