(* ===== verification/HandlerFacts.v ===== *)
(** * The handlers preserve the invariants

    Every message handler, run on a session while the server is processing,
    keeps [inv] and the deferred-close bookkeeping, leaves the receive buffers
    and the other sessions (up to votes) alone, and keeps [safe] - except INIT on
    an active session, which rewrites the node id without a check. *)
From S2P Require Import Prelude Wire Tlv Msg State Ffsplit Handlers Lifecycle Invariant.

(** ** Handlers *)

(** What a handler of session [slot] guarantees while the server is processing. *)
Record hpost (slot : nat) (st st' : Server) : Prop := {
  hp_max : sv_max_rx_frame st' = sv_max_rx_frame st;
  hp_processing : sv_processing st' = sv_processing st;
  hp_rx j : s_rx (sess st' j) = s_rx (sess st j);
  hp_other j : j ≠ slot → unvoted (sess st' j) = unvoted (sess st j);
  hp_alive : s_phase (sess st slot) ≠ FREE → s_phase (sess st' slot) ≠ FREE;
  hp_inv : inv st → inv st';
  hp_sched : sched st → sched st';
}.

Lemma hpost_refl slot st : hpost slot st st.
Proof. by split. Qed.
Lemma hpost_trans slot st1 st2 st3 : hpost slot st1 st2 → hpost slot st2 st3 → hpost slot st1 st3.
Proof.
  intros [A1 A2 A3 A4 A5 A6 A7] [B1 B2 B3 B4 B5 B6 B7]. split; try congruence; auto.
  intros j Hj. by rewrite B4, A4.
Qed.
#[export] Hint Resolve hpost_refl : qnetd.

Lemma hpost_emit slot e st st' : hpost slot st st' → hpost slot st (emit e st').
Proof. intros [A1 A2 A3 A4 A5 A6 A7]. split; try done; auto with qnetd. intros H. destruct (A7 H). by split. Qed.
Lemma hpost_send slot i f st st' : hpost slot st st' → hpost slot st (send i f st').
Proof. apply hpost_emit. Qed.
Lemma hpost_send_err slot i m code st st' : hpost slot st st' → hpost slot st (send_err i m code st').
Proof. apply hpost_emit. Qed.
Lemma hpost_notify slot st st' : hpost slot st st' → hpost slot st (notify st').
Proof. apply hpost_emit. Qed.
Lemma safe_send i f st : safe st → safe (send i f st).
Proof. apply safe_emit. Qed.
Lemma safe_send_err i m code st : safe st → safe (send_err i m code st).
Proof. apply safe_emit. Qed.
Lemma safe_notify st : safe st → safe (notify st).
Proof. apply safe_emit. Qed.
#[export] Hint Resolve hpost_send hpost_send_err hpost_notify safe_send safe_send_err safe_notify : qnetd.

(** The algorithm as a step of a handler. *)
Lemma hpost_algo slot st st' : algo_post st st' → hpost slot st st'.
Proof.
  intros [He Hu Hi Hinv]. split; auto.
  - unfold env in He. congruence.
  - by apply env_processing.
  - intros j. by apply (unvoted_proj s_rx).
  - by rewrite (unvoted_phase _ _ (Hu slot)).
  - intros [Hs Hnd]. split; [|by rewrite (env_pending _ _ He)].
    intros i. rewrite (unvoted_proj s_schedule_disconnect _ _ (λ _, eq_refl) (Hu i)), Hs.
    by rewrite (env_pending _ _ He).
Qed.

(** An update of the handler's own session. *)
Lemma inv_upd_sess' st i f :
  inv st → (∀ c, in_cluster (f (sess st i)) c = in_cluster (sess st i) c) →
  sess_ok (clus st) (f (sess st i)) → inv (upd_sess i f st).
Proof.
  intros [Hl1 Hl2 Hse Hm Hn] Hin Hok. split.
  - unfold upd_sess. simpl. by rewrite length_alter.
  - done.
  - intros j. rewrite sess_upd. case_decide as Hd; [|done]. by destruct Hd as [-> _].
  - intros c Hr. rewrite clus_upd_sess, (cnt_same st); [by apply Hm|]. intros j.
    rewrite sess_upd. case_decide as Hd; [|done]. by destruct Hd as [-> _].
  - done.
Qed.

Lemma hpost_upd slot st f :
  (s_phase (sess st slot) ≠ FREE → s_phase (f (sess st slot)) ≠ FREE) →
  s_rx (f (sess st slot)) = s_rx (sess st slot) →
  s_schedule_disconnect (f (sess st slot)) = s_schedule_disconnect (sess st slot) →
  (inv st → (∀ c, in_cluster (f (sess st slot)) c = in_cluster (sess st slot) c) ∧
            sess_ok (clus st) (f (sess st slot))) →
  hpost slot st (upd_sess slot f st).
Proof.
  intros Hp Hrx Hsd Hok. split; try done.
  - intros j. rewrite sess_upd. case_decide as Hd; [|done]. by destruct Hd as [-> _].
  - intros j Hj. by rewrite sess_upd_ne.
  - intros Hf. rewrite sess_upd_eq by done. auto.
  - intros Hinv. destruct (Hok Hinv). by apply inv_upd_sess'.
  - intros [Hs Hnd]. split; [|done]. intros i. rewrite sess_upd.
    case_decide as Hd; [|apply Hs]. destruct Hd as [-> _]. rewrite Hsd. apply Hs.
Qed.

(** An update that touches neither identity nor votes. *)
Definition core (s : Session) :=
  (s_phase s, s_cluster s, s_cluster_name s, s_node_id s, s_ff_state s, s_last_ack_nack s,
   s_algorithm s, s_schedule_disconnect s).
Record benign (f : Session → Session) : Prop := {
  bn_core s : core (f s) = core s;
  bn_hb s : hb_ok s → hb_ok (f s);
}.

Lemma core_fields s s' : core s' = core s →
  s_phase s' = s_phase s ∧ s_cluster s' = s_cluster s ∧ s_cluster_name s' = s_cluster_name s ∧
  s_node_id s' = s_node_id s ∧ s_ff_state s' = s_ff_state s ∧ s_last_ack_nack s' = s_last_ack_nack s ∧
  s_algorithm s' = s_algorithm s ∧ s_schedule_disconnect s' = s_schedule_disconnect s.
Proof. unfold core. intros H. by repeat (apply pair_eq in H as [H ?]). Qed.

Lemma benign_ok f cls s : benign f → s_phase s ≠ FREE → sess_ok cls s → sess_ok cls (f s).
Proof.
  intros [Hc Hb] Hf [H1 H2 H3 H4 H5].
  destruct (core_fields _ _ (Hc s)) as (E1 & E2 & E3 & E4 & E5 & E6 & E7 & E8).
  split; rewrite ?E1, ?E2, ?E3, ?E5, ?E6, ?E7; try done.
  - intros Ha. destruct (H1 Ha) as (?&?&?&?&?). split_and!; auto; lia.
Qed.
Lemma benign_safe f cls s : benign f → sess_safe cls s → sess_safe cls (f s).
Proof.
  intros [Hc Hb] [H1 H2 H3].
  destruct (core_fields _ _ (Hc s)) as (E1 & E2 & E3 & E4 & E5 & E6 & E7 & E8).
  split; rewrite ?E1, ?E2, ?E4, ?E5, ?E6; done.
Qed.

Lemma hpost_benign slot st f :
  benign f → (∀ s, s_rx (f s) = s_rx s) → s_phase (sess st slot) ≠ FREE →
  hpost slot st (upd_sess slot f st).
Proof.
  intros Hb Hrx Hf. pose proof (bn_core _ Hb (sess st slot)) as Hc. injection Hc as Hp Hcl _ _ _ _ _ Hsd.
  apply hpost_upd; [by rewrite Hp|done|done|]. intros Hinv. split.
  - intros c. unfold in_cluster. by rewrite Hp, Hcl.
  - apply benign_ok; [done|done|by apply inv_sess].
Qed.
Lemma safe_benign slot st f : benign f → safe st → safe (upd_sess slot f st).
Proof.
  intros Hb Hs. pose proof (bn_core _ Hb (sess st slot)) as Hc. injection Hc as Hp Hcl _ Hn _ _ _ _.
  apply safe_upd_sess; try done. apply benign_safe; [done|by apply safe_sess].
Qed.

Lemma benign_dpd now : benign (reschedule_dpd now).
Proof. split; intros s; unfold reschedule_dpd; repeat case_match; done. Qed.
Lemma benign_store m : benign (node_list_store m).
Proof. split; intros s; unfold node_list_store; repeat case_match; done. Qed.
Lemma benign_record v : v ≠ VOTE_ACK → v ≠ VOTE_NACK → benign (record_vote v).
Proof.
  intros Ha Hn. split; intros s; unfold record_vote;
    rewrite (bool_decide_eq_false_2 _ Ha), (bool_decide_eq_false_2 _ Hn); done.
Qed.
Lemma benign_hb hb : heartbeat_invalid hb = false → benign (λ s, s <| s_heartbeat_ms := hb |>).
Proof.
  intros H. split; intros s; [done|]. intros _. unfold heartbeat_invalid in H. unfold hb_ok. simpl.
  bool_to_prop. lia.
Qed.
Lemma benign_kaptb b : benign (λ s, s <| s_keep_active_partition_tb := b |>).
Proof. by split. Qed.
Lemma benign_heuristics h : benign (λ s, s <| s_last_heuristics := h |>).
Proof. by split. Qed.
#[export] Hint Resolve benign_dpd benign_store benign_hb benign_kaptb benign_heuristics : qnetd.

(** ** Cluster states *)

Lemma algo_set_state st c fs :
  inv st → 0 <= c < Z.of_nat MAX_CLUSTERS → cl_used (clus st c) = true →
  (fs = FCL_SENDING_ACKS → ∀ j, in_cluster (sess st j) c = true → s_ff_state (sess st j) ≠ FC_SENDING_NACK) →
  algo_post st (upd_clus c (λ cl, cl <| cl_state := fs |>) st).
Proof.
  intros Hinv Hc Hu Hfs.
  assert (∀ d, clus (upd_clus c (λ cl, cl <| cl_state := fs |>) st) d =
    if decide (c = d) then (clus st d) <| cl_state := fs |> else clus st d) as Hcl.
  { intros d. rewrite clus_upd, (inv_len_clusters _ Hinv). by repeat case_decide; naive_solver. }
  set (st' := upd_clus c (λ cl, cl <| cl_state := fs |>) st) in *.
  assert (env st' = env st) as He by apply env_upd_clus.
  assert (∀ j, sess st' j = sess st j) as Hs by (intros; apply sess_upd_clus).
  assert (∀ d, cl_ident (clus st' d) = cl_ident (clus st d)) as Hi by (intros d; rewrite Hcl; by case_decide).
  split; [done|intros; by rewrite Hs|done|].
  apply (inv_algo st); try done; [intros; by rewrite Hs| |].
  - intros d Hd. rewrite Hcl. case_decide; [|done]. congruence.
  - intros j. rewrite Hs. destruct (inv_sess _ Hinv j) as [H1 H2 H3 H4 H5].
    split; try done; rewrite Hcl; case_decide; simpl; try done.
    intros Hact Hst. apply Hfs; [done|]. by apply in_cluster_true.
Qed.

Lemma safe_set_state st c fs : safe st → safe (upd_clus c (λ cl, cl <| cl_state := fs |>) st).
Proof.
  intros [Hid Hs]. split; [intros i j; rewrite !sess_upd_clus; auto|].
  intros j. rewrite sess_upd_clus.
  assert (∀ d, cl_quorate_partition (clus (upd_clus c (λ cl, cl <| cl_state := fs |>) st) d) =
               cl_quorate_partition (clus st d)) as Hq.
  { intros d. rewrite clus_upd. by case_decide. }
  destruct (Hs j) as [H1 H2 H3]. split; rewrite Hq; auto.
Qed.

(** The ACK round outside a decision. *)
Lemma algo_send_acks tv st :
  inv st → algo_post st (ffsplit_send_votes tv true st).1 ∧
  (safe st → safe (ffsplit_send_votes tv true st).1).
Proof.
  intros Hinv.
  destruct (send_votes_spec st tv true (inv_len_sessions _ Hinv)) as (He & Hcl & _ & Hs & _ & _).
  set (st' := (ffsplit_send_votes tv true st).1) in *.
  assert (∀ j, unvoted (sess st' j) = unvoted (sess st j)) as Hu by (intros j; rewrite Hs; by case_match).
  assert (algo_post st st') as Hap.
  { split; [done|done|intros; by rewrite Hcl|].
    apply (inv_algo st); try done; [intros; by rewrite Hcl|].
    intros j. apply (sess_ok_ext (clus st)); [done|]. pose proof (inv_sess _ Hinv j) as Hj. rewrite Hs.
    destruct (votes _ _ _ _ _) eqn:Hv; [|done]. destruct Hj as [H1 H2 H3 H4 H5].
    unfold votes in Hv. apply andb_prop in Hv as [[Hin _]%andb_prop Hff%bool_decide_eq_true].
    simpl in Hff. apply in_cluster_true in Hin as [Ha _].
    split; simpl; try done; intros Hp; congruence. }
  split; [done|]. intros Hsafe. apply (algo_safe st); [done|done|].
  intros j. apply (sess_safe_ext (clus st)); [done|]. pose proof (safe_sess _ Hsafe j) as Hj. rewrite Hs.
  destruct (votes _ _ _ _ _) eqn:Hv; [|done]. destruct Hj as [H1 H2 H3].
  unfold votes in Hv. apply andb_prop in Hv as [_ Hff%bool_decide_eq_true]. split; simpl; auto.
Qed.

(** ** The handlers *)

(** A handler's guarantee together with safety. *)
Definition hok (slot : nat) (st st' : Server) : Prop := hpost slot st st' ∧ (safe st → safe st').

Lemma hok_refl slot st : hok slot st st.
Proof. by split; [apply hpost_refl|]. Qed.
Lemma hok_trans slot st1 st2 st3 : hok slot st1 st2 → hok slot st2 st3 → hok slot st1 st3.
Proof. intros [A1 A2] [B1 B2]. split; [by eapply hpost_trans|auto]. Qed.
Lemma hok_emit slot e st st' : hok slot st st' → hok slot st (emit e st').
Proof. intros [A B]. split; [by apply hpost_emit|auto with qnetd]. Qed.
Lemma hok_send slot i f st st' : hok slot st st' → hok slot st (send i f st').
Proof. apply hok_emit. Qed.
Lemma hok_send_err slot i m code st st' : hok slot st st' → hok slot st (send_err i m code st').
Proof. apply hok_emit. Qed.
Lemma hok_notify slot st st' : hok slot st st' → hok slot st (notify st').
Proof. apply hok_emit. Qed.
Lemma hok_benign slot st st' f :
  benign f → (∀ s, s_rx (f s) = s_rx s) → s_phase (sess st slot) ≠ FREE → hok slot st st' →
  hok slot st (upd_sess slot f st').
Proof.
  intros Hb Hrx Hf H. apply (hok_trans _ _ st'); [done|]. split; [|by apply safe_benign].
  apply hpost_benign; [done|done|]. by apply (hp_alive _ _ _ (proj1 H)).
Qed.
#[export] Hint Resolve hok_refl hok_send hok_send_err hok_notify : qnetd.

Lemma rx_dpd now s : s_rx (reschedule_dpd now s) = s_rx s.
Proof. unfold reschedule_dpd. by repeat case_match. Qed.
Lemma rx_store m s : s_rx (node_list_store m s) = s_rx s.
Proof. unfold node_list_store. by repeat case_match. Qed.
Lemma rx_record v s : s_rx (record_vote v s) = s_rx s.
Proof. unfold record_vote. by repeat case_match. Qed.
#[export] Hint Resolve rx_dpd rx_store rx_record : qnetd.

(** A decision triggered by a client that stays. *)
Lemma hok_decide tv st :
  inv st → s_phase (sess st (tv_slot tv)) = ACTIVE → tv_leaving tv = false →
  ∃ st' result, ffsplit_do tv st = (st', ERR_NO_ERROR, result) ∧
    result ≠ VOTE_ACK ∧ result ≠ VOTE_NACK ∧ algo_post st st' ∧ hok (tv_slot tv) st st'.
Proof.
  intros Hinv Hact Hl. destruct (ffsplit_do_post tv st Hinv Hact) as (st' & r & -> & Hr & Hap & Hs).
  exists st', r. split_and!; [done|by destruct Hr as [->| ->]..|done|].
  split; [by apply hpost_algo|]. intros Hsafe. apply (algo_safe st); [done|done|].
  intros j. apply Hs; [done|]. rewrite Hl. by intros [??].
Qed.

(** Sessions outside the clusters. *)
Lemma safe_upd_inactive slot st f :
  s_phase (sess st slot) ≠ ACTIVE → s_phase (f (sess st slot)) ≠ ACTIVE → safe st →
  safe (upd_sess slot f st).
Proof.
  intros H1 H2 [Hid Hs].
  assert (∀ j, sess (upd_sess slot f st) j = sess st j ∨
               s_phase (sess (upd_sess slot f st) j) ≠ ACTIVE) as E.
  { intros j. rewrite sess_upd. case_decide as Hd; [|by left]. destruct Hd as [<- _]. by right. }
  split.
  - intros i j. destruct (E i) as [->|?]; [|done]. destruct (E j) as [->|?]; [auto|done].
  - intros j. destruct (E j) as [->|?]; [apply Hs|]. by split.
Qed.

Lemma handle_preinit_ok slot m st : inv st → s_phase (sess st slot) ≠ FREE →
  hok slot st (handle_preinit slot m st).
Proof.
  intros Hinv Hf. unfold handle_preinit. case_match; [auto with qnetd|].
  case_match; [auto with qnetd|]. bool_to_prop. apply hok_send. split.
  - apply hpost_upd; try done. intros _. split.
    + intros c. unfold in_cluster. simpl. destruct (sess st slot); simpl in *; by subst.
    + pose proof (inv_sess _ Hinv slot) as [S1 S2 S3 S4 S5]. by split; simpl; try done; intros; apply S2; congruence.
  - apply safe_upd_inactive; [congruence|done].
Qed.

Lemma handle_set_option_ok slot m now st : inv st → s_phase (sess st slot) ≠ FREE →
  hok slot st (handle_set_option slot m now st).
Proof.
  intros Hinv Hf. unfold handle_set_option. case_match eqn:Hhb; [auto with qnetd|].
  apply hok_send. destruct (m_keep_active_partition_tie_breaker_set m).
  1: apply hok_benign; auto with qnetd.
  all: destruct (m_heartbeat_interval_set m); [|apply hok_refl]; simpl in Hhb.
  all: apply hok_benign; auto with qnetd; apply hok_benign; auto with qnetd.
Qed.

Lemma node_list_decide_ok slot m st : inv st → s_phase (sess st slot) = ACTIVE →
  match node_list_decide slot m st with
  | inl _ => True
  | inr (st', code, result) => code = ERR_NO_ERROR ∧ result ≠ VOTE_ACK ∧ result ≠ VOTE_NACK ∧
      hok slot st st'
  end.
Proof.
  intros Hinv Hact. unfold node_list_decide.
  assert (∀ v, v ≠ VOTE_ACK → v ≠ VOTE_NACK → ERR_NO_ERROR = ERR_NO_ERROR ∧ v ≠ VOTE_ACK ∧ v ≠ VOTE_NACK ∧
    hok slot st st) as Hn by (auto with qnetd).
  destruct (m_node_list_type m);
    repeat match goal with |- context [if ?b then inl _ else _] => destruct b; [exact I|] end;
    try match goal with |- context [if ?b then inr _ else _] => destruct b end; try (by apply Hn);
    match goal with |- context [ffsplit_do ?tv st] =>
      destruct (hok_decide tv st Hinv Hact eq_refl) as (st' & r & -> & ? & ? & _ & ?) end; done.
Qed.

Lemma handle_node_list_ok slot m st : inv st → s_phase (sess st slot) = ACTIVE →
  hok slot st (handle_node_list slot m st).
Proof.
  intros Hinv Hact. unfold handle_node_list. case_match; [auto with qnetd|].
  pose proof (node_list_decide_ok slot m st Hinv Hact) as Hd.
  destruct (node_list_decide slot m st) as [code|[[st' code] result]]; [auto with qnetd|].
  destruct Hd as (-> & Ha & Hn & Hok). cbn [is_no_error]. cbn.
  assert (s_phase (sess st slot) ≠ FREE) as Hf by (by rewrite Hact).
  apply hok_notify, hok_send, hok_benign; auto using benign_record with qnetd.
  apply hok_benign; auto with qnetd.
Qed.

Lemma handle_heuristics_change_ok slot m st : inv st → s_phase (sess st slot) = ACTIVE →
  hok slot st (handle_heuristics_change slot m st).
Proof.
  intros Hinv Hact. unfold handle_heuristics_change. case_match; [auto with qnetd|].
  assert (s_phase (sess st slot) ≠ FREE) as Hf by (by rewrite Hact).
  destruct (nl_empty (s_config_list (sess st slot)) || nl_empty (s_membership_list (sess st slot))); [|
    match goal with |- context [ffsplit_do ?tv st] =>
      destruct (hok_decide tv st Hinv Hact eq_refl) as (st' & r & -> & ? & ? & _ & ?) end];
    cbn; apply hok_notify, hok_send, hok_benign; auto using benign_record with qnetd;
    apply hok_benign; auto with qnetd.
Qed.

(** Nobody of the cluster is in a client state. *)
Lemma count_state_zero st c fs :
  length (sv_sessions st) = MAX_CLIENTS → ffsplit_count_state st c fs = 0%nat ↔
  ∀ j, in_cluster (sess st j) c = true → s_ff_state (sess st j) ≠ fs.
Proof.
  intros Hlen. unfold ffsplit_count_state. rewrite length_zero_iff_nil. split.
  - intros Hl j Hin Hff. assert (j ∈ (@nil nat)) as Hj; [|by apply not_elem_of_nil in Hj].
    rewrite <-Hl. apply list_elem_of_filter. split; [by rewrite Hin|]. apply elem_of_slots.
    rewrite <-Hlen. apply sess_in_range. by apply in_cluster_true in Hin as [-> _].
  - intros H. destruct (filter _ slots) as [|j l] eqn:E; [done|]. exfalso.
    assert (j ∈ j :: l) as Hj by (apply list_elem_of_here). rewrite <-E in Hj.
    apply list_elem_of_filter in Hj as [[Hin Hff] _]. apply (H j); [|done]. by apply Is_true_true.
Qed.

(** Steps of the algorithm on an active client's cluster. *)
Lemma hok_set_state slot st st' c fs :
  inv st → hok slot st st' → 0 <= c < Z.of_nat MAX_CLUSTERS → cl_used (clus st' c) = true →
  (fs = FCL_SENDING_ACKS → ∀ j, in_cluster (sess st' j) c = true → s_ff_state (sess st' j) ≠ FC_SENDING_NACK) →
  hok slot st (upd_clus c (λ cl, cl <| cl_state := fs |>) st').
Proof.
  intros Hinv H Hc Hu Hfs. apply (hok_trans _ _ st'); [done|]. split; [|apply safe_set_state].
  apply hpost_algo, algo_set_state; auto. by apply (hp_inv _ _ _ (proj1 H)).
Qed.

Lemma hok_send_acks slot tv st st' :
  inv st → hok slot st st' → hok slot st (ffsplit_send_votes tv true st').1.
Proof.
  intros Hinv H. apply (hok_trans _ _ st'); [done|].
  destruct (algo_send_acks tv st') as [Hap Hs]; [by apply (hp_inv _ _ _ (proj1 H))|].
  split; [by apply hpost_algo|done].
Qed.

Lemma hok_answered slot st : inv st → s_phase (sess st slot) = ACTIVE →
  hok slot st (upd_sess slot (λ s, s <| s_ff_state := FC_WAITING_FOR_CHANGE |>) st).
Proof.
  intros Hinv Hact. split.
  - apply hpost_upd; try done. intros _. split; [done|].
    destruct (inv_sess _ Hinv slot) as [S1 S2 S3 S4 S5]. split; simpl; try done; intros; congruence.
  - intros Hsafe. apply safe_upd_sess; try done. destruct (safe_sess _ Hsafe slot). by split.
Qed.

Lemma handle_vote_info_reply_ok slot m st : inv st → s_phase (sess st slot) = ACTIVE →
  hok slot st (handle_vote_info_reply slot m st).
Proof.
  intros Hinv Hact. unfold handle_vote_info_reply. case_match; [auto with qnetd|].
  case_match; [auto with qnetd|]. apply hok_notify.
  pose proof (hok_answered slot st Hinv Hact) as H1.
  set (st1 := upd_sess slot _ st) in *. pose proof (hp_inv _ _ _ (proj1 H1) Hinv) as Hinv1.
  assert (s_phase (sess st1 slot) = ACTIVE) as Hact1.
  { unfold st1. rewrite sess_upd_eq by (by rewrite Hact). done. }
  destruct (so_active _ _ (inv_sess _ Hinv1 slot) Hact1) as (Hc & Hu & _).
  set (c := s_cluster (sess st1 slot)) in *. clearbody st1.
  destruct (cl_state (clus st1 c)); [done|done|..].
  - destruct (Nat.eqb_spec (ffsplit_count_state st1 c FC_SENDING_NACK) 0) as [Hz|]; [|done].
    pose proof (proj1 (count_state_zero st1 c _ (inv_len_sessions _ Hinv1)) Hz) as Hno.
    pose proof (hok_set_state slot st st1 c FCL_SENDING_ACKS Hinv H1 Hc Hu (λ _, Hno)) as H2.
    set (tv := mkTV _ _ _ _ _ _).
    pose proof (hok_send_acks slot tv st _ Hinv H2) as H3.
    pose proof (hp_inv _ _ _ (proj1 H2) Hinv) as Hinv2.
    destruct (send_votes_spec _ tv true (inv_len_sessions _ Hinv2)) as (_ & Hcl & _).
    destruct (ffsplit_send_votes tv true _) as [st3 acks]. cbn [fst snd] in *.
    case_match; [|done]. apply hok_set_state; try done.
    rewrite Hcl, clus_upd. by case_decide.
  - case_match; [|done]. by apply hok_set_state.
Qed.

(** While processing, a disconnection is only scheduled. *)
Lemma disconnect_client_ok slot st :
  sv_processing st = true → hok slot st (disconnect_client slot st).
Proof.
  intros Hp. unfold disconnect_client.
  destruct (bool_decide_reflect (s_phase (sess st slot) = FREE)) as [|Hf]; [apply hok_refl|]. cbn [orb].
  destruct (s_schedule_disconnect (sess st slot)) eqn:Hsd; [apply hok_refl|].
  set (st1 := upd_sess slot (λ s, s <| s_schedule_disconnect := true |>) st).
  change (sv_processing (set_field sv_pending_close _ st1)) with (sv_processing st). rewrite Hp.
  assert (∀ j, j ≠ slot → sess st1 j = sess st j) as Hne by (intros; by apply sess_upd_ne).
  assert (sess st1 slot = (sess st slot) <| s_schedule_disconnect := true |>) as Heq by (by apply sess_upd_eq).
  assert (inv st → inv st1) as Hi.
  { intros Hinv. apply inv_upd_sess; try done.
    destruct (inv_sess _ Hinv slot) as [S1 S2 S3 S4 S5]. by split. }
  split; [split|]; try done.
  - intros j. destruct (decide (j = slot)) as [->|Hj]; [exact (f_equal s_rx Heq)|exact (f_equal s_rx (Hne j Hj))].
  - intros j Hj. exact (f_equal unvoted (Hne j Hj)).
  - intros _. change (s_phase (sess st1 slot) ≠ FREE). by rewrite Heq.
  - intros Hinv. by apply (inv_same st1); auto.
  - intros [Hs Hnd]. split.
    + intros i. change (s_schedule_disconnect (sess st1 i) = true ↔ i ∈ sv_pending_close st ++ [slot]).
      rewrite elem_of_app, list_elem_of_singleton. destruct (decide (i = slot)) as [->|Hi'].
      * rewrite Heq. simpl. naive_solver.
      * rewrite Hne, Hs by done. naive_solver.
    + simpl. apply NoDup_app. split_and!; [done| |apply NoDup_singleton].
      intros x Hx ->%list_elem_of_singleton. apply Hs in Hx. congruence.
  - intros Hsafe. apply (safe_same st1); try done. apply safe_upd_sess; try done.
    destruct (safe_sess _ Hsafe slot). by split.
Qed.
