(* ===== verification/InitFacts.v ===== *)
(** * Admission: INIT and cluster membership

    What [handle_init] checks, whom it admits, and that the admission keeps the
    invariants; then the guarantees of the whole frame dispatcher. *)
From S2P Require Import Prelude Wire Tlv Msg State Ffsplit Handlers Lifecycle Invariant HandlerFacts.

(** ** The field checks *)

(** The fields INIT never writes before admission. *)
Definition init_frame (s : Session) :=
  (s_phase s, s_cluster s, s_cluster_name s, s_ff_state s, s_last_ack_nack s, s_schedule_disconnect s,
   s_rx s, s_vote_info_seq s).

Lemma init_fields_frame m s : init_frame (init_fields m s).2 = init_frame s.
Proof. unfold init_fields. repeat (case_match; simplify_eq/=); done. Qed.

Lemma init_frame_eqs s s' : init_frame s' = init_frame s →
  s_phase s' = s_phase s ∧ s_cluster s' = s_cluster s ∧ s_cluster_name s' = s_cluster_name s ∧
  s_ff_state s' = s_ff_state s ∧ s_last_ack_nack s' = s_last_ack_nack s ∧
  s_schedule_disconnect s' = s_schedule_disconnect s ∧ s_rx s' = s_rx s.
Proof. unfold init_frame. intros H. by repeat (apply pair_eq in H as [H ?]). Qed.

(** An active client only has its node id and ring id overwritten. *)
Lemma init_fields_active m s : s_phase s = ACTIVE →
  init_fields m s = (ERR_UNEXPECTED_MESSAGE, s <| s_node_id := m_node_id m |> <| s_last_ring_id := m_ring_id m |>).
Proof. intros H. unfold init_fields. by rewrite H. Qed.

(** Passing the checks. *)
Lemma init_fields_no_error m s :
  (init_fields m s).1 = ERR_NO_ERROR →
  let s' := (init_fields m s).2 in
  s_phase s ≠ ACTIVE ∧ m_node_id_set m = true ∧ m_ring_id_set m = true ∧
  m_heartbeat_interval_set m = true ∧ m_tie_breaker_set m = true ∧ m_decision_algorithm_set m = true ∧
  m_decision_algorithm m = ALG_FFSPLIT ∧ hb_ok s' ∧
  s' = s <| s_node_id := m_node_id m |> <| s_last_ring_id := m_ring_id m |>
         <| s_heartbeat_ms := m_heartbeat_interval m |> <| s_tie_breaker := m_tie_breaker m |>
         <| s_algorithm := ALG_FFSPLIT |>.
Proof.
  destruct (bool_decide_reflect (s_phase s = ACTIVE)) as [Ha|Ha].
  { by rewrite init_fields_active. }
  unfold init_fields. rewrite bool_decide_eq_false_2 by done.
  destruct (m_node_id_set m); [|by repeat (case_match; simplify_eq/=)].
  destruct (m_ring_id_set m); [|by repeat (case_match; simplify_eq/=)]. cbn.
  destruct (m_heartbeat_interval_set m); [|done]. cbn.
  destruct (heartbeat_invalid (m_heartbeat_interval m)) eqn:Hhb; [done|]. cbn.
  destruct (m_tie_breaker_set m); [|done]. cbn.
  destruct (m_decision_algorithm_set m); [|done]. cbn.
  destruct (bool_decide_reflect (m_decision_algorithm m = ALG_FFSPLIT)) as [Hal|]; [|done]. cbn.
  intros _. rewrite Hal.
  assert (HEARTBEAT_MIN_MS <= m_heartbeat_interval m <= HEARTBEAT_MAX_MS).
  { unfold heartbeat_invalid in Hhb. bool_to_prop. lia. }
  by split_and!.
Qed.

(** ** Consistency with the cluster *)

Lemma init_consistency_ok st slot idx :
  init_consistency st slot idx = ERR_NO_ERROR → ∀ i, i ∈ idx → i ≠ slot →
  s_phase (sess st i) = ACTIVE → s_cluster_name (sess st i) = s_cluster_name (sess st slot) →
  s_node_id (sess st slot) ≠ s_node_id (sess st i) ∧
  TieBreaker_eqb (s_tie_breaker (sess st slot)) (s_tie_breaker (sess st i)) = true ∧
  s_algorithm (sess st slot) = s_algorithm (sess st i).
Proof.
  induction idx as [|k idx IH]; intros H i Hi Hne Hact Hname; [by apply not_elem_of_nil in Hi|].
  cbn [init_consistency] in H. apply elem_of_cons in Hi as [->|Hi].
  - rewrite (proj2 (Nat.eqb_neq k slot)), bool_decide_eq_true_2, bool_decide_eq_true_2 in H by done.
    cbn [negb orb] in H. repeat case_match; try done. bool_to_prop. done.
  - repeat case_match; try done; by apply IH.
Qed.

(** ** Admission *)

Lemma elem_of_cluster_slots i : i ∈ cluster_slots ↔ (i < MAX_CLUSTERS)%nat.
Proof. unfold cluster_slots. rewrite elem_of_seq. lia. Qed.

(** [find_or_create_cluster] finds the cluster of the name, takes a free entry, or fails. *)
Lemma find_or_create_spec name st :
  length (sv_clusters st) = MAX_CLUSTERS →
  let r := find_or_create_cluster name st in
  (0 <= r.1 < Z.of_nat MAX_CLUSTERS ∧ cl_used (clus st r.1) = true ∧ cl_name (clus st r.1) = name ∧ r.2 = st) ∨
  (0 <= r.1 < Z.of_nat MAX_CLUSTERS ∧ cl_used (clus st r.1) = false ∧
     (∀ d, 0 <= d < Z.of_nat MAX_CLUSTERS → cl_used (clus st d) = true → cl_name (clus st d) ≠ name) ∧
     r.2 = upd_clus r.1 (λ _, Cluster0 <| cl_used := true |> <| cl_name := name |>) st) ∨
  (r.1 = -1 ∧ r.2 = st ∧
     ∀ d, 0 <= d < Z.of_nat MAX_CLUSTERS → cl_used (clus st d) = true ∧ cl_name (clus st d) ≠ name).
Proof.
  intros Hlen r. unfold r, find_or_create_cluster.
  destruct (List.find _ cluster_slots) as [i|] eqn:E1.
  { apply List.find_some in E1 as [Hi%list_elem_of_In%elem_of_cluster_slots Hf]. bool_to_prop.
    left. cbn [fst snd]. split_and!; lia || done. }
  assert (∀ d, 0 <= d < Z.of_nat MAX_CLUSTERS → cl_used (clus st d) = true → cl_name (clus st d) ≠ name) as Hno.
  { intros d Hd Hu Hn. pose proof (List.find_none _ _ E1 (Z.to_nat d)) as H. cbv beta zeta in H.
    rewrite Z2Nat.id, Hu, bool_decide_eq_true_2 in H by lia || done.
    discriminate H. apply list_elem_of_In, elem_of_cluster_slots. lia. }
  clear E1. destruct (List.find _ cluster_slots) as [i|] eqn:E2.
  { apply List.find_some in E2 as [Hi%list_elem_of_In%elem_of_cluster_slots Hf]. bool_to_prop.
    right; left. cbn [fst snd]. split_and!; [lia|lia|done|exact Hno|done]. }
  right; right. split_and!; [done..|]. intros d Hd. assert (cl_used (clus st d) = true) as Hu; [|by split; [|auto]].
  pose proof (List.find_none _ _ E2 (Z.to_nat d)) as H. cbv beta in H. rewrite Z2Nat.id in H by lia.
  apply negb_false_iff, H, list_elem_of_In, elem_of_cluster_slots. lia.
Qed.

(** The cluster after an admission. *)
Definition joined_cluster (name : bytes) (cl : Cluster) : Cluster :=
  if cl_used cl then cl <| cl_members ::= λ n, n + 1 |>
  else Cluster0 <| cl_used := true |> <| cl_name := name |> <| cl_members := 1 |>.
Definition joined_sess (c now : Z) (s : Session) : Session :=
  reschedule_dpd now (s <| s_cluster := c |> <| s_phase := ACTIVE |>).

Record joined (slot : nat) (now c : Z) (st st' : Server) : Prop := {
  jn_range : 0 <= c < Z.of_nat MAX_CLUSTERS;
  jn_name d : 0 <= d < Z.of_nat MAX_CLUSTERS → cl_used (clus st d) = true →
    (cl_name (clus st d) = s_cluster_name (sess st slot) ↔ d = c);
  jn_env : env st' = env st;
  jn_slot : sess st' slot = joined_sess c now (sess st slot);
  jn_other j : j ≠ slot → sess st' j = sess st j;
  jn_clus : clus st' c = joined_cluster (s_cluster_name (sess st slot)) (clus st c);
  jn_clus_ne d : d ≠ c → clus st' d = clus st d;
  jn_out : sv_out st' = sv_out st;
}.

(** The writes of [init_join] once the cluster is known. *)
Definition join_writes (slot : nat) (now c : Z) (st : Server) : Server :=
  let st := upd_sess slot (λ s, s <| s_cluster := c |>) st in
  let st :=
    if cl_members (clus st c) =? 0 then
      upd_clus c (λ cl, cl <| cl_state := FCL_WAITING_FOR_CHANGE |> <| cl_quorate_partition := [] |>) st
    else st in
  let st := upd_clus c (λ cl, cl <| cl_members ::= λ n, n + 1 |>) st in
  let st := upd_sess slot (λ s, s <| s_phase := ACTIVE |>) st in
  upd_sess slot (reschedule_dpd now) st.

Lemma join_writes_spec slot now c st :
  s_phase (sess st slot) ≠ FREE → 0 <= c < Z.of_nat (length (sv_clusters st)) →
  let st' := join_writes slot now c st in
  env st' = env st ∧ sess st' slot = joined_sess c now (sess st slot) ∧
  (∀ j, j ≠ slot → sess st' j = sess st j) ∧
  clus st' c = (if cl_members (clus st c) =? 0
                then (clus st c) <| cl_state := FCL_WAITING_FOR_CHANGE |> <| cl_quorate_partition := [] |>
                else clus st c) <| cl_members ::= λ n, n + 1 |> ∧
  (∀ d, d ≠ c → clus st' d = clus st d) ∧ sv_out st' = sv_out st.
Proof.
  intros Hf Hc. unfold join_writes. cbv zeta.
  set (st1 := upd_sess slot (λ s, s <| s_cluster := c |>) st).
  assert (sess st1 slot = (sess st slot) <| s_cluster := c |>) as H1 by (by apply sess_upd_eq).
  change (clus st1 c) with (clus st c).
  set (st2 := if cl_members (clus st c) =? 0 then _ else st1).
  assert (env st2 = env st ∧ (∀ j, sess st2 j = sess st1 j) ∧ sv_out st2 = sv_out st) as (He & Hs & Ho).
  { unfold st2. case_match; autorewrite with server; unfold st1; autorewrite with server;
      (split_and!; [done| |done]); intros j; by autorewrite with server. }
  set (st3 := upd_clus c (λ cl, cl <| cl_members ::= λ n, n + 1 |>) st2).
  assert (sess st3 slot = sess st1 slot) as H3 by (unfold st3; autorewrite with server; apply Hs).
  assert (clus st2 c = if cl_members (clus st c) =? 0
                then (clus st c) <| cl_state := FCL_WAITING_FOR_CHANGE |> <| cl_quorate_partition := [] |>
                else clus st c) as Hc2.
  { unfold st2. case_match; [|done]. rewrite clus_upd, decide_True; [done|].
    unfold st1. by rewrite (env_clusters _ _ (env_upd_sess _ _ _)). }
  set (st4 := upd_sess slot (λ s, s <| s_phase := ACTIVE |>) st3).
  assert (sess st4 slot = (sess st slot) <| s_cluster := c |> <| s_phase := ACTIVE |>) as H4.
  { unfold st4. rewrite sess_upd_eq by (by rewrite H3, H1). by rewrite H3, H1. }
  split_and!.
  - unfold st4, st3. by autorewrite with server.
  - rewrite sess_upd_eq by (by rewrite H4). by rewrite H4.
  - intros j Hj. unfold st4. rewrite !sess_upd_ne by done. unfold st3. rewrite sess_upd_clus, Hs.
    unfold st1. by rewrite sess_upd_ne.
  - change (clus st3 c = (if cl_members (clus st c) =? 0
                then (clus st c) <| cl_state := FCL_WAITING_FOR_CHANGE |> <| cl_quorate_partition := [] |>
                else clus st c) <| cl_members ::= λ n, n + 1 |>).
    unfold st3. rewrite clus_upd, decide_True; [by rewrite Hc2|]. by rewrite (env_clusters _ _ He).
  - intros d Hd. change (clus st3 d = clus st d). unfold st3. rewrite clus_upd_ne by done.
    unfold st2. case_match; [by rewrite clus_upd_ne by done|done].
  - unfold st4, st3. by autorewrite with server.
Qed.

Lemma init_join_spec slot now st :
  inv st → s_phase (sess st slot) ≠ FREE →
  let r := init_join slot now st in
  (r.1 = ERR_INTERNAL_ERROR ∧ r.2 = st) ∨ (r.1 = ERR_NO_ERROR ∧ ∃ c, joined slot now c st r.2).
Proof.
  intros Hinv Hf r. unfold r, init_join. set (name := s_cluster_name (sess st slot)).
  pose proof (inv_len_clusters _ Hinv) as Hlen.
  destruct (find_or_create_spec name st Hlen) as [(Hr & Hu & Hn & Hst)|[(Hr & Hu & Hno & Hst)|(Hr & Hst & _)]];
    destruct (find_or_create_cluster name st) as [c st0]; cbn [fst snd] in *; subst st0.
  - right. rewrite (proj2 (Z.ltb_ge c 0)) by lia. fold (join_writes slot now c st). split; [done|]. exists c.
    destruct (join_writes_spec slot now c st Hf) as (He & Hs & Hs' & Hcl & Hcl' & Ho); [by rewrite Hlen|].
    split; try done.
    + intros d Hd Hud. split; [|by intros ->]. intros E. apply (inv_names _ Hinv); [done|done|by rewrite E, Hn].
    + cbn [snd]. rewrite Hcl. unfold joined_cluster. rewrite Hu. pose proof (inv_members _ Hinv c Hr) as Hm.
      rewrite Hu in Hm. by rewrite (proj2 (Z.eqb_neq _ _)) by lia.
  - right. rewrite (proj2 (Z.ltb_ge c 0)) by lia.
    set (st1 := upd_clus c _ st). fold (join_writes slot now c st1). split; [done|]. exists c.
    assert (sess st1 slot = sess st slot) as H1 by apply sess_upd_clus.
    assert (env st1 = env st) as He1 by apply env_upd_clus.
    assert (clus st1 c = Cluster0 <| cl_used := true |> <| cl_name := name |>) as Hc1.
    { unfold st1. rewrite clus_upd, decide_True; [done|]. by rewrite Hlen. }
    destruct (join_writes_spec slot now c st1) as (He & Hs & Hs' & Hcl & Hcl' & Ho);
      [by rewrite H1|by rewrite (env_clusters _ _ He1), Hlen|].
    split; try done.
    + intros d Hd Hud. split; [intros E; by destruct (Hno d Hd Hud)|intros ->; congruence].
    + cbn [snd]. congruence.
    + cbn [snd]. by rewrite Hs, H1.
    + intros j Hj. cbn [snd]. rewrite Hs' by done. apply sess_upd_clus.
    + cbn [snd]. rewrite Hcl, Hc1. unfold joined_cluster. by rewrite Hu.
    + intros d Hd. cbn [snd]. rewrite Hcl' by done. by apply clus_upd_ne.
    + cbn [snd]. rewrite Ho. apply out_upd_clus.
  - subst c. by left.
Qed.

(** ** Admission keeps the invariants *)

Lemma joined_sess_core c now s :
  core (joined_sess c now s) =
    (ACTIVE, c, s_cluster_name s, s_node_id s, s_ff_state s, s_last_ack_nack s, s_algorithm s,
     s_schedule_disconnect s).
Proof. unfold joined_sess. by rewrite (bn_core _ (benign_dpd now)). Qed.
Lemma joined_sess_hb c now s : hb_ok s → hb_ok (joined_sess c now s).
Proof. intros H. by apply (bn_hb _ (benign_dpd now)). Qed.
Lemma joined_sess_rx c now s : s_rx (joined_sess c now s) = s_rx s.
Proof. unfold joined_sess. by rewrite rx_dpd. Qed.
Lemma joined_sess_fields c now s :
  s_phase (joined_sess c now s) = ACTIVE ∧ s_cluster (joined_sess c now s) = c ∧
  s_cluster_name (joined_sess c now s) = s_cluster_name s ∧ s_node_id (joined_sess c now s) = s_node_id s ∧
  s_ff_state (joined_sess c now s) = s_ff_state s ∧ s_last_ack_nack (joined_sess c now s) = s_last_ack_nack s ∧
  s_algorithm (joined_sess c now s) = s_algorithm s ∧
  s_schedule_disconnect (joined_sess c now s) = s_schedule_disconnect s.
Proof. pose proof (joined_sess_core c now s) as H. by repeat (apply pair_eq in H as [H ?]). Qed.

Section joined.
Context (slot : nat) (now c : Z) (st st' : Server).
Context (Hinv : inv st) (Hj : joined slot now c st st').
Context (Hfree : s_phase (sess st slot) ≠ FREE) (Hact : s_phase (sess st slot) ≠ ACTIVE).

Lemma joined_used_other j : j ≠ slot → s_phase (sess st j) = ACTIVE → s_cluster (sess st j) = c →
  cl_used (clus st c) = true ∧ s_cluster_name (sess st j) = s_cluster_name (sess st slot).
Proof using Hinv Hj.
  intros Hne Ha Hc. destruct (so_active _ _ (inv_sess _ Hinv j) Ha) as (Hr & Hu & Hn & _).
  rewrite Hc in *. split; [done|]. rewrite <-Hn. by apply (jn_name _ _ _ _ _ Hj).
Qed.

Lemma joined_cnt d : cnt st' d = (cnt st d + if decide (d = c) then 1 else 0)%nat.
Proof using Hinv Hj Hfree Hact.
  destruct Hj as [_ _ _ Hs Hs' _ _ _].
  assert (slot < MAX_CLIENTS)%nat as Hrange.
  { rewrite <-(inv_len_sessions _ Hinv). by apply sess_in_range. }
  pose proof (cnt_change st st' slot d Hrange) as H.
  assert (in_cluster (sess st slot) d = false) as E by (apply in_cluster_false; naive_solver).
  destruct (joined_sess_fields c now (sess st slot)) as (E1 & E2 & _).
  assert (in_cluster (sess st' slot) d = bool_decide (d = c)) as E'.
  { rewrite Hs. unfold in_cluster. rewrite E1, E2. simpl. case_bool_decide; [by apply Z.eqb_eq|].
    by apply Z.eqb_neq. }
  rewrite E, E' in H. rewrite bool_decide_decide in H.
  destruct (decide (d = c)); simpl in H; rewrite <-H by (intros j Hne; by rewrite Hs'); lia.
Qed.

Lemma joined_inv : hb_ok (sess st slot) → s_algorithm (sess st slot) = ALG_FFSPLIT → inv st'.
Proof using Hinv Hj Hfree Hact.
  intros Hhb Halg. destruct Hj as [Hr Hname He Hs Hs' Hcl Hcl' _].
  destruct (joined_sess_fields c now (sess st slot)) as (E1 & E2 & E3 & E4 & E5 & E6 & E7 & E8).
  destruct (so_inactive _ _ (inv_sess _ Hinv slot) Hact) as (_ & Hff & Hlan).
  pose proof joined_cnt as Hcnt.
  pose proof (inv_members _ Hinv c Hr) as Hm. unfold joined_cluster in Hcl.
  assert (cl_used (clus st' c) = true ∧ cl_name (clus st' c) = s_cluster_name (sess st slot)) as [Hu' Hn'].
  { rewrite Hcl. destruct (cl_used (clus st c)) eqn:Hu; [|done]. split; [done|]. by apply Hname. }
  split.
  - rewrite (env_sessions _ _ He). by apply inv_len_sessions.
  - rewrite (env_clusters _ _ He). by apply inv_len_clusters.
  - intros j. destruct (decide (j = slot)) as [->|Hne].
    + rewrite Hs. split; rewrite ?E1, ?E2, ?E3, ?E5, ?E6, ?E7; try done; try congruence.
      intros _. exact (conj Hr (conj Hu' (conj Hn' (conj (joined_sess_hb c now _ Hhb) Halg)))).
    + rewrite Hs' by done. destruct (inv_sess _ Hinv j) as [S1 S2 S3 S4 S5].
      split; try done; intros Ha; destruct (decide (s_cluster (sess st j) = c)) as [Hc|Hc].
      2, 4: rewrite Hcl' by done; auto.
      all: destruct (joined_used_other j Hne Ha Hc) as [Hu _]; specialize (S1 Ha); specialize (S5 Ha);
        rewrite Hc in *; rewrite Hcl, Hu; first [exact S1|exact S5].
  - intros d Hd. rewrite Hcnt. destruct (decide (d = c)) as [->|Hdc].
    + rewrite Hu', Hcl. destruct (cl_used (clus st c)) eqn:Hu0; simpl; [lia|].
      assert (cnt st c = 0%nat) as ->; [|lia].
      unfold cnt. apply length_zero_iff_nil. destruct (List.filter _ slots) as [|j l] eqn:E; [done|].
      exfalso. assert (In j (j :: l)) as Hin by (by left). rewrite <-E in Hin.
      apply List.filter_In in Hin as [_ [Ha Hc]%in_cluster_true].
      destruct (so_active _ _ (inv_sess _ Hinv j) Ha) as (_ & Hu & _). rewrite Hc in Hu. congruence.
    + rewrite Hcl' by done. rewrite Nat.add_0_r. by apply inv_members.
  - assert (∀ d, cl_used (clus st' d) = true → d ≠ c → cl_name (clus st' d) ≠ cl_name (clus st' c)) as Hd.
    { intros d Hu Hdc. rewrite Hn'. rewrite Hcl' in Hu |- * by done. intros E. apply Hdc, Hname; [|done..].
      unfold clus in Hu. destruct (Z.ltb_spec d 0); [done|]. split; [done|].
      destruct (sv_clusters st !! Z.to_nat d) eqn:El; [|done]. apply lookup_lt_Some in El.
      rewrite (inv_len_clusters _ Hinv) in El. lia. }
    intros d1 d2 H1 H2 E. destruct (decide (d1 = c)) as [->|Hd1], (decide (d2 = c)) as [->|Hd2]; try done.
    + symmetry in E. by apply Hd in E.
    + by apply Hd in E.
    + rewrite !Hcl' in * by done. by apply (inv_names _ Hinv).
Qed.

Lemma joined_safe :
  (∀ j, j ≠ slot → s_phase (sess st j) = ACTIVE →
     s_cluster_name (sess st j) = s_cluster_name (sess st slot) →
     s_node_id (sess st slot) ≠ s_node_id (sess st j)) →
  safe st → safe st'.
Proof using Hinv Hj Hact.
  intros Hids [Hid Hsafe]. destruct Hj as [Hr Hname He Hs Hs' Hcl Hcl' _].
  destruct (joined_sess_fields c now (sess st slot)) as (E1 & E2 & E3 & E4 & E5 & E6 & E7 & E8).
  destruct (so_inactive _ _ (inv_sess _ Hinv slot) Hact) as (_ & Hff & Hlan).
  assert (∀ j, j ≠ slot → s_phase (sess st j) = ACTIVE → s_cluster (sess st j) = c →
    s_node_id (sess st slot) ≠ s_node_id (sess st j)) as Hno.
  { intros j Hne Ha Hc. apply Hids; [done|done|]. by apply joined_used_other. }
  split.
  - intros i j. destruct (decide (i = slot)) as [->|Hi], (decide (j = slot)) as [->|Hjs]; [done|..];
      rewrite ?Hs, ?E1, ?E2, ?E4, ?Hs' by done; intros.
    + exfalso. by eapply Hno.
    + exfalso. by eapply Hno.
    + by apply Hid.
  - intros j. destruct (decide (j = slot)) as [->|Hne].
    + rewrite Hs. split; rewrite ?E5, ?E6; congruence.
    + rewrite Hs' by done. destruct (Hsafe j) as [S1 S2 S3].
      split; intros Ha; specialize (S1 Ha); specialize (S2 Ha); specialize (S3 Ha);
        (destruct (decide (s_cluster (sess st j) = c)) as [Hc|Hc]; [|rewrite Hcl' by done; done]);
        destruct (joined_used_other j Hne Ha Hc) as [Hu _]; rewrite Hc in *; rewrite Hcl;
        unfold joined_cluster; rewrite Hu; done.
Qed.
End joined.

Lemma joined_hpost slot now c st st' :
  joined slot now c st st' → s_phase (sess st slot) ≠ FREE → s_phase (sess st slot) ≠ ACTIVE →
  hb_ok (sess st slot) → s_algorithm (sess st slot) = ALG_FFSPLIT → hpost slot st st'.
Proof.
  intros Hj Hf Ha Hhb Halg. pose proof Hj as [Hr Hname He Hs Hs' Hcl Hcl' _].
  destruct (joined_sess_fields c now (sess st slot)) as (E1 & E2 & E3 & E4 & E5 & E6 & E7 & E8).
  split.
  - unfold env in He. congruence.
  - by apply env_processing.
  - intros j. destruct (decide (j = slot)) as [->|Hne]; [|by rewrite Hs'].
    rewrite Hs. apply joined_sess_rx.
  - intros j Hne. by rewrite Hs'.
  - by rewrite Hs, E1.
  - intros Hinv. by eapply joined_inv.
  - intros [Hsd Hnd]. split; [|by rewrite (env_pending _ _ He)]. intros i.
    rewrite (env_pending _ _ He), <-Hsd.
    destruct (decide (i = slot)) as [->|Hne]; [by rewrite Hs, E8|by rewrite Hs'].
Qed.

(** The checks of INIT as a step. *)
Lemma init_fields_hpost slot m st :
  s_phase (sess st slot) ≠ FREE → hpost slot st (upd_sess slot (λ _, (init_fields m (sess st slot)).2) st).
Proof.
  intros Hf. destruct (init_frame_eqs _ _ (init_fields_frame m (sess st slot)))
    as (E1 & E2 & E3 & E4 & E5 & E6 & E7).
  apply hpost_upd; [by rewrite E1|done|done|]. intros Hinv. split.
  { intros c. unfold in_cluster. by rewrite E1, E2. }
  destruct (inv_sess _ Hinv slot) as [S1 S2 S3 S4 S5].
  destruct (decide (s_phase (sess st slot) = ACTIVE)) as [Ha|Ha].
  - rewrite init_fields_active by done. by split.
  - split; rewrite ?E1, ?E2, ?E3, ?E4, ?E5; done.
Qed.

(** The code INIT is answered with, and the admission. *)
Lemma handle_init_cases slot m now st :
  inv st → s_phase (sess st slot) ≠ FREE →
  let s' := (init_fields m (sess st slot)).2 in
  let st1 := upd_sess slot (λ _, s') st in
  ∃ code st2,
    handle_init slot m now st =
      notify (send slot (build_init_reply (m_seq_number_set m) (m_seq_number m) code
        (m_supported_messages_present m) (m_supported_options_present m)
        (sv_max_rx_frame st) (sv_max_rx_frame st)) st2) ∧
    ((code ≠ ERR_NO_ERROR ∧ st2 = st1) ∨
     (code = ERR_NO_ERROR ∧ (init_fields m (sess st slot)).1 = ERR_NO_ERROR ∧
      init_consistency st1 slot slots = ERR_NO_ERROR ∧ ∃ c, joined slot now c st1 st2)).
Proof.
  intros Hinv Hf s' st1. unfold handle_init. destruct (init_fields m (sess st slot)) as [code0 s0] eqn:E.
  cbn [snd] in s'. subst s'. fold st1.
  assert (inv st1 ∧ s_phase (sess st1 slot) ≠ FREE) as [Hinv1 Hf1].
  { pose proof (init_fields_hpost slot m st Hf) as H. rewrite E in H. destruct H as [_ _ _ _ Hal Hi _]. auto. }
  unfold is_no_error. destruct (bool_decide_reflect (code0 = ERR_NO_ERROR)) as [->|H0].
  2: { rewrite bool_decide_eq_false_2 by done. exists code0, st1. split; [done|]. by left. }
  destruct (bool_decide_reflect (init_consistency st1 slot slots = ERR_NO_ERROR)) as [->|H1].
  2: { eexists _, st1. split; [done|]. by left. }
  pose proof (init_join_spec slot now st1 Hinv1 Hf1) as Hj. cbv zeta in Hj.
  destruct (init_join slot now st1) as [code st2]. cbn [fst snd] in Hj.
  exists code, st2. destruct Hj as [[-> ->]|[-> [c Hj]]].
  - split; [done|]. by left.
  - split; [|by right; eauto]. by rewrite (env_max _ _ (jn_env _ _ _ _ _ Hj)).
Qed.

Lemma handle_init_ok slot m now st : inv st → s_phase (sess st slot) ≠ FREE →
  hpost slot st (handle_init slot m now st) ∧
  (s_phase (sess st slot) ≠ ACTIVE → safe st → safe (handle_init slot m now st)).
Proof.
  intros Hinv Hf. destruct (handle_init_cases slot m now st Hinv Hf) as (code & st2 & -> & Hcases).
  pose proof (init_fields_hpost slot m st Hf) as H1.
  set (s' := (init_fields m (sess st slot)).2) in *. set (st1 := upd_sess slot (λ _, s') st) in *.
  assert (sess st1 slot = s') as Es by (by apply sess_upd_eq).
  assert (s_phase s' = s_phase (sess st slot)) as Ep
    by apply (init_frame_eqs _ _ (init_fields_frame m (sess st slot))).
  assert (s_phase (sess st slot) ≠ ACTIVE → safe st → safe st1) as Hs1.
  { intros Ha. apply safe_upd_inactive; congruence. }
  destruct Hcases as [[_ ->]|(_ & Hfl & Hco & c & Hj)].
  { split; [by apply hpost_notify, hpost_send|]. intros Ha Hs. apply safe_notify, safe_send. auto. }
  destruct (init_fields_no_error m (sess st slot) Hfl) as (Hna & _ & _ & _ & _ & _ & _ & Hhb & Hs').
  fold s' in Hhb, Hs'.
  assert (s_algorithm (sess st1 slot) = ALG_FFSPLIT) as Halg by (by rewrite Es, Hs').
  assert (s_phase (sess st1 slot) ≠ FREE ∧ s_phase (sess st1 slot) ≠ ACTIVE) as [Hf1 Ha1] by (by rewrite Es, Ep).
  assert (hb_ok (sess st1 slot)) as Hhb1 by (by rewrite Es).
  split.
  - apply hpost_notify, hpost_send, (hpost_trans _ _ st1); [done|]. by eapply joined_hpost.
  - intros _ Hs. apply safe_notify, safe_send.
    eapply (joined_safe slot now c st1 st2); [by apply (hp_inv _ _ _ H1)|done|done| |auto].
    intros j Hne Haj Hnj. eapply (init_consistency_ok st1 slot slots Hco j); [|done..].
    apply elem_of_slots. assert (inv st1) as Hi by (by apply (hp_inv _ _ _ H1)).
    rewrite <-(inv_len_sessions _ Hi). apply sess_in_range. by rewrite Haj.
Qed.

(** ** The dispatcher *)

(** The one transition that can break [safe]: INIT on an active session. *)
Definition reinit (type : MsgType) (s : Session) : bool :=
  bool_decide (type = MT_INIT) && bool_decide (s_phase s = ACTIVE).

Lemma dispatch_ok slot type m frame len now st : inv st → s_phase (sess st slot) ≠ FREE →
  hpost slot st (dispatch slot type m frame len now st) ∧
  (reinit type (sess st slot) = false → safe st → safe (dispatch slot type m frame len now st)).
Proof.
  intros Hinv Hf. unfold dispatch.
  assert (∀ st', hok slot st st' → hpost slot st st' ∧ (reinit type (sess st slot) = false → safe st → safe st'))
    as Hok by (intros st' [??]; auto).
  case_match; [apply Hok; auto with qnetd|].
  assert (∀ f, (s_phase (sess st slot) = ACTIVE → hok slot st f) →
    hok slot st (if negb (bool_decide (s_phase (sess st slot) = ACTIVE))
                 then send_err slot m ERR_INIT_REQUIRED st else f)) as Hg.
  { intros f Hfn. destruct (bool_decide_reflect (s_phase (sess st slot) = ACTIVE)); cbn [negb]; auto with qnetd. }
  destruct type; try (apply Hok, Hg; intros Ha; simpl; auto with qnetd).
  - by apply Hok, handle_preinit_ok.
  - destruct (handle_init_ok slot m now st Hinv Hf) as [H1 H2]. split; [done|].
    unfold reinit. simpl. intros Hr. bool_to_prop. auto.
  - by apply handle_set_option_ok.
  - by apply handle_node_list_ok.
  - by apply handle_vote_info_reply_ok.
  - by apply handle_heuristics_change_ok.
Qed.

Lemma handle_frame_ok slot type frame len plen now st :
  inv st → s_phase (sess st slot) ≠ FREE → sv_processing st = true →
  hpost slot st (handle_frame slot type frame len plen now st) ∧
  (reinit type (sess st slot) = false → safe st → safe (handle_frame slot type frame len plen now st)).
Proof.
  intros Hinv Hf Hp. unfold handle_frame.
  assert (hok slot st (disconnect_client slot (send_err slot MsgDecoded0 ERR_ERROR_DECODING_MSG st))) as [H1 H2].
  { eapply hok_trans; [apply hok_send_err, hok_refl|]. by apply disconnect_client_ok. }
  case_match; [by apply dispatch_ok|auto..].
Qed.
