(* ===== verification/VoteOrder.v ===== *)
(** * The order of votes

    The two-phase transfer: a client is told ACK only when no client of its
    cluster has an unanswered NACK.  The property is proved for each step that
    can send votes - a handled frame and a departure. *)
From S2P Require Import Prelude Wire Tlv Msg State Ffsplit Select Handlers Lifecycle Invariant.
From S2P Require Import HandlerFacts InitFacts.

(** Session [j] was sent a new vote between [st] and [st'], and it is an ACK. *)
Definition newly_acked (st st' : Server) (j : nat) : Prop :=
  s_vote_info_seq (sess st' j) ≠ s_vote_info_seq (sess st j) ∧ s_last_ack_nack (sess st' j) = VOTE_ACK.

(** No client of cluster [c] has a NACK in flight. *)
Definition nacks_answered (st : Server) (c : Z) : Prop :=
  ∀ k, in_cluster (sess st k) c = true → s_ff_state (sess st k) ≠ FC_SENDING_NACK.

Definition ack_ok (st st' : Server) : Prop :=
  ∀ j, newly_acked st st' j → nacks_answered st' (s_cluster (sess st' j)).

(** What the property reads of a session. *)
Definition vote_view (s : Session) :=
  (s_phase s, s_cluster s, s_ff_state s, s_last_ack_nack s, s_vote_info_seq s).
Definition votes_same (st st' : Server) : Prop := ∀ j, vote_view (sess st' j) = vote_view (sess st j).
Definition seqs_same (st st' : Server) : Prop :=
  ∀ j, s_vote_info_seq (sess st' j) = s_vote_info_seq (sess st j).

Lemma vote_view_eqs s s' : vote_view s' = vote_view s →
  s_phase s' = s_phase s ∧ s_cluster s' = s_cluster s ∧ s_ff_state s' = s_ff_state s ∧
  s_last_ack_nack s' = s_last_ack_nack s ∧ s_vote_info_seq s' = s_vote_info_seq s.
Proof. unfold vote_view. intros H. by repeat (apply pair_eq in H as [H ?]). Qed.

Lemma seqs_ack_ok st st' : seqs_same st st' → ack_ok st st'.
Proof. intros H j [Hne _]. by rewrite H in Hne. Qed.
Lemma ack_ok_after st st1 st2 : ack_ok st st1 → votes_same st1 st2 → ack_ok st st2.
Proof.
  intros H Hv j [Hs Ha]. destruct (vote_view_eqs _ _ (Hv j)) as (_ & Ec & _ & Ea & Es).
  rewrite Es in Hs. rewrite Ea in Ha. rewrite Ec. intros k Hk.
  destruct (vote_view_eqs _ _ (Hv k)) as (Ep & Ec' & Ef & _ & _). rewrite Ef. apply (H j); [by split|].
  unfold in_cluster in *. by rewrite <-Ep, <-Ec'.
Qed.
Lemma ack_ok_before st st1 st2 : seqs_same st st1 → ack_ok st1 st2 → ack_ok st st2.
Proof. intros Hs H j [Hne Ha]. apply (H j). split; [|done]. by rewrite Hs. Qed.

Lemma seqs_refl st : seqs_same st st.
Proof. by intros j. Qed.
Lemma votes_refl st : votes_same st st.
Proof. by intros j. Qed.
Lemma seqs_upd st st' i f : (∀ s, s_vote_info_seq (f s) = s_vote_info_seq s) → seqs_same st st' →
  seqs_same st (upd_sess i f st').
Proof. intros Hf H j. rewrite <-H, sess_upd. by case_decide. Qed.
Lemma votes_upd st st' i f : (∀ s, vote_view (f s) = vote_view s) → votes_same st st' →
  votes_same st (upd_sess i f st').
Proof. intros Hf H j. rewrite <-H, sess_upd. by case_decide. Qed.
Lemma seqs_send st st' i f : seqs_same st st' → seqs_same st (send i f st').
Proof. done. Qed.
Lemma seqs_upd_clus st st' c f : seqs_same st st' → seqs_same st (upd_clus c f st').
Proof. intros H j. by rewrite sess_upd_clus. Qed.

(** ** The algorithm *)

Lemma decided_ack_ok tv st w st' :
  length (sv_sessions st) = MAX_CLIENTS → decided tv st w st' → ack_ok st st'.
Proof.
  intros Hlen Hd j [Hs Ha]. rewrite (dec_sess _ _ _ _ Hd j) in Hs, Ha |- *.
  set (c := s_cluster (sess st (tv_slot tv))) in *. set (lid := s_node_id (sess st (tv_slot tv))) in *.
  unfold decided_sess in Hs, Ha |- *. destruct (in_cluster (sess st j) c) eqn:Hj; [|done].
  destruct (new_ff tv w lid (sess st j)); [done..|]. case_bool_decide as Hn; [|done].
  apply in_cluster_true in Hj as [_ Hjc]. intros k Hk. simpl in Hk. rewrite Hjc in Hk.
  rewrite (dec_sess _ _ _ _ Hd k) in Hk |- *. fold c lid in Hk |- *.
  rewrite (unvoted_in_cluster _ _ c (decided_sess_unvoted tv w c lid _ (sess st k))) in Hk.
  pose proof (assigned_nil tv st w Hlen _ Hn k Hk) as Hff. fold lid in Hff.
  unfold decided_sess. rewrite Hk. destruct (new_ff tv w lid (sess st k)); try done.
  by case_bool_decide.
Qed.

Lemma ffsplit_do_ack_ok tv st : inv st → s_phase (sess st (tv_slot tv)) = ACTIVE →
  ack_ok st (ffsplit_do tv st).1.1.
Proof.
  intros Hinv Hact. destruct (ffsplit_is_stable (pending_decision tv st) tv) eqn:Hst.
  - destruct (ffsplit_do_decided tv st) as (st' & -> & Hd); [by apply inv_len_sessions| |done|].
    { rewrite (inv_len_clusters _ Hinv). apply (so_active _ _ (inv_sess _ Hinv (tv_slot tv)) Hact). }
    eapply decided_ack_ok; [by apply inv_len_sessions|exact Hd].
  - rewrite ffsplit_do_unstable by done. apply seqs_ack_ok. intros j. exact (f_equal s_vote_info_seq (pending_decision_sess tv st j)).
Qed.

Lemma send_acks_ack_ok tv st : inv st → nacks_answered st (s_cluster (sess st (tv_slot tv))) →
  ack_ok st (ffsplit_send_votes tv true st).1.
Proof.
  intros Hinv Hno j [Hs _].
  destruct (send_votes_spec st tv true (inv_len_sessions _ Hinv)) as (_ & _ & _ & Hsess & _ & _).
  set (st' := (ffsplit_send_votes tv true st).1) in *. clearbody st'.
  assert (∀ k, vote_view (sess st' k) = vote_view (sess st k) ∨
    (in_cluster (sess st k) (s_cluster (sess st (tv_slot tv))) = true ∧
     s_phase (sess st' k) = s_phase (sess st k) ∧ s_cluster (sess st' k) = s_cluster (sess st k) ∧
     s_ff_state (sess st' k) = s_ff_state (sess st k))) as Hk.
  { intros k. rewrite Hsess. destruct (votes _ _ _ _ (sess st k)) eqn:Hv; [right|by left].
    unfold votes in Hv. apply andb_prop in Hv as [[Hin _]%andb_prop _]. done. }
  assert (s_cluster (sess st' j) = s_cluster (sess st (tv_slot tv))) as ->.
  { destruct (Hk j) as [E|([_ Hc]%in_cluster_true & _ & Ec & _)]; [|congruence].
    apply vote_view_eqs in E as (_ & _ & _ & _ & E). congruence. }
  intros k Hin. destruct (Hk k) as [E|(_ & Ep & Ec & Ef)];
    [apply vote_view_eqs in E as (Ep & Ec & Ef & _)|]; rewrite Ef; apply Hno; unfold in_cluster in *;
    by rewrite <-Ep, <-Ec.
Qed.

(** ** The handlers *)

Lemma vote_view_store m s : vote_view (node_list_store m s) = vote_view s.
Proof. unfold node_list_store. by case_match. Qed.
Lemma vote_view_record v s : v ≠ VOTE_ACK → v ≠ VOTE_NACK → vote_view (record_vote v s) = vote_view s.
Proof.
  intros Ha Hn. unfold record_vote. by rewrite (bool_decide_eq_false_2 _ Ha), (bool_decide_eq_false_2 _ Hn).
Qed.
Lemma seq_dpd now s : s_vote_info_seq (reschedule_dpd now s) = s_vote_info_seq s.
Proof. unfold reschedule_dpd. by repeat case_match. Qed.

(** After the algorithm ran for a client that stays, the rest of the handler
    touches no vote. *)
Lemma decide_ack_ok tv st : inv st → s_phase (sess st (tv_slot tv)) = ACTIVE → tv_leaving tv = false →
  ∃ st' result, ffsplit_do tv st = (st', ERR_NO_ERROR, result) ∧ result ≠ VOTE_ACK ∧ result ≠ VOTE_NACK ∧
    ack_ok st st'.
Proof.
  intros Hinv Hact Hl. pose proof (ffsplit_do_ack_ok tv st Hinv Hact) as H.
  destruct (hok_decide tv st Hinv Hact Hl) as (st' & r & E & ? & ? & _). rewrite E in H. eauto 6.
Qed.

Lemma handle_node_list_ack_ok slot m st : inv st → s_phase (sess st slot) = ACTIVE →
  ack_ok st (handle_node_list slot m st).
Proof.
  intros Hinv Hact. unfold handle_node_list. case_match; [by apply seqs_ack_ok|].
  assert (match node_list_decide slot m st with
          | inl _ => True
          | inr (st', code, result) =>
              code = ERR_NO_ERROR ∧ result ≠ VOTE_ACK ∧ result ≠ VOTE_NACK ∧ ack_ok st st'
          end) as Hd.
  { unfold node_list_decide.
    assert (∀ v, v ≠ VOTE_ACK → v ≠ VOTE_NACK → ERR_NO_ERROR = ERR_NO_ERROR ∧ v ≠ VOTE_ACK ∧ v ≠ VOTE_NACK ∧
      ack_ok st st) as Hn by (intros; split_and!; try done; by apply seqs_ack_ok).
    destruct (m_node_list_type m);
      repeat match goal with |- context [if ?b then inl _ else _] => destruct b; [exact I|] end;
      try match goal with |- context [if ?b then inr _ else _] => destruct b end; try (by apply Hn);
      match goal with |- context [ffsplit_do ?tv st] =>
        destruct (decide_ack_ok tv st Hinv Hact eq_refl) as (st' & r & -> & ? & ? & ?) end; done. }
  destruct (node_list_decide slot m st) as [code|[[st' code] result]]; [by apply seqs_ack_ok|].
  destruct Hd as (-> & Ha & Hn & Hok). cbn [is_no_error]. cbn.
  apply (ack_ok_after _ st'); [done|].
  apply (votes_upd st' (upd_sess slot (node_list_store m) st')); [intros; by apply vote_view_record|].
  apply votes_upd; [apply vote_view_store|apply votes_refl].
Qed.

Lemma handle_heuristics_change_ack_ok slot m st : inv st → s_phase (sess st slot) = ACTIVE →
  ack_ok st (handle_heuristics_change slot m st).
Proof.
  intros Hinv Hact. unfold handle_heuristics_change. case_match; [by apply seqs_ack_ok|].
  assert (∀ st' r, ack_ok st st' → r ≠ VOTE_ACK → r ≠ VOTE_NACK →
    ack_ok st (upd_sess slot (record_vote r) (upd_sess slot (λ s, s <| s_last_heuristics := m_heuristics m |>) st')))
    as Hfin.
  { intros st' r Hok Ha Hn. apply (ack_ok_after _ st'); [done|].
    apply votes_upd; [intros; by apply vote_view_record|]. by apply votes_upd; [|apply votes_refl]. }
  destruct (nl_empty (s_config_list (sess st slot)) || nl_empty (s_membership_list (sess st slot))).
  - cbn. apply Hfin; try done. by apply seqs_ack_ok.
  - match goal with |- context [ffsplit_do ?tv st] =>
      destruct (decide_ack_ok tv st Hinv Hact eq_refl) as (st' & r & -> & ? & ? & ?) end.
    cbn. by apply Hfin.
Qed.

Lemma handle_vote_info_reply_ack_ok slot m st : inv st → s_phase (sess st slot) = ACTIVE →
  ack_ok st (handle_vote_info_reply slot m st).
Proof.
  intros Hinv Hact. unfold handle_vote_info_reply. case_match; [by apply seqs_ack_ok|].
  case_match; [by apply seqs_ack_ok|]. pose proof (hok_answered slot st Hinv Hact) as [H1 _].
  set (st1 := upd_sess slot _ st) in *. pose proof (hp_inv _ _ _ H1 Hinv) as Hinv1.
  assert (seqs_same st st1) as Hs1 by (apply seqs_upd; [done|apply seqs_refl]).
  assert (s_phase (sess st1 slot) = ACTIVE) as Hact1.
  { unfold st1. rewrite sess_upd_eq by (by rewrite Hact). done. }
  destruct (so_active _ _ (inv_sess _ Hinv1 slot) Hact1) as (Hc & Hu & _). clearbody st1.
  set (c := s_cluster (sess st1 slot)) in *. apply (ack_ok_before _ st1); [done|].
  assert (∀ fs, seqs_same st1 (upd_clus c (λ cl, cl <| cl_state := fs |>) st1)) as Hset
    by (intros; apply seqs_upd_clus, seqs_refl).
  destruct (cl_state (clus st1 c)); [by apply seqs_ack_ok..| |].
  - destruct (Nat.eqb_spec (ffsplit_count_state st1 c FC_SENDING_NACK) 0) as [Hz|]; [|by apply seqs_ack_ok].
    pose proof (proj1 (count_state_zero st1 c _ (inv_len_sessions _ Hinv1)) Hz) as Hno.
    pose proof (algo_set_state st1 c FCL_SENDING_ACKS Hinv1 Hc Hu (λ _, Hno)) as [_ _ _ Hinv2].
    set (st2 := upd_clus c _ st1) in *. set (tv := mkTV _ _ _ _ _ _).
    assert (∀ j, sess st2 j = sess st1 j) as Hs2 by (intros; apply sess_upd_clus).
    pose proof (send_acks_ack_ok tv st2 Hinv2) as Hok.
    destruct (ffsplit_send_votes tv true st2) as [st3 acks]. cbn [fst] in Hok.
    apply (ack_ok_before _ st2); [intros j; by rewrite Hs2|].
    apply (ack_ok_after _ st3); [|intros j; case_match; [apply f_equal, sess_upd_clus|done]].
    apply Hok. intros k. rewrite !Hs2. apply Hno.
  - apply seqs_ack_ok. case_match; [apply Hset|exact (seqs_refl st1)].
Qed.

(** The handshake and the options send no votes. *)
Lemma handle_init_seqs slot m now st : inv st → s_phase (sess st slot) ≠ FREE →
  seqs_same st (handle_init slot m now st).
Proof.
  intros Hinv Hf j. destruct (handle_init_cases slot m now st Hinv Hf) as (code & st2 & -> & Hc).
  change (s_vote_info_seq (sess st2 j) = s_vote_info_seq (sess st j)).
  assert (s_vote_info_seq (init_fields m (sess st slot)).2 = s_vote_info_seq (sess st slot)) as E.
  { pose proof (init_fields_frame m (sess st slot)) as H. unfold init_frame in H. by injection H. }
  set (st1 := upd_sess slot (λ _, (init_fields m (sess st slot)).2) st) in *.
  assert (s_vote_info_seq (sess st1 j) = s_vote_info_seq (sess st j)) as E1.
  { unfold st1. rewrite sess_upd. case_decide as Hd; [|done]. by destruct Hd as [<- _]. }
  destruct Hc as [[_ ->]|(_ & _ & _ & c & Hj)]; [done|].
  destruct (decide (j = slot)) as [->|Hne]; [|by rewrite (jn_other _ _ _ _ _ Hj)].
  rewrite (jn_slot _ _ _ _ _ Hj). unfold joined_sess. by rewrite seq_dpd.
Qed.

Lemma handle_set_option_seqs slot m now st : seqs_same st (handle_set_option slot m now st).
Proof.
  unfold handle_set_option. case_match; [done|]. apply seqs_send.
  repeat case_match; repeat (apply seqs_upd; [by auto using seq_dpd|]); apply seqs_refl.
Qed.

Lemma disconnect_seqs slot st : sv_processing st = true → seqs_same st (disconnect_client slot st).
Proof.
  intros Hp. unfold disconnect_client. case_match; [done|].
  change (sv_processing (set_field _ _ _)) with (sv_processing st). rewrite Hp.
  by apply (seqs_upd st st slot (λ s, s <| s_schedule_disconnect := true |>)); [|apply seqs_refl].
Qed.

Lemma handle_preinit_seqs slot m st : seqs_same st (handle_preinit slot m st).
Proof.
  unfold handle_preinit. repeat (case_match; [done|]).
  by apply (seqs_upd st st slot (λ s, s <| s_cluster_name := m_cluster_name m |> <| s_phase := WAIT_INIT |>));
    [|apply seqs_refl].
Qed.

Lemma handle_frame_ack_ok slot type frame len plen now st :
  inv st → s_phase (sess st slot) ≠ FREE → sv_processing st = true →
  ack_ok st (handle_frame slot type frame len plen now st).
Proof.
  intros Hinv Hf Hp. unfold handle_frame.
  assert (ack_ok st (disconnect_client slot (send_err slot MsgDecoded0 ERR_ERROR_DECODING_MSG st))) as Hd.
  { apply seqs_ack_ok. exact (disconnect_seqs slot (send_err slot MsgDecoded0 ERR_ERROR_DECODING_MSG st) Hp). }
  destruct (msg_decode _ _ _) as [m| |]; [|done..]. unfold dispatch. case_match; [by apply seqs_ack_ok|].
  assert (∀ f, (s_phase (sess st slot) = ACTIVE → ack_ok st f) →
    ack_ok st (if negb (bool_decide (s_phase (sess st slot) = ACTIVE))
               then send_err slot m ERR_INIT_REQUIRED st else f)) as Hg.
  { intros f Hfn. destruct (bool_decide_reflect (s_phase (sess st slot) = ACTIVE)); cbn [negb]; [auto|].
    by apply seqs_ack_ok. }
  destruct type; try (apply Hg; intros Ha; try (by apply seqs_ack_ok)).
  - apply seqs_ack_ok, handle_preinit_seqs.
  - by apply seqs_ack_ok, handle_init_seqs.
  - apply seqs_ack_ok, handle_set_option_seqs.
  - by apply handle_node_list_ack_ok.
  - by apply handle_vote_info_reply_ack_ok.
  - by apply handle_heuristics_change_ack_ok.
Qed.

(** ** Departures *)

Lemma leave_ack_ok slot st : inv st → s_phase (sess st slot) ≠ FREE → ack_ok st (leave_reset slot st).
Proof.
  intros Hinv Hf. pose proof (leave_reset_post slot st Hinv Hf) as [_ Hs0 _ _ _].
  destruct (decide (s_phase (sess st slot) = ACTIVE)) as [Hact|Hact].
  - set (tv := mkTV slot true (s_last_ring_id (sess st slot)) (s_config_list (sess st slot))
      (s_membership_list (sess st slot)) (s_last_heuristics (sess st slot))).
    pose proof (ffsplit_do_ack_ok tv st Hinv Hact) as Hok.
    destruct (ffsplit_do_post tv st Hinv Hact) as (st1 & res & Hdo & _ & [He Hu Hi Hinv1] & _).
    rewrite Hdo in Hok. cbn [fst] in Hok.
    destruct (leave_reset_active slot st st1 ERR_NO_ERROR res Hinv Hinv1 He Hu Hact Hdo) as (_ & _ & Hs & _).
    intros j [Hsq Ha]. destruct (decide (j = slot)) as [->|Hj]; [by rewrite Hs0 in Ha|].
    rewrite Hs in Hsq, Ha |- * by done. intros k Hk.
    destruct (decide (k = slot)) as [->|Hks]; [by rewrite Hs0 in Hk|].
    rewrite Hs in Hk |- * by done. by apply (Hok j).
  - rewrite leave_reset_inactive in * by done. intros j [Hsq Ha]. exfalso.
    destruct (decide (j = slot)) as [->|Hj]; [by rewrite Hs0 in Ha|].
    unfold reset_sess in Hsq. by rewrite sess_upd_ne in Hsq.
Qed.
