(* ===== verification/Safety.v ===== *)
(** * Executions preserve the invariants

    The interface of the server ([on_connect], [on_data], [on_disconnected],
    [tick]) preserves the structural invariant for arbitrary input bytes, leaves
    the server quiescent, and preserves [safe] as long as no client re-sends INIT
    while active. *)
From S2P Require Import Prelude Wire Tlv Msg State Ffsplit Handlers Lifecycle Invariant.
From S2P Require Import HandlerFacts InitFacts.

(** ** Quiescent states *)

(** A server between two calls of its interface. *)
Record good (st : Server) : Prop := {
  good_inv : inv st;
  good_processing : sv_processing st = false;
  good_pending : sv_pending_close st = [];
  good_sched i : s_schedule_disconnect (sess st i) = false;
}.

Lemma good_is_sched st : good st → sched st.
Proof.
  intros [_ _ Hp Hs]. split; [|rewrite Hp; apply NoDup_nil_2]. intros i. rewrite Hs, Hp, elem_of_nil. done.
Qed.

(** What a call guarantees: the configuration is kept, [good] holds after it,
    and so does [safe] if it held before and [cond]. *)
Record call_post (cond : Prop) (st st' : Server) : Prop := {
  cp_max : sv_max_rx_frame st' = sv_max_rx_frame st;
  cp_good : good st';
  cp_safe : cond → safe st → safe st';
}.

Lemma inv_processing b st : inv st → inv (st <| sv_processing := b |>).
Proof. by apply inv_same. Qed.
Lemma safe_processing b st : safe st → safe (st <| sv_processing := b |>).
Proof. by apply safe_same. Qed.
Lemma sched_processing b st : sched st → sched (st <| sv_processing := b |>).
Proof. intros [H1 H2]. by split. Qed.
#[export] Hint Resolve inv_processing safe_processing sched_processing : qnetd.

(** ** Closing connections *)

Lemma drain_closes_post st : inv st → sched st →
  let st' := drain_closes st in
  sv_max_rx_frame st' = sv_max_rx_frame st ∧ good st' ∧
  (∀ i, i ∈ sv_pending_close st → sess st' i = Session0) ∧
  (∀ i, i ∉ sv_pending_close st → unvoted (sess st' i) = unvoted (sess st i)) ∧
  (safe st → safe st').
Proof.
  intros Hinv Hs. unfold drain_closes. set (st1 := st <| sv_processing := true |>).
  destruct (drain_loop_post (length (sv_pending_close st1)) st1)
    as [H1 H2 H3 H4 H5 H6 H7]; [by apply inv_processing|by apply sched_processing|done|].
  set (st2 := drain_loop _ st1) in *. change (sv_pending_close st1) with (sv_pending_close st) in *.
  split_and!; [done| |done|done|].
  - split; [|done|done|].
    + by apply inv_emit, inv_processing.
    + intros i. change (s_schedule_disconnect (sess st2 i) = false).
      destruct (decide (i ∈ sv_pending_close st)) as [Hi|Hi]; [by rewrite H4|].
      rewrite (unvoted_proj s_schedule_disconnect _ _ (λ _, eq_refl) (H5 i Hi)).
      apply not_true_iff_false. intros Hsd. by apply Hs in Hsd.
  - intros Hsafe. apply safe_notify, safe_processing, H7. by apply safe_processing.
Qed.

(** Outside of processing, a disconnection is carried out at once: [drain_closes]
    runs on the state in which only this session is scheduled. *)
Definition scheduled (slot : nat) (st : Server) : Server :=
  (upd_sess slot (λ s, s <| s_schedule_disconnect := true |>) st) <| sv_pending_close ::= λ l, l ++ [slot] |>.

Lemma disconnect_starts st slot : good st → s_phase (sess st slot) ≠ FREE →
  disconnect_client slot st = drain_closes (scheduled slot st) ∧
  inv (scheduled slot st) ∧ sched (scheduled slot st) ∧ sv_pending_close (scheduled slot st) = [slot] ∧
  (safe st → safe (scheduled slot st)).
Proof.
  intros Hg Hf. pose proof Hg as [Hinv Hp Hpe Hsd].
  assert (∀ b, disconnect_client slot (st <| sv_processing := b |>) =
    if b then (scheduled slot st) <| sv_processing := true |>
    else drain_closes ((scheduled slot st) <| sv_processing := false |>)) as E.
  { intros b. unfold disconnect_client. change (sess (st <| sv_processing := b |>) slot) with (sess st slot).
    rewrite (bool_decide_eq_false_2 _ Hf), Hsd. by destruct b. }
  assert (∀ st', sv_processing st' = false → st' = st' <| sv_processing := false |>) as Eta.
  { intros [a b c d e f g]. cbn. by intros ->. }
  pose proof (disconnect_client_ok slot (st <| sv_processing := true |>) eq_refl) as [[_ _ _ _ _ H6 H7] H8].
  rewrite (E true) in H6, H7, H8. split_and!.
  - rewrite (Eta st Hp) at 1. rewrite (E false). by rewrite <-(Eta (scheduled slot st)).
  - rewrite (Eta (scheduled slot st)) by done.
    by apply (inv_same ((scheduled slot st) <| sv_processing := true |>)), H6, inv_processing.
  - destruct H7 as [A B]; [by apply sched_processing, good_is_sched|]. by split.
  - unfold scheduled. cbn. by rewrite Hpe.
  - intros Hs. by apply (safe_same ((scheduled slot st) <| sv_processing := true |>)), H8, safe_processing.
Qed.

Lemma disconnect_now st slot : good st → s_phase (sess st slot) ≠ FREE →
  let st' := disconnect_client slot st in
  sv_max_rx_frame st' = sv_max_rx_frame st ∧ good st' ∧ sess st' slot = Session0 ∧
  (∀ i, i ≠ slot → unvoted (sess st' i) = unvoted (sess st i)) ∧ (safe st → safe st').
Proof.
  intros Hg Hf st'. destruct (disconnect_starts st slot Hg Hf) as (E & Hinv & Hs & Hpend & Hsafe).
  unfold st'. rewrite E. destruct (drain_closes_post _ Hinv Hs) as (D1 & D2 & D3 & D4 & D5).
  rewrite Hpend in D3, D4. split_and!; [done|done| | |auto].
  - apply D3. by apply list_elem_of_singleton.
  - intros i Hi. rewrite D4 by (by intros ?%list_elem_of_singleton).
    change (unvoted (sess (upd_sess slot (λ s, s <| s_schedule_disconnect := true |>) st) i) = unvoted (sess st i)).
    by rewrite sess_upd_ne.
Qed.

Lemma tick_step_post now st i : good st → call_post True st (tick_step now st i).
Proof.
  intros Hg. unfold tick_step. destruct (bool_decide_reflect (s_phase (sess st i) = FREE)) as [|Hf]; [by split|].
  cbn [orb]. case_match; [by split|]. case_match; [|by split].
  destruct (disconnect_now st i Hg Hf) as (H1 & H2 & _ & _ & H3). by split.
Qed.

Lemma tick_loop_post now l st : good st → call_post True st (foldl (tick_step now) st l).
Proof.
  revert st. induction l as [|i l IH]; intros st Hg; [by split|]. cbn [foldl].
  destruct (tick_step_post now st i Hg) as [A1 A2 A3]. destruct (IH _ A2) as [B1 B2 B3].
  split; [congruence|done|auto].
Qed.
Lemma tick_post now st : good st → call_post True st (tick now st).
Proof. apply tick_loop_post. Qed.

(** ** Sessions outside the clusters *)

Lemma inv_inactive i st st' :
  inv st → env st' = env st → (∀ c, clus st' c = clus st c) → (∀ j, j ≠ i → sess st' j = sess st j) →
  s_phase (sess st i) ≠ ACTIVE → s_phase (sess st' i) ≠ ACTIVE → sess_ok (clus st) (sess st' i) → inv st'.
Proof.
  intros [H1 H2 H3 H4 H5] He Hc Hs Ha Ha' Hok. split.
  - by rewrite (env_sessions _ _ He).
  - by rewrite (env_clusters _ _ He).
  - intros j. apply (sess_ok_ext (clus st)); [done|].
    destruct (decide (j = i)) as [->|Hj]; [done|by rewrite Hs].
  - intros c Hr. rewrite Hc, (cnt_same st st'); [by apply H4|]. intros j.
    destruct (decide (j = i)) as [->|Hj]; [|by rewrite Hs].
    trans false; [apply in_cluster_false|symmetry; apply in_cluster_false]; naive_solver.
  - intros c d. rewrite !Hc. apply H5.
Qed.

Lemma safe_inactive i st st' :
  (∀ c, clus st' c = clus st c) → (∀ j, j ≠ i → sess st' j = sess st j) →
  s_phase (sess st' i) ≠ ACTIVE → safe st → safe st'.
Proof.
  intros Hc Hs Ha [Hid Hsafe]. split.
  - intros j k. destruct (decide (j = i)) as [->|Hj]; [done|].
    destruct (decide (k = i)) as [->|Hk]; [done|]. rewrite !Hs by done. apply Hid.
  - intros j. apply (sess_safe_ext (clus st)); [done|].
    destruct (decide (j = i)) as [->|Hj]; [by split|rewrite Hs by done; apply Hsafe].
Qed.

(** ** Connecting and disconnecting *)

(** The session [on_connect] sets up. *)
Definition connected_sess (now : Z) (peer : bytes) : Session :=
  Session0 <| s_phase := WAIT_PREINIT |> <| s_peer := peer |>
    <| s_deadline_ms := u64 (now + PREACTIVE_TIMEOUT_MS) |>.

Lemma on_connect_sess now peer st i : length (sv_sessions st) = MAX_CLIENTS →
  List.find (λ i, bool_decide (s_phase (sess st i) = FREE)) slots = Some i →
  let r := on_connect now peer st in
  r.1 = Z.of_nat i ∧ (i < MAX_CLIENTS)%nat ∧ s_phase (sess st i) = FREE ∧
  env r.2 = env st ∧ (∀ c, clus r.2 c = clus st c) ∧ sess r.2 i = connected_sess now peer ∧
  (∀ j, j ≠ i → sess r.2 j = sess st j).
Proof.
  intros Hlen H. unfold on_connect. rewrite H.
  apply List.find_some in H as [Hi%list_elem_of_In%elem_of_slots Hb%bool_decide_eq_true].
  unfold reset_sess, notify. cbn [fst snd]. autorewrite with server. split_and!; try done.
  - rewrite sess_upd, decide_True; [|by rewrite (env_sessions _ _ (env_upd_sess _ _ _)), Hlen].
    rewrite sess_upd, decide_True; [done|]. by rewrite Hlen.
  - intros j Hj. by rewrite sess_emit, !sess_upd_ne.
Qed.

Lemma on_connect_post now peer st : good st → call_post True st (on_connect now peer st).2.
Proof.
  intros Hg. destruct (List.find (λ i, bool_decide (s_phase (sess st i) = FREE)) slots) as [i|] eqn:E.
  2: { unfold on_connect. rewrite E. by split. }
  destruct Hg as [Hinv Hp Hpe Hsd].
  destruct (on_connect_sess now peer st i (inv_len_sessions _ Hinv) E) as (_ & _ & Hf & He & Hc & Hs & Hs').
  set (st' := (on_connect now peer st).2) in *. clearbody st'.
  split; [by apply env_max|split|].
  - apply (inv_inactive i st); try done; [by rewrite Hf|by rewrite Hs|]. rewrite Hs. by split.
  - by rewrite (env_processing _ _ He).
  - by rewrite (env_pending _ _ He).
  - intros j. destruct (decide (j = i)) as [->|Hj]; [by rewrite Hs|by rewrite Hs'].
  - intros _. apply (safe_inactive i st); try done. by rewrite Hs.
Qed.

Lemma bad_slot_false slot st : bad_slot slot st = false →
  (Z.to_nat slot < MAX_CLIENTS)%nat ∧ slot = Z.of_nat (Z.to_nat slot) ∧
  s_phase (sess st (Z.to_nat slot)) ≠ FREE.
Proof. unfold bad_slot. intros H. bool_to_prop. split_and!; [lia|lia|done]. Qed.

Lemma on_disconnected_eq slot st : sv_processing st = false → bad_slot slot st = false →
  on_disconnected slot st =
    notify (drain_closes ((leave_reset (Z.to_nat slot) (st <| sv_processing := true |>))
                            <| sv_processing := false |>)).
Proof. intros Hp Hb. unfold on_disconnected. by rewrite Hb, Hp. Qed.

Lemma on_disconnected_post slot st : good st → call_post True st (on_disconnected slot st).
Proof.
  intros Hg. pose proof Hg as [Hinv Hp Hpe Hsd].
  destruct (bad_slot slot st) eqn:Hb; [unfold on_disconnected; rewrite Hb; by split|].
  destruct (bad_slot_false _ _ Hb) as (_ & _ & Hf). rewrite on_disconnected_eq by done.
  destruct (leave_reset_post (Z.to_nat slot) (st <| sv_processing := true |>)) as [He Hs0 Hu Hi Hs];
    [by apply inv_processing|done|].
  set (st1 := leave_reset (Z.to_nat slot) (st <| sv_processing := true |>)) in *.
  assert (good (st1 <| sv_processing := false |>)) as Hg1.
  { split; [by apply inv_processing|done| |].
    - pose proof (env_pending _ _ He) as E. cbn in E |- *. congruence.
    - intros j. change (s_schedule_disconnect (sess st1 j) = false).
      destruct (decide (j = Z.to_nat slot)) as [->|Hj]; [by rewrite Hs0|].
      rewrite (unvoted_proj s_schedule_disconnect _ _ (λ _, eq_refl) (Hu j Hj)). exact (Hsd j). }
  destruct (drain_closes_post _ (good_inv _ Hg1) (good_is_sched _ Hg1)) as (D1 & [D2 D3 D4 D5] & _ & _ & D6).
  split; [|split; [by apply inv_emit|done..]|].
  - pose proof (env_max _ _ He) as E. cbn in *. congruence.
  - intros _ Hsafe. by apply safe_notify, D6, safe_processing, Hs, safe_processing.
Qed.

(** ** Receiving data *)

(** The server while it processes the frames of session [slot]. *)
Record busy (slot : nat) (st : Server) : Prop := {
  busy_inv : inv st;
  busy_sched : sched st;
  busy_processing : sv_processing st = true;
  busy_alive : s_phase (sess st slot) ≠ FREE;
}.

Lemma benign_rx f : benign (λ s, s <| s_rx ::= f |>).
Proof. by split. Qed.
#[export] Hint Resolve benign_rx : qnetd.

(** A write to the receive buffer. *)
Lemma upd_benign slot f st : benign f → s_phase (sess st slot) ≠ FREE →
  (inv st → inv (upd_sess slot f st)) ∧ (sched st → sched (upd_sess slot f st)) ∧
  s_phase (sess (upd_sess slot f st) slot) ≠ FREE.
Proof.
  intros Hb Hf. destruct (core_fields _ _ (bn_core _ Hb (sess st slot))) as (E1 & E2 & _ & _ & _ & _ & _ & E8).
  split_and!.
  - intros Hinv. apply inv_upd_sess; try done. by apply benign_ok, inv_sess.
  - intros [Hs Hnd]. split; [|done]. intros i. rewrite sess_upd. case_decide as Hd; [|apply Hs].
    destruct Hd as [<- _]. rewrite E8. apply Hs.
  - by rewrite sess_upd_eq, E1.
Qed.

Lemma busy_benign slot f st : benign f → busy slot st → busy slot (upd_sess slot f st).
Proof.
  intros Hb [H1 H2 H3 H4]. destruct (upd_benign slot f st Hb H4) as (A & B & C). split; auto.
Qed.

Lemma busy_hpost slot st st' : busy slot st → hpost slot st st' → busy slot st'.
Proof. intros [H1 H2 H3 H4] [A1 A2 A3 A4 A5 A6 A7]. split; auto. congruence. Qed.

(** Whether the next frame re-sends INIT on an active session. *)
Definition step_reinit (slot : nat) (st : Server) : bool :=
  match be_get16 (s_rx (sess st slot)) with
  | Ok type => reinit (MsgType_of_Z type) (sess st slot)
  | _ => false
  end.

Record stepped (slot : nat) (st st' : Server) : Prop := {
  sp_busy : busy slot st';
  sp_max : sv_max_rx_frame st' = sv_max_rx_frame st;
  sp_other j : j ≠ slot → unvoted (sess st' j) = unvoted (sess st j);
  sp_safe : step_reinit slot st = false → safe st → safe st';
}.

(** Rejecting an oversized frame. *)
Lemma too_long_step slot st : busy slot st →
  let st' := disconnect_client slot (send_err slot MsgDecoded0 ERR_MESSAGE_TOO_LONG st) in
  stepped slot st st' ∧ s_schedule_disconnect (sess st' slot) = true ∧
  s_rx (sess st' slot) = s_rx (sess st slot) ∧ (safe st → safe st').
Proof.
  intros Hb. pose proof Hb as [Hinv Hs Hp Hf]. set (st1 := send_err _ _ _ st).
  assert (hok slot st (disconnect_client slot st1)) as [Hh Hsafe].
  { eapply hok_trans; [apply hok_send_err, hok_refl|]. by apply disconnect_client_ok. }
  split_and!; [split| |by apply (hp_rx _ _ _ Hh)|done].
  - by eapply busy_hpost.
  - apply (hp_max _ _ _ Hh).
  - apply (hp_other _ _ _ Hh).
  - done.
  - unfold disconnect_client. change (sess st1 slot) with (sess st slot). rewrite (bool_decide_eq_false_2 _ Hf).
    cbn [orb]. destruct (s_schedule_disconnect (sess st slot)) eqn:Hsd; [done|].
    change (sv_processing (set_field _ _ _)) with (sv_processing st). rewrite Hp.
    change (s_schedule_disconnect (sess (upd_sess slot (λ s, s <| s_schedule_disconnect := true |>) st1) slot) = true).
    by rewrite sess_upd_eq.
Qed.

(** The cases of one iteration. *)
Lemma on_data_step_cases slot now st : busy slot st →
  match on_data_step slot now st with
  | None => s_schedule_disconnect (sess st slot) = true ∨
      (length (s_rx (sess st slot)) < MSG_HEADER_LEN)%nat ∨
      ∃ plen, be_get32 (drop 2 (s_rx (sess st slot))) = Ok plen ∧ plen <= sv_max_rx_frame st ∧
        (length (s_rx (sess st slot)) < MSG_HEADER_LEN + Z.to_nat plen)%nat
  | Some (false, st') => stepped slot st st' ∧ s_schedule_disconnect (sess st' slot) = true ∧
      s_rx (sess st' slot) = s_rx (sess st slot) ∧ (safe st → safe st')
  | Some (true, st') => stepped slot st st' ∧
      ∃ n, (MSG_HEADER_LEN ≤ n ≤ length (s_rx (sess st slot)))%nat ∧
        s_rx (sess st' slot) = drop n (s_rx (sess st slot))
  end.
Proof.
  intros Hb. pose proof Hb as [Hinv Hs Hp Hf]. unfold on_data_step. rewrite (bool_decide_eq_false_2 _ Hf).
  cbn [orb]. destruct (s_schedule_disconnect (sess st slot)) eqn:Hsd; [by left|].
  set (rx := s_rx (sess st slot)). destruct (Nat.ltb_spec (length rx) MSG_HEADER_LEN) as [|Hlen]; [by right; left|].
  unfold MSG_HEADER_LEN in Hlen.
  destruct (be_get16_ok rx) as (type & E16 & _); [lia|].
  destruct (be_get32_ok (drop 2 rx)) as (plen & E32 & _); [rewrite length_drop; lia|].
  rewrite E16, E32.
  destruct (Z.ltb_spec (sv_max_rx_frame st) plen) as [|Hmax].
  { by apply too_long_step. }
  destruct (Nat.ltb_spec (length rx) (MSG_HEADER_LEN + Z.to_nat plen)) as [|Hfull]; [by right; right; eauto|].
  destruct (handle_frame_ok slot (MsgType_of_Z type) rx (MSG_HEADER_LEN + Z.to_nat plen) (Z.to_nat plen) now st
    Hinv Hf Hp) as [Hh Hsafe].
  set (st1 := handle_frame _ _ _ _ _ _ st) in *. pose proof (busy_hpost _ _ _ Hb Hh) as Hb1.
  split.
  - split.
    + apply busy_benign; auto with qnetd.
    + apply (hp_max _ _ _ Hh).
    + intros j Hj. rewrite sess_upd_ne by done. by apply (hp_other _ _ _ Hh).
    + intros Hr Hst. apply safe_benign; [auto with qnetd|]. apply Hsafe; [|done].
      unfold step_reinit in Hr. fold rx in Hr. by rewrite E16 in Hr.
  - exists (MSG_HEADER_LEN + Z.to_nat plen)%nat. split; [lia|].
    rewrite sess_upd_eq by apply (busy_alive _ _ Hb1). simpl. by rewrite (hp_rx _ _ _ Hh).
Qed.

(** Whether any frame of the loop re-sends INIT on an active session. *)
Fixpoint loop_reinit (fuel slot : nat) (now : Z) (st : Server) : bool :=
  match fuel with
  | O => false
  | S fuel =>
      match on_data_step slot now st with
      | Some (true, st') => step_reinit slot st || loop_reinit fuel slot now st'
      | _ => false
      end
  end.

(** No complete frame is left: the loop of [on_data] has nothing to do. *)
Definition no_full_frame (max_rx_frame : Z) (rx : bytes) : Prop :=
  (length rx < MSG_HEADER_LEN)%nat ∨
  ∃ plen, be_get32 (drop 2 rx) = Ok plen ∧ plen <= max_rx_frame ∧
    (length rx < MSG_HEADER_LEN + Z.to_nat plen)%nat.

Record looped (slot fuel : nat) (now : Z) (st st' : Server) : Prop := {
  lo_busy : busy slot st';
  lo_max : sv_max_rx_frame st' = sv_max_rx_frame st;
  lo_other j : j ≠ slot → unvoted (sess st' j) = unvoted (sess st j);
  lo_safe : loop_reinit fuel slot now st = false → safe st → safe st';
  lo_rx : ∃ n, s_rx (sess st' slot) = drop n (s_rx (sess st slot));
  lo_done : s_schedule_disconnect (sess st' slot) = true ∨
    no_full_frame (sv_max_rx_frame st') (s_rx (sess st' slot));
}.

Lemma on_data_loop_post fuel slot now st :
  busy slot st → (length (s_rx (sess st slot)) < fuel)%nat →
  looped slot fuel now st (on_data_loop fuel slot now st).
Proof.
  revert st. induction fuel as [|fuel IH]; intros st Hb Hfuel; [lia|]. cbn [on_data_loop].
  pose proof (on_data_step_cases slot now st Hb) as Hc.
  destruct (on_data_step slot now st) as [[[] st1]|] eqn:E.
  - destruct Hc as ([A1 A2 A3 A4] & n & Hn & Hrx).
    destruct (IH st1 A1) as [B1 B2 B3 B4 [k B5] B6].
    { rewrite Hrx, length_drop. unfold MSG_HEADER_LEN in Hn. lia. }
    split; [done|congruence| | |exists (n + k)%nat; by rewrite B5, Hrx, drop_drop|done].
    + intros j Hj. by rewrite B3, A3.
    + cbn [loop_reinit]. rewrite E. intros [Hr1 Hr2]%orb_false_elim Hs. auto.
  - destruct Hc as ([A1 A2 A3 A4] & Hsd & Hrx & Hsafe).
    split; try done; [by exists 0%nat|by left].
  - split; try done. by exists 0%nat.
Qed.

(** The fuel does not matter once it exceeds the length of the buffer. *)
Lemma on_data_loop_fuel f1 f2 slot now st :
  busy slot st → (length (s_rx (sess st slot)) < f1)%nat → (length (s_rx (sess st slot)) < f2)%nat →
  on_data_loop f1 slot now st = on_data_loop f2 slot now st.
Proof.
  revert f2 st. induction f1 as [|f1 IH]; intros [|f2] st Hb H1 H2; try lia. cbn [on_data_loop].
  pose proof (on_data_step_cases slot now st Hb) as Hc.
  destruct (on_data_step slot now st) as [[[] st1]|]; [|done..].
  destruct Hc as ([A1 _ _ _] & n & Hn & Hrx). unfold MSG_HEADER_LEN in Hn.
  apply IH; [done|rewrite Hrx, length_drop; lia..].
Qed.

(** The state in which the loop starts. *)
Definition received (slot : nat) (data : bytes) (now : Z) (st : Server) : Server :=
  (upd_sess slot (reschedule_dpd now) (upd_sess slot (λ s, s <| s_rx ::= λ rx, rx ++ data |>) st))
    <| sv_processing := true |>.

Lemma on_data_eq slot data now st :
  on_data slot data now st =
    if bad_slot slot st then st else if s_schedule_disconnect (sess st (Z.to_nat slot)) then st
    else
      let st1 := received (Z.to_nat slot) data now st in
      drain_closes ((on_data_loop (S (length (s_rx (sess st1 (Z.to_nat slot))))) (Z.to_nat slot) now st1)
                      <| sv_processing := false |>).
Proof. done. Qed.

Lemma received_busy i data now st : good st → s_phase (sess st i) ≠ FREE →
  let st1 := received i data now st in
  busy i st1 ∧ s_rx (sess st1 i) = s_rx (sess st i) ++ data ∧
  sv_max_rx_frame st1 = sv_max_rx_frame st ∧ (∀ j, j ≠ i → sess st1 j = sess st j) ∧
  (safe st → safe st1).
Proof.
  intros Hg Hf. pose proof Hg as [Hinv Hp Hpe Hsd]. unfold received. cbv zeta.
  set (st0 := upd_sess i (λ s, s <| s_rx ::= λ rx, rx ++ data |>) st).
  destruct (upd_benign i (λ s, s <| s_rx ::= λ rx, rx ++ data |>) st (benign_rx _) Hf) as (A1 & A2 & A3).
  destruct (upd_benign i (reschedule_dpd now) st0 (benign_dpd now) A3) as (B1 & B2 & B3).
  fold st0 in A1, A2, A3. split_and!; [split| |done| |].
  - apply inv_processing. auto.
  - apply sched_processing, B2, A2. by apply good_is_sched.
  - done.
  - exact B3.
  - change (s_rx (sess (upd_sess i (reschedule_dpd now) st0) i) = s_rx (sess st i) ++ data).
    rewrite sess_upd_eq, rx_dpd by done. unfold st0. by rewrite sess_upd_eq.
  - intros j Hj. change (sess (upd_sess i (reschedule_dpd now) st0) j = sess st j).
    unfold st0. by rewrite !sess_upd_ne.
  - intros Hs. apply safe_processing. apply safe_benign; [auto with qnetd|].
    apply safe_benign; auto with qnetd.
Qed.

(** Whether a call of [on_data] handles an INIT on an active session. *)
Definition data_reinit (slot : Z) (data : bytes) (now : Z) (st : Server) : bool :=
  let st1 := received (Z.to_nat slot) data now st in
  negb (bad_slot slot st) &&
  loop_reinit (S (length (s_rx (sess st1 (Z.to_nat slot))))) (Z.to_nat slot) now st1.

(** After [on_data] the session is closed or has no complete frame left. *)
Lemma on_data_facts slot data now st : good st → bad_slot slot st = false →
  let i := Z.to_nat slot in
  let st' := on_data slot data now st in
  call_post (data_reinit slot data now st = false) st st' ∧
  (∀ j, j ≠ i → unvoted (sess st' j) = unvoted (sess st j)) ∧
  (sess st' i = Session0 ∨
   (no_full_frame (sv_max_rx_frame st) (s_rx (sess st' i)) ∧
    ∃ n, s_rx (sess st' i) = drop n (s_rx (sess st i) ++ data))).
Proof.
  intros Hg Hb i st'. pose proof Hg as [Hinv Hp Hpe Hsd].
  destruct (bad_slot_false _ _ Hb) as (_ & _ & Hf). fold i in Hf.
  destruct (received_busy i data now st Hg Hf) as (Hbusy & Hrx & Hmax & Hother & Hsafe).
  unfold st', data_reinit. rewrite on_data_eq, Hb, Hsd. cbn [negb andb]. fold i. cbv zeta.
  set (st1 := received i data now st) in *.
  destruct (on_data_loop_post (S (length (s_rx (sess st1 i)))) i now st1 Hbusy) as [B1 B2 B3 B4 [n B5] B6]; [lia|].
  set (st2 := on_data_loop _ i now st1) in *. destruct B1 as [L1 L2 L3 L4].
  destruct (drain_closes_post (st2 <| sv_processing := false |>)) as (D1 & D2 & D3 & D4 & D5);
    [by apply inv_processing|by apply sched_processing|].
  change (sv_pending_close (st2 <| sv_processing := false |>)) with (sv_pending_close st2) in *.
  split_and!.
  - split; [|done|].
    + rewrite D1, <-Hmax. exact B2.
    + intros Hr Hs. apply D5, safe_processing, B4; auto.
  - intros j Hj.
    assert (j ∉ sv_pending_close st2) as Hnp.
    { intros Hin. apply L2 in Hin. rewrite (unvoted_proj s_schedule_disconnect _ _ (λ _, eq_refl) (B3 j Hj)) in Hin.
      by rewrite Hother, Hsd in Hin. }
    rewrite D4 by done. change (sess (st2 <| sv_processing := false |>) j) with (sess st2 j).
    by rewrite B3, Hother.
  - destruct (decide (i ∈ sv_pending_close st2)) as [Hin|Hin]; [left; by apply D3|right].
    assert (s_rx (sess (drain_closes (st2 <| sv_processing := false |>)) i) = s_rx (sess st2 i)) as ->.
    { rewrite (unvoted_proj s_rx _ _ (λ _, eq_refl) (D4 i Hin)). done. }
    split; [|exists n; by rewrite B5, Hrx].
    destruct B6 as [Hd|Hd]; [by apply L2 in Hd|]. by rewrite B2, Hmax in Hd.
Qed.

Lemma on_data_post slot data now st : good st →
  call_post (data_reinit slot data now st = false) st (on_data slot data now st).
Proof.
  intros Hg. destruct (bad_slot slot st) eqn:Hb; [|by apply on_data_facts].
  unfold on_data. rewrite Hb. by split.
Qed.

(** ** Executions *)

Lemma good_init max : good (Server0 max).
Proof.
  assert (∀ i, sess (Server0 max) i = Session0) as Hs.
  { intros i. unfold sess. cbn [Server0 sv_sessions]. destruct (_ !! i) eqn:E; [|done].
    by apply lookup_replicate in E as [-> _]. }
  assert (∀ c, clus (Server0 max) c = Cluster0) as Hc.
  { intros c. unfold clus. case_match; [done|]. cbn [Server0 sv_clusters]. destruct (_ !! Z.to_nat c) eqn:E; [|done].
    by apply lookup_replicate in E as [-> _]. }
  split; [|done|done|intros; by rewrite Hs].
  split; [done|done|intros; rewrite Hs; apply sess_ok0| |].
  - intros c _. by rewrite Hc.
  - intros c d. by rewrite Hc.
Qed.

Lemma safe_init max : safe (Server0 max).
Proof.
  assert (∀ i, sess (Server0 max) i = Session0) as Hs.
  { intros i. unfold sess. cbn [Server0 sv_sessions]. destruct (_ !! i) eqn:E; [|done].
    by apply lookup_replicate in E as [-> _]. }
  split; [intros i j; by rewrite Hs|]. intros i. rewrite Hs. apply sess_safe0.
Qed.

(** An event in which no client re-sends INIT while active. *)
Definition clean (st : Server) (e : Event) : bool :=
  match e with
  | EvData slot data now => negb (data_reinit slot data now st)
  | _ => true
  end.

Lemma exec_post st e : good st → call_post (clean st e = true) st (exec st e).
Proof.
  intros Hg. destruct e as [now peer|slot data now|slot|now]; cbn [exec clean].
  - destruct (on_connect_post now peer st Hg). by split; auto.
  - destruct (on_data_post slot data now st Hg). split; [done|done|]. intros H. bool_to_prop. auto.
  - destruct (on_disconnected_post slot st Hg). by split; auto.
  - destruct (tick_post now st Hg). by split; auto.
Qed.

Lemma reachable_good max st : reachable max st → good st ∧ sv_max_rx_frame st = max.
Proof.
  induction 1 as [|st e _ [Hg Hm]]; [split; [apply good_init|done]|].
  destruct (exec_post st e Hg). split; [done|congruence].
Qed.

(** Executions without a repeated INIT. *)
Inductive reachable_clean (max : Z) : Server → Prop :=
| rc_init : reachable_clean max (Server0 max)
| rc_step st e : reachable_clean max st → clean st e = true → reachable_clean max (exec st e).

Lemma reachable_clean_safe max st : reachable_clean max st → good st ∧ safe st.
Proof.
  induction 1 as [|st e _ [Hg Hs] He]; [split; [apply good_init|apply safe_init]|].
  destruct (exec_post st e Hg). auto.
Qed.
