(* ===== verification/Scenarios.v ===== *)
(** * Scenarios (host/test_main.cpp)

    The client side of the protocol as the host tests write it (the
    [MockClient] frame builders and the [Rig] of test_main.cpp), and the test
    scenarios as evaluations of the model over real bytes.  The theorems of the
    other files take their concrete inputs from here. *)
From S2P Require Import Prelude Wire Tlv Msg State Ffsplit Handlers Lifecycle Invariant.
From S2P Require Import HandlerFacts InitFacts Safety.

(** ** [MockClient]: the frames a qdevice sends *)
Module MockClient.

(** [be_put16(f, type); be_put32(f, 0)]. *)
Definition start (type : Z) : Frame := be_put32 (be_put16 [] type) 0.

Definition preinit (seq : Z) (cluster : bytes) : Frame :=
  let f := TlvWriter.add_u32 (start 0) OPT_MSG_SEQ_NUMBER seq in
  end_frame (TlvWriter.add_string f OPT_CLUSTER_NAME cluster (Z.of_nat (length cluster))).

Definition init (seq node_id : Z) (ring : RingId) (hb : Z) (tb : TieBreaker) (alg : Algorithm) : Frame :=
  let f := TlvWriter.add_u32 (start 3) OPT_MSG_SEQ_NUMBER seq in
  let f := TlvWriter.add_u16_array f OPT_SUPPORTED_MESSAGES
             [0; 1; 3; 4; 5; 6; 7; 8; 9; 10; 11; 12; 13; 14; 15; 16; 17] in
  let f := TlvWriter.add_u16_array f OPT_SUPPORTED_OPTIONS [0; 1; 2; 3; 4; 5] in
  let f := TlvWriter.add_u32 f OPT_NODE_ID node_id in
  let f := TlvWriter.add_u16 f OPT_DECISION_ALGORITHM (Algorithm_to_Z alg) in
  let f := TlvWriter.add_u32 f OPT_HEARTBEAT_INTERVAL hb in
  let f := TlvWriter.add_tie_breaker f tb in
  end_frame (TlvWriter.add_ring_id f ring).

Definition add_nodes (f : Frame) (ids : list Z) (state : NodeState) : Frame :=
  foldl (λ f id, TlvWriter.add_node_info f (mkNodeInfo id 0 state)) f ids.

Definition config_list (seq : Z) (type : NodeListType) (ids : list Z) (version : option Z) : Frame :=
  let f := TlvWriter.add_u32 (start 10) OPT_MSG_SEQ_NUMBER seq in
  let f := TlvWriter.add_u8 f OPT_NODE_LIST_TYPE (NodeListType_to_Z type) in
  let f := match version with Some v => TlvWriter.add_u64 f OPT_CONFIG_VERSION v | None => f end in
  end_frame (add_nodes f ids NS_NOT_SET).

Definition membership (seq : Z) (ring : RingId) (ids : list Z) (h : Heuristics) : Frame :=
  let f := TlvWriter.add_u32 (start 10) OPT_MSG_SEQ_NUMBER seq in
  let f := TlvWriter.add_u8 f OPT_NODE_LIST_TYPE (NodeListType_to_Z NLT_MEMBERSHIP) in
  let f := TlvWriter.add_ring_id f ring in
  let f := if bool_decide (h = HEUR_UNDEFINED) then f
           else TlvWriter.add_u8 f OPT_HEURISTICS (Heuristics_to_Z h) in
  end_frame (add_nodes f ids NS_MEMBER).

Definition quorum_list (seq : Z) (quorate : bool) (ids : list Z) : Frame :=
  let f := TlvWriter.add_u32 (start 10) OPT_MSG_SEQ_NUMBER seq in
  let f := TlvWriter.add_u8 f OPT_NODE_LIST_TYPE (NodeListType_to_Z NLT_QUORUM) in
  let f := TlvWriter.add_u8 f OPT_QUORATE (if quorate then 1 else 0) in
  end_frame (add_nodes f ids NS_MEMBER).

Definition vote_info_reply (vi_seq : Z) : Frame :=
  end_frame (TlvWriter.add_u32 (start 15) OPT_MSG_SEQ_NUMBER vi_seq).

Definition echo_request (seq : Z) : Frame :=
  end_frame (TlvWriter.add_u32 (start 8) OPT_MSG_SEQ_NUMBER seq).

End MockClient.

(** ** [Rig]: calls on a server *)

(** The name "tc" and the peer "p". *)
Definition tc : bytes := [116; 99].
Definition peer0 : bytes := [112].

Definition run (st : Server) (es : list Event) : Server := foldl exec st es.

Definition join_events (slot node_id : Z) (ring : RingId) (tb : TieBreaker) (now : Z) : list Event :=
  [EvConnect now peer0;
   EvData slot (MockClient.preinit 1 tc) now;
   EvData slot (MockClient.init 2 node_id ring 8000 tb ALG_FFSPLIT) now].

(** The VOTE_INFO frames sent to a slot: sequence number and vote. *)
Definition vote_infos (slot : nat) (es : list Effect) : list (Z * Vote) :=
  es ≫= λ e, match e with
             | ESend i f =>
                 if (i =? slot)%nat then
                   match frame_decode f with
                   | Ok m => if bool_decide (m_type m = MT_VOTE_INFO)
                             then [(m_seq_number m, m_vote m)] else []
                   | _ => []
                   end
                 else []
             | _ => []
             end.

(** Two nodes, 4 in slot 0 and 2 in slot 1, both ACKed (the test helper
    [ack_two_nodes]). *)
Definition ring0 : RingId := mkRingId 2 100.
Definition ack_two_nodes_events : list Event :=
  join_events 0 4 ring0 TieBreaker0 1000 ++ join_events 1 2 ring0 TieBreaker0 1000 ++
  [EvData 0 (MockClient.config_list 3 NLT_INITIAL_CONFIG [2; 4] None) 1000;
   EvData 0 (MockClient.membership 4 ring0 [2; 4] HEUR_UNDEFINED) 1000;
   EvData 1 (MockClient.config_list 3 NLT_INITIAL_CONFIG [2; 4] None) 1000;
   EvData 1 (MockClient.membership 4 ring0 [2; 4] HEUR_UNDEFINED) 1000;
   EvData 1 (MockClient.vote_info_reply 1) 1000;
   EvData 0 (MockClient.vote_info_reply 1) 1000].
Definition two_acked : Server := run (Server0 32768) ack_two_nodes_events.

Example two_acked_votes :
  vote_infos 0 (sv_out two_acked) = [(1, VOTE_ACK)] ∧
  vote_infos 1 (sv_out two_acked) = [(1, VOTE_ACK)] ∧
  any_ack two_acked = true ∧ connected_clients two_acked = 2.
Proof. vm_compute. done. Qed.

(** The split of [test_split_brain_exactly_one_ack]: each node reforms alone. *)
Definition split_events : list Event :=
  [EvData 0 (MockClient.membership 5 (mkRingId 4 200) [4] HEUR_UNDEFINED) 1000;
   EvData 1 (MockClient.membership 5 (mkRingId 2 201) [2] HEUR_UNDEFINED) 1000].
Definition split_decided : Server := run two_acked split_events.

Example split_nack_first :
  vote_infos 0 (sv_out split_decided) = [(1, VOTE_ACK); (2, VOTE_NACK)] ∧
  vote_infos 1 (sv_out split_decided) = [(1, VOTE_ACK)].
Proof. vm_compute. done. Qed.

Definition split_resolved : Server := run split_decided [EvData 0 (MockClient.vote_info_reply 2) 1000].

Example split_ack_after_reply :
  vote_infos 0 (sv_out split_resolved) = [(1, VOTE_ACK); (2, VOTE_NACK)] ∧
  vote_infos 1 (sv_out split_resolved) = [(1, VOTE_ACK); (2, VOTE_ACK)].
Proof. vm_compute. done. Qed.

(** A stale reply releases nothing. *)
Example split_stale_reply :
  vote_infos 1 (sv_out (run split_decided [EvData 0 (MockClient.vote_info_reply 1) 1000]))
    = [(1, VOTE_ACK)].
Proof. vm_compute. done. Qed.

(** [test_heuristics_break_the_split]: heuristics override the tie-breaker. *)
Example heuristics_break_the_split :
  vote_infos 1 (sv_out (run two_acked
    [EvData 0 (MockClient.membership 5 (mkRingId 4 500) [4] HEUR_PASS) 1000;
     EvData 1 (MockClient.membership 5 (mkRingId 2 501) [2] HEUR_FAIL) 1000]))
    = [(1, VOTE_ACK); (2, VOTE_NACK)].
Proof. vm_compute. done. Qed.

(** [test_split_with_dead_loser_needs_dpd]: the silent node is timed out. *)
Definition dpd_events : list Event :=
  [EvData 0 (MockClient.membership 5 (mkRingId 4 300) [4] HEUR_UNDEFINED) 1000;
   EvTick 7500; EvData 0 (MockClient.echo_request 6) 7500; EvTick 14000].
Definition dpd_done : Server := run two_acked dpd_events.
Example dpd_survivor :
  vote_infos 0 (sv_out dpd_done) = [(1, VOTE_ACK); (2, VOTE_ACK)] ∧
  s_phase (sess dpd_done 1) = FREE ∧ s_phase (sess dpd_done 0) = ACTIVE ∧
  bool_decide (EClose 1 ∈ sv_out dpd_done) = true.
Proof. vm_compute. done. Qed.

(** ** A decision in the making *)

(** The split after node 4 has reported alone; node 2 is about to. *)
Definition split_pending : Server :=
  run two_acked [EvData 0 (MockClient.membership 5 (mkRingId 4 200) [4] HEUR_UNDEFINED) 1000].
Definition members (ids : list Z) : NodeList := (λ id, mkNodeInfo id 0 NS_MEMBER) <$> ids.
Definition configured (ids : list Z) : NodeList := (λ id, mkNodeInfo id 0 NS_NOT_SET) <$> ids.
Definition split_tv (h : Heuristics) : TriggerView :=
  mkTV 1 false (mkRingId 2 201) (configured [2; 4]) (members [2]) h.

(** The trigger of the departure of node 4. *)
Definition leaving_tv : TriggerView :=
  let s := sess split_pending 0 in
  mkTV 0 true (s_last_ring_id s) (s_config_list s) (s_membership_list s) (s_last_heuristics s).

Example split_tv_is_the_trigger :
  s_config_list (sess split_pending 1) = configured [2; 4] ∧
  s_membership_list (sess split_pending 0) = members [4] ∧
  ffsplit_is_stable split_pending (split_tv HEUR_UNDEFINED) = true ∧
  ffsplit_select_partition split_pending (split_tv HEUR_UNDEFINED) = Some (members [2]) ∧
  ffsplit_select_partition split_pending (split_tv HEUR_FAIL) = Some (members [4]).
Proof. vm_compute. done. Qed.

(** ** The scenarios are executions *)

Lemma run_app st es es' : run st (es ++ es') = run (run st es) es'.
Proof. apply foldl_app. Qed.

Lemma run_reachable max st es : reachable max st → reachable max (run st es).
Proof. revert st. induction es as [|e es IH]; intros st H; [done|]. by apply IH, reach_step. Qed.

(** No event of the run re-sends INIT on an active session. *)
Fixpoint run_clean (st : Server) (es : list Event) : bool :=
  match es with
  | [] => true
  | e :: es => clean st e && run_clean (exec st e) es
  end.
Lemma run_reachable_clean max st es :
  reachable_clean max st → run_clean st es = true → reachable_clean max (run st es).
Proof.
  revert st. induction es as [|e es IH]; intros st H Hc; [done|]. cbn [run_clean] in Hc.
  apply andb_prop in Hc as [H1 H2]. by apply IH; [apply rc_step|].
Qed.

Lemma two_acked_reachable : reachable_clean 32768 two_acked.
Proof. apply run_reachable_clean; [apply rc_init|vm_compute; reflexivity]. Qed.
Lemma split_pending_reachable : reachable_clean 32768 split_pending.
Proof. apply run_reachable_clean; [apply two_acked_reachable|vm_compute; reflexivity]. Qed.
Lemma split_decided_reachable : reachable_clean 32768 split_decided.
Proof. apply run_reachable_clean; [apply two_acked_reachable|vm_compute; reflexivity]. Qed.
Lemma split_resolved_reachable : reachable_clean 32768 split_resolved.
Proof. apply run_reachable_clean; [apply split_decided_reachable|vm_compute; reflexivity]. Qed.

Lemma split_pending_good : good split_pending.
Proof. apply (reachable_clean_safe 32768), split_pending_reachable. Qed.
Lemma two_acked_good : good two_acked.
Proof. apply (reachable_clean_safe 32768), two_acked_reachable. Qed.
Lemma split_decided_good : good split_decided.
Proof. apply (reachable_clean_safe 32768), split_decided_reachable. Qed.
