(* ===== verification/Typed.v ===== *)
(** * Types and sizes of the server's data

    Every field of a session and of a cluster is within its bounds in all
    executions fed with bytes: the ones the code enforces (list lengths, heartbeat
    intervals, the algorithm, cluster indices, member counts), and the range of its
    C++ type, so that the unbounded integers of the model stand for machine
    integers.  The handlers preserve this because the decoder only produces
    well-typed messages. *)
From S2P Require Import Prelude Double Wire Tlv Msg State Ffsplit Select Handlers Lifecycle Invariant.
From S2P Require Import HandlerFacts InitFacts Safety Scenarios.

Definition nodes_ok (l : NodeList) : Prop := (length l ≤ MAX_NODES_PER_LIST)%nat ∧ Forall ni_wf l.

Record sess_typed (s : Session) : Prop := {
  ty_peer : is_bytes (s_peer s);
  ty_name : is_bytes (s_cluster_name s);
  ty_node_id : is_u32 (s_node_id s);
  ty_ring : ring_ok (s_last_ring_id s);
  ty_heartbeat : is_u32 (s_heartbeat_ms s);
  ty_interval : s_heartbeat_ms s = 0 ∨ heartbeat_invalid (s_heartbeat_ms s) = false;
  ty_algorithm : s_algorithm s = ALG_FFSPLIT;
  ty_tie_breaker : is_u32 (tb_node_id (s_tie_breaker s));
  ty_config : nodes_ok (s_config_list s);
  ty_version : is_u64 (s_config_version s);
  ty_membership : nodes_ok (s_membership_list s);
  ty_quorum : nodes_ok (s_quorum_list s);
  ty_seq : is_u32 (s_vote_info_seq s);
  ty_deadline : is_u64 (s_deadline_ms s);
  ty_rx : is_bytes (s_rx s);
}.

Record typed (st : Server) : Prop := {
  ty_sess j : sess_typed (sess st j);
  ty_quorate c : nodes_ok (cl_quorate_partition (clus st c));
  ty_decisions : is_u32 (sv_decisions st);
}.

Lemma nodes_ok_nil : nodes_ok [].
Proof. split; [cbn; lia|done]. Qed.
Lemma sess_typed0 : sess_typed Session0.
Proof. split; cbn; try apply nodes_ok_nil; try (by vm_compute). by left. Qed.
#[export] Hint Resolve nodes_ok_nil sess_typed0 : qnetd.

(** ** Primitive writes *)

Lemma typed_upd_sess i f st : (∀ s, sess_typed s → sess_typed (f s)) → typed st → typed (upd_sess i f st).
Proof. intros Hf [H1 H2 H3]. split; [|done|done]. intros j. rewrite sess_upd. case_decide; auto. Qed.
Lemma typed_upd_clus c f st : (∀ cl, nodes_ok (cl_quorate_partition cl) → nodes_ok (cl_quorate_partition (f cl))) →
  typed st → typed (upd_clus c f st).
Proof.
  intros Hf [H1 H2 H3]. split.
  - intros j. by rewrite sess_upd_clus.
  - intros d. rewrite clus_upd. case_decide; auto.
  - unfold upd_clus. by case_match.
Qed.
Lemma typed_emit e st : typed st → typed (emit e st).
Proof. by intros [H1 H2 H3]. Qed.

(** A write to fields whose types carry no bounds, or with a value in range. *)
Ltac typed_write := first [apply typed_upd_clus; [by intros cl|]|apply typed_upd_sess; [by intros s []|]|apply typed_emit].

Lemma typed_update_states tv w st : typed st → typed (ffsplit_update_states tv w st).
Proof.
  unfold ffsplit_update_states. generalize (s_cluster (sess st (tv_slot tv))). generalize slots. intros l c. revert st.
  induction l as [|i l IH]; intros st Hs; [done|]. cbn [foldl]. apply IH. unfold update_state_step.
  repeat case_match; try done; by typed_write.
Qed.
Lemma typed_send_votes tv b st : typed st → typed (ffsplit_send_votes tv b st).1.
Proof.
  unfold ffsplit_send_votes. generalize (s_cluster (sess st (tv_slot tv))) 0%nat slots. intros c n l. revert st n.
  induction l as [|i l IH]; intros st n Hs; [done|]. cbn [foldl].
  assert (typed (send_vote_step tv b c (st, n) i).1) as H1.
  { unfold send_vote_step. repeat case_match; try done. unfold send. cbn [fst]. apply typed_emit, typed_upd_sess; [|done].
    intros s []. split; cbn; auto using u32_range. }
  destruct (send_vote_step tv b c (st, n) i) as [st1 k]. by apply IH.
Qed.

(** The selected partition is a membership list some client reported. *)
Lemma select_typed tv st w : typed st → nodes_ok (tv_membership tv) → ffsplit_select_partition st tv = Some w → nodes_ok w.
Proof.
  intros Hs Ht. rewrite select_scan. intros (cd & Hw & ->)%fmap_Some.
  destruct (scan_origin st tv slots None cd Hw) as [|(i & _ & Hc & _)]; [done|].
  unfold candidate in Hc. repeat case_match; simplify_eq. cbn. unfold eff_membership.
  case_match; [done|]. apply (ty_membership _ (ty_sess _ Hs i)).
Qed.

Lemma typed_ffsplit_do tv st : typed st → nodes_ok (tv_membership tv) → typed (ffsplit_do tv st).1.1.
Proof.
  intros Hs Ht. unfold ffsplit_do. cbv zeta. set (c := s_cluster (sess st (tv_slot tv))).
  match goal with |- context [ffsplit_is_stable ?x tv] => set (st1 := x) end.
  assert (typed st1) as H1 by (by typed_write). destruct (negb (ffsplit_is_stable st1 tv)); [done|].
  assert (nodes_ok (default [] (ffsplit_select_partition st1 tv))) as Hw.
  { destruct (ffsplit_select_partition st1 tv) as [w|] eqn:E; [by apply (select_typed tv st1)|apply nodes_ok_nil]. }
  generalize dependent (ffsplit_select_partition st1 tv). intros w Hw.
  match goal with |- context [ffsplit_send_votes tv false ?x] => set (st2 := x) end.
  assert (typed st2) as H2.
  { unfold st2. typed_write. apply typed_upd_clus; [done|]. apply typed_update_states.
    destruct H1 as [A1 A2 A3]. split; [done|done|apply u32_range]. }
  pose proof (typed_send_votes tv false st2 H2) as H3. destruct (ffsplit_send_votes tv false st2) as [st3 n]. cbn [fst] in *.
  destruct (n =? 0)%nat; [|done].
  match goal with |- context [ffsplit_send_votes tv true ?x] => set (st4 := x) end.
  assert (typed st4) as H4 by (by typed_write).
  pose proof (typed_send_votes tv true st4 H4) as H5. destruct (ffsplit_send_votes tv true st4) as [st5 k]. cbn [fst] in *.
  case_match; [by typed_write|done].
Qed.

Lemma typed_leave_cluster i st : typed st → typed (leave_cluster i st).
Proof.
  intros Hs. unfold leave_cluster. case_match; [done|].
  match goal with |- context [ffsplit_do ?tv st] => pose proof (typed_ffsplit_do tv st Hs) as H1;
    destruct (ffsplit_do tv st) as [[st1 code] v] end.
  specialize (H1 (ty_membership _ (ty_sess _ Hs i))). cbn [fst] in H1. apply typed_upd_sess; [by intros s []|].
  case_match; [apply typed_upd_clus; [intros; apply nodes_ok_nil|]|]; by typed_write.
Qed.

(** ** Handlers *)

Lemma typed_dpd now s : sess_typed s → sess_typed (reschedule_dpd now s).
Proof. intros Hs. unfold reschedule_dpd. repeat case_match; [| |done]; destruct Hs; split; cbn; auto using u64_range. Qed.
Lemma typed_upd_dpd i now st : typed st → typed (upd_sess i (reschedule_dpd now) st).
Proof. apply typed_upd_sess. apply typed_dpd. Qed.

Lemma typed_preinit i m st : msg_wf m → typed st → typed (handle_preinit i m st).
Proof.
  intros [] Hs. unfold handle_preinit, send_err, send. repeat case_match; try by typed_write.
  apply typed_emit, typed_upd_sess; [|done]. by intros s [].
Qed.

Lemma typed_init_fields m s : msg_wf m → sess_typed s → sess_typed (init_fields m s).2.
Proof.
  intros [] []. unfold init_fields.
  destruct (bool_decide (s_phase s = ACTIVE)), (m_node_id_set m), (m_ring_id_set m), (m_heartbeat_interval_set m),
    (heartbeat_invalid (m_heartbeat_interval m)) eqn:Hh, (m_tie_breaker_set m), (m_decision_algorithm_set m),
    (bool_decide_reflect (m_decision_algorithm m = ALG_FFSPLIT)); cbn; split; cbn; auto.
Qed.
Lemma typed_join i now st : typed st → typed (init_join i now st).2.
Proof.
  intros Hs. unfold init_join. destruct (find_or_create_cluster _ st) as [c st1] eqn:E.
  assert (typed st1) as H1.
  { unfold find_or_create_cluster in E. repeat case_match; simplify_eq; [done| |done].
    apply typed_upd_clus; [intros; apply nodes_ok_nil|done]. }
  case_match; [done|]. cbn [snd]. apply typed_upd_dpd. typed_write. typed_write.
  case_match; [apply typed_upd_clus; [intros; apply nodes_ok_nil|]|]; by typed_write.
Qed.
Lemma typed_init i m now st : msg_wf m → typed st → typed (handle_init i m now st).
Proof.
  intros Hm Hs. unfold handle_init. pose proof (typed_init_fields m _ Hm (ty_sess _ Hs i)) as Hi.
  destruct (init_fields m (sess st i)) as [code s]. cbn [snd] in Hi.
  assert (typed (upd_sess i (λ _, s) st)) as H1 by (by apply typed_upd_sess).
  set (st1 := upd_sess i (λ _, s) st) in *.
  generalize (if is_no_error code then init_consistency st1 i slots else code). intros c1. cbv zeta.
  pose proof (typed_join i now st1 H1) as H2. unfold notify, send.
  destruct (is_no_error c1); [destruct (init_join i now st1)|]; by do 2 apply typed_emit.
Qed.

Lemma typed_set_option i m now st : msg_wf m → typed st → typed (handle_set_option i m now st).
Proof.
  intros [] Hs. unfold handle_set_option, send_err, send. case_match; [by typed_write|]. apply typed_emit.
  set (st1 := if m_heartbeat_interval_set m then _ else st).
  assert (typed st1) as H1.
  { unfold st1. destruct (m_heartbeat_interval_set m); [|done]. apply typed_upd_dpd, typed_upd_sess; [|done].
    intros s []. split; cbn; auto. }
  case_match; [by typed_write|done].
Qed.

Lemma typed_record_vote i v st : typed st → typed (upd_sess i (record_vote v) st).
Proof. apply typed_upd_sess. intros s []. unfold record_vote. by case_match. Qed.

Lemma typed_node_list i m st : msg_wf m → typed st → typed (handle_node_list i m st).
Proof.
  intros Hm Hs. assert (nodes_ok (m_nodes m)) as Hn by (by destruct Hm).
  unfold handle_node_list, send_err, send, notify. case_match; [by typed_write|].
  assert (∀ x, node_list_decide i m st = inr x → typed x.1.1) as Hd.
  { intros x. unfold node_list_decide. pose proof (ty_membership _ (ty_sess _ Hs i)) as Hmem.
    repeat case_match; intros [= <-]; first [done|by apply typed_ffsplit_do]. }
  destruct (node_list_decide i m st) as [e|[[st1 code] v]]; [by typed_write|]. specialize (Hd _ eq_refl). cbn [fst] in Hd.
  case_match; [by typed_write|]. do 2 apply typed_emit. apply typed_record_vote, typed_upd_sess; [|done].
  intros s []. unfold node_list_store. destruct Hm. case_match; by split.
Qed.

Lemma typed_vote_info_reply i m st : typed st → typed (handle_vote_info_reply i m st).
Proof.
  intros Hs. unfold handle_vote_info_reply, send_err, send, notify. case_match; [by typed_write|]. case_match; [done|].
  cbv zeta. apply typed_emit. set (st1 := upd_sess i _ st). assert (typed st1) as H1 by (by typed_write).
  match goal with |- context [ffsplit_send_votes ?tv true ?x] =>
    assert (typed x) as H2 by (by typed_write); pose proof (typed_send_votes tv true x H2) as H3;
    destruct (ffsplit_send_votes tv true x) as [st2 n] end.
  cbn [fst] in H3. repeat case_match; first [done|by typed_write].
Qed.

Lemma typed_heuristics i m st : typed st → typed (handle_heuristics_change i m st).
Proof.
  intros Hs. unfold handle_heuristics_change, send_err, send, notify. case_match; [by typed_write|]. cbv zeta.
  match goal with |- context [ffsplit_do ?tv st] => pose proof (typed_ffsplit_do tv st Hs (ty_membership _ (ty_sess _ Hs i))) as H1;
    set (r := ffsplit_do tv st) in * end.
  assert (∀ b : bool, typed (if b then (st, ERR_NO_ERROR, VOTE_ASK_LATER) else r).1.1) as H2 by (by intros []).
  specialize (H2 (nl_empty (s_config_list (sess st i)) || nl_empty (s_membership_list (sess st i)))).
  destruct (if _ : bool then (st, ERR_NO_ERROR, VOTE_ASK_LATER) else r) as [[st1 code] v]. cbn [fst] in H2.
  case_match; [by typed_write|]. do 2 apply typed_emit. apply typed_record_vote. by typed_write.
Qed.

(** ** Calls *)

Lemma typed_drain_loop n st : typed st → typed (drain_loop n st).
Proof.
  revert st. induction n as [|n IH]; intros st Hs; [done|]. cbn [drain_loop]. case_match; [|done].
  match goal with |- context [st <| sv_pending_close ::= ?f |>] => set (st1 := st <| sv_pending_close ::= f |>) end.
  assert (typed st1) as H1 by (by destruct Hs). case_match; [by apply IH|]. apply IH, typed_emit.
  apply typed_upd_sess; [intros; apply sess_typed0|]. by apply typed_leave_cluster.
Qed.
Lemma typed_drain_closes st : typed st → typed (drain_closes st).
Proof.
  intros [H1 H2 H3]. unfold drain_closes, notify. apply typed_emit.
  assert (typed (drain_loop (length (sv_pending_close (st <| sv_processing := true |>))) (st <| sv_processing := true |>)))
    as [A1 A2 A3] by (by apply typed_drain_loop). by split.
Qed.
Lemma typed_disconnect i st : typed st → typed (disconnect_client i st).
Proof.
  intros Hs. unfold disconnect_client. case_match; [done|].
  assert (typed (upd_sess i (λ s, s <| s_schedule_disconnect := true |>) st)) as [H1 H2 H3] by (by typed_write).
  match goal with |- typed (if _ then ?x else _) => assert (typed x) as H4 by (by split) end.
  case_match; [done|]. by apply typed_drain_closes.
Qed.

Lemma typed_frame i type frame len plen now st : is_bytes frame → (MSG_HEADER_LEN + plen ≤ length frame)%nat →
  typed st → typed (handle_frame i type frame len plen now st).
Proof.
  intros Hb Hl Hs. unfold handle_frame, send_err, send.
  destruct (msg_decode type (drop MSG_HEADER_LEN frame) plen) as [m| |] eqn:E; [|by apply typed_disconnect, typed_emit..].
  assert (msg_wf m) as Hm.
  { apply (msg_decode_wf _ _ _ _ (Forall_drop _ _ _ Hb)) in E; [done|]. rewrite length_drop. lia. }
  unfold dispatch, send_err, send. case_match; [by typed_write|].
  destruct type; repeat case_match; try (by typed_write);
    auto using typed_preinit, typed_init, typed_set_option, typed_node_list, typed_vote_info_reply, typed_heuristics.
Qed.

Lemma typed_step i now st b st' : typed st → on_data_step i now st = Some (b, st') → typed st'.
Proof.
  intros Hs. unfold on_data_step, send_err, send. repeat (case_match; [done|]). do 2 (case_match; [|done..]).
  case_match; [intros [= <- <-]; by apply typed_disconnect, typed_emit|].
  destruct (Nat.ltb_spec (length (s_rx (sess st i))) (MSG_HEADER_LEN + Z.to_nat a0)) as [|Hl]; [done|intros [= <- <-]].
  apply typed_upd_sess; [intros s []; split; cbn; auto using Forall_drop|].
  apply typed_frame; [apply (ty_rx _ (ty_sess _ Hs i))|done|done].
Qed.
Lemma typed_loop n i now st : typed st → typed (on_data_loop n i now st).
Proof.
  revert st. induction n as [|n IH]; intros st Hs; [done|]. cbn [on_data_loop].
  destruct (on_data_step i now st) as [[[] st1]|] eqn:E; [|by eapply typed_step|done]. apply IH. by eapply typed_step.
Qed.
Lemma typed_on_data slot data now st : is_bytes data → typed st → typed (on_data slot data now st).
Proof.
  intros Hd Hs. rewrite on_data_eq. case_match; [done|]. case_match; [done|]. cbv zeta.
  set (s1 := received (Z.to_nat slot) data now st).
  assert (typed s1) as H1.
  { assert (typed (upd_sess (Z.to_nat slot) (reschedule_dpd now)
      (upd_sess (Z.to_nat slot) (λ s, s <| s_rx ::= λ rx, rx ++ data |>) st))) as [A1 A2 A3]; [|by split].
    apply typed_upd_dpd, typed_upd_sess; [|done]. intros s []. split; cbn; auto. by apply Forall_app. }
  assert (typed (on_data_loop (S (length (s_rx (sess s1 (Z.to_nat slot))))) (Z.to_nat slot) now s1)) as [A1 A2 A3]
    by (by apply typed_loop).
  by apply typed_drain_closes.
Qed.

(** The bytes of an event are bytes. *)
Definition event_bytes (e : Event) : Prop :=
  match e with EvConnect _ peer => is_bytes peer | EvData _ data _ => is_bytes data | _ => True end.

Lemma typed_exec st e : event_bytes e → typed st → typed (exec st e).
Proof.
  intros He Hs. destruct e as [now peer|slot data now|slot|now]; cbn [exec event_bytes] in *.
  - unfold on_connect, notify, reset_sess. case_match; [|done]. cbn [snd]. apply typed_emit.
    apply typed_upd_sess; [intros s []; split; cbn; auto using u64_range|].
    apply typed_upd_sess; [intros; apply sess_typed0|done].
  - by apply typed_on_data.
  - unfold on_disconnected, reset_sess. case_match; [done|]. apply typed_emit.
    match goal with |- context [leave_cluster ?i ?x] => assert (typed x) as H1 by (by destruct Hs);
      pose proof (typed_leave_cluster i x H1) as H2; set (st1 := leave_cluster i x) in *; clearbody st1 end.
    assert (typed (upd_sess (Z.to_nat slot) (λ _, Session0) st1)) as [A1 A2 A3]
      by (apply typed_upd_sess; [intros; apply sess_typed0|done]).
    case_match; [by split|]. by apply typed_drain_closes.
  - unfold tick. generalize slots. intros l. revert st Hs. induction l as [|i l IH]; intros st Hs; [done|]. cbn [foldl].
    apply IH. unfold tick_step. repeat case_match; try done. by apply typed_disconnect.
Qed.

Lemma typed_run es st : Forall event_bytes es → typed st → typed (run st es).
Proof.
  revert st. induction es as [|e es IH]; intros st Hes Hs; [done|]. apply Forall_cons in Hes as [He Hes].
  apply IH; [done|]. by apply typed_exec.
Qed.
Lemma typed0 max : typed (Server0 max).
Proof.
  split; [|intros c|by vm_compute].
  - intros j. unfold sess. cbn [Server0 sv_sessions]. destruct (_ !! j) eqn:E; [|apply sess_typed0].
    apply lookup_replicate in E as [-> _]. apply sess_typed0.
  - unfold clus. case_match; [apply nodes_ok_nil|]. cbn [Server0 sv_clusters]. destruct (_ !! Z.to_nat c) eqn:E; [|apply nodes_ok_nil].
    apply lookup_replicate in E as [-> _]. apply nodes_ok_nil.
Qed.

(** What the server stores, with the bounds that hold between calls. *)
Record stored (st : Server) : Prop := {
  sr_typed : typed st;
  sr_cluster j : -1 <= s_cluster (sess st j) < Z.of_nat MAX_CLUSTERS;
  sr_name c : is_bytes (cl_name (clus st c));
  sr_members c : 0 <= cl_members (clus st c) <= Z.of_nat MAX_CLIENTS;
}.

(** The clusters, by the invariant: a cluster in use has the name of its clients. *)
Lemma inv_cluster_bounds st c : inv st → typed st →
  is_bytes (cl_name (clus st c)) ∧ 0 <= cl_members (clus st c) <= Z.of_nat MAX_CLIENTS.
Proof.
  intros Hinv Ht. destruct (decide (0 <= c < Z.of_nat MAX_CLUSTERS)) as [Hc|Hc].
  2: { assert (clus st c = Cluster0) as ->; [|split; [done|cbn; lia]]. unfold clus. destruct (Z.ltb_spec c 0); [done|].
       rewrite lookup_ge_None_2; [done|]. rewrite (inv_len_clusters _ Hinv). lia. }
  pose proof (inv_members _ Hinv c Hc) as Hm. destruct (cl_used (clus st c)).
  2: { rewrite Hm. split; [done|cbn; lia]. }
  destruct Hm as [-> Hpos]. unfold cnt in *. split.
  - destruct (List.filter _ slots) as [|i l] eqn:E; [cbn in Hpos; lia|].
    assert (In i (List.filter (λ i, in_cluster (sess st i) c) slots)) as [_ [Ha <-]%in_cluster_true]%List.filter_In
      by (rewrite E; by left).
    destruct (so_active _ _ (inv_sess _ Hinv i) Ha) as (_ & _ & -> & _). apply (ty_name _ (ty_sess _ Ht i)).
  - pose proof (List.filter_length_le (λ i, in_cluster (sess st i) c) slots) as Hle.
    change (length slots) with MAX_CLIENTS in Hle. lia.
Qed.

(** C14: what the server stores stays within bounds.  After any sequence of calls
    with any bytes, every field of every session and cluster is: the node lists
    hold at most [MAX_NODES_PER_LIST] entries, the heartbeat interval is unset or
    an admissible one, the algorithm is ffsplit, the cluster of a session is
    unset or an index of the cluster table, a cluster counts at most [MAX_CLIENTS]
    members; and the node, ring and sequence numbers, versions, deadlines and the
    decision counter are in the range of their C++ types, and buffers, peer and
    cluster names consist of bytes, so the model's integers stand for the
    machine's. *)
Theorem server_well_typed max es : Forall event_bytes es → stored (run (Server0 max) es).
Proof.
  intros Hes. assert (typed (run (Server0 max) es)) as Ht by (apply typed_run; [done|apply typed0]).
  destruct (reachable_good max (run (Server0 max) es)) as [Hg _]; [apply run_reachable, reach_init|].
  pose proof (good_inv _ Hg) as Hinv. split; [done|..|intros c; by apply inv_cluster_bounds|intros c; by apply inv_cluster_bounds].
  intros j. destruct (decide (s_phase (sess (run (Server0 max) es) j) = ACTIVE)) as [Ha|Ha].
  - destruct (so_active _ _ (inv_sess _ Hinv j) Ha) as (Hc & _). lia.
  - destruct (so_inactive _ _ (inv_sess _ Hinv j) Ha) as (-> & _). unfold MAX_CLUSTERS. lia.
Qed.
Lemma server_well_typed_witness :
  s_vote_info_seq (sess split_decided 0) = 2 ∧ stored (run (Server0 32768) (ack_two_nodes_events ++ split_events)).
Proof.
  split; [vm_compute; reflexivity|]. apply (server_well_typed 32768 (ack_two_nodes_events ++ split_events)).
  repeat constructor; apply (bool_decide_unpack _); vm_compute; exact I.
Defined.
