(* ===== verification/Shift.v ===== *)
(** * Receive buffers and recorded effects are not read

    The handlers of the server look neither at the receive buffers nor at the
    effects recorded so far, so they commute with changes to both.  Reading
    operations respect the equivalence [alike] of states that differ in nothing
    else, and writing operations commute with [shift], which changes one buffer
    and puts effects in front of the recorded ones. *)
From S2P Require Import Prelude Wire Tlv Msg State Ffsplit Select Handlers Lifecycle Invariant.
From S2P Require Import HandlerFacts InitFacts Safety Scenarios.
From Stdlib Require Import Morphisms Setoid.
Open Scope Z_scope.

(** ** States that differ in receive buffers and effects only *)

Definition unread (s : Session) : Session := s <| s_rx := [] |>.

Record alike (st st' : Server) : Prop := {
  al_sess i : unread (sess st i) = unread (sess st' i);
  al_clus c : clus st c = clus st' c;
}.

#[export] Instance alike_equivalence : Equivalence alike.
Proof.
  split; [by split| |].
  - by intros st st' [H1 H2].
  - intros st1 st2 st3 [A1 A2] [B1 B2]. split; congruence.
Qed.

(** Sessions up to the buffer. *)
Record same (s s' : Session) : Prop := mkSame { same_unread : unread s = unread s' }.
#[export] Instance same_equivalence : Equivalence same.
Proof. split; [by intros s|by intros s s' []|intros s1 s2 s3 [] []; split; congruence]. Qed.

#[export] Instance sess_proper : Proper (alike ==> eq ==> same) sess.
Proof. intros st st' H i _ <-. split. apply (al_sess _ _ H). Qed.
#[export] Instance clus_proper : Proper (alike ==> eq ==> eq) clus.
Proof. intros st st' H c _ <-. apply (al_clus _ _ H). Qed.

(** A function of a session that ignores the buffer respects [same]. *)
Lemma same_proj {T} (f : Session → T) : (∀ s, f (unread s) = f s) → Proper (same ==> eq) f.
Proof. intros Hf s s' [E]. by rewrite <-(Hf s), <-(Hf s'), E. Qed.

#[export] Instance phase_proper : Proper (same ==> eq) s_phase.
Proof. by apply same_proj. Qed.
#[export] Instance cluster_name_proper : Proper (same ==> eq) s_cluster_name.
Proof. by apply same_proj. Qed.
#[export] Instance cluster_proper : Proper (same ==> eq) s_cluster.
Proof. by apply same_proj. Qed.
#[export] Instance node_id_proper : Proper (same ==> eq) s_node_id.
Proof. by apply same_proj. Qed.
#[export] Instance last_ring_id_proper : Proper (same ==> eq) s_last_ring_id.
Proof. by apply same_proj. Qed.
#[export] Instance heartbeat_proper : Proper (same ==> eq) s_heartbeat_ms.
Proof. by apply same_proj. Qed.
#[export] Instance tie_breaker_proper : Proper (same ==> eq) s_tie_breaker.
Proof. by apply same_proj. Qed.
#[export] Instance algorithm_proper : Proper (same ==> eq) s_algorithm.
Proof. by apply same_proj. Qed.
#[export] Instance keep_active_proper : Proper (same ==> eq) s_keep_active_partition_tb.
Proof. by apply same_proj. Qed.
#[export] Instance config_list_proper : Proper (same ==> eq) s_config_list.
Proof. by apply same_proj. Qed.
#[export] Instance membership_list_proper : Proper (same ==> eq) s_membership_list.
Proof. by apply same_proj. Qed.
#[export] Instance last_heuristics_proper : Proper (same ==> eq) s_last_heuristics.
Proof. by apply same_proj. Qed.
#[export] Instance ff_state_proper : Proper (same ==> eq) s_ff_state.
Proof. by apply same_proj. Qed.
#[export] Instance vote_info_seq_proper : Proper (same ==> eq) s_vote_info_seq.
Proof. by apply same_proj. Qed.
#[export] Instance schedule_disconnect_proper : Proper (same ==> eq) s_schedule_disconnect.
Proof. by apply same_proj. Qed.
#[export] Instance in_cluster_proper : Proper (same ==> eq ==> eq) in_cluster.
Proof. intros s s' E c _ <-. by apply (same_proj (λ s, in_cluster s c)). Qed.
#[export] Instance due_vote_proper : Proper (same ==> eq ==> eq) due_vote.
Proof. intros s s' E b _ <-. by apply (same_proj (λ s, due_vote s b)). Qed.

(** ** The reading operations *)

Lemma forallb_eq {A} (f g : A → bool) l : (∀ x, f x = g x) → forallb f l = forallb g l.
Proof. intros H. induction l; cbn; [done|]. by rewrite H, IHl. Qed.
Lemma existsb_eq {A} (f g : A → bool) l : (∀ x, f x = g x) → existsb f l = existsb g l.
Proof. intros H. induction l; cbn; [done|]. by rewrite H, IHl. Qed.
Lemma find_eq {A} (f g : A → bool) l : (∀ x, f x = g x) → List.find f l = List.find g l.
Proof. intros H. induction l; cbn; [done|]. by rewrite H, IHl. Qed.
Lemma foldl_eq {A B} (f g : A → B → A) a l : (∀ a x, f a x = g a x) → foldl f a l = foldl g a l.
Proof. intros H. revert a. induction l; intros b; cbn; [done|]. by rewrite H, IHl. Qed.

(** Replace a state by an alike one, through the loops and branches of the code. *)
Ltac along H :=
  repeat first [reflexivity|progress rewrite H|apply forallb_eq; intros ?|apply find_eq; intros ?
               |apply foldl_eq; intros ? ?|case_match].

#[export] Instance skip_proper : Proper (alike ==> same ==> eq ==> eq) skip_in_cluster_walk.
Proof. intros st st' H s s' E tv _ <-. unfold skip_in_cluster_walk. by rewrite E, H. Qed.
#[export] Instance eff_config_proper : Proper (alike ==> eq ==> eq ==> eq) eff_config.
Proof. intros st st' H i _ <- tv _ <-. unfold eff_config. along H. Qed.
#[export] Instance eff_membership_proper : Proper (alike ==> eq ==> eq ==> eq) eff_membership.
Proof. intros st st' H i _ <- tv _ <-. unfold eff_membership. along H. Qed.
#[export] Instance eff_ring_proper : Proper (alike ==> eq ==> eq ==> eq) eff_ring.
Proof. intros st st' H i _ <- tv _ <-. unfold eff_ring. along H. Qed.
#[export] Instance eff_heuristics_proper : Proper (alike ==> eq ==> eq ==> eq) eff_heuristics.
Proof. intros st st' H i _ <- tv _ <-. unfold eff_heuristics. along H. Qed.
#[export] Instance walks_proper : Proper (alike ==> eq ==> eq ==> eq ==> eq) walks.
Proof. intros st st' H c _ <- tv _ <- i _ <-. unfold walks. along H. Qed.

#[export] Instance stable_configs_proper : Proper (alike ==> eq ==> eq ==> eq) stable_configs.
Proof.
  intros st st' H c _ <- tv _ <-. unfold stable_configs. along H.
Qed.
#[export] Instance walk_by_node_id_proper : Proper (alike ==> eq ==> eq ==> eq ==> eq) walk_by_node_id.
Proof. intros st st' H c _ <- tv _ <- id _ <-. unfold walk_by_node_id. along H. Qed.
#[export] Instance stable_rings_proper : Proper (alike ==> eq ==> eq ==> eq) stable_rings.
Proof.
  intros st st' H c _ <- tv _ <-. unfold stable_rings. along H.
Qed.
#[export] Instance is_stable_proper : Proper (alike ==> eq ==> eq) ffsplit_is_stable.
Proof. intros st st' H tv _ <-. unfold ffsplit_is_stable. along H. Qed.

#[export] Instance preferred_proper : Proper (alike ==> eq ==> eq ==> eq ==> eq) ffsplit_is_preferred_partition.
Proof. intros st st' H c _ <- cfg _ <- mem _ <-. unfold ffsplit_is_preferred_partition. along H. Qed.
#[export] Instance count_node_proper : Proper (alike ==> eq ==> eq ==> eq ==> eq ==> eq) count_node.
Proof.
  intros st st' H c _ <- h _ <- acc _ <- n _ <-. unfold count_node.
  rewrite (find_eq _ (λ i, in_cluster (sess st' i) (s_cluster (sess st' c)) && (s_node_id (sess st' i) =? ni_node_id n)))
    by (intros i; by rewrite H).
  along H.
Qed.
#[export] Instance stats_proper : Proper (alike ==> eq ==> eq) ffsplit_partition_stats.
Proof.
  intros st st' H cd _ <-. unfold ffsplit_partition_stats. along H.
Qed.
#[export] Instance better_proper : Proper (alike ==> eq ==> eq ==> eq ==> eq ==> eq) ffsplit_partition_better.
Proof.
  intros st st' H c1 _ <- c2 _ <- q _ <- k _ <-. unfold ffsplit_partition_better. along H.
Qed.
#[export] Instance candidate_proper : Proper (alike ==> eq ==> eq ==> eq ==> eq) candidate.
Proof. intros st st' H c _ <- tv _ <- i _ <-. unfold candidate. along H. Qed.
#[export] Instance select_step_proper : Proper (alike ==> eq ==> eq ==> eq ==> eq ==> eq ==> eq) select_step.
Proof. intros st st' H c _ <- tv _ <- k _ <- best _ <- i _ <-. unfold select_step. along H. Qed.
#[export] Instance select_proper : Proper (alike ==> eq ==> eq) ffsplit_select_partition.
Proof.
  intros st st' H tv _ <-. unfold ffsplit_select_partition.
  replace (s_cluster (sess st (tv_slot tv))) with (s_cluster (sess st' (tv_slot tv))) by along H.
  rewrite (existsb_eq _ (λ i, in_cluster (sess st' i) (s_cluster (sess st' (tv_slot tv))) &&
    negb (s_keep_active_partition_tb (sess st' i)))) by (intros i; along H).
  f_equal. along H.
Qed.
#[export] Instance count_state_proper : Proper (alike ==> eq ==> eq ==> eq) ffsplit_count_state.
Proof.
  intros st st' H c _ <- fs _ <-. unfold ffsplit_count_state. f_equal. apply list_filter_iff. intros i. along H.
Qed.
#[export] Instance consistency_proper : Proper (alike ==> eq ==> eq ==> eq) init_consistency.
Proof.
  intros st st' H slot _ <- idx _ <-. induction idx as [|i idx IH]; cbn [init_consistency]; [done|].
  pose proof (sess_proper _ _ H i i eq_refl) as Ei. pose proof (sess_proper _ _ H slot slot eq_refl) as Es.
  rewrite IH, (phase_proper _ _ Ei), (cluster_name_proper _ _ Ei), (cluster_name_proper _ _ Es),
    (algorithm_proper _ _ Ei), (algorithm_proper _ _ Es). along H.
Qed.
#[export] Instance bad_slot_proper : Proper (eq ==> alike ==> eq) bad_slot.
Proof.
  intros slot _ <- st st' H. unfold bad_slot.
  by rewrite (phase_proper _ _ (sess_proper _ _ H (Z.to_nat slot) _ eq_refl)).
Qed.

(** ** The writing operations *)

Lemma foldl_commute {A B} (f : A → B → A) (h : A → A) a l :
  (∀ a x, f (h a) x = h (f a x)) → foldl f (h a) l = h (foldl f a l).
Proof. intros H. revert a. induction l as [|x l IH]; intros a; cbn [foldl]; [done|]. by rewrite H, IH. Qed.

(** A write to a session that neither reads nor changes the buffer. *)
Definition blind (f : Session → Session) : Prop := ∀ s r, f (s <| s_rx := r |>) = (f s) <| s_rx := r |>.

Lemma session_rx s : s <| s_rx := s_rx s |> = s.
Proof. by destruct s. Qed.
Lemma blind_rx f s : blind f → s_rx (f s) = s_rx s.
Proof. intros Hf. rewrite <-(session_rx s) at 1. by rewrite Hf. Qed.

Section shift.
Context (slot : nat) (g : bytes → bytes) (p : list Effect).

(** Change the buffer of [slot] and put effects in front of those recorded. *)
Definition shift (st : Server) : Server :=
  upd_sess slot (λ s, s <| s_rx ::= g |>) (st <| sv_out ::= λ l, p ++ l |>).

Lemma sess_shift st i : sess (shift st) i = sess st i ∨ sess (shift st) i = (sess st i) <| s_rx ::= g |>.
Proof. unfold shift. rewrite sess_upd. case_decide; [by right|by left]. Qed.
Lemma sess_shift_slot st : s_phase (sess st slot) ≠ FREE → sess (shift st) slot = (sess st slot) <| s_rx ::= g |>.
Proof. intros Hf. unfold shift. by rewrite sess_upd_eq. Qed.

Lemma shift_alike st : alike (shift st) st.
Proof. split; [|done]. intros i. destruct (sess_shift st i) as [E|E]; by rewrite E. Qed.

Lemma shift_upd_sess i f st : blind f → upd_sess i f (shift st) = shift (upd_sess i f st).
Proof.
  intros Hf. unfold shift, upd_sess, set_field, set_sv_sessions, set_sv_out. cbn. f_equal. destruct (decide (i = slot)) as [->|Hi].
  - rewrite !list_alter_alter_eq. apply list_alter_ext; [|done]. intros s _.
    change (f (s <| s_rx := g (s_rx s) |>) = (f s) <| s_rx := g (s_rx (f s)) |>). by rewrite Hf, blind_rx.
  - by apply list_alter_alter_ne.
Qed.
Lemma shift_upd_clus c f st : upd_clus c f (shift st) = shift (upd_clus c f st).
Proof. unfold upd_clus. by case_match. Qed.
Lemma shift_emit e st : emit e (shift st) = shift (emit e st).
Proof. unfold emit, shift, upd_sess, set_field, set_sv_sessions, set_sv_out. cbn. by rewrite app_assoc. Qed.

Lemma shift_decisions f st : (shift st) <| sv_decisions ::= f |> = shift (st <| sv_decisions ::= f |>).
Proof. done. Qed.

Lemma read_shift {T} (f : Session → T) `{!Proper (same ==> eq) f} st i : f (sess (shift st) i) = f (sess st i).
Proof. by rewrite shift_alike. Qed.
Lemma in_cluster_shift st i c : in_cluster (sess (shift st) i) c = in_cluster (sess st i) c.
Proof. by rewrite shift_alike. Qed.
Lemma due_vote_shift st i b : due_vote (sess (shift st) i) b = due_vote (sess st i) b.
Proof. by rewrite shift_alike. Qed.
Lemma skip_shift st i tv :
  skip_in_cluster_walk (shift st) (sess (shift st) i) tv = skip_in_cluster_walk st (sess st i) tv.
Proof. by rewrite shift_alike. Qed.
Lemma eff_ring_shift st i tv : eff_ring (shift st) i tv = eff_ring st i tv.
Proof. by rewrite shift_alike. Qed.
Lemma stable_shift st tv : ffsplit_is_stable (shift st) tv = ffsplit_is_stable st tv.
Proof. by rewrite shift_alike. Qed.
Lemma select_shift st tv : ffsplit_select_partition (shift st) tv = ffsplit_select_partition st tv.
Proof. by rewrite shift_alike. Qed.
Lemma count_shift st c fs : ffsplit_count_state (shift st) c fs = ffsplit_count_state st c fs.
Proof. by rewrite shift_alike. Qed.
Lemma consistency_shift st i idx : init_consistency (shift st) i idx = init_consistency st i idx.
Proof. by rewrite shift_alike. Qed.
Lemma clus_shift st c : clus (shift st) c = clus st c.
Proof. done. Qed.

Lemma shift_send i f st : send i f (shift st) = shift (send i f st).
Proof. apply shift_emit. Qed.
Lemma shift_send_err i m code st : send_err i m code (shift st) = shift (send_err i m code st).
Proof. apply shift_emit. Qed.
Lemma shift_notify st : notify (shift st) = shift (notify st).
Proof. apply shift_emit. Qed.

(** Push [shift] outwards over reads and writes. *)
Ltac unshift :=
  repeat first
    [progress rewrite ?in_cluster_shift, ?due_vote_shift, ?skip_shift, ?eff_ring_shift, ?clus_shift, ?stable_shift,
       ?select_shift, ?count_shift, ?consistency_shift, ?shift_upd_clus, ?shift_emit, ?shift_send, ?shift_send_err,
       ?shift_notify, ?shift_decisions
    |match goal with
     | |- context [?f (sess (shift ?st) ?i)] => rewrite (read_shift f st i)
     | |- context [upd_sess ?i ?f (shift ?st)] => rewrite (shift_upd_sess i f st) by done
     end].

Lemma shift_update_states tv w st : ffsplit_update_states tv w (shift st) = shift (ffsplit_update_states tv w st).
Proof.
  unfold ffsplit_update_states. unshift. apply foldl_commute. intros st' i.
  unfold update_state_step. cbv zeta. unshift. by repeat case_match.
Qed.

Definition shift1 {B} (x : Server * B) : Server * B := (shift x.1, x.2).
Lemma shift_send_votes tv b st : ffsplit_send_votes tv b (shift st) = shift1 (ffsplit_send_votes tv b st).
Proof.
  unfold ffsplit_send_votes. unshift. apply (foldl_commute _ shift1 (st, 0%nat)). intros [st' n] i.
  unfold send_vote_step, shift1, send. cbn [fst snd]. unshift. by repeat case_match.
Qed.

Definition shift2 {B C} (x : Server * B * C) : Server * B * C := (shift x.1.1, x.1.2, x.2).
Lemma shift_ffsplit_do tv st : ffsplit_do tv (shift st) = shift2 (ffsplit_do tv st).
Proof.
  unfold ffsplit_do. cbv zeta. unshift. case_match; [done|]. rewrite shift_update_states. unshift.
  rewrite shift_send_votes. destruct (ffsplit_send_votes tv false _) as [st1 n]. cbn [shift1 fst snd].
  case_match; [|done]. unshift. rewrite shift_send_votes.
  destruct (ffsplit_send_votes tv true _) as [st2 k]. cbn [shift1 fst snd]. case_match; by unshift.
Qed.

Lemma shift_leave_cluster i st : leave_cluster i (shift st) = shift (leave_cluster i st).
Proof.
  unfold leave_cluster. cbv zeta. unshift. case_match; [done|]. rewrite shift_ffsplit_do.
  destruct (ffsplit_do _ st) as [[st1 code] v]. cbn [shift2 fst snd]. unshift. case_match; by unshift.
Qed.

(** ** The handlers *)

Lemma shift_preinit i m st : handle_preinit i m (shift st) = shift (handle_preinit i m st).
Proof. unfold handle_preinit. unshift. by repeat case_match. Qed.

Lemma blind_dpd now : blind (reschedule_dpd now).
Proof. intros s r. destruct s. unfold reschedule_dpd. cbn. by repeat case_match. Qed.

Lemma shift_set_option i m now st : handle_set_option i m now (shift st) = shift (handle_set_option i m now st).
Proof.
  unfold handle_set_option. unshift. case_match; [done|]. cbv zeta.
  rewrite (shift_upd_sess i (reschedule_dpd now)) by apply blind_dpd.
  destruct (m_heartbeat_interval_set m), (m_keep_active_partition_tie_breaker_set m); by unshift.
Qed.

Lemma blind_record_vote v : blind (record_vote v).
Proof. intros s r. unfold record_vote. by repeat case_match. Qed.
Lemma blind_node_list_store m : blind (node_list_store m).
Proof. intros s r. unfold node_list_store. by repeat case_match. Qed.

Lemma shift_node_list_decide i m st : node_list_decide i m (shift st) =
  match node_list_decide i m st with inl e => inl e | inr x => inr (shift2 x) end.
Proof.
  unfold node_list_decide. cbv zeta. unshift. rewrite !shift_ffsplit_do.
  destruct (m_node_list_type m); by repeat case_match.
Qed.
Lemma shift_node_list i m st : handle_node_list i m (shift st) = shift (handle_node_list i m st).
Proof.
  unfold handle_node_list. unshift. case_match; [done|]. rewrite shift_node_list_decide.
  destruct (node_list_decide i m st) as [e|[[st1 code] v]]; [by unshift|]. cbn [shift2 fst snd]. unshift.
  rewrite (shift_upd_sess i (node_list_store m)) by apply blind_node_list_store.
  rewrite (shift_upd_sess i (record_vote v)) by apply blind_record_vote. unshift. by case_match.
Qed.

Lemma shift_vote_info_reply i m st : handle_vote_info_reply i m (shift st) = shift (handle_vote_info_reply i m st).
Proof.
  unfold handle_vote_info_reply. unshift. case_match; [done|]. case_match; [done|]. cbv zeta. unshift.
  rewrite !shift_send_votes. destruct (ffsplit_send_votes _ true _) as [st1 n]. cbn [shift1 fst snd].
  repeat case_match; by unshift.
Qed.

Lemma shift_heuristics i m st : handle_heuristics_change i m (shift st) = shift (handle_heuristics_change i m st).
Proof.
  unfold handle_heuristics_change. unshift. case_match; [done|]. cbv zeta. unshift. rewrite shift_ffsplit_do.
  set (r := ffsplit_do _ st).
  assert (∀ b : bool, (if b then (shift st, ERR_NO_ERROR, VOTE_ASK_LATER) else shift2 r) =
    shift2 (if b then (st, ERR_NO_ERROR, VOTE_ASK_LATER) else r)) as -> by (by intros []).
  match goal with |- context [shift2 ?x] => destruct x as [[st1 code] v] end. cbn [shift2 fst snd]. unshift.
  rewrite (shift_upd_sess i (record_vote v)) by apply blind_record_vote. unshift. by case_match.
Qed.

Lemma init_fields_rx m s r :
  init_fields m (s <| s_rx := r |>) = ((init_fields m s).1, (init_fields m s).2 <| s_rx := r |>) ∧
  s_rx (init_fields m s).2 = s_rx s.
Proof.
  unfold init_fields. change (s_phase (s <| s_rx := r |>)) with (s_phase s).
  by destruct (bool_decide (s_phase s = ACTIVE)), (m_node_id_set m), (m_ring_id_set m), (m_heartbeat_interval_set m),
    (heartbeat_invalid (m_heartbeat_interval m)), (m_tie_breaker_set m), (m_decision_algorithm_set m),
    (bool_decide (m_decision_algorithm m = ALG_FFSPLIT)).
Qed.

Lemma shift_find_or_create name st :
  find_or_create_cluster name (shift st) =
    ((find_or_create_cluster name st).1, shift (find_or_create_cluster name st).2).
Proof.
  unfold find_or_create_cluster. unshift. change (clus (shift st)) with (clus st).
  repeat case_match; by rewrite ?shift_upd_clus.
Qed.

Lemma shift_join i now st : init_join i now (shift st) = ((init_join i now st).1, shift (init_join i now st).2).
Proof.
  unfold init_join. unshift. rewrite shift_find_or_create.
  destruct (find_or_create_cluster _ st) as [c st1]. cbn [fst snd]. case_match; [done|]. unshift.
  case_match; unshift; by rewrite shift_upd_sess by apply blind_dpd.
Qed.

Lemma shift_put s st : s_rx s = s_rx (sess st slot) →
  upd_sess slot (λ _, s <| s_rx ::= g |>) (shift st) = shift (upd_sess slot (λ _, s) st).
Proof. intros E. unfold shift, upd_sess, set_field, set_sv_sessions, set_sv_out. cbn. by rewrite !list_alter_alter_eq. Qed.

Lemma shift_init m now st : s_phase (sess st slot) ≠ FREE →
  handle_init slot m now (shift st) = shift (handle_init slot m now st).
Proof.
  intros Hf. unfold handle_init. rewrite sess_shift_slot by done.
  change ((sess st slot) <| s_rx ::= g |>) with ((sess st slot) <| s_rx := g (s_rx (sess st slot)) |>).
  destruct (init_fields_rx m (sess st slot) (g (s_rx (sess st slot)))) as [-> Hrx].
  destruct (init_fields m (sess st slot)) as [code s]. cbn [fst snd] in *. rewrite <-Hrx.
  change (s <| s_rx := g (s_rx s) |>) with (s <| s_rx ::= g |>). rewrite shift_put by done. unshift.
  set (st1 := upd_sess slot (λ _, s) st). set (code1 := if is_no_error code then _ else code).
  rewrite shift_join. destruct (is_no_error code1); [destruct (init_join slot now st1) as [c st2]|]; cbn [fst snd];
    by unshift.
Qed.

Lemma disconnect_busy i st : sv_processing st = true →
  disconnect_client i st =
    if bool_decide (s_phase (sess st i) = FREE) || s_schedule_disconnect (sess st i) then st else scheduled i st.
Proof.
  intros Hp. unfold disconnect_client. case_match; [done|].
  change (sv_processing (set_field sv_pending_close _ _)) with (sv_processing st). by rewrite Hp.
Qed.
Lemma shift_disconnect i st : sv_processing st = true → disconnect_client i (shift st) = shift (disconnect_client i st).
Proof.
  intros Hp. rewrite !disconnect_busy by done. unshift. case_match; [done|]. unfold scheduled. by unshift.
Qed.

Lemma shift_dispatch type m frame len now st : s_phase (sess st slot) ≠ FREE →
  dispatch slot type m frame len now (shift st) = shift (dispatch slot type m frame len now st).
Proof.
  intros Hf. unfold dispatch. cbv zeta. unshift. case_match; [done|].
  destruct type; repeat (case_match; [done|]);
    auto using shift_preinit, shift_init, shift_set_option, shift_node_list, shift_vote_info_reply, shift_heuristics.
Qed.
Lemma shift_frame type frame len plen now st : s_phase (sess st slot) ≠ FREE → sv_processing st = true →
  handle_frame slot type frame len plen now (shift st) = shift (handle_frame slot type frame len plen now st).
Proof.
  intros Hf Hp. unfold handle_frame. unshift.
  case_match; [by apply shift_dispatch|by apply shift_disconnect..].
Qed.
End shift.
