(* ===== verification/Chunks.v ===== *)
(** * Segmentation of the byte stream

    TCP delivers a stream; how it is cut into reads is up to the network and to
    the buffer sizes of the embedders (512 bytes in qnetd_component.cpp, 2048 in
    qnetd_lite.cpp).  This file shows that the cuts do not matter: feeding chunks
    to [on_data] one by one and feeding their concatenation lead to the same
    state, the same frames and the same closes.  Only the number of
    [on_state_change] notifications depends on the cuts. *)
From S2P Require Import Prelude Double Wire Tlv Msg State Ffsplit Select Handlers Lifecycle Invariant.
From S2P Require Import HandlerFacts InitFacts Safety Scenarios Shift.
Open Scope Z_scope.

(** ** Frames and the bytes behind them *)

Lemma handle_frame_app slot type frame d plen now st : (MSG_HEADER_LEN + plen ≤ length frame)%nat →
  handle_frame slot type (frame ++ d) (MSG_HEADER_LEN + plen) plen now st =
  handle_frame slot type frame (MSG_HEADER_LEN + plen) plen now st.
Proof.
  intros Hl. unfold handle_frame. rewrite drop_app_le by lia.
  rewrite !msg_decode_split by (rewrite ?length_app, length_drop; lia). rewrite take_app_le by (rewrite length_drop; lia).
  assert (∀ m, dispatch slot type m (frame ++ d) (MSG_HEADER_LEN + plen) now st =
    dispatch slot type m frame (MSG_HEADER_LEN + plen) now st) as H; [|by repeat case_match].
  intros m. unfold dispatch, build_echo_reply. by rewrite take_app_le by lia.
Qed.

(** ** The loop with more data *)

Section more.
Context (slot : nat) (d : bytes) (p : list Effect) (now : Z).

(** [d] arrives as well, and [p] was recorded before. *)
Abbreviation more := (shift slot (λ r, r ++ d) p).

(** An iteration that does something does the same with more data behind. *)
Lemma step_more st b st' : busy slot st → on_data_step slot now st = Some (b, st') →
  on_data_step slot now (more st) = Some (b, more st').
Proof.
  intros [Hinv Hs Hp Hf]. unfold on_data_step. rewrite !(read_shift slot _ p s_phase), (read_shift slot _ p s_schedule_disconnect).
  case_match; [done|]. rewrite sess_shift_slot by done.
  change (s_rx ((sess st slot) <| s_rx ::= λ r, r ++ d |>)) with (s_rx (sess st slot) ++ d).
  set (rx := s_rx (sess st slot)). destruct (Nat.ltb_spec (length rx) MSG_HEADER_LEN) as [|Hl]; [done|].
  unfold MSG_HEADER_LEN in Hl.
  destruct (Nat.ltb_spec (length (rx ++ d)) MSG_HEADER_LEN) as [Hl'|_]; [rewrite length_app in Hl'; unfold MSG_HEADER_LEN in Hl'; lia|].
  rewrite be_get16_app, drop_app_le, be_get32_app by (rewrite ?length_drop; lia).
  destruct (be_get16 rx) as [type| |]; [|done..]. destruct (be_get32 (drop 2 rx)) as [plen| |]; [|done..].
  change (sv_max_rx_frame (more st)) with (sv_max_rx_frame st). case_match.
  { intros [= <- <-]. by rewrite shift_send_err, shift_disconnect. }
  destruct (Nat.ltb_spec (length rx) (MSG_HEADER_LEN + Z.to_nat plen)) as [|Hle]; [done|].
  rewrite (proj2 (Nat.ltb_ge _ _)) by (rewrite length_app; lia). intros [= <- <-].
  rewrite shift_frame, handle_frame_app by done. f_equal. f_equal.
  destruct (handle_frame_ok slot (MsgType_of_Z type) rx (MSG_HEADER_LEN + Z.to_nat plen) (Z.to_nat plen) now st Hinv Hf Hp)
    as [Hh _]. set (st1 := handle_frame _ _ _ _ _ _ st) in *.
  unfold shift, upd_sess, set_field, set_sv_sessions, set_sv_out. cbn. f_equal. rewrite !list_alter_alter_eq.
  apply list_alter_ext; [|done]. intros s Hls.
  assert (s_rx s = rx) as Hrx.
  { rewrite <-(hp_rx _ _ _ Hh slot : s_rx (sess st1 slot) = rx). unfold sess. by rewrite Hls. }
  unfold MSG_HEADER_LEN in Hle. unfold compose, set_s_rx. cbn. rewrite Hrx. by rewrite drop_app_le by lia.
Qed.

(** If nothing more arrives, an iteration that ends the loop still ends it. *)
Lemma step_none st : d = [] → on_data_step slot now st = None → on_data_step slot now (more st) = None.
Proof.
  intros Hd. unfold on_data_step. rewrite !(read_shift slot _ p s_phase), (read_shift slot _ p s_schedule_disconnect).
  change (sv_max_rx_frame (more st)) with (sv_max_rx_frame st).
  assert (s_rx (sess (more st) slot) = s_rx (sess st slot)) as ->; [|by repeat case_match].
  destruct (sess_shift slot (λ r, r ++ d) p st slot) as [E|E]; rewrite E; [done|].
  rewrite Hd. apply app_nil_r.
Qed.

(** The loop consumes the complete frames of the data at hand, then it goes on
    with the rest - unless the session is to be closed, when it stops. *)
Lemma loop_more n m st : busy slot st → (length (s_rx (sess st slot)) < n)%nat →
  let st' := on_data_loop n slot now st in
  (s_schedule_disconnect (sess st' slot) = true → on_data_loop (n + m) slot now (more st) = more st') ∧
  (s_schedule_disconnect (sess st' slot) = false →
   ∃ k, (length (s_rx (sess st' slot)) < k)%nat ∧
     on_data_loop (n + m) slot now (more st) = on_data_loop (k + m) slot now (more st')).
Proof.
  revert st. induction n as [|n IH]; intros st Hb Hn; [lia|]. cbn [on_data_loop Nat.add].
  pose proof (on_data_step_cases slot now st Hb) as Hc.
  destruct (on_data_step slot now st) as [[[] st1]|] eqn:E.
  - rewrite (step_more st true st1 Hb E). destruct Hc as ([A1 _ _ _] & k & Hk & Hrx). unfold MSG_HEADER_LEN in Hk.
    apply IH; [done|]. rewrite Hrx, length_drop. lia.
  - rewrite (step_more st false st1 Hb E). destruct Hc as (_ & Hsd & _). split; [done|]. by rewrite Hsd.
  - split.
    + intros Hsd. unfold on_data_step. rewrite (read_shift slot _ p s_schedule_disconnect), Hsd, orb_true_r. done.
    + intros _. by exists (S n).
Qed.

(** Effects recorded before a call do not change it. *)
Lemma loop_recorded n st : d = [] → busy slot st → on_data_loop n slot now (more st) = more (on_data_loop n slot now st).
Proof.
  intros Hd. revert st. induction n as [|n IH]; intros st Hb; [done|]. cbn [on_data_loop].
  pose proof (on_data_step_cases slot now st Hb) as Hc. destruct (on_data_step slot now st) as [[b st1]|] eqn:E.
  - rewrite (step_more st b st1 Hb E). destruct b; [|done]. destruct Hc as ([A1 _ _ _] & _). by apply IH.
  - by rewrite step_none.
Qed.
End more.

(** ** Deferred closes *)

Definition recorded (p : list Effect) (st : Server) : Server := st <| sv_out ::= λ l, p ++ l |>.

Lemma shift_recorded slot p st : shift slot (λ r, r ++ []) p st = recorded p st.
Proof.
  unfold shift, recorded, upd_sess, set_field, set_sv_sessions, set_sv_out. cbn. f_equal. apply list_alter_id.
  intros s. unfold set_s_rx. rewrite app_nil_r. by destruct s.
Qed.

Lemma drain_none st : sv_pending_close st = [] → drain_closes st = notify (st <| sv_processing := false |>).
Proof.
  intros Hp. unfold drain_closes. change (sv_pending_close (st <| sv_processing := true |>)) with (sv_pending_close st).
  by rewrite Hp.
Qed.
Lemma drain_one slot st : sv_pending_close st = [slot] → s_phase (sess st slot) ≠ FREE →
  drain_closes st = notify ((emit (EClose slot) (reset_sess slot (leave_cluster slot
    (st <| sv_processing := true |> <| sv_pending_close := [] |>)))) <| sv_processing := false |>).
Proof.
  intros Hp Hf. unfold drain_closes. change (sv_pending_close (st <| sv_processing := true |>)) with (sv_pending_close st).
  rewrite Hp. cbn [length drain_loop].
  change (sv_pending_close (st <| sv_processing := true |>)) with (sv_pending_close st). rewrite Hp. cbn [last].
  match goal with |- context [bool_decide (s_phase (sess ?x slot) = FREE)] => change (sess x slot) with (sess st slot) end.
  rewrite bool_decide_eq_false_2 by done.
  assert ((st <| sv_processing := true |>) <| sv_pending_close ::= λ l, take (length l - 1) l |> =
    (st <| sv_processing := true |>) <| sv_pending_close := [] |>) as ->; [|done].
  unfold set_field, set_sv_pending_close. cbn. by rewrite Hp.
Qed.

Lemma reset_shift slot g p st : reset_sess slot (shift slot g p st) = recorded p (reset_sess slot st).
Proof.
  unfold reset_sess, shift, recorded, upd_sess, set_field, set_sv_sessions, set_sv_out. cbn. f_equal.
  by rewrite list_alter_alter_eq.
Qed.

(** Closing the session discards what is left in its buffer. *)
Lemma drain_shift slot g p st : sv_pending_close st = [slot] → s_phase (sess st slot) ≠ FREE →
  drain_closes (shift slot g p st) = recorded p (drain_closes st).
Proof.
  intros Hpe Hf. rewrite !(drain_one slot) by (done || by rewrite (read_shift slot g p s_phase)).
  set (st1 := st <| sv_processing := true |> <| sv_pending_close := [] |>).
  change (_ <| sv_processing := true |> <| sv_pending_close := [] |>) with (shift slot g p st1) at 1.
  rewrite shift_leave_cluster, reset_shift. generalize (reset_sess slot (leave_cluster slot st1)). intros st2.
  unfold notify, emit, recorded, set_field, set_sv_out, set_sv_processing. cbn. by rewrite !app_assoc.
Qed.
Lemma drain_recorded slot p st : sv_pending_close st = [slot] ∧ s_phase (sess st slot) ≠ FREE ∨ sv_pending_close st = [] →
  drain_closes (recorded p st) = recorded p (drain_closes st).
Proof.
  intros [[Hp Hf]|Hp].
  - rewrite <-(shift_recorded slot p st). by apply drain_shift.
  - rewrite !drain_none by done. unfold notify, emit, recorded, set_field, set_sv_out, set_sv_processing. cbn.
    by rewrite app_assoc.
Qed.

(** ** The timer *)

Section timer.
Context (slot : nat) (now : Z).

(** The session's deadline is that of data received at [now]. *)
Definition fresh (s : Session) : Prop := reschedule_dpd now s = s.
Definition timer (s : Session) : Phase * Z * Z := (s_phase s, s_heartbeat_ms s, s_deadline_ms s).

Lemma fresh_iff s : fresh s ↔
  (s_phase s = ACTIVE → 0 < s_heartbeat_ms s → s_deadline_ms s = u64 (now + default 0 (dpd_interval (s_heartbeat_ms s)))) ∧
  (s_phase s = WAIT_PREINIT ∨ s_phase s = WAIT_INIT → s_deadline_ms s = u64 (now + PREACTIVE_TIMEOUT_MS)).
Proof.
  assert (∀ v, s <| s_deadline_ms := v |> = s ↔ s_deadline_ms s = v) as H.
  { intros v. split; [intros E; rewrite <-E; done|intros <-; by destruct s]. }
  unfold fresh, reschedule_dpd. repeat case_bool_decide; cbn [andb negb]; try congruence.
  - destruct (Z.ltb_spec 0 (s_heartbeat_ms s)) as [Hh|Hh].
    + rewrite H. split; [|intros [E _]; auto]. intros E. split; [done|]. intros []; congruence.
    + split; [|done]. intros _. split; [lia|]. intros []; congruence.
  - split; [|done]. intros _. split; [congruence|]. intros []; congruence.
  - rewrite H. split; [|intros [_ E]; apply E; destruct (s_phase s); naive_solver]. intros E. by split.
Qed.
Lemma fresh_timer s s' : timer s' = timer s → fresh s → fresh s'.
Proof. unfold timer. rewrite !fresh_iff. by intros [= -> -> ->]. Qed.
Lemma dpd_fresh s : fresh (reschedule_dpd now s).
Proof.
  unfold fresh, reschedule_dpd at 2. destruct (bool_decide (s_phase s = ACTIVE) && (0 <? s_heartbeat_ms s)) eqn:E1.
  - unfold reschedule_dpd. cbn. by rewrite E1.
  - destruct (negb (bool_decide (s_phase s = FREE)) && negb (bool_decide (s_phase s = ACTIVE))) eqn:E2.
    + unfold reschedule_dpd. cbn. by rewrite E1, E2.
    + unfold reschedule_dpd. by rewrite E1, E2.
Qed.

Definition keeps (st st' : Server) : Prop := fresh (sess st slot) → fresh (sess st' slot).
Lemma keeps_trans st1 st2 st3 : keeps st1 st2 → keeps st2 st3 → keeps st1 st3.
Proof. unfold keeps. auto. Qed.
Lemma keeps_upd_sess i f st : (∀ s, timer (f s) = timer s) → keeps st (upd_sess i f st).
Proof. intros Hf Hs. rewrite sess_upd. case_decide; [|done]. exact (fresh_timer _ _ (Hf _) Hs). Qed.
Lemma keeps_upd_clus c f st : keeps st (upd_clus c f st).
Proof. unfold keeps. by rewrite sess_upd_clus. Qed.
Lemma keeps_emit e st : keeps st (emit e st).
Proof. exact (λ H, H). Qed.
Lemma fresh_dpd st : fresh (sess (upd_sess slot (reschedule_dpd now) st) slot).
Proof.
  rewrite sess_upd. case_decide as Hd; [apply dpd_fresh|]. unfold sess.
  destruct (sv_sessions st !! slot) eqn:E; [|done]. destruct Hd. split; [done|]. by eapply lookup_lt_Some.
Qed.

Lemma keeps_refl st : keeps st st.
Proof. exact (λ H, H). Qed.
Lemma keeps_foldl {B} (f : Server → B → Server) l st : (∀ st x, keeps st (f st x)) → keeps st (foldl f st l).
Proof.
  intros Hf. revert st. induction l as [|x l IH]; intros st; [apply keeps_refl|]. cbn [foldl].
  eapply keeps_trans; [apply Hf|apply IH].
Qed.

Create HintDb timer.
Hint Resolve keeps_refl keeps_upd_clus keeps_emit keeps_foldl : timer.
Hint Extern 1 (keeps _ (upd_sess _ _ _)) => by apply keeps_upd_sess : timer.

(** Split [keeps] at the last write. *)
Ltac keep :=
  repeat first
    [by auto with timer
    |match goal with
     | |- keeps _ (upd_sess _ _ ?x) => apply (keeps_trans _ x)
     | |- keeps _ (upd_clus _ _ ?x) => apply (keeps_trans _ x)
     | |- keeps _ (emit _ ?x) => apply (keeps_trans _ x)
     end].

Lemma keeps_update_states tv w st : keeps st (ffsplit_update_states tv w st).
Proof. apply keeps_foldl. intros st' i. unfold update_state_step. repeat case_match; keep. Qed.
Lemma keeps_send_votes tv b st : keeps st (ffsplit_send_votes tv b st).1.
Proof.
  unfold ffsplit_send_votes. generalize (s_cluster (sess st (tv_slot tv))) 0%nat slots. intros c n l.
  revert st n. induction l as [|i l IH]; intros st n; [apply keeps_refl|]. cbn [foldl].
  apply (keeps_trans _ (send_vote_step tv b c (st, n) i).1).
  - unfold send_vote_step, send. repeat case_match; cbn [fst]; keep.
  - destruct (send_vote_step tv b c (st, n) i) as [st1 k]. apply IH.
Qed.
Lemma keeps_ffsplit_do tv st : keeps st (ffsplit_do tv st).1.1.
Proof.
  unfold ffsplit_do. cbv zeta. case_match; [apply keeps_upd_clus|].
  match goal with |- context [ffsplit_send_votes tv false ?x] => set (st1 := x) end.
  apply (keeps_trans _ st1).
  { unfold st1. keep. eapply keeps_trans; [|apply keeps_update_states]. apply (keeps_upd_clus _ _ st). }
  pose proof (keeps_send_votes tv false st1) as H1. destruct (ffsplit_send_votes tv false st1) as [st2 n].
  case_match; [|done]. cbn [fst] in *. apply (keeps_trans _ _ _ H1).
  match goal with |- context [ffsplit_send_votes tv true ?x] => set (st3 := x) end.
  apply (keeps_trans _ st3); [apply keeps_upd_clus|].
  pose proof (keeps_send_votes tv true st3) as H2. destruct (ffsplit_send_votes tv true st3) as [st4 k].
  cbn [fst] in *. case_match; keep.
Qed.

Lemma keeps_record v i st : keeps st (upd_sess i (record_vote v) st).
Proof. apply keeps_upd_sess. intros s. unfold record_vote. by case_match. Qed.
Lemma keeps_store m i st : keeps st (upd_sess i (node_list_store m) st).
Proof. apply keeps_upd_sess. intros s. unfold node_list_store. by case_match. Qed.
Hint Resolve keeps_record keeps_store : timer.

Lemma keeps_preinit m st : keeps st (handle_preinit slot m st).
Proof.
  unfold handle_preinit, send_err, send. case_match; [apply keeps_emit|].
  destruct (bool_decide_reflect (s_phase (sess st slot) = WAIT_PREINIT)) as [Hp|]; [|apply keeps_emit]. cbn [negb].
  eapply keeps_trans; [|apply keeps_emit]. intros Hs. rewrite sess_upd_eq by congruence.
  apply fresh_iff in Hs as [_ Hs]. apply fresh_iff. cbn. split; [done|]. intros _. apply Hs. by left.
Qed.

Lemma fresh_init_fields m s : fresh s → fresh (init_fields m s).2.
Proof.
  intros Hs. destruct (decide (s_phase s = ACTIVE)) as [Ha|Ha].
  - apply (fresh_timer s); [|done]. unfold init_fields. by rewrite bool_decide_eq_true_2.
  - apply fresh_iff in Hs as [_ Hs]. apply fresh_iff.
    assert (s_phase (init_fields m s).2 = s_phase s ∧ s_deadline_ms (init_fields m s).2 = s_deadline_ms s) as [-> ->];
      [|by split].
    unfold init_fields. rewrite bool_decide_eq_false_2 by done. by repeat case_match; simplify_eq/=.
Qed.
Lemma keeps_init m now' st : s_phase (sess st slot) ≠ FREE → now' = now → keeps st (handle_init slot m now' st).
Proof.
  intros Hf ->. unfold handle_init. pose proof (fresh_init_fields m (sess st slot)) as Hi.
  destruct (init_fields m (sess st slot)) as [code s]. cbn [snd] in Hi. unfold notify, send.
  set (st1 := upd_sess slot (λ _, s) st).
  assert (keeps st st1) as H1 by (intros Hs; unfold st1; rewrite sess_upd_eq by done; auto).
  eapply keeps_trans; [exact H1|]. generalize (if is_no_error code then init_consistency st1 slot slots else code). intros c1.
  destruct (is_no_error c1); [|keep]. unfold init_join.
  destruct (find_or_create_cluster _ st1) as [c st2] eqn:E.
  assert (keeps st1 st2) as H2.
  { unfold find_or_create_cluster in E. repeat case_match; simplify_eq; keep. }
  apply (keeps_trans _ _ _ H2). destruct (c <? 0); [keep|]. intros _. apply fresh_dpd.
Qed.

Lemma keeps_set_option m st : keeps st (handle_set_option slot m now st).
Proof.
  unfold handle_set_option, send_err, send. case_match; [keep|]. cbv zeta.
  eapply keeps_trans; [|apply keeps_emit].
  set (st1 := if m_heartbeat_interval_set m then _ else st).
  assert (keeps st st1) as H1 by (unfold st1; case_match; [intros _; apply fresh_dpd|keep]).
  apply (keeps_trans _ _ _ H1). case_match; keep.
Qed.

Lemma keeps_node_list m st : keeps st (handle_node_list slot m st).
Proof.
  unfold handle_node_list, send_err, send, notify. case_match; [keep|].
  assert (∀ x, node_list_decide slot m st = inr x → keeps st x.1.1) as Hd.
  { intros x. unfold node_list_decide. repeat case_match; intros [= <-]; first [apply keeps_refl|apply keeps_ffsplit_do]. }
  destruct (node_list_decide slot m st) as [e|[[st1 code] v]]; [keep|]. specialize (Hd _ eq_refl). cbn [fst] in Hd.
  apply (keeps_trans _ _ _ Hd). case_match; keep.
Qed.

Lemma keeps_vote_info_reply m st : keeps st (handle_vote_info_reply slot m st).
Proof.
  unfold handle_vote_info_reply, send_err, send, notify. case_match; [keep|]. case_match; [keep|]. cbv zeta.
  eapply keeps_trans; [|apply keeps_emit]. set (st1 := upd_sess slot _ st).
  apply (keeps_trans _ st1); [by apply keeps_upd_sess|]. destruct (cl_state _); [keep|keep| |case_match; keep].
  match goal with |- context [ffsplit_send_votes ?tv true ?x] =>
    pose proof (keeps_send_votes tv true x) as Hv; destruct (ffsplit_send_votes tv true x) as [st2 n] end.
  cbn [fst] in Hv. destruct (_ =? 0)%nat; [|keep].
  refine (keeps_trans _ _ _ (keeps_upd_clus _ _ st1) (keeps_trans _ _ _ Hv _)). case_match; keep.
Qed.

Lemma keeps_heuristics m st : keeps st (handle_heuristics_change slot m st).
Proof.
  unfold handle_heuristics_change, send_err, send, notify. case_match; [keep|]. cbv zeta.
  match goal with |- context [ffsplit_do ?tv st] => pose proof (keeps_ffsplit_do tv st) as Hd; set (r := ffsplit_do tv st) in * end.
  destruct (nl_empty _ || nl_empty _).
  - case_match; keep.
  - destruct r as [[st1 code] v]. cbn [fst] in Hd. apply (keeps_trans _ _ _ Hd). case_match; keep.
Qed.

Lemma keeps_disconnect i st : sv_processing st = true → keeps st (disconnect_client i st).
Proof.
  intros Hp. rewrite disconnect_busy by done. case_match; [apply keeps_refl|].
  apply (keeps_upd_sess i (λ s, s <| s_schedule_disconnect := true |>) st). done.
Qed.
Lemma keeps_frame type frame len plen st : s_phase (sess st slot) ≠ FREE → sv_processing st = true →
  keeps st (handle_frame slot type frame len plen now st).
Proof.
  intros Hf Hp. unfold handle_frame.
  assert (keeps st (disconnect_client slot (send_err slot MsgDecoded0 ERR_ERROR_DECODING_MSG st))) as Hd.
  { eapply keeps_trans; [|by apply keeps_disconnect]. apply keeps_emit. }
  case_match; [|done..]. unfold dispatch, send_err, send. case_match; [keep|].
  destruct type; repeat case_match;
    auto using keeps_emit, keeps_preinit, keeps_init, keeps_set_option, keeps_node_list, keeps_vote_info_reply, keeps_heuristics.
Qed.
Lemma keeps_step b st st' : busy slot st → on_data_step slot now st = Some (b, st') → keeps st st'.
Proof.
  intros [_ _ Hp Hf]. unfold on_data_step. repeat (case_match; [done|]). do 2 (case_match; [|done..]).
  case_match; [intros [= <- <-]|case_match; [done|intros [= <- <-]]].
  - eapply keeps_trans; [|by apply keeps_disconnect]. apply keeps_emit.
  - eapply keeps_trans; [|by apply keeps_upd_sess]. by apply keeps_frame.
Qed.
Lemma keeps_loop n st : busy slot st → keeps st (on_data_loop n slot now st).
Proof.
  revert st. induction n as [|n IH]; intros st Hb; [apply keeps_refl|]. cbn [on_data_loop].
  pose proof (on_data_step_cases slot now st Hb) as Hc.
  destruct (on_data_step slot now st) as [[[] st1]|] eqn:E; [|by eapply keeps_step|apply keeps_refl].
  eapply keeps_trans; [by eapply keeps_step|]. destruct Hc as ([A1 _ _ _] & _). by apply IH.
Qed.
End timer.

(** ** Calls *)

Lemma received_app i d1 d2 now st :
  received i (d1 ++ d2) now st = shift i (λ r, r ++ d2) [] (received i d1 now st).
Proof.
  unfold received, shift, upd_sess, set_field, set_sv_sessions, set_sv_out, set_sv_processing. cbn. f_equal.
  rewrite !list_alter_alter_eq. apply list_alter_ext; [|done]. intros s _.
  change (reschedule_dpd now (s <| s_rx := s_rx s ++ d1 ++ d2 |>) =
    (reschedule_dpd now (s <| s_rx := s_rx s ++ d1 |>)) <| s_rx ::= λ r, r ++ d2 |>).
  rewrite !(blind_dpd now). unfold set_field, set_s_rx. cbn. by rewrite app_assoc.
Qed.

(** The state in the loop of a call: whether the session is about to be closed,
    nothing else is. *)
Record looping (i : nat) (now : Z) (t : Server) : Prop := {
  lp_busy : busy i t;
  lp_fresh : fresh now (sess t i);
  lp_pending : s_schedule_disconnect (sess t i) = true ∧ sv_pending_close t = [i] ∨
    s_schedule_disconnect (sess t i) = false ∧ sv_pending_close t = [];
}.

Lemma loop_looping i d now st : good st → s_phase (sess st i) ≠ FREE →
  let s1 := received i d now st in
  looping i now (on_data_loop (S (length (s_rx (sess s1 i)))) i now s1).
Proof.
  intros Hg Hf s1. destruct (received_busy i d now st Hg Hf) as (Hb & Hrx & _ & Hother & _). fold s1 in Hb, Hrx, Hother.
  destruct (on_data_loop_post (S (length (s_rx (sess s1 i)))) i now s1 Hb) as [B1 _ B3 _ _ _]; [lia|].
  pose proof (keeps_loop i now (S (length (s_rx (sess s1 i)))) s1 Hb) as Hk.
  set (t := on_data_loop _ i now s1) in *. split; [done| |].
  { apply Hk. exact (fresh_dpd i now _). }
  destruct B1 as [_ [Hs1 Hs2] _ _].
  assert (∀ j, j ∈ sv_pending_close t → j = i) as Hp.
  { intros j Hj. destruct (decide (j = i)) as [|Hne]; [done|]. apply Hs1 in Hj.
    rewrite (unvoted_proj s_schedule_disconnect _ _ (λ _, eq_refl) (B3 j Hne)), Hother in Hj by done.
    by rewrite (good_sched _ Hg) in Hj. }
  destruct (sv_pending_close t) as [|j l] eqn:E.
  - right. split; [|done]. apply not_true_is_false. rewrite Hs1. apply not_elem_of_nil.
  - left. assert (j = i) as -> by (apply Hp, list_elem_of_here). split; [apply Hs1, list_elem_of_here|].
    destruct l as [|k l]; [done|]. assert (k = i) as -> by (apply Hp, list_elem_of_further, list_elem_of_here).
    apply NoDup_cons in Hs2 as [Hn _]. by destruct Hn; apply list_elem_of_here.
Qed.

Definition is_output (e : Effect) : Prop := e ≠ ENotify.
#[export] Instance is_output_dec e : Decision (is_output e).
Proof. unfold is_output. apply _. Defined.

(** A state without the record of its notifications. *)
Definition unnotified (st : Server) : Server := st <| sv_out ::= filter is_output |>.

Lemma unnotified_recorded p st : unnotified (recorded p st) = recorded (filter is_output p) (unnotified st).
Proof. unfold unnotified, recorded, set_field, set_sv_out. cbn. by rewrite filter_app. Qed.

(** [on_data] on a slot in use. *)
Lemma on_data_run slot d now st : bad_slot slot st = false → s_schedule_disconnect (sess st (Z.to_nat slot)) = false →
  let s1 := received (Z.to_nat slot) d now st in
  on_data slot d now st =
    drain_closes ((on_data_loop (S (length (s_rx (sess s1 (Z.to_nat slot))))) (Z.to_nat slot) now s1)
      <| sv_processing := false |>).
Proof. intros Hb Hs. rewrite on_data_eq, Hb, Hs. done. Qed.

(** Effects recorded before the call do not change it. *)
Lemma good_recorded p st : good st → good (recorded p st).
Proof. intros [Hi Hp Hpe Hs]. split; [|done..]. by apply (inv_same st). Qed.
Lemma on_data_recorded p slot d now st : good st →
  on_data slot d now (recorded p st) = recorded p (on_data slot d now st).
Proof.
  intros Hg. destruct (bad_slot slot st) eqn:Hb.
  { unfold on_data. change (bad_slot slot (recorded p st)) with (bad_slot slot st). by rewrite Hb. }
  destruct (bad_slot_false _ _ Hb) as (_ & _ & Hf). set (i := Z.to_nat slot) in *.
  rewrite !on_data_run by (done || apply (good_sched _ Hg)). fold i.
  destruct (received_busy i d now st Hg Hf) as (Hbu & _). pose proof (loop_looping i d now st Hg Hf) as [L1 _ L3].
  change (received i d now (recorded p st)) with (recorded p (received i d now st)).
  set (s1 := received i d now st) in *. change (sess (recorded p s1) i) with (sess s1 i).
  rewrite <-(shift_recorded i p s1), (loop_recorded i [] p now _ s1 eq_refl Hbu), shift_recorded.
  set (t := on_data_loop _ i now s1) in *. clearbody t.
  change ((recorded p t) <| sv_processing := false |>) with (recorded p (t <| sv_processing := false |>)).
  apply (drain_recorded i). destruct L3 as [[_ Hp]|[_ Hp]]; [left|by right]. split; [done|]. apply (busy_alive _ _ L1).
Qed.

Definition muted (st : Server) : Server := st <| sv_out := [] |>.
Lemma recorded_muted st : recorded (sv_out st) (muted st) = st.
Proof. destruct st. unfold recorded, muted, set_field, set_sv_out. cbn. by rewrite app_nil_r. Qed.
Lemma good_muted st : good st → good (muted st).
Proof. intros [Hi Hp Hpe Hs]. split; [|done..]. by apply (inv_same st). Qed.

(** States that agree up to notifications still do after a call. *)
Lemma on_data_unnotified slot d now x y : good x → good y → unnotified x = unnotified y →
  unnotified (on_data slot d now x) = unnotified (on_data slot d now y).
Proof.
  intros Hx Hy E. rewrite <-(recorded_muted x), <-(recorded_muted y), !on_data_recorded by (by apply good_muted).
  rewrite !unnotified_recorded.
  assert (muted x = muted y) as -> by (change (muted (unnotified x) = muted (unnotified y)); by rewrite E).
  f_equal. change (sv_out (unnotified x) = sv_out (unnotified y)). by rewrite E.
Qed.

(** ** Two chunks *)

Lemma shift_nil i g st : shift i g [] st = upd_sess i (λ s, s <| s_rx ::= g |>) st.
Proof. by destruct st. Qed.
Lemma busy_more i g st : busy i st → busy i (shift i g [] st).
Proof. intros Hb. rewrite shift_nil. apply busy_benign; [apply benign_rx|done]. Qed.

Lemma received_fresh i d now t : fresh now (sess t i) → sv_processing t = true →
  received i d now (t <| sv_processing := false |>) = shift i (λ r, r ++ d) [] t.
Proof.
  intros Hf Hp. rewrite shift_nil. unfold received, upd_sess, set_field, set_sv_sessions, set_sv_processing. cbn.
  rewrite Hp. f_equal. rewrite list_alter_alter_eq. apply list_alter_ext; [|done]. intros s Hs.
  change (reschedule_dpd now (s <| s_rx := s_rx s ++ d |>) = s <| s_rx := s_rx s ++ d |>).
  rewrite (blind_dpd now). unfold fresh, sess in Hf. rewrite Hs in Hf. cbn in Hf. by rewrite Hf.
Qed.

Section two.
Context (slot : Z) (d1 d2 : bytes) (now : Z) (st : Server).
Context (Hg : good st) (Hb : bad_slot slot st = false).

Local Definition i : nat := Z.to_nat slot.
(** The state when the loop over the first chunk is done. *)
Local Definition mid : Server :=
  let s1 := received i d1 now st in on_data_loop (S (length (s_rx (sess s1 i)))) i now s1.

Lemma two_alive : s_phase (sess st i) ≠ FREE.
Proof using Hb. by destruct (bad_slot_false _ _ Hb) as (_ & _ & Hf). Qed.
Lemma mid_looping : looping i now mid.
Proof using Hg Hb. apply loop_looping; [done|apply two_alive]. Qed.
Lemma mid_more :
  (s_schedule_disconnect (sess mid i) = true →
   on_data slot (d1 ++ d2) now st = drain_closes ((shift i (λ r, r ++ d2) [] mid) <| sv_processing := false |>)) ∧
  (s_schedule_disconnect (sess mid i) = false →
   on_data slot (d1 ++ d2) now st =
     drain_closes ((on_data_loop (S (length (s_rx (sess mid i) ++ d2))) i now (shift i (λ r, r ++ d2) [] mid))
       <| sv_processing := false |>)).
Proof using Hg Hb.
  pose proof two_alive as Hf. destruct (received_busy i d1 now st Hg Hf) as (Hbu & _ & _).
  rewrite on_data_run by (done || apply (good_sched _ Hg)). fold i. rewrite received_app.
  destruct (loop_more i d2 [] now (S (length (s_rx (sess (received i d1 now st) i)))) (length d2) _ Hbu) as [Hc Ho]; [lia|].
  rewrite sess_shift_slot by apply (busy_alive _ _ Hbu).
  change (s_rx ((sess (received i d1 now st) i) <| s_rx ::= λ r, r ++ d2 |>)) with (s_rx (sess (received i d1 now st) i) ++ d2).
  rewrite length_app. change (S (?a + ?b)) with (S a + b)%nat. fold mid in Hc, Ho. split.
  - intros Hsd. by rewrite Hc.
  - intros Hsd. destruct (Ho Hsd) as (k & Hk & ->). f_equal. f_equal.
    assert (s_rx (sess (shift i (λ r, r ++ d2) [] mid) i) = s_rx (sess mid i) ++ d2) as E.
    { rewrite sess_shift_slot; [done|]. apply (busy_alive _ _ (lp_busy _ _ _ mid_looping)). }
    apply on_data_loop_fuel; [by apply busy_more, mid_looping|rewrite E, length_app; lia..].
Qed.

(** The session is closed in the first chunk: the rest is ignored. *)
Lemma two_closed : s_schedule_disconnect (sess mid i) = true →
  on_data slot (d1 ++ d2) now st = on_data slot d2 now (on_data slot d1 now st).
Proof using Hg Hb.
  intros Hsd. destruct mid_looping as [[L1 L2 L3 L4] _ [[_ Hp]|[Hp _]]]; [|congruence].
  rewrite (proj1 mid_more Hsd).
  assert (on_data slot d1 now st = drain_closes (mid <| sv_processing := false |>)) as ->.
  { by rewrite on_data_run by (done || apply (good_sched _ Hg)). }
  change ((shift i (λ r, r ++ d2) [] mid) <| sv_processing := false |>)
    with (shift i (λ r, r ++ d2) [] (mid <| sv_processing := false |>)).
  rewrite drain_shift by done. set (u := drain_closes _).
  assert (recorded [] u = u) as -> by (by destruct u).
  destruct (drain_closes_post (mid <| sv_processing := false |>)) as (_ & _ & D3 & _); [by apply inv_processing|by apply sched_processing|].
  unfold on_data. assert (bad_slot slot u = true) as ->; [|done]. unfold bad_slot, u. fold i.
  rewrite (D3 i) by (change (i ∈ sv_pending_close mid); rewrite Hp; apply list_elem_of_here).
  by rewrite !orb_true_r.
Qed.

(** The session stays open: the second call takes up where the first ended. *)
Lemma two_open : s_schedule_disconnect (sess mid i) = false →
  let u := mid <| sv_processing := false |> in
  good u ∧ on_data slot d1 now st = notify u ∧ on_data slot (d1 ++ d2) now st = on_data slot d2 now u.
Proof using Hg Hb.
  intros Hsd u. destruct mid_looping as [Hbu Hfr [[Hp _]|[_ Hp]]]; [congruence|]. pose proof Hbu as [L1 [L2 _] L3 L4].
  assert (∀ j, s_schedule_disconnect (sess mid j) = false) as Hno.
  { intros j. apply not_true_is_false. rewrite L2, Hp. apply not_elem_of_nil. }
  assert (good u) as Hgu by (split; [by apply inv_processing|done|done|exact Hno]).
  split_and!; [done| |].
  - rewrite on_data_run by (done || apply (good_sched _ Hg)). fold i. fold mid. by rewrite drain_none.
  - rewrite (proj2 mid_more Hsd). rewrite on_data_run; [| |apply Hno].
    2:{ unfold bad_slot in *. fold i in Hb |- *. change (sess u i) with (sess mid i). rewrite bool_decide_eq_false_2 by done.
        apply orb_false_elim in Hb as [-> _]. done. }
    fold i.
    assert (received i d2 now u = shift i (λ r, r ++ d2) [] mid) as ->.
    { by apply received_fresh. }
    rewrite sess_shift_slot by done. done.
Qed.
End two.

Lemma on_data_two slot d1 d2 now st : good st →
  unnotified (on_data slot (d1 ++ d2) now st) = unnotified (on_data slot d2 now (on_data slot d1 now st)).
Proof.
  intros Hg. destruct (bad_slot slot st) eqn:Hb.
  { unfold on_data at 1 2 3. rewrite Hb. by rewrite Hb. }
  destruct (s_schedule_disconnect (sess (mid slot d1 now st) (i slot))) eqn:Hsd.
  - by rewrite (two_closed slot d1 d2 now st).
  - destruct (two_open slot d1 d2 now st Hg Hb Hsd) as (Hgu & -> & ->). apply on_data_unnotified; [done| |].
    + split; [apply inv_emit, Hgu|apply Hgu..].
    + unfold unnotified, notify, emit, set_field, set_sv_out. cbn. by rewrite filter_app, app_nil_r.
Qed.

(** A session that is still there after [on_data] has the deadline of a client
    heard at [now]. *)
Lemma on_data_fresh slot d now st : good st → bad_slot slot st = false →
  let st' := on_data slot d now st in
  s_phase (sess st' (Z.to_nat slot)) ≠ FREE → fresh now (sess st' (Z.to_nat slot)).
Proof.
  intros Hg Hb st'. change (Z.to_nat slot) with (i slot).
  destruct (mid_looping slot d now st Hg Hb) as [Hbu Hfr Hp].
  destruct Hp as [[_ Hp]|[Hp _]].
  - intros []. destruct Hbu as [L1 L2 _ _].
    assert (st' = drain_closes ((mid slot d now st) <| sv_processing := false |>)) as ->
      by (unfold st'; by rewrite on_data_run by (done || apply (good_sched _ Hg))).
    destruct (drain_closes_post ((mid slot d now st) <| sv_processing := false |>)) as (_ & _ & D3 & _);
      [by apply inv_processing|by apply sched_processing|].
    assert (i slot ∈ sv_pending_close (mid slot d now st)) as Hin by (rewrite Hp; apply list_elem_of_here).
    by rewrite (D3 (i slot) Hin).
  - intros _. unfold st'. by destruct (two_open slot d [] now st Hg Hb Hp) as (_ & -> & _).
Qed.

Lemma on_data_good slot d now st : good st → good (on_data slot d now st).
Proof. intros Hg. by destruct (on_data_post slot d now st Hg). Qed.

(** C11: the segmentation of the stream does not matter.  Feeding a client's bytes
    to [on_data] chunk by chunk, with any cuts - inside headers, inside options,
    between frames - leaves the server in the same state, with the same frames
    sent and connections closed in the same order, as feeding all of them at
    once; only notifications are repeated.  In particular what follows a frame
    that closes the session is ignored either way. *)
Theorem on_data_segmentation max st slot d ds now :
  reachable max st →
  unnotified (foldl (λ st d, on_data slot d now st) st (d :: ds)) =
  unnotified (on_data slot (concat (d :: ds)) now st).
Proof.
  intros [Hg _]%reachable_good. revert d st Hg. induction ds as [|d' ds IH]; intros d st Hg.
  - cbn. by rewrite app_nil_r.
  - change (foldl (λ st d, on_data slot d now st) st (d :: d' :: ds))
      with (foldl (λ st d, on_data slot d now st) (on_data slot d now st) (d' :: ds)).
    rewrite IH by (by apply on_data_good). change (concat (d :: d' :: ds)) with (d ++ concat (d' :: ds)).
    by rewrite on_data_two.
Qed.
(** An echo request cut inside its header, the second piece followed by garbage
    that closes the session. *)
Lemma on_data_segmentation_witness :
  let e := MockClient.echo_request 6 in
  let garbage := [255; 255; 255; 255; 255; 255; 1; 2; 3] in
  let whole := on_data 0 (e ++ garbage) 1000 two_acked in
  s_phase (sess whole 0) = FREE ∧
  unnotified (foldl (λ st d, on_data 0 d 1000 st) two_acked [take 3 e; drop 3 e ++ garbage]) =
  unnotified (on_data 0 (concat [take 3 e; drop 3 e ++ garbage]) 1000 two_acked).
Proof.
  cbv zeta. split; [vm_compute; reflexivity|].
  apply (on_data_segmentation 32768 two_acked 0 (take 3 (MockClient.echo_request 6))).
  exact (run_reachable _ _ _ (reach_init 32768)).
Defined.
