(* ===== verification/Delivery.v ===== *)
(** * Delivering a frame

    What [on_data] does with one complete frame for a client whose buffer is
    empty: exactly one run of [handle_frame], on the bytes of the frame.  And the
    frames a client answers with, from encoding to decoding. *)
From S2P Require Import Prelude Double Wire Tlv Msg State Ffsplit Select Handlers Lifecycle Invariant.
From S2P Require Import HandlerFacts InitFacts Safety Scenarios Shift Chunks.
Open Scope Z_scope.

(** A frame: the header announces the type and the length of what follows. *)
Record is_frame (f : Frame) (type plen : Z) : Prop := {
  fr_type : be_get16 f = Ok type;
  fr_plen : be_get32 (drop 2 f) = Ok plen;
  fr_length : length f = (MSG_HEADER_LEN + Z.to_nat plen)%nat;
}.

(** The state in which the handler runs, and the one it leaves. *)
Definition handled (i : nat) (f : Frame) (type : Z) (now : Z) (st : Server) : Server :=
  handle_frame i (MsgType_of_Z type) f (length f) (length f - MSG_HEADER_LEN) now (received i f now st).

Lemma frame_delivered i f type plen now st :
  good st → s_phase (sess st i) ≠ FREE → s_rx (sess st i) = [] → is_frame f type plen → plen <= sv_max_rx_frame st →
  let st1 := handled i f type now st in
  s_schedule_disconnect (sess st1 i) = false →
  on_data (Z.of_nat i) f now st =
    notify ((upd_sess i (λ s, s <| s_rx ::= drop (length f) |>) st1) <| sv_processing := false |>).
Proof.
  intros Hg Hf Hrx0 [F1 F2 F3] Hmax st1 Hsd.
  destruct (received_busy i f now st Hg Hf) as (Hb & Hrx & Hm & _). rewrite Hrx0 in Hrx. cbn [app] in Hrx.
  assert (i < MAX_CLIENTS)%nat as Hi.
  { rewrite <-(inv_len_sessions _ (good_inv _ Hg)). by apply sess_in_range. }
  rewrite on_data_run; rewrite ?Nat2Z.id; [| |apply (good_sched _ Hg)].
  2:{ unfold bad_slot. rewrite Nat2Z.id, bool_decide_eq_false_2, orb_false_r by done. apply orb_false_intro; lia. }
  cbv zeta. pose proof (loop_looping i f now st Hg Hf) as [_ _ Hp]. set (s0 := received i f now st) in *. rewrite Hrx in *.
  assert (MSG_HEADER_LEN + Z.to_nat plen - MSG_HEADER_LEN = Z.to_nat plen)%nat as Hpl by (unfold MSG_HEADER_LEN; lia).
  set (st2 := upd_sess i (λ s, s <| s_rx ::= drop (length f) |>) st1) in *.
  assert (on_data_step i now s0 = Some (true, st2)) as Hstep.
  { unfold on_data_step. rewrite bool_decide_eq_false_2 by apply (busy_alive _ _ Hb). cbn [orb].
    assert (s_schedule_disconnect (sess s0 i) = false) as ->.
    { apply not_true_is_false. intros H. apply (sched_iff _ (busy_sched _ _ Hb)) in H.
      change (sv_pending_close s0) with (sv_pending_close st) in H. rewrite (good_pending _ Hg) in H.
      by apply not_elem_of_nil in H. }
    rewrite Hrx, F1, F2, Hm, F3. rewrite (proj2 (Nat.ltb_ge _ _)) by lia. rewrite (proj2 (Z.ltb_ge _ _)) by done.
    rewrite Nat.ltb_irrefl. unfold st2, st1, handled. by rewrite F3, Hpl. }
  assert (∀ n, on_data_loop n i now st2 = st2) as Hend.
  { intros [|n]; [done|]. cbn [on_data_loop]. assert (on_data_step i now st2 = None) as ->; [|done].
    pose proof (on_data_step_cases i now s0 Hb) as Hc. rewrite Hstep in Hc. destruct Hc as (_ & n' & _ & Hrx2).
    unfold on_data_step. case_match; [done|].
    assert (s_rx (sess st2 i) = []) as ->; [|done]. unfold st2.
    destruct (handle_frame_ok i (MsgType_of_Z type) f (length f) (length f - MSG_HEADER_LEN) now s0) as [Hh _];
      [apply Hb|apply Hb|apply Hb|]. fold (handled i f type now st) in Hh. fold st1 in Hh.
    rewrite sess_upd_eq by (apply (hp_alive _ _ _ Hh), Hb). cbn. rewrite (hp_rx _ _ _ Hh), Hrx. apply drop_all. }
  cbn [on_data_loop] in *. rewrite Hstep in *. rewrite Hend in *. rewrite drain_none; [done|].
  destruct Hp as [[Hs _]|[_ Hp]]; [|exact Hp]. exfalso. unfold st2 in Hs. rewrite sess_upd in Hs.
  case_decide; [cbn in Hs|]; congruence.
Qed.

(** ** The answer to a vote *)

Lemma vote_info_reply_frame seq :
  MockClient.vote_info_reply seq = frame_bytes MT_VOTE_INFO_REPLY [(0, u32_bytes seq)].
Proof.
  unfold MockClient.vote_info_reply. change (MockClient.start 15) with (begin_frame MT_VOTE_INFO_REPLY). collect_options.
Qed.

Lemma vote_info_reply_is_frame seq : is_frame (MockClient.vote_info_reply seq) 15 8.
Proof.
  rewrite vote_info_reply_frame.
  destruct (frame_header MT_VOTE_INFO_REPLY [(0, u32_bytes seq)]) as [H1 H2]; [done|vm_compute; reflexivity|].
  split; [exact H1|exact H2|reflexivity].
Qed.

(** The message a client answers vote number [seq] with. *)
Definition reply_msg (seq : Z) : MsgDecoded :=
  MsgDecoded0 <| m_type := MT_VOTE_INFO_REPLY |> <| m_seq_number := seq |> <| m_seq_number_set := true |>.

Lemma vote_info_reply_decodes seq : is_u32 seq → frame_decode (MockClient.vote_info_reply seq) = Ok (reply_msg seq).
Proof. intros Hs. rewrite vote_info_reply_frame. erewrite frame_decode_opts; [|done|solve_opts]. reflexivity. Qed.

(** The handler only touches what belongs to the vote protocol. *)
Lemma vote_info_reply_unvoted j m st k : inv st → s_phase (sess st j) = ACTIVE →
  unvoted (sess (handle_vote_info_reply j m st) k) = unvoted (sess st k).
Proof.
  intros Hinv Ha. unfold handle_vote_info_reply. case_match; [done|]. case_match; [done|]. cbv zeta.
  pose proof (hp_inv _ _ _ (proj1 (hok_answered j st Hinv Ha)) Hinv) as Hinv1.
  set (st1 := upd_sess j (λ s, s <| s_ff_state := FC_WAITING_FOR_CHANGE |>) st) in *.
  assert (unvoted (sess st1 k) = unvoted (sess st k)) as <- by (unfold st1; rewrite sess_upd; by case_decide).
  set (c := s_cluster (sess st1 j)). clearbody st1. unfold notify. rewrite sess_emit. case_match; [done|done|..].
  - case_match; [|done]. set (st2 := upd_clus c _ st1).
    assert (length (sv_sessions st2) = MAX_CLIENTS) as Hlen
      by (unfold st2; rewrite (env_sessions _ _ (env_upd_clus _ _ _)); by apply inv_len_sessions).
    set (tv := mkTV _ _ _ _ _ _). destruct (send_votes_spec st2 tv true Hlen) as (_ & _ & _ & Hs & _).
    destruct (ffsplit_send_votes tv true st2) as [st3 acks]. cbn [fst] in Hs. specialize (Hs k).
    assert (unvoted (sess st3 k) = unvoted (sess st1 k)) as Hk.
    { rewrite Hs. clear Hs. unfold st2. rewrite !sess_upd_clus. by destruct (votes _ _ _ _ _). }
    destruct (acks =? 0)%nat; rewrite ?sess_upd_clus; exact Hk.
  - case_match; [|done]. by rewrite sess_upd_clus.
Qed.

(** A client that has nothing half-read answers: the handler runs once, on the decoded answer. *)
Definition heard (j : nat) (seq now : Z) (st : Server) : Server :=
  handle_vote_info_reply j (reply_msg seq) (received j (MockClient.vote_info_reply seq) now st).

Lemma received_sess i data now st k : s_phase (sess st i) ≠ FREE →
  sess (received i data now st) k =
    if decide (k = i) then reschedule_dpd now ((sess st i) <| s_rx ::= λ rx, rx ++ data |>) else sess st k.
Proof.
  intros Hf. change (sess (received i data now st) k) with
    (sess (upd_sess i (reschedule_dpd now) (upd_sess i (λ s, s <| s_rx ::= λ rx, rx ++ data |>) st)) k).
  case_decide as E; [subst k|by rewrite !sess_upd_ne].
  rewrite !sess_upd_eq; [done|done|]. by rewrite sess_upd_eq.
Qed.
Lemma dpd_phase now s : s_phase (reschedule_dpd now s) = s_phase s.
Proof. unfold reschedule_dpd. by repeat case_match. Qed.

Lemma reply_delivered j seq now st :
  good st → s_phase (sess st j) = ACTIVE → s_rx (sess st j) = [] → 8 <= sv_max_rx_frame st → is_u32 seq →
  exec st (EvData (Z.of_nat j) (MockClient.vote_info_reply seq) now) =
    notify ((upd_sess j (λ s, s <| s_rx ::= drop 14 |>) (heard j seq now st)) <| sv_processing := false |>).
Proof.
  intros Hg Ha Hrx Hmax Hseq. cbn [exec]. set (f := MockClient.vote_info_reply seq).
  destruct (received_busy j f now st Hg) as (Hb & _); [by rewrite Ha|].
  assert (s_phase (sess (received j f now st) j) = ACTIVE) as Ha1.
  { rewrite received_sess, decide_True, dpd_phase by (done || by rewrite Ha). exact Ha. }
  assert (handled j f 15 now st = heard j seq now st) as Hh.
  { unfold handled, handle_frame. pose proof (vote_info_reply_decodes seq Hseq) as Hd. unfold frame_decode in Hd.
    rewrite (fr_type _ _ _ (vote_info_reply_is_frame seq)), outcome_bind_ok in Hd. fold f in Hd. rewrite Hd.
    unfold dispatch. rewrite Ha1. done. }
  assert (s_schedule_disconnect (sess (handled j f 15 now st) j) = false) as Hsd.
  { rewrite Hh. unfold heard. fold f.
    rewrite (unvoted_proj s_schedule_disconnect (sess (received j f now st) j) _ (λ _, eq_refl)).
    - rewrite received_sess, decide_True by (done || by rewrite Ha). pose proof (good_sched _ Hg j) as Hs.
      unfold reschedule_dpd. by repeat case_match.
    - apply vote_info_reply_unvoted; [apply Hb|exact Ha1]. }
  rewrite (frame_delivered j f 15 8 now st Hg) by (exact Hsd || exact (vote_info_reply_is_frame seq) || congruence || lia).
  by rewrite Hh.
Qed.
