(* ===== verification/Outputs.v ===== *)
(** * What the server tells its transport

    The contract between [Server] and an implementation of [Transport]
    (server.h 17-24): frames go only to open connections, an open connection is
    closed at most once, and after a call the open connections are exactly the
    sessions that are not free.  The contract is a monitor [follows] over the
    effects of a call, and every call of the interface respects it. *)
From S2P Require Import Prelude Wire Tlv Msg State Ffsplit Select Handlers Lifecycle Invariant.
From S2P Require Import HandlerFacts InitFacts Safety Scenarios.
From stdpp Require Import gmap.
Open Scope Z_scope.

(** ** The contract *)

(** One effect on the set of open connections: [None] when it is refused. *)
Definition allowed (o : gset nat) (e : Effect) : option (gset nat) :=
  match e with
  | ESend i _ => if decide (i ∈ o) then Some o else None
  | EClose i => if decide (i ∈ o) then Some (o ∖ {[i]}) else None
  | ENotify => Some o
  end.

Fixpoint follows (o : gset nat) (es : list Effect) : option (gset nat) :=
  match es with
  | [] => Some o
  | e :: es => o' ← allowed o e; follows o' es
  end.

(** The sessions in use. *)
Definition live (st : Server) : gset nat :=
  list_to_set (filter (λ i, s_phase (sess st i) ≠ FREE) slots).

(** The effects of a call, as the monitor sees them. *)
Definition outputs (st st' : Server) : list Effect := drop (length (sv_out st)) (sv_out st').

(** From [o] open connections, what happened between [st] and [st'] leads to [o']. *)
Definition speaks (o : gset nat) (st st' : Server) (o' : gset nat) : Prop :=
  sv_out st' = sv_out st ++ outputs st st' ∧ follows o (outputs st st') = Some o'.

Lemma follows_app o es1 es2 : follows o (es1 ++ es2) = (follows o es1 ≫= λ o', follows o' es2).
Proof.
  revert o. induction es1 as [|e es1 IH]; intros o; [done|]. cbn [app follows].
  destruct (allowed o e) as [o'|]; [|done]. apply IH.
Qed.

Lemma outputs_app st st' es : sv_out st' = sv_out st ++ es → outputs st st' = es.
Proof. intros E. unfold outputs. rewrite E. apply drop_app_length. Qed.

Lemma speaks_intro o st st' o' es :
  sv_out st' = sv_out st ++ es → follows o es = Some o' → speaks o st st' o'.
Proof. intros E H. unfold speaks. by rewrite (outputs_app _ _ _ E). Qed.

Lemma speaks_trans o1 o2 o3 st1 st2 st3 :
  speaks o1 st1 st2 o2 → speaks o2 st2 st3 o3 → speaks o1 st1 st3 o3.
Proof.
  intros [E1 F1] [E2 F2]. apply (speaks_intro _ _ _ _ (outputs st1 st2 ++ outputs st2 st3)).
  - by rewrite app_assoc, <-E1, <-E2.
  - by rewrite follows_app, F1.
Qed.
Lemma speaks_refl o st : speaks o st st o.
Proof. apply (speaks_intro _ _ _ _ []); [by rewrite app_nil_r|done]. Qed.

Lemma speaks_same o st st' : sv_out st' = sv_out st → speaks o st st' o.
Proof. intros E. apply (speaks_intro _ _ _ _ []); [by rewrite app_nil_r|done]. Qed.
Lemma speaks_emit o st e o' : allowed o e = Some o' → speaks o st (emit e st) o'.
Proof. intros E. apply (speaks_intro _ _ _ _ [e]); [done|]. cbn. by rewrite E. Qed.

(** ** Effects that close nothing *)

(** A frame to one of [o], or a notification. *)
Definition sends_to (o : gset nat) (e : Effect) : Prop :=
  match e with ESend i _ => i ∈ o | EClose _ => False | ENotify => True end.
Definition quiet (o : gset nat) (st st' : Server) : Prop :=
  ∃ es, sv_out st' = sv_out st ++ es ∧ Forall (sends_to o) es.

Lemma quiet_speaks o st st' : quiet o st st' → speaks o st st' o.
Proof.
  intros (es & E & H). apply (speaks_intro _ _ _ _ es); [done|]. clear E.
  induction H as [|e es He _ IH]; [done|]. cbn [follows].
  destruct e as [i f|i|]; cbn in *; [by rewrite decide_True|done|done].
Qed.

Lemma quiet_same o st st' : sv_out st' = sv_out st → quiet o st st'.
Proof. exists []. by rewrite app_nil_r. Qed.
Lemma quiet_trans o st1 st2 st3 : quiet o st1 st2 → quiet o st2 st3 → quiet o st1 st3.
Proof.
  intros (es1 & E1 & H1) (es2 & E2 & H2). exists (es1 ++ es2). rewrite app_assoc, <-E1. split; [done|].
  by apply Forall_app.
Qed.
Lemma quiet_after o st st1 st2 : quiet o st st1 → sv_out st2 = sv_out st1 → quiet o st st2.
Proof. intros H E. eapply quiet_trans; [exact H|by apply quiet_same]. Qed.
Lemma quiet_refl o st : quiet o st st.
Proof. by apply quiet_same. Qed.
Lemma quiet_send o i f st st' : i ∈ o → quiet o st st' → quiet o st (send i f st').
Proof. intros Hi H. eapply quiet_trans; [exact H|]. exists [ESend i f]. split; [done|]. by apply Forall_singleton. Qed.
Lemma quiet_send_err o i m code st st' : i ∈ o → quiet o st st' → quiet o st (send_err i m code st').
Proof. apply quiet_send. Qed.
Lemma quiet_notify o st st' : quiet o st st' → quiet o st (notify st').
Proof. intros H. eapply quiet_trans; [exact H|]. exists [ENotify]. split; [done|]. by apply Forall_singleton. Qed.
#[export] Hint Resolve quiet_refl quiet_send quiet_send_err quiet_notify : qnetd.

(** The votes of a round. *)
Lemma votes_quiet o st st' tv v l :
  sv_out st' = sv_out st ++ (vote_effect st tv v <$> l) → (∀ j, j ∈ l → j ∈ o) → quiet o st st'.
Proof.
  intros E H. eexists. split; [exact E|]. apply Forall_fmap, Forall_forall. intros j Hj. exact (H j Hj).
Qed.

(** ** The algorithm *)

(** The clients that the algorithm may address: active, and not the leaving one. *)
Definition addressees (tv : TriggerView) (o : gset nat) (st : Server) : Prop :=
  ∀ j, s_phase (sess st j) = ACTIVE → (tv_leaving tv = true → j ≠ tv_slot tv) → j ∈ o.

Lemma send_votes_quiet tv b st o : length (sv_sessions st) = MAX_CLIENTS → addressees tv o st →
  quiet o st (ffsplit_send_votes tv b st).1.
Proof.
  intros Hlen Ho. destruct (send_votes_spec st tv b Hlen) as (_ & _ & _ & _ & E & _).
  eapply votes_quiet; [exact E|]. intros j Hj. apply list_elem_of_In, List.filter_In in Hj as [_ Hv].
  unfold votes in Hv. apply andb_prop in Hv as [[[Ha _]%in_cluster_true Hs]%andb_prop _].
  apply Ho; [done|]. intros Hl ->. by rewrite Hl, Z.eqb_refl in Hs.
Qed.

Lemma decided_quiet tv st w st' o : length (sv_sessions st) = MAX_CLIENTS → addressees tv o st →
  decided tv st w st' → quiet o st st'.
Proof.
  intros Hlen Ho Hd.
  assert (∀ fs j, fs ≠ FC_WAITING_FOR_CHANGE → j ∈ assigned st tv w fs → j ∈ o) as Hj.
  { intros fs j Hfs [[Ha _]%in_cluster_true Hn]%assigned_elem; [|done]. apply Ho; [done|]. intros Hl ->.
    pose proof (new_ff_not_skipped _ _ _ _ _ Hn Hfs) as H. by rewrite Hl, Z.eqb_refl in H. }
  eexists. split; [exact (dec_out _ _ _ _ Hd)|]. apply Forall_app. split.
  - apply Forall_fmap, Forall_forall. intros j Hin. by apply (Hj FC_SENDING_NACK).
  - case_bool_decide; [|constructor]. apply Forall_fmap, Forall_forall. intros j Hin. by apply (Hj FC_SENDING_ACK).
Qed.

Lemma ffsplit_do_quiet tv st o : inv st → s_phase (sess st (tv_slot tv)) = ACTIVE → addressees tv o st →
  quiet o st (ffsplit_do tv st).1.1.
Proof.
  intros Hinv Hact Ho. destruct (ffsplit_is_stable (pending_decision tv st) tv) eqn:Hst.
  - destruct (ffsplit_do_decided tv st) as (st' & -> & Hd); [by apply inv_len_sessions| |done|].
    { rewrite (inv_len_clusters _ Hinv). apply (so_active _ _ (inv_sess _ Hinv (tv_slot tv)) Hact). }
    eapply decided_quiet; [by apply inv_len_sessions|done|exact Hd].
  - rewrite ffsplit_do_unstable by done. apply quiet_same. unfold pending_decision. apply out_upd_clus.
Qed.

(** ** The handlers *)

Lemma live_elem st i : length (sv_sessions st) = MAX_CLIENTS → i ∈ live st ↔ s_phase (sess st i) ≠ FREE.
Proof.
  intros Hlen. unfold live. rewrite elem_of_list_to_set, list_elem_of_filter, elem_of_slots. split; [naive_solver|].
  intros H. split; [done|]. rewrite <-Hlen. by apply sess_in_range.
Qed.

Lemma live_addressees tv st : length (sv_sessions st) = MAX_CLIENTS → addressees tv (live st) st.
Proof. intros Hlen j Ha _. apply live_elem; [done|]. by rewrite Ha. Qed.

(** Equal phases, equal connections. *)
Lemma live_same st st' : length (sv_sessions st) = MAX_CLIENTS → length (sv_sessions st') = MAX_CLIENTS →
  (∀ j, s_phase (sess st' j) = FREE ↔ s_phase (sess st j) = FREE) → live st' = live st.
Proof. intros H1 H2 H. apply set_eq. intros i. rewrite !live_elem by done. by rewrite H. Qed.

Lemma live_hpost slot st st' : inv st → s_phase (sess st slot) ≠ FREE → hpost slot st st' → live st' = live st.
Proof.
  intros Hinv Hf [_ _ _ Ho Ha Hi _]. apply live_same; [by apply inv_len_sessions|by apply inv_len_sessions; auto|].
  intros j. destruct (decide (j = slot)) as [->|Hj]; [naive_solver|]. by rewrite (unvoted_phase _ _ (Ho j Hj)).
Qed.

Section handlers.
Context (slot : nat) (st : Server) (Hinv : inv st) (Hf : s_phase (sess st slot) ≠ FREE).
#[local] Abbreviation hears st' := (quiet (live st) st st').

Lemma slot_live : slot ∈ live st.
Proof using Hinv Hf. apply live_elem; [by apply inv_len_sessions|done]. Qed.
#[local] Hint Resolve slot_live : qnetd.

Lemma decide_quiet tv : tv_slot tv = slot → s_phase (sess st slot) = ACTIVE → hears (ffsplit_do tv st).1.1.
Proof using Hinv Hf.
  intros <- Ha. apply ffsplit_do_quiet; [done|done|]. by apply live_addressees, inv_len_sessions.
Qed.

Lemma handle_preinit_quiet m : hears (handle_preinit slot m st).
Proof using Hinv Hf.
  unfold handle_preinit. repeat case_match; [auto with qnetd..|]. apply quiet_send; [apply slot_live|by apply quiet_same].
Qed.

Lemma handle_init_quiet m now : hears (handle_init slot m now st).
Proof using Hinv Hf.
  destruct (handle_init_cases slot m now st Hinv Hf) as (code & st2 & -> & Hc).
  apply quiet_notify, quiet_send; [apply slot_live|]. apply quiet_same.
  destruct Hc as [[_ ->]|(_ & _ & _ & c & Hj)]; [done|]. by rewrite (jn_out _ _ _ _ _ Hj).
Qed.

Lemma handle_set_option_quiet m now : hears (handle_set_option slot m now st).
Proof using Hinv Hf.
  unfold handle_set_option. case_match; [auto with qnetd|]. apply quiet_send; [apply slot_live|].
  apply quiet_same. by repeat case_match.
Qed.

Lemma handle_node_list_quiet m : s_phase (sess st slot) = ACTIVE → hears (handle_node_list slot m st).
Proof using Hinv Hf.
  intros Ha. unfold handle_node_list. case_match; [auto with qnetd|].
  assert (match node_list_decide slot m st with inl _ => True | inr (st', _, _) => hears st' end) as Hd.
  { unfold node_list_decide.
    destruct (m_node_list_type m);
      repeat match goal with |- context [if ?b then inl _ else _] => destruct b; [exact I|] end;
      try match goal with |- context [if ?b then inr _ else _] => destruct b end; try apply quiet_refl;
      match goal with |- context [ffsplit_do ?tv st] =>
        pose proof (decide_quiet tv eq_refl Ha) as Hq; destruct (ffsplit_do tv st) as [[??]?]; exact Hq end. }
  destruct (node_list_decide slot m st) as [code|[[st' code] result]]; [auto with qnetd|].
  case_match; [by apply quiet_send_err; [apply slot_live|]|].
  apply quiet_notify, quiet_send; [apply slot_live|]. by eapply quiet_after.
Qed.

Lemma handle_heuristics_change_quiet m : s_phase (sess st slot) = ACTIVE →
  hears (handle_heuristics_change slot m st).
Proof using Hinv Hf.
  intros Ha. unfold handle_heuristics_change. case_match; [auto with qnetd|].
  match goal with |- context [if ?b then (st, ERR_NO_ERROR, VOTE_ASK_LATER) else ffsplit_do ?tv st] =>
    pose proof (decide_quiet tv eq_refl Ha) as Hd; destruct b; [clear Hd|] end.
  - cbn. apply quiet_notify, quiet_send; [apply slot_live|]. by apply quiet_same.
  - destruct (ffsplit_do _ st) as [[st' code] result]. cbn [fst] in Hd.
    case_match; [by apply quiet_send_err; [apply slot_live|]|].
    apply quiet_notify, quiet_send; [apply slot_live|]. by eapply quiet_after.
Qed.

Lemma handle_vote_info_reply_quiet m : s_phase (sess st slot) = ACTIVE →
  hears (handle_vote_info_reply slot m st).
Proof using Hinv Hf.
  intros Ha. unfold handle_vote_info_reply. case_match; [auto with qnetd|]. case_match; [apply quiet_refl|].
  apply quiet_notify. pose proof (hok_answered slot st Hinv Ha) as [H1 _]. set (st1 := upd_sess slot _ st) in *.
  assert (∀ c f, hears (upd_clus c f st1)) as Hset by (intros c f; apply quiet_same; exact (out_upd_clus st1 c f)).
  assert (hears st1) as Hst1 by (by apply quiet_same).
  destruct (cl_state (clus st1 _)); [done|done| |by case_match].
  case_match; [|done]. set (tv := mkTV _ _ _ _ _ _). set (st2 := upd_clus _ _ st1).
  assert (hears (ffsplit_send_votes tv true st2).1) as Hs.
  { apply (quiet_trans _ _ st2); [apply Hset|]. apply send_votes_quiet.
    - unfold st2. rewrite (env_sessions _ _ (env_upd_clus _ _ _)). apply inv_len_sessions, (hp_inv _ _ _ H1 Hinv).
    - intros j Haj _. unfold st2 in Haj. rewrite sess_upd_clus in Haj.
      rewrite <-(live_hpost slot st st1 Hinv Hf H1). apply live_elem; [apply inv_len_sessions, (hp_inv _ _ _ H1 Hinv)|].
      by rewrite Haj. }
  destruct (ffsplit_send_votes tv true st2) as [st3 acks]. cbn [fst] in Hs.
  case_match; [|done]. eapply quiet_after; [exact Hs|apply out_upd_clus].
Qed.

Lemma disconnect_quiet o st' : sv_processing st' = true → quiet o st st' → quiet o st (disconnect_client slot st').
Proof.
  intros Hp H. unfold disconnect_client. case_match; [done|].
  change (sv_processing (set_field _ _ _)) with (sv_processing st'). rewrite Hp. by eapply quiet_after.
Qed.

Lemma handle_frame_quiet type frame len plen now : sv_processing st = true →
  hears (handle_frame slot type frame len plen now st).
Proof using Hinv Hf.
  intros Hp. unfold handle_frame.
  assert (hears (disconnect_client slot (send_err slot MsgDecoded0 ERR_ERROR_DECODING_MSG st))) as Hd.
  { apply disconnect_quiet; [done|]. auto with qnetd. }
  destruct (msg_decode _ _ _) as [m| |]; [|done..]. unfold dispatch. case_match; [auto with qnetd|].
  assert (∀ f, (s_phase (sess st slot) = ACTIVE → hears f) →
    hears (if negb (bool_decide (s_phase (sess st slot) = ACTIVE))
           then send_err slot m ERR_INIT_REQUIRED st else f)) as Hg.
  { intros f Hfn. destruct (bool_decide_reflect (s_phase (sess st slot) = ACTIVE)); cbn [negb]; auto with qnetd. }
  destruct type; try (apply Hg; intros Ha; try (by auto with qnetd)).
  - apply handle_preinit_quiet.
  - apply handle_init_quiet.
  - apply handle_set_option_quiet.
  - by apply handle_node_list_quiet.
  - by apply handle_vote_info_reply_quiet.
  - by apply handle_heuristics_change_quiet.
Qed.

(** A departure addresses the other clients only. *)
Lemma leave_quiet : quiet (live st ∖ {[slot]}) st (leave_reset slot st).
Proof using Hinv Hf.
  destruct (decide (s_phase (sess st slot) = ACTIVE)) as [Ha|Ha].
  - set (tv := mkTV slot true (s_last_ring_id (sess st slot)) (s_config_list (sess st slot))
      (s_membership_list (sess st slot)) (s_last_heuristics (sess st slot))).
    destruct (ffsplit_do_post tv st Hinv Ha) as (st1 & res & Hdo & _ & [He Hu Hi Hinv1] & _).
    destruct (leave_reset_active slot st st1 ERR_NO_ERROR res Hinv Hinv1 He Hu Ha Hdo) as (_ & _ & _ & _ & _ & Eo).
    eapply quiet_after; [|exact Eo]. change st1 with (st1, ERR_NO_ERROR, res).1.1. rewrite <-Hdo.
    apply ffsplit_do_quiet; [done|done|]. intros j Haj Hj. apply elem_of_difference. split.
    + apply live_elem; [by apply inv_len_sessions|by rewrite Haj].
    + rewrite elem_of_singleton. by apply Hj.
  - rewrite leave_reset_inactive by done. by apply quiet_same.
Qed.
End handlers.

(** ** Closing connections *)

Lemma quiet_weaken o o' st st' : o ⊆ o' → quiet o st st' → quiet o' st st'.
Proof.
  intros Ho (es & E & H). exists es. split; [done|]. eapply Forall_impl; [exact H|].
  intros [i f|i|]; cbn; [apply Ho|done|done].
Qed.

Lemma live_left slot st st' : inv st → left_post slot st st' → live st' = live st ∖ {[slot]}.
Proof.
  intros Hinv [He Hf Hu Hi _]. apply set_eq. intros i. rewrite elem_of_difference, elem_of_singleton, !live_elem
    by (by apply inv_len_sessions). destruct (decide (i = slot)) as [->|Hne].
  - rewrite Hf. naive_solver.
  - rewrite (unvoted_phase _ _ (Hu i Hne)). naive_solver.
Qed.

Lemma drain_loop_speaks n st : inv st → sched st → n = length (sv_pending_close st) →
  speaks (live st) st (drain_loop n st) (live (drain_loop n st)).
Proof.
  revert st. induction n as [|n IH]; intros st Hinv Hsch Hn; [apply speaks_refl|].
  destruct (sv_pending_close st) as [|x l _] eqn:E using rev_ind; [simpl in Hn; lia|].
  rewrite length_app in Hn. simpl in Hn.
  destruct (drain_step n st l x Hinv Hsch E) as (-> & Hx & _ & Hinv0 & Hl & Hsch1 & E1).
  set (st0 := st <| sv_pending_close := l |>) in *. set (st1 := emit (EClose x) (leave_reset x st0)) in *.
  assert (live st1 = live st ∖ {[x]}) as Hlive by exact (live_left x st0 _ Hinv0 Hl).
  apply (speaks_trans _ (live st1) _ _ st1); [|apply IH; [by apply inv_emit, (lp_inv _ _ _ Hl)|done|rewrite E1; lia]].
  apply (speaks_trans _ (live st) _ _ (leave_reset x st0)).
  - apply quiet_speaks, (quiet_weaken (live st ∖ {[x]})); [set_solver|]. exact (leave_quiet x st0 Hinv0 Hx).
  - apply speaks_emit. cbn [allowed]. rewrite decide_True; [by rewrite Hlive|].
    apply live_elem; [by apply inv_len_sessions|done].
Qed.

Lemma drain_closes_speaks st : inv st → sched st → speaks (live st) st (drain_closes st) (live (drain_closes st)).
Proof.
  intros Hinv Hs. unfold drain_closes. set (st1 := st <| sv_processing := true |>).
  eapply speaks_trans; [|by apply speaks_emit].
  exact (drain_loop_speaks (length (sv_pending_close st1)) st1 (inv_processing true st Hinv)
           (sched_processing true st Hs) eq_refl).
Qed.

(** ** The calls *)

Lemma disconnect_speaks slot st : good st → s_phase (sess st slot) ≠ FREE →
  speaks (live st) st (disconnect_client slot st) (live (disconnect_client slot st)).
Proof.
  intros Hg Hf. destruct (disconnect_starts st slot Hg Hf) as (-> & Hinv & Hs & _).
  assert (live (scheduled slot st) = live st) as <-.
  { apply live_same; [apply inv_len_sessions, Hg|by apply inv_len_sessions|]. intros j.
    change (sess (scheduled slot st) j) with
      (sess (upd_sess slot (λ s, s <| s_schedule_disconnect := true |>) st) j).
    rewrite sess_upd. by case_decide. }
  exact (drain_closes_speaks _ Hinv Hs).
Qed.

Lemma tick_speaks now st : good st → speaks (live st) st (tick now st) (live (tick now st)).
Proof.
  assert (∀ l st, good st → speaks (live st) st (foldl (tick_step now) st l) (live (foldl (tick_step now) st l)))
    as H; [|apply H]. clear st.
  induction l as [|i l IH]; intros st Hg; [apply speaks_refl|]. cbn [foldl].
  destruct (tick_step_post now st i Hg) as [_ Hg' _].
  eapply speaks_trans; [|by apply IH]. clear IH Hg'. unfold tick_step.
  destruct (bool_decide_reflect (s_phase (sess st i) = FREE)) as [|Hf]; [apply speaks_refl|]. cbn [orb].
  case_match; [apply speaks_refl|]. case_match; [|apply speaks_refl]. by apply disconnect_speaks.
Qed.

Lemma on_connect_speaks now peer st : good st →
  let r := on_connect now peer st in
  speaks (live st) st r.2 (live st) ∧
  live r.2 = (if r.1 <? 0 then live st else {[Z.to_nat r.1]} ∪ live st) ∧
  (0 <= r.1 → (Z.to_nat r.1 < MAX_CLIENTS)%nat ∧ Z.to_nat r.1 ∉ live st).
Proof.
  intros Hg. pose proof (good_inv _ Hg) as Hinv. pose proof (inv_len_sessions _ Hinv) as Hlen.
  destruct (List.find (λ i, bool_decide (s_phase (sess st i) = FREE)) slots) as [i|] eqn:E.
  2: { unfold on_connect. rewrite E. cbn. split; [apply speaks_refl|]. by split. }
  destruct (on_connect_sess now peer st i Hlen E) as (H1 & H2 & Hf & He & _ & Hs & Hs').
  assert (speaks (live st) st (on_connect now peer st).2 (live st)) as Hsp.
  { unfold on_connect. rewrite E. by apply (speaks_emit _ st ENotify). }
  set (r := on_connect now peer st) in *. clearbody r. cbv zeta.
  assert (length (sv_sessions r.2) = MAX_CLIENTS) as Hlen' by (by rewrite (env_sessions _ _ He)). rewrite H1, Nat2Z.id.
  rewrite (proj2 (Z.ltb_ge _ 0)) by lia. split_and!; [done| |].
  - apply set_eq. intros j. rewrite elem_of_union, elem_of_singleton, !live_elem by done.
    destruct (decide (j = i)) as [->|Hj]; [rewrite Hs; naive_solver|rewrite Hs' by done; naive_solver].
  - intros _. split; [done|]. rewrite live_elem, Hf by done. naive_solver.
Qed.

(** [on_disconnected] outside of processing: nothing else is pending. *)
Lemma on_disconnected_leaves slot st : good st → bad_slot slot st = false →
  let i := Z.to_nat slot in
  let st0 := st <| sv_processing := true |> in
  on_disconnected slot st = notify (notify ((leave_reset i st0) <| sv_processing := false |>)) ∧
  inv st0 ∧ s_phase (sess st0 i) ≠ FREE ∧ left_post i st0 (leave_reset i st0).
Proof.
  intros [Hinv Hp Hpe Hsd] Hb i st0. destruct (bad_slot_false _ _ Hb) as (_ & _ & Hf).
  assert (inv st0) as Hinv0 by (by apply inv_processing).
  pose proof (leave_reset_post i st0 Hinv0 Hf) as Hl. split_and!; [|done..].
  rewrite on_disconnected_eq by done. fold i st0. set (st2 := (leave_reset i st0) <| sv_processing := false |>).
  assert (sv_pending_close st2 = []) as E
    by (pose proof (env_pending _ _ (lp_env _ _ _ Hl)) as E; cbn in E |- *; congruence).
  unfold drain_closes. change (sv_pending_close (st2 <| sv_processing := true |>)) with (sv_pending_close st2).
  by rewrite E.
Qed.

Lemma on_disconnected_speaks slot st : good st → bad_slot slot st = false →
  let st' := on_disconnected slot st in
  speaks (live st ∖ {[Z.to_nat slot]}) st st' (live st') ∧ live st' = live st ∖ {[Z.to_nat slot]}.
Proof.
  intros Hg Hb. destruct (on_disconnected_leaves slot st Hg Hb) as (-> & Hinv0 & Hf & Hl).
  set (i := Z.to_nat slot) in *. set (st0 := st <| sv_processing := true |>) in *.
  set (st1 := leave_reset i st0) in *.
  assert (live st1 = live st ∖ {[i]}) as Hlive by exact (live_left i st0 st1 Hinv0 Hl).
  split; [|exact Hlive]. change (live (notify (notify _))) with (live st1). rewrite Hlive.
  eapply speaks_trans; [|by apply speaks_emit]. eapply speaks_trans; [|by apply speaks_emit].
  apply quiet_speaks. exact (leave_quiet i st0 Hinv0 Hf).
Qed.

Lemma on_data_step_quiet slot now st b st' : busy slot st → on_data_step slot now st = Some (b, st') →
  quiet (live st) st st'.
Proof.
  intros [Hinv Hs Hp Hf]. unfold on_data_step. rewrite (bool_decide_eq_false_2 _ Hf). cbn [orb].
  assert (slot ∈ live st) as Hl by (apply live_elem; [by apply inv_len_sessions|done]).
  repeat case_match; intros; simplify_eq.
  - apply disconnect_quiet; [done|]. by apply quiet_send_err; [|apply quiet_refl].
  - eapply quiet_after; [by apply handle_frame_quiet|done].
Qed.

Lemma live_others slot st st' : busy slot st → busy slot st' →
  (∀ j, j ≠ slot → unvoted (sess st' j) = unvoted (sess st j)) → live st' = live st.
Proof.
  intros [Hi _ _ Hf] [Hi' _ _ Hf'] Hu. apply live_same; [by apply inv_len_sessions..|]. intros j.
  destruct (decide (j = slot)) as [->|Hj]; [naive_solver|]. by rewrite (unvoted_phase _ _ (Hu j Hj)).
Qed.

Lemma on_data_loop_quiet fuel slot now st : busy slot st → quiet (live st) st (on_data_loop fuel slot now st).
Proof.
  revert st. induction fuel as [|fuel IH]; intros st Hb; [apply quiet_refl|]. cbn [on_data_loop].
  pose proof (on_data_step_cases slot now st Hb) as Hc.
  destruct (on_data_step slot now st) as [[[] st1]|] eqn:E; [| |apply quiet_refl].
  - destruct Hc as ([Hb1 _ Ho _] & _). eapply quiet_trans; [by eapply on_data_step_quiet|].
    rewrite <-(live_others slot st st1) by done. by apply IH.
  - by eapply on_data_step_quiet.
Qed.

Lemma on_data_speaks slot data now st : good st →
  speaks (live st) st (on_data slot data now st) (live (on_data slot data now st)).
Proof.
  intros Hg. pose proof Hg as [Hinv Hp Hpe Hsd]. rewrite on_data_eq.
  destruct (bad_slot slot st) eqn:Hb; [apply speaks_refl|]. rewrite Hsd. cbv zeta.
  destruct (bad_slot_false _ _ Hb) as (_ & _ & Hf). set (i := Z.to_nat slot) in *.
  destruct (received_busy i data now st Hg Hf) as (Hbusy & _ & _ & Hother & _).
  set (st1 := received i data now st) in *.
  pose proof (on_data_loop_quiet (S (length (s_rx (sess st1 i)))) i now st1 Hbusy) as Hq.
  destruct (on_data_loop_post (S (length (s_rx (sess st1 i)))) i now st1 Hbusy) as [B1 _ B3 _ _ _]; [lia|].
  set (st2 := on_data_loop _ i now st1) in *.
  assert (live st1 = live st) as L1.
  { destruct Hbusy as [Hi1 _ _ Hf1]. apply live_same; [by apply inv_len_sessions..|]. intros j.
    destruct (decide (j = i)) as [->|Hj]; [naive_solver|]. by rewrite Hother. }
  assert (live st2 = live st) as L2 by (rewrite <-L1; by eapply live_others).
  apply (speaks_trans _ (live st2) _ _ st2); [rewrite L2, <-L1; by apply quiet_speaks|].
  destruct B1 as [Hi2 Hs2 _ _].
  exact (drain_closes_speaks (st2 <| sv_processing := false |>) (inv_processing false st2 Hi2)
    (sched_processing false st2 Hs2)).
Qed.

(** ** Notifications *)

(** A call that changes the state ends with [on_state_change]. *)
Definition told (st st' : Server) : Prop := ∃ es, sv_out st' = sv_out st ++ es ++ [ENotify].

Lemma told_notify o o' st st1 : speaks o st st1 o' → told st (notify st1).
Proof. intros [E _]. eexists. unfold notify. by rewrite out_emit, E, <-app_assoc. Qed.
Lemma told_after o o' st st1 st2 : speaks o st st1 o' → told st1 st2 → told st st2.
Proof.
  intros [E _] [es Hes]. exists (outputs st st1 ++ es). by rewrite Hes, E, <-!app_assoc.
Qed.
Lemma told_elem st st' : told st st' → ENotify ∈ outputs st st'.
Proof. intros [es E]. rewrite (outputs_app _ _ _ E). set_solver. Qed.

Lemma drain_closes_told st : inv st → sched st → told st (drain_closes st).
Proof.
  intros Hinv Hs. unfold drain_closes. set (st1 := st <| sv_processing := true |>).
  exact (told_notify _ _ st _ (drain_loop_speaks (length (sv_pending_close st1)) st1 (inv_processing true st Hinv)
           (sched_processing true st Hs) eq_refl)).
Qed.

Lemma on_connect_told now peer st : (on_connect now peer st).2 = st ∨ told st (on_connect now peer st).2.
Proof.
  unfold on_connect. destruct (List.find _ slots); [|by left]. right. cbn [snd].
  apply (told_notify ∅ ∅). by apply speaks_same.
Qed.

Lemma on_disconnected_told slot st : good st →
  on_disconnected slot st = st ∨ told st (on_disconnected slot st).
Proof.
  intros Hg. destruct (bad_slot slot st) eqn:Hb; [left; unfold on_disconnected; by rewrite Hb|right].
  destruct (on_disconnected_leaves slot st Hg Hb) as (-> & Hinv0 & Hf & _). eapply told_notify.
  eapply speaks_trans; [exact (quiet_speaks _ _ _ (leave_quiet _ _ Hinv0 Hf))|]. by apply (speaks_intro _ _ _ _ [ENotify]).
Qed.

Lemma tick_told now st : good st → tick now st = st ∨ told st (tick now st).
Proof.
  assert (∀ l st, good st → foldl (tick_step now) st l = st ∨ told st (foldl (tick_step now) st l)) as H; [|apply H].
  clear st. induction l as [|i l IH]; intros st Hg; [by left|]. cbn [foldl].
  destruct (tick_step_post now st i Hg) as [_ Hg' _]. specialize (IH _ Hg').
  assert (tick_step now st i = st ∨ s_phase (sess st i) ≠ FREE ∧ tick_step now st i = disconnect_client i st) as Hc.
  { unfold tick_step. destruct (bool_decide_reflect (s_phase (sess st i) = FREE)) as [|Hf]; [by left|].
    cbn [orb]. repeat case_match; auto. }
  destruct Hc as [Ht|[Hf Ht]]; rewrite Ht in *; [exact IH|]. right.
  pose proof (disconnect_speaks i st Hg Hf) as Hsp.
  destruct IH as [->|IH]; [|by eapply told_after].
  destruct (disconnect_starts st i Hg Hf) as (-> & Hinv & Hs & _). exact (drain_closes_told _ Hinv Hs).
Qed.

Lemma on_data_told slot data now st : good st →
  on_data slot data now st = st ∨ told st (on_data slot data now st).
Proof.
  intros Hg. pose proof Hg as [Hinv Hp Hpe Hsd]. rewrite on_data_eq.
  destruct (bad_slot slot st) eqn:Hb; [by left|]. rewrite Hsd. cbv zeta. right.
  destruct (bad_slot_false _ _ Hb) as (_ & _ & Hf). set (i := Z.to_nat slot) in *.
  destruct (received_busy i data now st Hg Hf) as (Hbusy & _). set (st1 := received i data now st) in *.
  pose proof (on_data_loop_quiet (S (length (s_rx (sess st1 i)))) i now st1 Hbusy) as Hq%quiet_speaks.
  destruct (on_data_loop_post (S (length (s_rx (sess st1 i)))) i now st1 Hbusy) as [[Hi2 Hs2 _ _] _ _ _ _ _]; [lia|].
  eapply told_after; [exact Hq|].
  exact (drain_closes_told _ (inv_processing false _ Hi2) (sched_processing false _ Hs2)).
Qed.

(** ** Every execution *)

(** The open connections an embedder has when it makes a call: for
    [on_disconnected] the connection is gone already. *)
Definition opens (e : Event) (st : Server) : gset nat :=
  match e with EvDisconnected slot => if bad_slot slot st then live st else live st ∖ {[Z.to_nat slot]} | _ => live st end.
(** ... and after the call: [on_connect] hands out one more. *)
Definition grants (e : Event) (st : Server) : gset nat :=
  match e with
  | EvConnect now peer => let r := (on_connect now peer st).1 in if r <? 0 then ∅ else {[Z.to_nat r]}
  | _ => ∅
  end.

(** C4: the server keeps its side of the transport contract.  In every reachable
    state and for every call, the effects of the call are appended to the earlier
    ones; each frame goes to a connection that is open at that moment and each
    close hits an open connection; afterwards the open connections, together
    with the one [on_connect] returned, are exactly the sessions in use; and a
    call that changed anything ends with a notification. *)
Theorem transport_contract max st e :
  reachable max st →
  let st' := exec st e in
  let es := outputs st st' in
  sv_out st' = sv_out st ++ es ∧
  (∃ o, follows (opens e st) es = Some o ∧ live st' = grants e st ∪ o) ∧
  (st' = st ∨ last es = Some ENotify).
Proof.
  intros [Hg _]%reachable_good st' es.
  assert (∀ o, speaks (opens e st) st st' o → live st' = grants e st ∪ o → st' = st ∨ told st st' →
    sv_out st' = sv_out st ++ es ∧ (∃ o, follows (opens e st) es = Some o ∧ live st' = grants e st ∪ o) ∧
    (st' = st ∨ last es = Some ENotify)) as H.
  { intros o [E F] Hl Ht. split_and!; [done|by eauto|]. destruct Ht as [->|[l El]]; [by left|right].
    unfold es. rewrite (outputs_app _ _ _ El). apply last_snoc. }
  destruct e as [now peer|slot data now|slot|now]; cbn [exec opens grants] in *.
  - destruct (on_connect_speaks now peer st Hg) as (Hs & Hl & _).
    refine (H (live st) Hs _ (on_connect_told now peer st)). unfold st'. rewrite Hl.
    case_match; [symmetry; apply (left_id_L ∅ (∪))|reflexivity].
  - refine (H (live st') (on_data_speaks slot data now st Hg) _ (on_data_told slot data now st Hg)).
    symmetry. apply (left_id_L ∅ (∪)).
  - refine (H (live st') _ _ (on_disconnected_told slot st Hg)); [|symmetry; apply (left_id_L ∅ (∪))].
    destruct (bad_slot slot st) eqn:Hb; [|exact (proj1 (on_disconnected_speaks slot st Hg Hb))].
    unfold st', on_disconnected. rewrite Hb. apply speaks_refl.
  - refine (H (live st') (tick_speaks now st Hg) _ (tick_told now st Hg)). symmetry. apply (left_id_L ∅ (∪)).
Qed.
(** A tick in which both clients time out closes both connections. *)
Lemma transport_contract_witness :
  let st' := exec two_acked (EvTick 1000000) in
  follows (live two_acked) (outputs two_acked st') = Some ∅ ∧ live two_acked = {[0%nat; 1%nat]} ∧
  ∃ o, follows (live two_acked) (outputs two_acked st') = Some o ∧ live st' = ∅ ∪ o.
Proof.
  cbv zeta. split; [apply (bool_decide_unpack _); vm_compute; exact I|].
  split; [apply (bool_decide_unpack _); vm_compute; exact I|].
  destruct (transport_contract 32768 two_acked (EvTick 1000000) (run_reachable _ _ _ (reach_init 32768)))
    as (_ & H & _). exact H.
Defined.
