(* ===== verification/Arbiter.v ===== *)
(** * The abstract arbiter

    What the server promises to its clusters, without sessions, buffers or timers.
    Per cluster the arbiter has three sets of node ids - the nodes that hold the
    quorum vote, the nodes whose vote is being revoked, and the partition that may
    have it - and five labelled actions: a decision, which tells NACK to the nodes
    that lose, a grant, which tells ACK, the answer of a node, its departure, and
    the end of the cluster.  A vote is only granted inside the partition and only
    when no revocation is outstanding; a revocation only ends by the answer or the
    departure of the node, or by a new decision.

    The server refines it with its frames: the VOTE_INFO frames of a call are the
    ones its actions tell, in order, its decisions are counted, and answers and
    departures happen only when that client sent the answer or was disconnected. *)
From S2P Require Import Prelude Wire Tlv Msg State Ffsplit Select Handlers Lifecycle Invariant.
From S2P Require Import HandlerFacts InitFacts VoteOrder Safety Scenarios Outputs.
From stdpp Require Import gmap.
Open Scope Z_scope.

(** ** The specification *)

Record Arb : Type := mkArb { holders : gset Z; revoking : gset Z; partition : gset Z }.
Definition Arb0 : Arb := mkArb ∅ ∅ ∅.

(** A client is told something on its connection; it has a node id. *)
Inductive Action : Type :=
| ADecide (w : gset Z) (lost : list (nat * Z))
| AGrant (won : list (nat * Z))
| AAnswer (i : nat) (n : Z)
| ALeave (i : nat) (n : Z)
| ADisband.

Definition nodes (l : list (nat * Z)) : gset Z := list_to_set l.*2.

Inductive arb_step : Arb → Action → Arb → Prop :=
(** A new partition [w]: the clients of [lost], none of them in [w], are told
    NACK; whoever still holds the vote is in [w]. *)
| arb_decide h r p w lost : nodes lost ## w → h ∖ nodes lost ⊆ w →
    arb_step (mkArb h r p) (ADecide w lost) (mkArb (h ∖ nodes lost) (nodes lost) w)
(** Clients of the partition are told ACK; nothing is being revoked. *)
| arb_grant h p won : nodes won ⊆ p → arb_step (mkArb h ∅ p) (AGrant won) (mkArb (h ∪ nodes won) ∅ p)
(** A node confirms what it was told. *)
| arb_answer h r p i n : arb_step (mkArb h r p) (AAnswer i n) (mkArb h (r ∖ {[n]}) p)
(** A node leaves. *)
| arb_leave h r p i n : arb_step (mkArb h r p) (ALeave i n) (mkArb (h ∖ {[n]}) (r ∖ {[n]}) p)
(** The last node has left. *)
| arb_disband p : arb_step (mkArb ∅ ∅ p) ADisband Arb0.

(** Mutual exclusion: all holders are in the partition, no node whose vote is
    being revoked is. *)
Definition exclusive (a : Arb) : Prop := holders a ⊆ partition a ∧ revoking a ## partition a.

Lemma arb_step_exclusive a l a' : exclusive a → arb_step a l a' → exclusive a'.
Proof. intros [H1 H2] Hs. destruct Hs; cbn in *; split; cbn; set_solver. Qed.

(** What an action tells, and the observations of a trace of actions in clusters. *)
Definition tells_of (l : Action) : list (nat * Vote) :=
  match l with
  | ADecide _ lost => (λ x, (x.1, VOTE_NACK)) <$> lost
  | AGrant won => (λ x, (x.1, VOTE_ACK)) <$> won
  | _ => []
  end.
Definition decides_of (l : Action) : list unit := match l with ADecide _ _ => [()] | _ => [] end.
Definition answers_of (l : Action) : list nat := match l with AAnswer i _ => [i] | _ => [] end.
Definition leaves_of (l : Action) : list nat := match l with ALeave i _ => [i] | _ => [] end.

(** The clients an action names. *)
Definition named (l : Action) : list (nat * Z) :=
  match l with ADecide _ lost => lost | AGrant won => won | AAnswer i n | ALeave i n => [(i, n)] | ADisband => [] end.

Abbreviation Trace := (list (Z * Action)).
Definition told_in (tr : Trace) : list (nat * Vote) := tr ≫= λ l, tells_of l.2.
Definition decides (tr : Trace) : nat := length (tr ≫= λ l, decides_of l.2).
Definition answered_in (tr : Trace) : list nat := tr ≫= λ l, answers_of l.2.
Definition left_in (tr : Trace) : list nat := tr ≫= λ l, leaves_of l.2.

(** Traces of one cluster, and of all. *)
Inductive steps : Arb → list Action → Arb → Prop :=
| steps_nil a : steps a [] a
| steps_cons a l a' tr a'' : arb_step a l a' → steps a' tr a'' → steps a (l :: tr) a''.

Inductive path : (Z → Arb) → Trace → (Z → Arb) → Prop :=
| path_nil A A' : (∀ c, A' c = A c) → path A [] A'
| path_cons A c l A' tr A'' : arb_step (A c) l (A' c) → (∀ d, d ≠ c → A' d = A d) → path A' tr A'' →
    path A ((c, l) :: tr) A''.

Lemma steps_app a tr1 a' tr2 a'' : steps a tr1 a' → steps a' tr2 a'' → steps a (tr1 ++ tr2) a''.
Proof. induction 1; [done|]. intros. econstructor; eauto. Qed.

Lemma path_ext A B tr C : (∀ c, B c = A c) → path B tr C → path A tr C.
Proof.
  intros E H. destruct H as [B C H|B c l A' tr A'' H1 H2 H3].
  - apply path_nil. intros c. by rewrite H.
  - apply (path_cons _ _ _ A'); [by rewrite <-E| |done]. intros d Hd. by rewrite H2.
Qed.
Lemma path_app A tr1 B tr2 C : path A tr1 B → path B tr2 C → path A (tr1 ++ tr2) C.
Proof.
  induction 1 as [A B H|A c l A' tr A'' H1 H2 H3 IH]; intros H'; [by apply (path_ext A B)|].
  cbn [app]. eapply path_cons; [done|done|]. by apply IH.
Qed.

(** The actions of a single cluster. *)
Lemma path_in c A tr A' : steps (A c) tr (A' c) → (∀ d, d ≠ c → A' d = A d) → path A (pair c <$> tr) A'.
Proof.
  intros H. remember (A c) as a eqn:Ea. remember (A' c) as b eqn:Eb. revert A Ea.
  induction H as [a|a l a' tr a'' Hs H IH]; intros A Ea Hd; subst.
  - apply path_nil. intros d. destruct (decide (d = c)) as [->|]; auto.
  - cbn. apply (path_cons A c l (λ d, if decide (d = c) then a' else A d)).
    + by rewrite decide_True.
    + intros d Hdc. by rewrite decide_False.
    + apply IH; [done|by rewrite decide_True|]. intros d Hdc. rewrite decide_False by done. auto.
Qed.

(** ** Frames *)

(** The effects of a call tell these votes: its VOTE_INFO frames, in order. *)
Definition silent (e : Effect) : Prop :=
  match e with ESend _ f => be_get16 f ≠ Ok (MsgType_to_Z MT_VOTE_INFO) | _ => True end.
Inductive tells : list (nat * Vote) → list Effect → Prop :=
| tells_nil : tells [] []
| tells_vote i v seq ring l es : tells l es → tells ((i, v) :: l) (ESend i (build_vote_info seq ring v) :: es)
| tells_silent e l es : silent e → tells l es → tells l (e :: es).

Lemma tells_app l1 es1 l2 es2 : tells l1 es1 → tells l2 es2 → tells (l1 ++ l2) (es1 ++ es2).
Proof. induction 1; intros; [done|cbn; by apply tells_vote; auto|cbn; by apply tells_silent; auto]. Qed.
Lemma tells_none es : Forall silent es → tells [] es.
Proof. induction 1; [constructor|by apply tells_silent]. Qed.
Lemma tells_votes v st tv l :
  tells ((λ x : nat * Z, (x.1, v)) <$> ((λ i, (i, s_node_id (sess st i))) <$> l)) (vote_effect st tv v <$> l).
Proof. induction l as [|i l IH]; [constructor|]. cbn. apply tells_vote. exact IH. Qed.

(** The other replies have other types. *)
Lemma frame_bytes_type type os : (∀ v, type ≠ MT_OTHER v) → be_get16 (frame_bytes type os) = Ok (MsgType_to_Z type).
Proof.
  intros Ht. unfold frame_bytes. cbn [app]. rewrite be_get16_cons, be16_enc by (destruct type; try done; by destruct (Ht v)). done.
Qed.
Lemma echo_silent i frame len : silent (ESend i (build_echo_reply frame len)).
Proof. unfold silent, build_echo_reply. by destruct (take len frame) as [|a [|b f]]. Qed.
Lemma silent_server_error i b n code : silent (ESend i (build_server_error b n code)).
Proof. unfold silent. by rewrite build_server_error_spec, frame_bytes_type. Qed.
Lemma silent_preinit_reply i b n t c : silent (ESend i (build_preinit_reply b n t c)).
Proof. unfold silent. by rewrite build_preinit_reply_spec, frame_bytes_type. Qed.
Lemma silent_init_reply i b n code x y k l : silent (ESend i (build_init_reply b n code x y k l)).
Proof. unfold silent. by rewrite build_init_reply_spec, frame_bytes_type. Qed.
Lemma silent_set_option_reply i b n x y z t : silent (ESend i (build_set_option_reply b n x y z t)).
Proof. unfold silent. by rewrite build_set_option_reply_spec, frame_bytes_type. Qed.
Lemma silent_node_list_reply i n t r v : silent (ESend i (build_node_list_reply n t r v)).
Proof. unfold silent. by rewrite build_node_list_reply_spec, frame_bytes_type. Qed.
Lemma silent_heuristics_change_reply i b n v : silent (ESend i (build_heuristics_change_reply b n v)).
Proof. unfold silent. by rewrite build_heuristics_change_reply_spec, frame_bytes_type. Qed.

(** ** The abstraction *)

(** The node ids of the clients of cluster [c] with a property. *)
Definition ids (P : Session → bool) (c : Z) (st : Server) : gset Z :=
  list_to_set ((λ i, s_node_id (sess st i)) <$> List.filter (λ i, in_cluster (sess st i) c && P (sess st i)) slots).

Definition acked (s : Session) : bool := bool_decide (s_last_ack_nack s = VOTE_ACK).
Definition nacking (s : Session) : bool := bool_decide (s_ff_state s = FC_SENDING_NACK).
Definition quorate (c : Z) (st : Server) : gset Z := list_to_set (nl_ids (cl_quorate_partition (clus st c))).

Definition abs (c : Z) (st : Server) : Arb := mkArb (ids acked c st) (ids nacking c st) (quorate c st).

Lemma elem_of_ids P c st n : length (sv_sessions st) = MAX_CLIENTS →
  n ∈ ids P c st ↔ ∃ i, in_cluster (sess st i) c = true ∧ P (sess st i) = true ∧ s_node_id (sess st i) = n.
Proof.
  intros Hlen. unfold ids. rewrite elem_of_list_to_set, list_elem_of_fmap. split.
  - intros (i & -> & Hi). apply list_elem_of_In, List.filter_In in Hi as [_ [H1 H2]%andb_prop]. by exists i.
  - intros (i & H1 & H2 & <-). exists i. split; [done|]. apply list_elem_of_In, List.filter_In.
    rewrite H1, H2. split; [|done]. apply list_elem_of_In, elem_of_slots. rewrite <-Hlen. apply sess_in_range.
    by apply in_cluster_true in H1 as [-> _].
Qed.

Lemma elem_of_quorate c st n : n ∈ quorate c st ↔ n ∈ nl_ids (cl_quorate_partition (clus st c)).
Proof. apply elem_of_list_to_set. Qed.

(** What the abstraction reads of a session. *)
Definition arb_view (s : Session) := (s_phase s, s_cluster s, s_node_id s, s_ff_state s, s_last_ack_nack s).

Lemma arb_view_eqs s s' : arb_view s' = arb_view s →
  s_phase s' = s_phase s ∧ s_cluster s' = s_cluster s ∧ s_node_id s' = s_node_id s ∧
  s_ff_state s' = s_ff_state s ∧ s_last_ack_nack s' = s_last_ack_nack s.
Proof. unfold arb_view. intros H. by repeat (apply pair_eq in H as [H ?]). Qed.
Lemma arb_view_cluster s s' c : arb_view s' = arb_view s → in_cluster s' c = in_cluster s c.
Proof. intros (E1 & E2 & _)%arb_view_eqs. unfold in_cluster. by rewrite E1, E2. Qed.

(** The actions of a trace name connections in use, an active client by its own
    node id and in its own cluster. *)
Definition truthful (st : Server) (tr : Trace) : Prop := ∀ c l i n, (c, l) ∈ tr → (i, n) ∈ named l →
  s_phase (sess st i) ≠ FREE ∧ (s_phase (sess st i) = ACTIVE → s_cluster (sess st i) = c ∧ s_node_id (sess st i) = n).

(** The server refines the arbiter between two states: its effects tell what the
    actions of a trace tell, the clients [ans] answer, and whoever leaves is in
    [away] or has its connection closed. *)
Definition counted (n : nat) : Z → Z := Nat.iter n (λ n, u32 (n + 1)).
Definition acts (ans away : list nat) (st st' : Server) : Prop := ∃ tr es,
  path (λ c, abs c st) tr (λ c, abs c st') ∧ truthful st tr ∧ sv_out st' = sv_out st ++ es ∧ tells (told_in tr) es ∧
  sv_decisions st' = counted (decides tr) (sv_decisions st) ∧ answered_in tr = ans ∧
  ∀ i, i ∈ left_in tr → i ∈ away ∨ EClose i ∈ es.

(** Between two calls of [on_connect] sessions are not taken, and active clients
    keep their node id and cluster until they leave. *)
Definition stays (st st' : Server) : Prop := ∀ i,
  (s_phase (sess st i) = FREE → s_phase (sess st' i) = FREE) ∧
  (s_phase (sess st i) = ACTIVE → s_phase (sess st' i) = FREE ∨
     s_phase (sess st' i) = ACTIVE ∧ s_cluster (sess st' i) = s_cluster (sess st i) ∧
     s_node_id (sess st' i) = s_node_id (sess st i)).

Lemma stays_trans st1 st2 st3 : stays st1 st2 → stays st2 st3 → stays st1 st3.
Proof.
  intros H1 H2 i. destruct (H1 i) as [F1 A1], (H2 i) as [F2 A2]. split; [auto|].
  intros [?|(Ha & <- & <-)]%A1; [auto|]. by apply A2.
Qed.
Lemma truthful_later st1 st2 tr : stays st1 st2 → truthful st2 tr → truthful st1 tr.
Proof.
  intros Hk Ht c l i n Hl Hn. destruct (Ht c l i n Hl Hn) as [Hf Ha], (Hk i) as [F A]. split; [auto|].
  intros [?|(? & <- & <-)]%A; [done|auto].
Qed.
Lemma stays_slot slot st st' : (∀ j, j ≠ slot → sess st' j = sess st j) →
  (s_phase (sess st slot) = FREE → s_phase (sess st' slot) = FREE) →
  (s_phase (sess st slot) = ACTIVE → s_phase (sess st' slot) = FREE) → stays st st'.
Proof.
  intros Hs Hf Ha i. destruct (decide (i = slot)) as [->|Hi]; [auto|]. rewrite Hs by done. auto.
Qed.
Lemma stays_view st st' : (∀ j, arb_view (sess st' j) = arb_view (sess st j)) → stays st st'.
Proof. intros H j. destruct (arb_view_eqs _ _ (H j)) as (-> & -> & -> & _). auto. Qed.
Lemma stays_unvoted st st' : (∀ j, unvoted (sess st' j) = unvoted (sess st j)) → stays st st'.
Proof.
  intros H j. rewrite (unvoted_phase _ _ (H j)), (unvoted_cluster _ _ (H j)), (unvoted_node_id _ _ (H j)). auto.
Qed.

Definition sim (ans away : list nat) (st st' : Server) : Prop := acts ans away st st' ∧ stays st st'.

Lemma sim_trans ans1 away1 ans2 away2 st1 st2 st3 : sim ans1 away1 st1 st2 → sim ans2 away2 st2 st3 →
  sim (ans1 ++ ans2) (away1 ++ away2) st1 st3.
Proof.
  intros [(tr1 & es1 & P1 & N1 & O1 & T1 & D1 & A1 & L1) K1] [(tr2 & es2 & P2 & N2 & O2 & T2 & D2 & A2 & L2) K2].
  split; [|by eapply stays_trans]. exists (tr1 ++ tr2), (es1 ++ es2). split_and!.
  - by eapply path_app.
  - intros c l i n [Hl|Hl]%elem_of_app; [eauto|]. by apply (truthful_later st1 st2 tr2 K1 N2).
  - by rewrite O2, O1, app_assoc.
  - unfold told_in. rewrite bind_app. by apply tells_app.
  - rewrite D2, D1. unfold decides, counted. rewrite bind_app, length_app, Nat.add_comm. symmetry. apply Nat.iter_add.
  - unfold answered_in. rewrite bind_app. by f_equal.
  - intros i. unfold left_in. rewrite bind_app, !elem_of_app. intros [Hi|Hi]; [destruct (L1 i Hi)|destruct (L2 i Hi)]; auto.
Qed.
(** A step that is invisible to the arbiter. *)
Abbreviation sim0 := (sim [] []).
Lemma sim0_l ans away st1 st2 st3 : sim0 st1 st2 → sim ans away st2 st3 → sim ans away st1 st3.
Proof. apply (sim_trans [] []). Qed.
Lemma sim0_r ans away st1 st2 st3 : sim ans away st1 st2 → sim0 st2 st3 → sim ans away st1 st3.
Proof. intros H1 H2. pose proof (sim_trans _ _ _ _ _ _ _ H1 H2) as H. by rewrite !app_nil_r in H. Qed.

(** What is the same of two states outside of votes. *)
Record mute (st st' : Server) : Prop := {
  mu_out : ∃ es, sv_out st' = sv_out st ++ es ∧ Forall silent es;
  mu_decisions : sv_decisions st' = sv_decisions st;
}.
Lemma mute_same st st' : sv_out st' = sv_out st → sv_decisions st' = sv_decisions st → mute st st'.
Proof. intros E1 E2. split; [|done]. exists []. by rewrite app_nil_r. Qed.
Lemma mute_emit e st st' : silent e → mute st st' → mute st (emit e st').
Proof.
  intros He [(es & Ho & Hs) Hd]. split; [|done]. exists (es ++ [e]).
  split; [unfold emit; cbn; by rewrite Ho, app_assoc|]. apply Forall_app. split; [done|by constructor].
Qed.
Lemma mute_upd_clus c f st : mute st (upd_clus c f st).
Proof. apply mute_same; [apply out_upd_clus|]. unfold upd_clus. by case_match. Qed.
Lemma mute_upd_sess i f st : mute st (upd_sess i f st).
Proof. by apply mute_same. Qed.
#[export] Hint Resolve mute_upd_clus mute_upd_sess : qnetd.
Lemma acts_abs st st' : (∀ c, abs c st' = abs c st) → mute st st' → acts [] [] st st'.
Proof.
  intros Ha [(es & Ho & He) Hd]. exists [], es. split_and!; [by apply path_nil| |done|by apply tells_none|done|done|].
  - by intros c l i n ?%not_elem_of_nil.
  - by intros i ?%not_elem_of_nil.
Qed.
Lemma sim_abs st st' : (∀ c, abs c st' = abs c st) → mute st st' → stays st st' → sim0 st st'.
Proof. intros Ha Hm Hk. split; [by apply acts_abs|done]. Qed.
Lemma sim_away0 ans away st st' : sim ans [] st st' → sim ans away st st'.
Proof.
  intros [(tr & es & P & N & O & T & D & A & L) K]. split; [|done]. exists tr, es. split_and!; [done..|].
  intros i [[]%not_elem_of_nil|?]%L. by right.
Qed.
Lemma sim_refl st : sim0 st st.
Proof. apply sim_abs; [done|by apply mute_same|by apply stays_view]. Qed.
#[export] Hint Resolve sim_refl : qnetd.

(** Actions in one cluster. *)
Lemma sim_cluster c tr es ans away st st' : steps (abs c st) tr (abs c st') → (∀ d, d ≠ c → abs d st' = abs d st) →
  sv_out st' = sv_out st ++ es → tells (tr ≫= tells_of) es →
  sv_decisions st' = counted (length (tr ≫= decides_of)) (sv_decisions st) →
  tr ≫= answers_of = ans → tr ≫= leaves_of = away → stays st st' →
  (∀ l i n, l ∈ tr → (i, n) ∈ named l → in_cluster (sess st i) c = true ∧ s_node_id (sess st i) = n) →
  sim ans away st st'.
Proof.
  intros Hs Hd Ho Ht Hn <- <- Hk Hnm. split; [|done]. exists (pair c <$> tr), es.
  assert (∀ B (f : Action → list B), ((pair c <$> tr) ≫= λ l, f l.2) = tr ≫= f) as E.
  { intros B f. clear. induction tr as [|l tr IH]; [done|]. cbn. f_equal. exact IH. }
  unfold told_in, decides, answered_in, left_in. rewrite (E _ tells_of), (E _ decides_of), (E _ answers_of), (E _ leaves_of).
  split_and!; [by apply path_in| |done|done|done|done|by left].
  intros d l i n (l' & [= -> ->] & Hl)%list_elem_of_fmap Hi. destruct (Hnm l' i n Hl Hi) as [[Hp Hc]%in_cluster_true Hid].
  by rewrite Hp.
Qed.

Lemma ids_same P c st st' : (∀ s s', arb_view s' = arb_view s → P s' = P s) →
  (∀ j, in_cluster (sess st j) c = true ∨ in_cluster (sess st' j) c = true → arb_view (sess st' j) = arb_view (sess st j)) →
  ids P c st' = ids P c st.
Proof.
  intros HP Hv. unfold ids. f_equal. induction slots as [|i l IH]; [done|]. cbn [List.filter].
  destruct (in_cluster (sess st i) c) eqn:E1, (in_cluster (sess st' i) c) eqn:E2; cbn [andb]; [| | |exact IH].
  all: assert (arb_view (sess st' i) = arb_view (sess st i)) as E by auto.
  2, 3: rewrite (arb_view_cluster _ _ c E) in E2; congruence.
  rewrite (HP _ _ E). destruct (P (sess st i)); [|exact IH]. rewrite !fmap_cons, IH.
  by destruct (arb_view_eqs _ _ E) as (_ & _ & -> & _).
Qed.

(** Nothing the abstraction reads has changed in cluster [c]. *)
Lemma abs_same c st st' :
  (∀ j, in_cluster (sess st j) c = true ∨ in_cluster (sess st' j) c = true → arb_view (sess st' j) = arb_view (sess st j)) →
  cl_quorate_partition (clus st' c) = cl_quorate_partition (clus st c) → abs c st' = abs c st.
Proof.
  intros Hv Hq. unfold abs, quorate. rewrite Hq.
  rewrite !(ids_same _ c st st'); try done;
    intros s s' (_ & _ & _ & E1 & E2)%arb_view_eqs; unfold acked, nacking; by rewrite ?E1, ?E2.
Qed.
Lemma sim_same st st' : (∀ j, arb_view (sess st' j) = arb_view (sess st j)) →
  (∀ c, cl_quorate_partition (clus st' c) = cl_quorate_partition (clus st c)) → mute st st' → sim0 st st'.
Proof.
  intros Hv Hq Hm. apply sim_abs; [|done|by apply stays_view]. intros c. apply abs_same; [by intros j _; apply Hv|apply Hq].
Qed.

(** ** Decisions *)

Lemma elem_of_if (b : bool) (X : gset Z) n : n ∈ (if b then X else ∅) ↔ b = true ∧ n ∈ X.
Proof. destruct b; set_solver. Qed.

(** A client that takes part in a decision for [w]. *)
Lemma decided_member tv w c lid b s :
  in_cluster s c = true → tv_leaving tv && (s_node_id s =? lid) = false →
  let s' := decided_sess tv w c lid b s in
  let won := nl_mem (default [] w) (s_node_id s) in
  in_cluster s' c = true ∧ s_node_id s' = s_node_id s ∧ nacking s' = negb won ∧ acked s' = won && (b || acked s).
Proof.
  intros Hin Hsk s' won. pose proof (decided_sess_unvoted tv w c lid b s) as Hu. fold s' in Hu.
  split_and!; [by rewrite (unvoted_in_cluster _ _ _ Hu)|by apply unvoted_node_id|..];
    unfold s', won, decided_sess, new_ff; rewrite Hin, Hsk; (destruct w as [w|]; [|done]); change (default [] (Some w)) with w;
    (destruct (nl_mem w (s_node_id s)); [|done]); by destruct b.
Qed.

Section decided.
Context (tv : TriggerView) (w : option NodeList) (st st' : Server).
Let c := s_cluster (sess st (tv_slot tv)).
Let lid := s_node_id (sess st (tv_slot tv)).
Let b := bool_decide (assigned st tv w FC_SENDING_NACK = []).
Context (Hlen : length (sv_sessions st) = MAX_CLIENTS) (Hlen' : length (sv_sessions st') = MAX_CLIENTS).

(** The client that is leaving, if any. *)
Definition gone (j : nat) : Prop := tv_leaving tv = true ∧ j = tv_slot tv.
Context (Hgone : ∀ j, gone j → in_cluster (sess st' j) c = false).
Context (Hsess : ∀ j, ¬ gone j → sess st' j = decided_sess tv w c lid b (sess st j)).
Context (Hids : tv_leaving tv = true → ∀ j, in_cluster (sess st j) c = true → s_node_id (sess st j) = lid → j = tv_slot tv).

Lemma not_skipped j : ¬ gone j → in_cluster (sess st j) c = true →
  tv_leaving tv && (s_node_id (sess st j) =? lid) = false.
Proof using Hids.
  intros Hg Hin. destruct (tv_leaving tv) eqn:Hl; [|done]. cbn. apply Z.eqb_neq. intros E. apply Hg. split; [done|]. auto.
Qed.

(** The clients after the decision are the clients before that stay. *)
Lemma decided_client j : in_cluster (sess st' j) c = true →
  ¬ gone j ∧ in_cluster (sess st j) c = true ∧ s_node_id (sess st' j) = s_node_id (sess st j).
Proof using Hgone Hsess.
  intros Hin. assert (¬ gone j) as Hg by (intros Hg; by rewrite Hgone in Hin).
  pose proof (decided_sess_unvoted tv w c lid b (sess st j)) as Hu. rewrite <-Hsess in Hu by done.
  split_and!; [done|by rewrite <-(unvoted_in_cluster _ _ c Hu)|by apply unvoted_node_id].
Qed.

Let W : gset Z := list_to_set (nl_ids (default [] w)).
Let H0 : gset Z := if tv_leaving tv then ids acked c st ∖ {[lid]} else ids acked c st.

Lemma decided_nacking n : n ∈ ids nacking c st' ↔
  ∃ j, ¬ gone j ∧ in_cluster (sess st j) c = true ∧ s_node_id (sess st j) = n ∧ n ∉ W.
Proof using Hlen' Hgone Hsess Hids.
  rewrite elem_of_ids by done. unfold W. setoid_rewrite elem_of_list_to_set. split.
  - intros (j & Hin & Hn & <-). destruct (decided_client j Hin) as (Hg & Hj & ->). exists j. split_and!; [done..|].
    rewrite Hsess in Hn by done. destruct (decided_member tv w c lid b _ Hj (not_skipped j Hg Hj)) as (_ & _ & E & _).
    rewrite E in Hn. apply negb_true_iff in Hn. by apply nl_mem_false.
  - intros (j & Hg & Hj & <- & Hn). exists j. rewrite Hsess by done.
    destruct (decided_member tv w c lid b _ Hj (not_skipped j Hg Hj)) as (E1 & E2 & E3 & _).
    split_and!; [done| |done]. rewrite E3. apply negb_true_iff. by apply nl_mem_false.
Qed.

Lemma decided_acked n : n ∈ ids acked c st' ↔
  ∃ j, ¬ gone j ∧ in_cluster (sess st j) c = true ∧ s_node_id (sess st j) = n ∧ n ∈ W ∧ (b || acked (sess st j) = true).
Proof using Hlen' Hgone Hsess Hids.
  rewrite elem_of_ids by done. unfold W. setoid_rewrite elem_of_list_to_set. split.
  - intros (j & Hin & Hn & <-). destruct (decided_client j Hin) as (Hg & Hj & ->). exists j.
    rewrite Hsess in Hn by done. destruct (decided_member tv w c lid b _ Hj (not_skipped j Hg Hj)) as (_ & _ & _ & E).
    rewrite E in Hn. apply andb_prop in Hn as [Hm Hb]. split_and!; [done..| |done]. by apply nl_mem_true.
  - intros (j & Hg & Hj & <- & Hn & Hb). exists j. rewrite Hsess by done.
    destruct (decided_member tv w c lid b _ Hj (not_skipped j Hg Hj)) as (E1 & E2 & _ & E4).
    split_and!; [done| |done]. rewrite E4. apply andb_true_intro. split; [by apply nl_mem_true|done].
Qed.

(** The holders that stay. *)
Lemma elem_of_H0 n : n ∈ H0 ↔
  ∃ j, ¬ gone j ∧ in_cluster (sess st j) c = true ∧ s_node_id (sess st j) = n ∧ acked (sess st j) = true.
Proof using Hlen Hids.
  unfold H0, gone. destruct (tv_leaving tv) eqn:Hl.
  - rewrite elem_of_difference, elem_of_singleton, elem_of_ids by done. split.
    + intros [(j & Hin & Ha & <-) Hne]. exists j. split_and!; try done. intros [_ ->]. by apply Hne.
    + intros (j & Hg & Hin & <- & Ha). split; [by exists j|]. intros E. apply Hg. split; [done|]. by apply Hids.
  - rewrite elem_of_ids by done. split; intros (j & Hj); exists j; naive_solver.
Qed.

(** The clients a decision tells something. *)
Definition tagged (l : list nat) : list (nat * Z) := (λ i, (i, s_node_id (sess st i))) <$> l.

Lemma elem_of_tagged n l : n ∈ nodes (tagged l) ↔ ∃ j, j ∈ l ∧ s_node_id (sess st j) = n.
Proof using Type.
  unfold nodes, tagged. rewrite elem_of_list_to_set, list_elem_of_fmap. setoid_rewrite list_elem_of_fmap.
  split; [intros ([i m] & -> & j & [= -> ->] & Hj); by exists j|]. intros (j & Hj & <-). exists (j, s_node_id (sess st j)).
  split; [done|]. by exists j.
Qed.

(** Who is assigned which vote. *)
Lemma assigned_stays j fs : fs ≠ FC_WAITING_FOR_CHANGE → j ∈ assigned st tv w fs → ¬ gone j.
Proof using Hlen.
  intros Hfs [_ Hff]%assigned_elem [Hl ->]; [|done]. unfold new_ff in Hff. rewrite Hl, Z.eqb_refl in Hff. by subst fs.
Qed.
Lemma assigned_iff j fs : ¬ gone j → in_cluster (sess st j) c = true → fs ≠ FC_WAITING_FOR_CHANGE →
  j ∈ assigned st tv w fs ↔ (if decide (s_node_id (sess st j) ∈ W) then FC_SENDING_ACK else FC_SENDING_NACK) = fs.
Proof using Hlen Hids.
  clear Hlen' Hgone Hsess. intros Hg Hj Hfs. rewrite assigned_elem by done. fold c lid. unfold new_ff. rewrite (not_skipped j Hg Hj). unfold W.
  assert ((match w with Some w0 => if nl_mem w0 (s_node_id (sess st j)) then FC_SENDING_ACK else FC_SENDING_NACK
           | None => FC_SENDING_NACK end) = if decide (s_node_id (sess st j) ∈ (list_to_set (nl_ids (default [] w)) : gset Z))
           then FC_SENDING_ACK else FC_SENDING_NACK) as ->; [|by split; [intros []|]].
  destruct (decide _) as [Hd|Hd]; rewrite elem_of_list_to_set in Hd.
  - destruct w as [w0|]; [|by apply not_elem_of_nil in Hd]. cbn in Hd. by rewrite (proj2 (nl_mem_true _ _) Hd).
  - destruct w as [w0|]; [|done]. cbn in Hd. by rewrite (proj2 (nl_mem_false _ _) Hd).
Qed.

Lemma lost_nacking : nodes (tagged (assigned st tv w FC_SENDING_NACK)) = ids nacking c st'.
Proof using Hlen Hlen' Hgone Hsess Hids.
  apply set_eq. intros n. rewrite elem_of_tagged, decided_nacking. split.
  - intros (j & Hj & <-). exists j. pose proof (assigned_stays j FC_SENDING_NACK ltac:(done) Hj) as Hg.
    assert (in_cluster (sess st j) c = true) as Hc by (by apply assigned_elem in Hj as [? _]).
    split_and!; [done..|]. apply assigned_iff in Hj; [|done..]. by case_decide.
  - intros (j & Hg & Hj & <- & Hn). exists j. split; [|done]. apply assigned_iff; [done..|]. by rewrite decide_False.
Qed.

Lemma won_members n : n ∈ nodes (tagged (assigned st tv w FC_SENDING_ACK)) ↔
  ∃ j, ¬ gone j ∧ in_cluster (sess st j) c = true ∧ s_node_id (sess st j) = n ∧ n ∈ W.
Proof using Hlen Hids.
  rewrite elem_of_tagged. split.
  - intros (j & Hj & <-). exists j. pose proof (assigned_stays j FC_SENDING_ACK ltac:(done) Hj) as Hg.
    assert (in_cluster (sess st j) c = true) as Hc by (by apply assigned_elem in Hj as [? _]).
    split_and!; [done..|]. apply assigned_iff in Hj; [|done..]. by case_decide.
  - intros (j & Hg & Hj & <- & Hn). exists j. split; [|done]. apply assigned_iff; [done..|]. by rewrite decide_True.
Qed.

(** The actions of a decision: the revocation, and the grant it allows at once. *)
Definition decision_trace : list Action :=
  ADecide W (tagged (assigned st tv w FC_SENDING_NACK)) ::
  (if b then [AGrant (tagged (assigned st tv w FC_SENDING_ACK))] else []).

Lemma decision_tells :
  tells (decision_trace ≫= tells_of)
    ((vote_effect st tv VOTE_NACK <$> assigned st tv w FC_SENDING_NACK) ++
     (if b then vote_effect st tv VOTE_ACK <$> assigned st tv w FC_SENDING_ACK else [])).
Proof using Type.
  clear Hsess. unfold decision_trace. cbn [mbind list_bind]. apply tells_app; [apply tells_votes|].
  destruct b; cbn; [rewrite app_nil_r; apply tells_votes|constructor].
Qed.

Lemma decided_path r p :
  steps (mkArb H0 r p) decision_trace (mkArb (ids acked c st') (ids nacking c st') W).
Proof using Hlen Hlen' Hgone Hsess Hids.
  assert (b = true → ids nacking c st' = ∅) as Hb.
  { intros Hb%bool_decide_eq_true. rewrite <-lost_nacking, Hb. done. }
  assert (H0 ∖ ids nacking c st' ⊆ W) as Hh.
  { intros n [Hn1 Hn2]%elem_of_difference. apply elem_of_H0 in Hn1 as (j & Hg & Hj & <- & Ha).
    destruct (decide (s_node_id (sess st j) ∈ W)) as [|Hw]; [done|]. exfalso. apply Hn2, decided_nacking. by exists j. }
  assert (ids nacking c st' ## W) as Hdis
    by (intros n Hn1 Hn2; apply decided_nacking in Hn1 as (j & _ & _ & _ & Hw); done).
  assert (H0 ∖ ids nacking c st' ∪ (if b then nodes (tagged (assigned st tv w FC_SENDING_ACK)) else ∅) = ids acked c st') as E.
  { apply set_eq. intros n. rewrite elem_of_union, elem_of_difference, elem_of_if, elem_of_H0, decided_nacking, won_members,
      decided_acked. split.
    - intros [[(j & Hg & Hj & <- & Haj) Hn]|[Hb1 (j & Hg & Hj & <- & Hw)]]; exists j; rewrite ?Haj, ?Hb1, ?orb_true_r; [|done].
      split_and!; try done. apply dec_stable. intros Hw. apply Hn. by exists j.
    - intros (j & Hg & Hj & <- & Hw & [Hb1|Hb1]%orb_true_iff); [right; split; [done|by exists j]|].
      left. split; [by exists j|]. by intros (k & _ & _ & _ & Hw'). }
  rewrite <-E. unfold decision_trace. eapply steps_cons; [apply arb_decide; by rewrite lost_nacking|]. rewrite lost_nacking.
  destruct b; [|rewrite (right_id_L ∅ (∪)); constructor]. rewrite Hb by done. eapply steps_cons; [apply arb_grant|constructor].
  intros n. rewrite won_members. by intros (j & _ & _ & _ & Hw).
Qed.
End decided.

Lemma decided_other tv w c lid b s d : d ≠ c → in_cluster s d = true → decided_sess tv w c lid b s = s.
Proof.
  intros Hd [_ Hs]%in_cluster_true. unfold decided_sess.
  by rewrite (proj2 (in_cluster_false s c)) by naive_solver.
Qed.

(** The partition after a decision. *)
Lemma decided_quorate tv st w st' : decided tv st w st' →
  quorate (s_cluster (sess st (tv_slot tv))) st' = list_to_set (nl_ids (default [] w)).
Proof. intros Hd. unfold quorate. by rewrite (dec_clus _ _ _ _ Hd). Qed.

(** What a decision sends and counts. *)
Lemma decision_tells_of tv st w : length ((decision_trace tv w st) ≫= decides_of) = 1%nat ∧
  decision_trace tv w st ≫= answers_of = [] ∧ decision_trace tv w st ≫= leaves_of = [].
Proof. unfold decision_trace. by case_match. Qed.

Lemma decision_named tv st w l i n : length (sv_sessions st) = MAX_CLIENTS →
  l ∈ decision_trace tv w st → (i, n) ∈ named l →
  in_cluster (sess st i) (s_cluster (sess st (tv_slot tv))) = true ∧ s_node_id (sess st i) = n.
Proof.
  intros Hlen Hl Hn. assert (∃ fs, (i, n) ∈ tagged st (assigned st tv w fs)) as (fs & Hi).
  { unfold decision_trace in Hl. apply elem_of_cons in Hl as [->|Hl]; [by eexists|].
    case_match; [|by apply not_elem_of_nil in Hl]. apply list_elem_of_singleton in Hl as ->. by eexists. }
  apply list_elem_of_fmap in Hi as (j & [= -> ->] & Hj). by apply assigned_elem in Hj as [? _].
Qed.

Lemma ffsplit_do_sim tv st : inv st → s_phase (sess st (tv_slot tv)) = ACTIVE → tv_leaving tv = false →
  sim0 st (ffsplit_do tv st).1.1.
Proof.
  intros Hinv Hact Hl. pose proof (inv_len_sessions _ Hinv) as Hlen.
  destruct (ffsplit_is_stable (pending_decision tv st) tv) eqn:Hst.
  2: { rewrite ffsplit_do_unstable by done. cbn [fst]. apply sim_same; [intros j; by rewrite pending_decision_sess| |apply mute_upd_clus].
       intros c. unfold pending_decision. rewrite clus_upd. by case_decide. }
  destruct (ffsplit_do_decided tv st) as (st' & -> & Hd); [done| |done|].
  { rewrite (inv_len_clusters _ Hinv). apply (so_active _ _ (inv_sess _ Hinv (tv_slot tv)) Hact). }
  cbn [fst]. set (w := ffsplit_select_partition _ _) in *. destruct (decision_tells_of tv st w) as (E1 & E2 & E3).
  apply (sim_cluster (s_cluster (sess st (tv_slot tv))) (decision_trace tv w st) _ [] [] st st'
    ) with (3 := dec_out _ _ _ _ Hd); [| |apply decision_tells|by rewrite E1, (dec_decisions _ _ _ _ Hd)|done|done| |intros l i n; by apply decision_named].
  3: { apply stays_unvoted. intros j. rewrite (dec_sess _ _ _ _ Hd). apply decided_sess_unvoted. }
  - pose proof (decided_path tv w st st' Hlen) as Hp. rewrite Hl in Hp. unfold abs at 2.
    rewrite (decided_quorate _ _ _ _ Hd). apply Hp.
    + by rewrite (env_sessions _ _ (dec_env _ _ _ _ Hd)).
    + intros j [Hg _]. congruence.
    + intros j _. apply (dec_sess _ _ _ _ Hd).
    + done.
  - intros d Hne. apply abs_same; [|by rewrite (dec_clus_ne _ _ _ _ Hd)].
    intros j. rewrite (dec_sess _ _ _ _ Hd). intros Hin. rewrite (decided_other _ _ _ _ _ _ d Hne); [done|].
    destruct Hin as [|Hin]; [done|]. by rewrite (unvoted_in_cluster _ _ d (decided_sess_unvoted _ _ _ _ _ _)) in Hin.
Qed.

(** A round of ACKs once every NACK is answered. *)
Section send_acks.
Context (tv : TriggerView) (st : Server) (Hinv : inv st) (Hsafe : safe st).
Let c := s_cluster (sess st (tv_slot tv)).
Let lid := s_node_id (sess st (tv_slot tv)).
Let st' := (ffsplit_send_votes tv true st).1.
Let won := tagged st (voters st tv true slots).

Lemma voters_won n : n ∈ nodes won ↔ ∃ j, votes tv true c lid (sess st j) = true ∧ s_node_id (sess st j) = n.
Proof using Hinv.
  unfold won. rewrite elem_of_tagged. split; intros (j & Hj & <-); exists j; (split; [|done]).
  - by apply list_elem_of_In, List.filter_In in Hj as [_ Hj].
  - apply list_elem_of_In, List.filter_In. split; [|done]. apply list_elem_of_In, elem_of_slots.
    rewrite <-(inv_len_sessions _ Hinv). apply sess_in_range. unfold votes in Hj.
    apply andb_prop in Hj as [[[Ha _]%in_cluster_true _]%andb_prop _]. by rewrite Ha.
Qed.

Lemma send_acks_step : nacks_answered st c → arb_step (abs c st) (AGrant won) (abs c st').
Proof using Hinv Hsafe.
  intros Hno. pose proof (inv_len_sessions _ Hinv) as Hlen.
  destruct (send_votes_spec st tv true Hlen) as (He & Hcl & _ & Hs & _ & _). fold st' c lid in He, Hcl, Hs.
  assert (length (sv_sessions st') = MAX_CLIENTS) as Hlen' by (by rewrite (env_sessions _ _ He)).
  assert (ids nacking c st = ∅ ∧ ids nacking c st' = ∅) as [E1 E2].
  { split; apply set_eq; intros n; rewrite elem_of_ids by done; (split; [|by intros Hn%elem_of_empty]);
      intros (j & Hin & Hn%bool_decide_eq_true & _); exfalso; [by apply (Hno j)|].
    rewrite Hs in Hin, Hn. apply (Hno j); by destruct (votes _ _ _ _ _). }
  assert (∀ j, in_cluster (sess st' j) c = in_cluster (sess st j) c ∧ s_node_id (sess st' j) = s_node_id (sess st j)) as Hid
    by (intros j; rewrite Hs; by case_match).
  assert (ids acked c st' = ids acked c st ∪ nodes won) as E3.
  { apply set_eq. intros n. rewrite elem_of_union, voters_won, !elem_of_ids by done. split.
    - intros (j & Hin & Ha & <-). destruct (Hid j) as [Hin' Hid']. rewrite Hin' in Hin. rewrite Hid'. rewrite Hs in Ha.
      destruct (votes _ _ _ _ _) eqn:Ev; [right|left]; by exists j.
    - intros [(j & Hin & Ha & <-)|(j & Hv & <-)]; exists j; destruct (Hid j) as [-> ->];
        (split_and!; [| |done]); [done|rewrite Hs; by case_match| |rewrite Hs; by rewrite Hv].
      unfold votes in Hv. by apply andb_prop in Hv as [[? _]%andb_prop _]. }
  unfold abs, quorate. rewrite E1, E2, E3, Hcl. apply arb_grant.
  intros n. rewrite voters_won. intros (j & Hv & <-). unfold votes in Hv.
  apply andb_prop in Hv as [[[Ha Hc]%in_cluster_true _]%andb_prop Hff%bool_decide_eq_true].
  apply elem_of_quorate. rewrite <-Hc. by apply (ss_sending_ack _ _ (safe_sess _ Hsafe j)).
Qed.

Lemma send_acks_sim : nacks_answered st c → sim0 st st'.
Proof using Hinv Hsafe.
  intros Hno. destruct (send_votes_spec st tv true (inv_len_sessions _ Hinv)) as (He & Hcl & Hdec & Hs & Ho & _).
  fold st' in He, Hcl, Hdec, Hs, Ho.
  apply (sim_cluster c [AGrant won] _ [] [] st st') with (3 := Ho); [| | |done|done|done|..].
  - by eapply steps_cons; [apply send_acks_step|constructor].
  - intros d Hne. apply abs_same; [|by rewrite Hcl].
    intros j Hin. rewrite Hs in Hin |- *. destruct (votes _ _ _ _ _) eqn:Ev; [|done]. exfalso.
    unfold votes in Ev. apply andb_prop in Ev as [[[_ Hc]%in_cluster_true _]%andb_prop _].
    destruct Hin as [[_ Hin]%in_cluster_true|[_ Hin]%in_cluster_true]; cbn in Hin; unfold c in Hne; congruence.
  - cbn. rewrite app_nil_r. apply tells_votes.
  - apply stays_unvoted. intros j. rewrite Hs. by case_match.
  - intros l i n ->%list_elem_of_singleton (j & [= -> ->] & Hj)%list_elem_of_fmap. split; [|done].
    apply list_elem_of_In, List.filter_In in Hj as [_ Hj]. unfold votes in Hj. by apply andb_prop in Hj as [[? _]%andb_prop _].
Qed.
End send_acks.

(** ** Departures *)

(** Without clients there is nothing to hold. *)
Lemma ids_none P c st : length (sv_sessions st) = MAX_CLIENTS →
  (∀ j, in_cluster (sess st j) c = false) → ids P c st = ∅.
Proof.
  intros Hlen H. apply set_eq. intros n. rewrite elem_of_ids by done. split; [|set_solver].
  intros (j & Hin & _). by rewrite H in Hin.
Qed.

(** The last client takes the partition with it. *)
Definition left_trace (st' : Server) (c : Z) : list Action := if cl_used (clus st' c) then [] else [ADisband].

Lemma left_sim st' c (cl : Cluster) : inv st' → cl_used cl = true → clus st' c = left_cluster cl →
  steps (mkArb (ids acked c st') (ids nacking c st') (list_to_set (nl_ids (cl_quorate_partition cl))))
    (left_trace st' c) (abs c st').
Proof.
  intros Hinv Hu0 E. unfold abs, quorate, left_trace. rewrite E. unfold left_cluster.
  destruct (cl_members cl - 1 <=? 0) eqn:Hm; [|cbn; rewrite Hu0; constructor].
  assert (∀ j, in_cluster (sess st' j) c = false) as Hno.
  { intros j. apply in_cluster_false. intros [Ha Hc]. destruct (so_active _ _ (inv_sess _ Hinv j) Ha) as (_ & Hu & _).
    rewrite Hc, E in Hu. unfold left_cluster in Hu. by rewrite Hm in Hu. }
  rewrite !ids_none by (done || by apply inv_len_sessions). eapply steps_cons; [apply arb_disband|constructor].
Qed.
Lemma left_tells st' c : left_trace st' c ≫= tells_of = [] ∧ left_trace st' c ≫= decides_of = [] ∧
  left_trace st' c ≫= answers_of = [] ∧ left_trace st' c ≫= leaves_of = [].
Proof. unfold left_trace. by case_match. Qed.

(** Only the departed client is missing. *)
Lemma ids_left P c st st' slot : inv st → safe st → length (sv_sessions st') = MAX_CLIENTS →
  in_cluster (sess st slot) c = true → in_cluster (sess st' slot) c = false →
  (∀ j, j ≠ slot → sess st' j = sess st j) → ids P c st' = ids P c st ∖ {[s_node_id (sess st slot)]}.
Proof.
  intros Hinv Hsafe Hlen' Hin Hout Hs. pose proof (inv_len_sessions _ Hinv) as Hlen. apply set_eq. intros n.
  rewrite elem_of_difference, elem_of_singleton, !elem_of_ids by done. split.
  - intros (j & Hj & HP & <-). destruct (decide (j = slot)) as [->|Hne]; [congruence|]. rewrite Hs in * by done.
    split; [by exists j|]. intros E. apply Hne. apply in_cluster_true in Hj as [? ?], Hin as [? ?].
    apply (safe_ids _ Hsafe); congruence.
  - intros [(j & Hj & HP & <-) Hne]. exists j. rewrite Hs by congruence. done.
Qed.

Lemma leave_inactive_sim slot st : s_phase (sess st slot) ≠ FREE → s_phase (sess st slot) ≠ ACTIVE →
  sim0 st (reset_sess slot st).
Proof.
  intros Hf Ha. apply sim_abs; [|apply mute_upd_sess|].
  2: { apply (stays_slot slot); [intros j Hj; by apply sess_upd_ne|done|done]. }
  intros d. unfold reset_sess. apply abs_same; [|done].
  intros j. destruct (decide (j = slot)) as [->|Hj]; [|by rewrite sess_upd_ne].
  rewrite sess_upd_eq by done. intros [[? _]%in_cluster_true|?]; done.
Qed.

(** An active client leaves: the algorithm turns [st] into [st1], then the client
    and, if it was the last, its cluster are removed. *)
Section leave.
Context (slot : nat) (st st1 st' : Server) (tv : TriggerView).
Let c := s_cluster (sess st slot).
Context (Hinv : inv st) (Hsafe : safe st) (Hinv' : inv st') (Ha : s_phase (sess st slot) = ACTIVE).
Context (Htv : tv_slot tv = slot) (Hleaving : tv_leaving tv = true).
Context (Hs0 : sess st' slot = Session0) (Hs : ∀ j, j ≠ slot → sess st' j = sess st1 j).
Context (Hcl : clus st' c = left_cluster (clus st1 c)) (Hcl' : ∀ d, d ≠ c → clus st' d = clus st1 d).
Context (Hu1 : cl_used (clus st1 c) = true) (Hout : sv_out st' = sv_out st1) (Hdec : sv_decisions st' = sv_decisions st1).

(** The departure, what the algorithm does, the end of the cluster. *)
Lemma leave_steps tr es : 
  steps (mkArb (ids acked c st ∖ {[s_node_id (sess st slot)]}) (ids nacking c st ∖ {[s_node_id (sess st slot)]}) (quorate c st))
    tr (mkArb (ids acked c st') (ids nacking c st') (list_to_set (nl_ids (cl_quorate_partition (clus st1 c))))) →
  (∀ d, d ≠ c → abs d st' = abs d st) → sv_out st1 = sv_out st ++ es → tells (tr ≫= tells_of) es →
  sv_decisions st1 = counted (length (tr ≫= decides_of)) (sv_decisions st) →
  tr ≫= answers_of = [] → tr ≫= leaves_of = [] → (∀ j, unvoted (sess st1 j) = unvoted (sess st j)) →
  (∀ l i n, l ∈ tr → (i, n) ∈ named l → in_cluster (sess st i) c = true ∧ s_node_id (sess st i) = n) →
  sim [] [slot] st st'.
Proof using All.
  intros Hst Hd Ho Ht Hn Han Hle Huv Hnm. destruct (left_tells st' c) as (E1 & E2 & E3 & E4).
  apply (sim_cluster c (ALeave slot (s_node_id (sess st slot)) :: tr ++ left_trace st' c) es); [|done|by rewrite Hout|..];
    cbn [mbind list_bind app tells_of decides_of answers_of leaves_of].
  - eapply steps_cons; [apply arb_leave|]. eapply steps_app; [exact Hst|]. by apply left_sim.
  - by rewrite bind_app, E1, app_nil_r.
  - by rewrite bind_app, E2, app_nil_r, Hdec.
  - by rewrite bind_app, E3, app_nil_r.
  - rewrite bind_app, E4, app_nil_r. f_equal. exact Hle.
  - eapply stays_trans; [by apply stays_unvoted|]. apply (stays_slot slot); [done|..]; by rewrite Hs0.
  - intros l i n [->|[Hl|Hl]%elem_of_app]%elem_of_cons Hi; [|eauto|].
    + apply list_elem_of_singleton in Hi as [= -> ->]. split; [by apply in_cluster_true|done].
    + unfold left_trace in Hl. case_match; [by apply not_elem_of_nil in Hl|].
      apply list_elem_of_singleton in Hl as ->. by apply not_elem_of_nil in Hi.
Qed.

Lemma leave_other d : d ≠ c → (∀ j, j ≠ slot → in_cluster (sess st j) d = true ∨ in_cluster (sess st1 j) d = true →
    arb_view (sess st1 j) = arb_view (sess st j)) →
  cl_quorate_partition (clus st1 d) = cl_quorate_partition (clus st d) → abs d st' = abs d st.
Proof using Hs0 Hs Hcl'.
  intros Hne Hv Hq. apply abs_same; [|by rewrite Hcl']. intros j Hj. destruct (decide (j = slot)) as [->|Hjs].
  - rewrite Hs0 in Hj. destruct Hj as [[_ Hj]%in_cluster_true|]; [|done]. by destruct Hne.
  - rewrite Hs in Hj |- * by done. auto.
Qed.

Lemma leave_decided_sim w : decided tv st w st1 → sim [] [slot] st st'.
Proof using All.
  intros Hd. destruct (decision_tells_of tv st w) as (E1 & E2 & E3).
  apply (leave_steps (decision_trace tv w st) _) with (3 := dec_out _ _ _ _ Hd);
    [| |apply decision_tells|by rewrite E1, (dec_decisions _ _ _ _ Hd)|done|done| |].
  3: { intros j. rewrite (dec_sess _ _ _ _ Hd). apply decided_sess_unvoted. }
  3: { intros l i n. unfold c. rewrite <-Htv. by apply decision_named, inv_len_sessions. }
  - pose proof (decided_quorate _ _ _ _ Hd) as Hq. unfold quorate in Hq. rewrite Htv in Hq. fold c in Hq. rewrite Hq.
    pose proof (decided_path tv w st st' (inv_len_sessions _ Hinv) (inv_len_sessions _ Hinv')) as Hp.
    rewrite Hleaving, Htv in Hp. fold c in Hp. unfold gone in Hp. rewrite Hleaving, Htv in Hp. apply Hp; clear Hp.
    + intros j [_ ->]. by rewrite Hs0.
    + intros j Hj. rewrite Hs by (intros ->; by apply Hj). rewrite (dec_sess _ _ _ _ Hd). by rewrite Htv.
    + intros _ j [Haj Hcj]%in_cluster_true E. by apply (safe_ids _ Hsafe).
  - intros d Hne. apply (leave_other d Hne).
    + intros j Hjs Hj. rewrite (dec_sess _ _ _ _ Hd), Htv in Hj |- *.
      rewrite (decided_other _ _ _ _ _ _ d Hne); [done|]. destruct Hj as [|Hj]; [done|].
      by rewrite (unvoted_in_cluster _ _ d (decided_sess_unvoted _ _ _ _ _ _)) in Hj.
    + rewrite (dec_clus_ne _ _ _ _ Hd); [done|]. by rewrite Htv.
Qed.

Lemma leave_undecided_sim : st1 = pending_decision tv st → sim [] [slot] st st'.
Proof using All.
  intros E.
  assert (∀ j, j ≠ slot → sess st' j = sess st j) as Hsame.
  { intros j Hj. rewrite Hs, E by done. apply pending_decision_sess. }
  assert (∀ e, cl_quorate_partition (clus st1 e) = cl_quorate_partition (clus st e)) as Hq.
  { intros e. rewrite E. unfold pending_decision. rewrite clus_upd. by case_decide. }
  destruct (mute_upd_clus (s_cluster (sess st (tv_slot tv)))
    (λ cl, cl <| cl_state := FCL_WAITING_FOR_STABLE_MEMBERSHIP |>) st) as [_ Hd].
  apply (leave_steps [] []); [| |rewrite app_nil_r, E; apply out_upd_clus|constructor|by rewrite E|done|done|intros j; by rewrite E, pending_decision_sess|by intros l i n ?%not_elem_of_nil].
  - assert (∀ P, ids P c st' = ids P c st ∖ {[s_node_id (sess st slot)]}) as Hids.
    { intros P. apply ids_left; [done|done|by apply inv_len_sessions|by apply in_cluster_true|by rewrite Hs0|done]. }
    rewrite Hq, !Hids. constructor.
  - intros d Hne. apply (leave_other d Hne); [|apply Hq]. intros j Hj _. by rewrite <-Hs, Hsame.
Qed.
End leave.

Lemma leave_decisions slot st st1 code res : s_phase (sess st slot) = ACTIVE → 0 <= s_cluster (sess st slot) →
  ffsplit_do (mkTV slot true (s_last_ring_id (sess st slot)) (s_config_list (sess st slot))
    (s_membership_list (sess st slot)) (s_last_heuristics (sess st slot))) st = (st1, code, res) →
  sv_decisions (leave_reset slot st) = sv_decisions st1.
Proof.
  intros Ha Hc Hdo. unfold leave_reset, leave_cluster. rewrite Ha, bool_decide_eq_true_2 by done.
  rewrite (proj2 (Z.ltb_ge _ _)) by done. cbn [negb orb]. rewrite Hdo. cbv zeta.
  set (c := s_cluster (sess st1 slot)). unfold reset_sess.
  trans (sv_decisions (upd_clus c (λ cl, cl <| cl_members ::= λ n, n - 1 |>) st1)); [|apply mute_upd_clus].
  case_match; [|done]. set (st2 := upd_clus c _ st1). by destruct (mute_upd_clus c (λ _, Cluster0) st2) as [_ <-].
Qed.

Lemma leave_sim slot st : inv st → safe st → s_phase (sess st slot) ≠ FREE → sim [] [slot] st (leave_reset slot st).
Proof.
  intros Hinv Hsafe Hf. pose proof (leave_reset_post slot st Hinv Hf) as [_ Hs0 _ Hinv' _].
  destruct (decide (s_phase (sess st slot) = ACTIVE)) as [Ha|Ha].
  2: { rewrite leave_reset_inactive by done. apply sim_away0. by apply leave_inactive_sim. }
  set (tv := mkTV slot true (s_last_ring_id (sess st slot)) (s_config_list (sess st slot))
    (s_membership_list (sess st slot)) (s_last_heuristics (sess st slot))).
  destruct (so_active _ _ (inv_sess _ Hinv slot) Ha) as (Hc & Hu0 & _).
  destruct (ffsplit_do_post tv st Hinv Ha) as (st1 & res & Hdo & _ & [He Hu Hi Hinv1] & _).
  destruct (leave_reset_active slot st st1 ERR_NO_ERROR res Hinv Hinv1 He Hu Ha Hdo) as (_ & _ & Hs & Hcl & Hcl' & Ho).
  pose proof (leave_decisions slot st st1 _ _ Ha (proj1 Hc) Hdo) as Hdec.
  assert (cl_used (clus st1 (s_cluster (sess st slot))) = true) as Hu1.
  { specialize (Hi (s_cluster (sess st slot))). unfold cl_ident in Hi. congruence. }
  destruct (ffsplit_is_stable (pending_decision tv st) tv) eqn:Hst.
  - destruct (ffsplit_do_decided tv st) as (st2 & Hdo2 & Hd); [by apply inv_len_sessions| |done|].
    { by rewrite (inv_len_clusters _ Hinv). }
    assert (st2 = st1) as -> by congruence. by eapply (leave_decided_sim slot st st1 _ tv).
  - rewrite ffsplit_do_unstable in Hdo by done. assert (st1 = pending_decision tv st) as E by congruence.
    by eapply (leave_undecided_sim slot st st1 _ tv).
Qed.

(** ** The handlers *)

Lemma sim_emit e ans away st st' : silent e → sim ans away st st' → sim ans away st (emit e st').
Proof.
  intros He H. eapply sim0_r; [exact H|]. apply sim_same; [done|done|]. apply mute_emit; [done|by apply mute_same].
Qed.
Lemma sim_send i f ans away st st' : silent (ESend i f) → sim ans away st st' → sim ans away st (send i f st').
Proof. apply sim_emit. Qed.
Lemma sim_send_err i m code ans away st st' : sim ans away st st' → sim ans away st (send_err i m code st').
Proof. intros H. apply sim_emit; [|exact H]. apply silent_server_error. Qed.
Lemma sim_notify ans away st st' : sim ans away st st' → sim ans away st (notify st').
Proof. by apply sim_emit. Qed.
#[export] Hint Resolve sim_send_err sim_notify : qnetd.

Lemma sim_benign slot f ans away st st' : benign f → sim ans away st st' → sim ans away st (upd_sess slot f st').
Proof.
  intros Hb H. eapply sim0_r; [exact H|]. apply sim_same; [|done|apply mute_upd_sess]. intros j. rewrite sess_upd.
  case_decide; [|done].
  destruct (core_fields _ _ (bn_core _ Hb (sess st' j))) as (E1 & E2 & _ & E4 & E5 & E6 & _). unfold arb_view. congruence.
Qed.

(** A session outside the clusters. *)
Lemma abs_inactive slot st st' : (∀ j, j ≠ slot → sess st' j = sess st j) → (∀ c, clus st' c = clus st c) →
  s_phase (sess st slot) ≠ ACTIVE → s_phase (sess st' slot) ≠ ACTIVE → ∀ d, abs d st' = abs d st.
Proof.
  intros Hs Hc H1 H2 d. apply abs_same; [|by rewrite Hc].
  intros j Hj. destruct (decide (j = slot)) as [->|]; [|by rewrite Hs].
  destruct Hj as [[? _]%in_cluster_true|[? _]%in_cluster_true]; done.
Qed.

Lemma sim_waiting slot f st : s_phase (sess st slot) ≠ FREE → s_phase (sess st slot) ≠ ACTIVE →
  s_phase (f (sess st slot)) ≠ ACTIVE → sim0 st (upd_sess slot f st).
Proof.
  intros Hf Ha Ha'. apply sim_abs; [|apply mute_upd_sess|].
  - apply (abs_inactive slot); [intros j Hj; by apply sess_upd_ne|done|done|by rewrite sess_upd_eq].
  - apply (stays_slot slot); [intros j Hj; by apply sess_upd_ne|done|done].
Qed.

Lemma set_state_sim c fs ans away st st' :
  sim ans away st st' → sim ans away st (upd_clus c (λ cl, cl <| cl_state := fs |>) st').
Proof.
  intros H. eapply sim0_r; [exact H|]. apply sim_same; [intros j; by rewrite sess_upd_clus| |apply mute_upd_clus].
  intros d. rewrite clus_upd. by case_decide.
Qed.

(** An admitted client holds nothing yet. *)
Lemma joined_sim slot now c st st' : inv st → joined slot now c st st' → s_phase (sess st slot) ≠ FREE →
  s_phase (sess st slot) ≠ ACTIVE → mute st st' → sim0 st st'.
Proof.
  intros Hinv Hj Hf Ha Hmu. apply sim_abs; [|done|].
  2: { apply (stays_slot slot); [apply (jn_other _ _ _ _ _ Hj)|done|done]. }
  intros d. pose proof (inv_len_sessions _ Hinv) as Hlen.
  destruct (joined_sess_fields c now (sess st slot)) as (E1 & E2 & _ & E4 & E5 & E6 & _).
  destruct (so_inactive _ _ (inv_sess _ Hinv slot) Ha) as (_ & Hff & Hlan).
  assert (length (sv_sessions st') = MAX_CLIENTS) as Hlen' by (by rewrite (env_sessions _ _ (jn_env _ _ _ _ _ Hj))).
  assert (∀ P, P (sess st' slot) = false → ids P d st' = ids P d st) as Hids.
  { intros P HP. apply set_eq. intros n. rewrite !elem_of_ids by done.
    split; intros (j & Hin & HPj & <-); (destruct (decide (j = slot)) as [->|Hne]; 
        [|pose proof (jn_other _ _ _ _ _ Hj j Hne) as E; exists j; first [by rewrite <-E|by rewrite E]]).
    - congruence.
    - apply in_cluster_true in Hin as [? _]. done. }
  assert (quorate d st' = quorate d st) as Hq.
  { unfold quorate. destruct (decide (d = c)) as [->|Hd]; [|by rewrite (jn_clus_ne _ _ _ _ _ Hj)].
    rewrite (jn_clus _ _ _ _ _ Hj). unfold joined_cluster. destruct (cl_used (clus st c)) eqn:Hu; [done|].
    pose proof (inv_members _ Hinv c (jn_range _ _ _ _ _ Hj)) as Hm. rewrite Hu in Hm. by rewrite Hm. }
  unfold abs. rewrite Hq, !Hids; [done|..];
    rewrite (jn_slot _ _ _ _ _ Hj); unfold acked, nacking; apply bool_decide_eq_false; rewrite ?E5, ?E6; congruence.
Qed.

(** Admission decides nothing. *)
Lemma decisions_upd_clus c f st : sv_decisions (upd_clus c f st) = sv_decisions st.
Proof. apply mute_upd_clus. Qed.
Lemma handle_init_decisions slot m now st : sv_decisions (handle_init slot m now st) = sv_decisions st.
Proof.
  assert (∀ st0, sv_decisions (init_join slot now st0).2 = sv_decisions st0) as Hj.
  { intros st0. unfold init_join. set (name := s_cluster_name _).
    assert (sv_decisions (find_or_create_cluster name st0).2 = sv_decisions st0) as Hfc.
    { unfold find_or_create_cluster. repeat case_match; try done. apply decisions_upd_clus. }
    destruct (find_or_create_cluster name st0) as [c st1]. cbn [snd] in Hfc. destruct (c <? 0); [done|]. cbv zeta. cbn [snd].
    set (st2 := upd_sess slot _ st1). set (st3 := if cl_members (clus st2 c) =? 0 then _ else st2).
    trans (sv_decisions (upd_clus c (λ cl, cl <| cl_members ::= λ n, n + 1 |>) st3)); [done|].
    rewrite decisions_upd_clus, <-Hfc. unfold st3. by case_match; rewrite ?decisions_upd_clus. }
  unfold handle_init. destruct (init_fields m (sess st slot)) as [code s]. set (st1 := upd_sess slot (λ _, s) st).
  set (code' := if is_no_error code then _ else code). cbv zeta.
  specialize (Hj st1). destruct (is_no_error code'); [|done]. by destruct (init_join slot now st1) as [code'' st2].
Qed.

Section handlers.
Context (slot : nat) (st : Server) (Hinv : inv st) (Hsafe : safe st) (Hf : s_phase (sess st slot) ≠ FREE).

Lemma handle_init_sim m now : s_phase (sess st slot) ≠ ACTIVE → sim0 st (handle_init slot m now st).
Proof using Hinv Hf.
  intros Ha. pose proof (handle_init_decisions slot m now st) as Hd.
  destruct (handle_init_cases slot m now st Hinv Hf) as (code & st2 & E & Hc). rewrite E in Hd |- *.
  change (sv_decisions st2 = sv_decisions st) in Hd. apply sim_notify, sim_send; [apply silent_init_reply|].
  destruct (init_frame_eqs _ _ (init_fields_frame m (sess st slot))) as (Ep & _).
  pose proof (init_fields_hpost slot m st Hf) as H1. set (st1 := upd_sess slot _ st) in *.
  assert (s_phase (sess st1 slot) = s_phase (sess st slot)) as Ep1 by (unfold st1; by rewrite sess_upd_eq).
  assert (sim0 st st1) as Hs1 by (apply sim_waiting; [done|done|by rewrite Ep]).
  destruct Hc as [[_ ->]|(_ & _ & _ & c & Hj)]; [done|]. eapply sim0_r; [exact Hs1|].
  eapply joined_sim; [by apply (hp_inv _ _ _ H1)|exact Hj|by rewrite Ep1|by rewrite Ep1|].
  apply mute_same; [apply (jn_out _ _ _ _ _ Hj)|done].
Qed.

Lemma handle_preinit_sim m : sim0 st (handle_preinit slot m st).
Proof using Hf.
  unfold handle_preinit. case_match; [auto with qnetd|]. case_match; [auto with qnetd|]. bool_to_prop.
  apply sim_send; [apply silent_preinit_reply|].
  apply sim_waiting; [done|congruence|done].
Qed.

Lemma handle_set_option_sim m now : sim0 st (handle_set_option slot m now st).
Proof using Type.
  unfold handle_set_option. case_match eqn:Hhb; [auto with qnetd|]. apply sim_send; [apply silent_set_option_reply|].
  destruct (m_keep_active_partition_tie_breaker_set m).
  1: apply sim_benign; auto with qnetd.
  all: destruct (m_heartbeat_interval_set m); [|apply sim_refl]; simpl in Hhb.
  all: apply sim_benign; auto with qnetd; apply sim_benign; auto with qnetd.
Qed.

(** A decision on behalf of a client that stays. *)
Lemma decide_sim tv : tv_slot tv = slot → tv_leaving tv = false → s_phase (sess st slot) = ACTIVE →
  ∃ st' r, ffsplit_do tv st = (st', ERR_NO_ERROR, r) ∧ r ≠ VOTE_ACK ∧ r ≠ VOTE_NACK ∧ sim0 st st'.
Proof using Hinv.
  intros Htv Hl Ha. rewrite <-Htv in Ha. pose proof (ffsplit_do_sim tv st Hinv Ha Hl) as H.
  destruct (hok_decide tv st Hinv Ha Hl) as (st' & r & E & ? & ? & _). rewrite E in H. eauto 6.
Qed.

Lemma handle_node_list_sim m : s_phase (sess st slot) = ACTIVE → sim0 st (handle_node_list slot m st).
Proof using Hinv.
  intros Ha. unfold handle_node_list. case_match; [auto with qnetd|].
  assert (match node_list_decide slot m st with
          | inl _ => True
          | inr (st', code, r) => code = ERR_NO_ERROR ∧ r ≠ VOTE_ACK ∧ r ≠ VOTE_NACK ∧ sim0 st st'
          end) as Hd.
  { unfold node_list_decide.
    destruct (m_node_list_type m);
      repeat match goal with |- context [if ?b then inl _ else _] => destruct b; [exact I|] end;
      try match goal with |- context [if ?b then inr _ else _] => destruct b end;
      try (split_and!; [done|done|done|apply sim_refl]);
      match goal with |- context [ffsplit_do ?tv st] =>
        destruct (decide_sim tv eq_refl eq_refl Ha) as (st' & r & -> & ? & ? & ?) end; done. }
  destruct (node_list_decide slot m st) as [code|[[st' code] result]]; [auto with qnetd|].
  destruct Hd as (-> & Hra & Hrn & Hs). cbn. apply sim_notify, sim_send; [apply silent_node_list_reply|].
  apply sim_benign; [by apply benign_record|]. by apply sim_benign; [apply benign_store|].
Qed.

Lemma handle_heuristics_change_sim m : s_phase (sess st slot) = ACTIVE → sim0 st (handle_heuristics_change slot m st).
Proof using Hinv.
  intros Ha. unfold handle_heuristics_change. case_match; [auto with qnetd|].
  destruct (nl_empty (s_config_list (sess st slot)) || nl_empty (s_membership_list (sess st slot))); [|
    match goal with |- context [ffsplit_do ?tv st] =>
      destruct (decide_sim tv eq_refl eq_refl Ha) as (st' & r & -> & ? & ? & ?) end];
    cbn; apply sim_notify, sim_send; try apply silent_heuristics_change_reply; apply sim_benign; auto using benign_record with qnetd;
    apply sim_benign; auto with qnetd.
Qed.

(** The answer to a vote. *)
Lemma answered_sim : s_phase (sess st slot) = ACTIVE →
  sim [slot] [] st (upd_sess slot (λ s, s <| s_ff_state := FC_WAITING_FOR_CHANGE |>) st).
Proof using Hinv Hsafe.
  intros Ha. pose proof (inv_len_sessions _ Hinv) as Hlen. set (st1 := upd_sess _ _ st).
  assert (length (sv_sessions st1) = MAX_CLIENTS) as Hlen1 by (unfold st1; by rewrite (env_sessions _ _ (env_upd_sess _ _ _))).
  assert (∀ j, j ≠ slot → sess st1 j = sess st j) as Hne by (intros; by apply sess_upd_ne).
  assert (sess st1 slot = (sess st slot) <| s_ff_state := FC_WAITING_FOR_CHANGE |>) as Heq
    by (apply sess_upd_eq; by rewrite Ha).
  apply (sim_cluster (s_cluster (sess st slot)) [AAnswer slot (s_node_id (sess st slot))] []);
    [| |by rewrite app_nil_r|constructor|done|done|done|..].
  - set (c := s_cluster (sess st slot)). eapply steps_cons; [|constructor].
    assert (ids acked c st1 = ids acked c st ∧ ids nacking c st1 = ids nacking c st ∖ {[s_node_id (sess st slot)]})
      as [E1 E2]; [|unfold abs; rewrite E1, E2; apply arb_answer].
    split; apply set_eq; intros n; rewrite ?elem_of_difference, ?elem_of_singleton, !elem_of_ids by done.
    + split; intros (j & Hin & HP & <-); exists j; destruct (decide (j = slot)) as [->|Hj];
        [rewrite Heq in *|pose proof (Hne j Hj) as E; rewrite E in *|rewrite Heq|rewrite Hne by done]; done.
    + split.
      * intros (j & Hin & HP & <-). destruct (decide (j = slot)) as [->|Hj]; [by rewrite Heq in HP|].
        rewrite (Hne j Hj) in *. split; [by exists j|]. intros E. apply Hj. apply in_cluster_true in Hin as [? ?].
        by apply (safe_ids _ Hsafe).
      * intros [(j & Hin & HP & <-) Hn]. exists j. rewrite Hne by congruence. done.
  - intros d Hd. apply abs_same; [|done]. intros j Hj.
    destruct (decide (j = slot)) as [->|Hjs]; [|by rewrite Hne]. rewrite Heq in Hj.
    destruct Hj as [[_ Hj]%in_cluster_true|[_ Hj]%in_cluster_true]; by destruct Hd.
  - intros j. destruct (decide (j = slot)) as [->|Hj]; [rewrite Heq|rewrite Hne by done]; auto.
  - intros l i n ->%list_elem_of_singleton [= -> ->]%list_elem_of_singleton. split; [by apply in_cluster_true|done].
Qed.

(** A VOTE_INFO_REPLY that confirms the last vote. *)
Definition answers_last (m : MsgDecoded) (s : Session) : bool :=
  m_seq_number_set m && (m_seq_number m =? s_vote_info_seq s).

Lemma handle_vote_info_reply_sim m : s_phase (sess st slot) = ACTIVE →
  sim (if answers_last m (sess st slot) then [slot] else []) [] st (handle_vote_info_reply slot m st).
Proof using Hinv Hsafe.
  intros Ha. unfold handle_vote_info_reply, answers_last. destruct (m_seq_number_set m); [|by apply sim_send_err, sim_refl].
  cbn [negb andb]. destruct (m_seq_number m =? _); [|apply sim_refl]. cbn [negb].
  apply sim_notify. pose proof (answered_sim Ha) as Hs1. destruct (hok_answered slot st Hinv Ha) as [Hh1 Hsafe1].
  set (st1 := upd_sess slot _ st) in *. specialize (Hsafe1 Hsafe). pose proof (hp_inv _ _ _ Hh1 Hinv) as Hinv1.
  assert (s_phase (sess st1 slot) = ACTIVE) as Ha1 by (unfold st1; rewrite sess_upd_eq by (by rewrite Ha); done).
  destruct (so_active _ _ (inv_sess _ Hinv1 slot) Ha1) as (Hc & Hu & _). clearbody st1.
  set (c := s_cluster (sess st1 slot)) in *.
  destruct (cl_state (clus st1 c)); [done|done| |case_match; [by apply set_state_sim|done]].
  destruct (Nat.eqb_spec (ffsplit_count_state st1 c FC_SENDING_NACK) 0) as [Hz|]; [|done].
  pose proof (proj1 (count_state_zero st1 c _ (inv_len_sessions _ Hinv1)) Hz) as Hno.
  pose proof (algo_set_state st1 c FCL_SENDING_ACKS Hinv1 Hc Hu (λ _, Hno)) as [_ _ _ Hinv2].
  pose proof (safe_set_state st1 c FCL_SENDING_ACKS Hsafe1) as Hsafe2.
  pose proof (set_state_sim c FCL_SENDING_ACKS _ _ st st1 Hs1) as Hs2.
  set (st2 := upd_clus c _ st1) in *. set (tv := mkTV _ _ _ _ _ _).
  assert (∀ j, sess st2 j = sess st1 j) as Es2 by (intros; apply sess_upd_clus).
  pose proof (send_acks_sim tv st2 Hinv2 Hsafe2) as Hs3.
  destruct (ffsplit_send_votes tv true st2) as [st3 acks]. cbn [fst] in Hs3.
  assert (sim [slot] [] st st3) as H3.
  { eapply sim0_r; [exact Hs2|]. apply Hs3. intros k. rewrite !Es2. apply Hno. }
  case_match; [by apply set_state_sim|done].
Qed.

Lemma disconnect_sim ans away st' : sv_processing st' = true → sim ans away st st' →
  sim ans away st (disconnect_client slot st').
Proof using Type.
  intros Hp H. unfold disconnect_client. case_match; [done|].
  change (sv_processing (set_field _ _ _)) with (sv_processing st'). rewrite Hp.
  eapply sim0_r; [exact H|]. apply sim_same; [|done|by apply mute_same]. intros j.
  change (arb_view (sess (upd_sess slot (λ s, s <| s_schedule_disconnect := true |>) st') j) = arb_view (sess st' j)).
  rewrite sess_upd. by destruct (decide (slot = j ∧ _)).
Qed.

(** The clients that a frame makes answer. *)
Definition frame_answers (type : MsgType) (frame : bytes) (payload_len : nat) : list nat :=
  match msg_decode type (drop MSG_HEADER_LEN frame) payload_len with
  | Ok m =>
      match type with
      | MT_VOTE_INFO_REPLY =>
          if bool_decide (s_phase (sess st slot) = ACTIVE) && answers_last m (sess st slot) then [slot] else []
      | _ => []
      end
  | _ => []
  end.

Lemma handle_frame_sim type frame len plen now : sv_processing st = true → reinit type (sess st slot) = false →
  sim (frame_answers type frame plen) [] st (handle_frame slot type frame len plen now st).
Proof using Hinv Hsafe Hf.
  intros Hp Hre. unfold handle_frame, frame_answers.
  assert (sim0 st (disconnect_client slot (send_err slot MsgDecoded0 ERR_ERROR_DECODING_MSG st))) as Hd.
  { apply disconnect_sim; [done|]. auto with qnetd. }
  destruct (msg_decode _ _ _) as [m| |]; [|done..]. unfold dispatch.
  destruct (bool_decide_reflect (s_phase (sess st slot) = WAIT_PREINIT)) as [Ew|Ew]; [rewrite andb_true_r|rewrite andb_false_r].
  { destruct (decide (type = MT_PREINIT)) as [->|Hn]; [apply handle_preinit_sim|].
    rewrite (bool_decide_eq_false_2 (type = MT_PREINIT)) by done. cbn [negb].
    rewrite (bool_decide_eq_false_2 (s_phase (sess st slot) = ACTIVE)) by congruence. cbn [andb].
    destruct type; apply sim_send_err, sim_refl. }
  assert (∀ f, (s_phase (sess st slot) = ACTIVE → sim0 st f) →
    sim0 st (if negb (bool_decide (s_phase (sess st slot) = ACTIVE))
            then send_err slot m ERR_INIT_REQUIRED st else f)) as Hg.
  { intros f Hfn. destruct (bool_decide_reflect (s_phase (sess st slot) = ACTIVE)); cbn [negb]; auto with qnetd. }
  destruct type; try (apply Hg; intros Ha; try (by auto with qnetd)).
  - apply handle_preinit_sim.
  - apply handle_init_sim. unfold reinit in Hre. cbn in Hre. by apply bool_decide_eq_false in Hre.
  - apply handle_set_option_sim.
  - apply sim_send; [apply echo_silent|apply sim_refl].
  - by apply handle_node_list_sim.
  - destruct (bool_decide_reflect (s_phase (sess st slot) = ACTIVE)); cbn [negb andb]; [|auto with qnetd].
    by apply handle_vote_info_reply_sim.
  - by apply handle_heuristics_change_sim.
Qed.
End handlers.

(** ** The calls *)

(** A client that leaves and is closed. *)
Lemma sim_closed x st st' : sim [] [x] st st' → sim0 st (emit (EClose x) st').
Proof.
  intros [(tr & es & P & N & O & T & D & A & L) K]. split; [|exact K].
  exists tr, (es ++ [EClose x]). split_and!; [exact P|exact N| | |exact D|exact A|].
  - unfold emit. cbn. by rewrite O, app_assoc.
  - rewrite <-(app_nil_r (told_in tr)). apply tells_app; [done|]. by apply tells_none; repeat constructor.
  - intros i Hi. right. destruct (L i Hi) as [->%list_elem_of_singleton|Hc]; rewrite elem_of_app;
      [right; by apply list_elem_of_singleton|by left].
Qed.

Lemma drain_loop_sim n st : inv st → sched st → safe st → n = length (sv_pending_close st) → sim0 st (drain_loop n st).
Proof.
  revert st. induction n as [|n IH]; intros st Hinv Hsch Hsafe Hn; [apply sim_refl|].
  destruct (sv_pending_close st) as [|x l _] eqn:E using rev_ind; [simpl in Hn; lia|].
  rewrite length_app in Hn. simpl in Hn.
  destruct (drain_step n st l x Hinv Hsch E) as (-> & Hx & _ & Hinv0 & Hl & Hsch1 & E1).
  set (st0 := st <| sv_pending_close := l |>) in *. assert (safe st0) as Hsafe0 by (by apply (safe_same st)).
  apply (sim0_l _ _ _ st0); [apply sim_same; [done|done|by apply mute_same]|].
  apply (sim0_l _ _ _ (emit (EClose x) (leave_reset x st0))).
  - by apply sim_closed, leave_sim.
  - apply IH; [by apply inv_emit, (lp_inv _ _ _ Hl)|done|by apply safe_emit, (lp_safe _ _ _ Hl)|rewrite E1; lia].
Qed.

Lemma sim_processing b st : sim0 st (st <| sv_processing := b |>).
Proof. apply sim_same; [done|done|by apply mute_same]. Qed.

Lemma drain_closes_sim st : inv st → sched st → safe st → sim0 st (drain_closes st).
Proof.
  intros Hinv Hs Hsafe. unfold drain_closes. apply sim_notify. set (st1 := st <| sv_processing := true |>).
  eapply sim0_r; [|apply sim_processing]. eapply sim0_l; [apply (sim_processing true)|].
  exact (drain_loop_sim (length (sv_pending_close st1)) st1 (inv_processing true st Hinv) (sched_processing true st Hs)
    (safe_processing true st Hsafe) eq_refl).
Qed.

Lemma scheduled_sim slot st : sim0 st (scheduled slot st).
Proof.
  apply sim_same; [|done|by apply mute_same]. intros j.
  change (arb_view (sess (upd_sess slot (λ s, s <| s_schedule_disconnect := true |>) st) j) = arb_view (sess st j)).
  rewrite sess_upd. by case_decide.
Qed.

Lemma tick_sim now st : good st → safe st → sim0 st (tick now st).
Proof.
  assert (∀ l st, good st → safe st → sim0 st (foldl (tick_step now) st l)) as H; [|apply H].
  clear st. induction l as [|i l IH]; intros st Hg Hs; [apply sim_refl|]. cbn [foldl].
  destruct (tick_step_post now st i Hg) as [_ Hg' Hs'].
  eapply sim0_l; [|by apply IH; auto]. clear IH Hg' Hs'. unfold tick_step.
  destruct (bool_decide_reflect (s_phase (sess st i) = FREE)) as [|Hf]; [apply sim_refl|]. cbn [orb].
  case_match; [apply sim_refl|]. case_match; [|apply sim_refl].
  destruct (disconnect_starts st i Hg Hf) as (-> & Hinv & Hsch & _ & Hsafe).
  eapply sim0_l; [apply scheduled_sim|]. apply drain_closes_sim; auto.
Qed.

Lemma on_connect_sim now peer st : good st → acts [] [] st (on_connect now peer st).2.
Proof.
  intros Hg. destruct (List.find (λ i, bool_decide (s_phase (sess st i) = FREE)) slots) as [i|] eqn:E.
  2: { unfold on_connect. rewrite E. apply sim_refl. }
  destruct (on_connect_sess now peer st i (inv_len_sessions _ (good_inv _ Hg)) E) as (_ & _ & Hf & _ & Hc & Hs & Hs').
  apply acts_abs; [apply (abs_inactive i); [done|done|by rewrite Hf|by rewrite Hs]|]. unfold on_connect. rewrite E. cbn [snd].
  apply mute_emit; [done|]. by apply mute_same.
Qed.

Lemma on_disconnected_sim slot st : good st → safe st → sim [] [Z.to_nat slot] st (on_disconnected slot st).
Proof.
  intros Hg Hsafe. destruct (bad_slot slot st) eqn:Hb; [unfold on_disconnected; rewrite Hb; apply sim_away0, sim_refl|].
  destruct (on_disconnected_leaves slot st Hg Hb) as (-> & Hinv0 & Hf & _). apply sim_notify, sim_notify.
  eapply sim0_l; [apply (sim_processing true)|]. eapply sim0_r; [|apply sim_processing].
  apply leave_sim; [done|by apply safe_processing|done].
Qed.

(** The clients whose frames in the receive buffer are answers, frame by frame as
    [on_data] handles them. *)
Definition step_answers (slot : nat) (st : Server) : list nat :=
  let rx := s_rx (sess st slot) in
  match be_get16 rx, be_get32 (drop 2 rx) with
  | Ok type, Ok plen => frame_answers slot st (MsgType_of_Z type) rx (Z.to_nat plen)
  | _, _ => []
  end.
Fixpoint loop_answers (fuel slot : nat) (now : Z) (st : Server) : list nat :=
  match fuel with
  | O => []
  | S fuel =>
      match on_data_step slot now st with
      | Some (true, st') => step_answers slot st ++ loop_answers fuel slot now st'
      | _ => []
      end
  end.
Definition answers_in (st : Server) (e : Event) : list nat :=
  match e with
  | EvData slot data now =>
      let st1 := received (Z.to_nat slot) data now st in
      if bad_slot slot st then []
      else loop_answers (S (length (s_rx (sess st1 (Z.to_nat slot))))) (Z.to_nat slot) now st1
  | _ => []
  end.

Lemma on_data_step_sim slot now st b st' : busy slot st → safe st → step_reinit slot st = false →
  on_data_step slot now st = Some (b, st') → sim (if b then step_answers slot st else []) [] st st'.
Proof.
  intros [Hinv Hs Hp Hf] Hsafe Hre. unfold on_data_step. rewrite (bool_decide_eq_false_2 _ Hf). cbn [orb].
  unfold step_reinit in Hre. unfold step_answers. set (rx := s_rx (sess st slot)) in *.
  destruct (s_schedule_disconnect _); [done|]. destruct (length rx <? _)%nat; [done|].
  destruct (be_get16 rx) as [type| |], (be_get32 (drop 2 rx)) as [plen| |]; try done.
  destruct (sv_max_rx_frame st <? plen).
  - intros [= <- <-]. apply disconnect_sim; [done|]. auto with qnetd.
  - destruct (length rx <? _)%nat; [done|]. intros [= <- <-]. apply sim_benign; [apply benign_rx|]. by apply handle_frame_sim.
Qed.

(** An oversized frame is rejected before it is looked at. *)
Lemma too_long_sim slot now st st' : busy slot st → on_data_step slot now st = Some (false, st') → sim0 st st'.
Proof.
  intros [Hinv Hs Hp Hf]. unfold on_data_step. rewrite (bool_decide_eq_false_2 _ Hf). cbn [orb].
  repeat case_match; intros; simplify_eq. apply disconnect_sim; [done|]. auto with qnetd.
Qed.

Lemma on_data_loop_sim fuel slot now st : busy slot st → safe st → loop_reinit fuel slot now st = false →
  sim (loop_answers fuel slot now st) [] st (on_data_loop fuel slot now st).
Proof.
  revert st. induction fuel as [|fuel IH]; intros st Hb Hs Hre; [apply sim_refl|].
  cbn [on_data_loop loop_reinit loop_answers] in *.
  pose proof (on_data_step_cases slot now st Hb) as Hc.
  destruct (on_data_step slot now st) as [[[] st1]|] eqn:E; [| |apply sim_refl].
  - apply orb_false_elim in Hre as [H1 H2]. destruct Hc as ([Hb1 _ _ Hs1] & _).
    apply (sim_trans _ [] _ [] _ st1); [by apply (on_data_step_sim _ _ _ true _ Hb Hs H1 E)|]. auto.
  - by eapply too_long_sim.
Qed.

Lemma on_data_sim slot data now st : good st → safe st → data_reinit slot data now st = false →
  sim (answers_in st (EvData slot data now)) [] st (on_data slot data now st).
Proof.
  intros Hg Hsafe Hre. pose proof Hg as [Hinv Hp Hpe Hsd]. unfold data_reinit in Hre. rewrite on_data_eq. unfold answers_in.
  destruct (bad_slot slot st) eqn:Hb; [apply sim_refl|]. rewrite Hsd. cbn [negb andb] in Hre. cbv zeta in Hre |- *.
  destruct (bad_slot_false _ _ Hb) as (_ & _ & Hf). set (i := Z.to_nat slot) in *.
  destruct (received_busy i data now st Hg Hf) as (Hbusy & _ & _ & _ & Hsafe1). specialize (Hsafe1 Hsafe).
  apply (sim0_l _ _ _ (received i data now st)).
  { eapply sim0_r; [|apply (sim_processing true (upd_sess i (reschedule_dpd now)
      (upd_sess i (λ s, s <| s_rx ::= λ rx, rx ++ data |>) st)))].
    apply sim_benign; [apply benign_dpd|]. apply sim_benign; [apply benign_rx|apply sim_refl]. }
  set (st1 := received i data now st) in *.
  pose proof (on_data_loop_sim _ i now st1 Hbusy Hsafe1 Hre) as Hloop.
  destruct (on_data_loop_post (S (length (s_rx (sess st1 i)))) i now st1 Hbusy) as [[Hi2 Hs2 _ _] _ _ Hsafe2 _ _]; [lia|].
  eapply sim0_r; [exact Hloop|]. set (st2 := on_data_loop _ i now st1) in *.
  apply (sim0_l _ _ _ (st2 <| sv_processing := false |>)); [apply sim_processing|].
  apply drain_closes_sim; [by apply inv_processing|by apply sched_processing|apply safe_processing; auto].
Qed.

(** The client that a call itself reports gone. *)
Definition gone_in (e : Event) : list nat := match e with EvDisconnected slot => [Z.to_nat slot] | _ => [] end.

Lemma exec_sim st e : good st → safe st → clean st e = true → acts (answers_in st e) (gone_in e) st (exec st e).
Proof.
  intros Hg Hs Hc. destruct e as [now peer|slot data now|slot|now]; cbn [exec clean] in *.
  - by apply on_connect_sim.
  - apply on_data_sim; [done|done|]. by apply negb_true_iff.
  - by apply on_disconnected_sim.
  - by apply tick_sim.
Qed.

Lemma abs0 max c : abs c (Server0 max) = Arb0.
Proof.
  assert (∀ i, sess (Server0 max) i = Session0) as Hs.
  { intros i. unfold sess. cbn [Server0 sv_sessions]. destruct (_ !! i) eqn:E; [|done].
    by apply lookup_replicate in E as [-> _]. }
  unfold abs, quorate. rewrite !ids_none by (done || (intros j; by rewrite Hs)).
  assert (clus (Server0 max) c = Cluster0) as ->; [|done]. unfold clus. case_match; [done|]. cbn [Server0 sv_clusters].
  destruct (_ !! Z.to_nat c) eqn:E; [|done]. by apply lookup_replicate in E as [-> _].
Qed.

(** ** Refinement *)

(** C2: the server refines the abstract arbiter, frame by frame.  The initial
    server is the initial arbiter, and in every execution in which no client
    repeats its INIT each call of the interface performs a trace of arbiter
    actions that leads from the abstraction of the old state to that of the new
    one, and is exactly what can be observed of the call: the votes the trace
    tells are the VOTE_INFO frames the call sends, in order; its decisions are the
    ones the server counts; its answers are the VOTE_INFO_REPLY frames received
    that confirm the last vote; a client leaves only if the call reports its
    disconnection or closes its connection; and the clients it names are in use,
    active ones with their own node id and cluster.  So an ACK is sent only inside the
    decided partition and only when no NACK is unanswered, and a NACK is
    outstanding until it is answered, its node leaves or a new decision is taken. *)
Theorem server_refines_arbiter max st e :
  reachable_clean max st → clean st e = true →
  (∀ c, abs c (Server0 max) = Arb0) ∧
  ∃ tr, path (λ c, abs c st) tr (λ c, abs c (exec st e)) ∧ truthful st tr ∧
    tells (told_in tr) (outputs st (exec st e)) ∧
    sv_decisions (exec st e) = counted (decides tr) (sv_decisions st) ∧
    answered_in tr = answers_in st e ∧
    ∀ i, i ∈ left_in tr → i ∈ gone_in e ∨ EClose i ∈ outputs st (exec st e).
Proof.
  intros Hr He. apply reachable_clean_safe in Hr as [Hg Hs]. split; [intros c; apply abs0|].
  destruct (exec_sim st e Hg Hs He) as (tr & es & P & N & O & T & D & A & L).
  exists tr. rewrite (outputs_app _ _ _ O). done.
Qed.
(** The NACKed node answers: with one action of the arbiter nothing is being
    revoked any more. *)
Lemma server_refines_arbiter_witness :
  let e := EvData 0 (MockClient.vote_info_reply 2) 1000 in
  abs 0 split_decided = mkArb {[2]} {[4]} {[2]} ∧ abs 0 (exec split_decided e) = mkArb {[2]} ∅ {[2]} ∧
  answers_in split_decided e = [0%nat] ∧
  ∃ tr, path (λ c, abs c split_decided) tr (λ c, abs c (exec split_decided e)) ∧ answered_in tr = [0%nat].
Proof.
  cbv zeta. split; [vm_compute; reflexivity|]. split; [vm_compute; reflexivity|].
  assert (answers_in split_decided (EvData 0 (MockClient.vote_info_reply 2) 1000) = [0%nat]) as Ea
    by (vm_compute; reflexivity).
  split; [exact Ea|].
  destruct (server_refines_arbiter 32768 split_decided (EvData 0 (MockClient.vote_info_reply 2) 1000)
    split_decided_reachable) as (_ & tr & P & _ & _ & _ & A & _); [vm_compute; reflexivity|].
  exists tr. split; [exact P|]. exact (eq_trans A Ea).
Defined.
