(* ===== verification/Progress.v ===== *)
(** * Progress of the vote transfer

    Nothing gets stuck between the two phases: when the clients that were told
    NACK have all answered, in any order, the clients of the new partition are
    told ACK; when these have answered, the round is over.  The answers are the
    frames a client sends, delivered to [on_data]. *)
From S2P Require Import Prelude Double Wire Tlv Msg State Ffsplit Select Handlers Lifecycle Invariant.
From S2P Require Import HandlerFacts InitFacts VoteOrder Safety Scenarios Typed Shift Chunks Delivery.
Open Scope Z_scope.

(** The decoded answer of client [j] to its last vote. *)
Definition answer (j : nat) (st : Server) : MsgDecoded := reply_msg (s_vote_info_seq (sess st j)).

(** The session after its answer. *)
Definition answered (j : nat) (st : Server) : Server :=
  upd_sess j (λ s, s <| s_ff_state := FC_WAITING_FOR_CHANGE |>) st.

(** What an answer does, by the state of the cluster. *)
Lemma answer_eq j st : s_phase (sess st j) = ACTIVE →
  let c := s_cluster (sess st j) in
  let st1 := answered j st in
  handle_vote_info_reply j (answer j st) st =
    notify
      (match cl_state (clus st c) with
       | FCL_SENDING_NACKS =>
           if (ffsplit_count_state st1 c FC_SENDING_NACK =? 0)%nat then
             let s := sess st1 j in
             let tv := mkTV j false (s_last_ring_id s) (s_config_list s) (s_membership_list s) (s_last_heuristics s) in
             let '(st2, acks) :=
               ffsplit_send_votes tv true (upd_clus c (λ cl, cl <| cl_state := FCL_SENDING_ACKS |>) st1) in
             if (acks =? 0)%nat then upd_clus c (λ cl, cl <| cl_state := FCL_WAITING_FOR_CHANGE |>) st2 else st2
           else st1
       | FCL_SENDING_ACKS =>
           if (ffsplit_count_state st1 c FC_SENDING_ACK =? 0)%nat
           then upd_clus c (λ cl, cl <| cl_state := FCL_WAITING_FOR_CHANGE |>) st1 else st1
       | _ => st1
       end).
Proof.
  intros Ha c st1. unfold handle_vote_info_reply. change (m_seq_number_set (answer j st)) with true. change (m_seq_number (answer j st)) with (s_vote_info_seq (sess st j)).
  rewrite Z.eqb_refl. cbn [negb]. fold (answered j st). fold st1.
  assert (s_cluster (sess st1 j) = c) as ->; [|done].
  unfold st1, answered. rewrite sess_upd_eq by (by rewrite Ha). done.
Qed.

Lemma answered_sess j st k : s_phase (sess st j) = ACTIVE →
  sess (answered j st) k = if decide (k = j) then (sess st j) <| s_ff_state := FC_WAITING_FOR_CHANGE |> else sess st k.
Proof.
  intros Ha. unfold answered. case_decide as E; [subst k; apply sess_upd_eq; by rewrite Ha|by apply sess_upd_ne].
Qed.

Lemma answered_inv j st : inv st → s_phase (sess st j) = ACTIVE → inv (answered j st).
Proof. intros Hinv Ha. exact (hp_inv _ _ _ (proj1 (hok_answered j st Hinv Ha)) Hinv). Qed.

(** The clients of cluster [c] in a state of the vote protocol. *)
Definition awaiting (fs : FfClientState) (c : Z) (st : Server) (j : nat) : Prop :=
  in_cluster (sess st j) c = true ∧ s_ff_state (sess st j) = fs.

(** The rest of a list of clients still waits after the first has answered. *)
Lemma answered_awaiting fs c st j l : fs ≠ FC_WAITING_FOR_CHANGE → NoDup (j :: l) →
  (∀ k, awaiting fs c st k ↔ k ∈ j :: l) → s_phase (sess st j) = ACTIVE →
  ∀ k, awaiting fs c (answered j st) k ↔ k ∈ l.
Proof.
  intros Hfs [Hjl _]%NoDup_cons Hk Ha k. unfold awaiting in *. rewrite answered_sess by done. case_decide as E.
  - subst k. split; [|done]. intros [_ H]. cbn in H. congruence.
  - rewrite Hk, elem_of_cons. naive_solver.
Qed.

Lemma count_awaiting fs c st l : length (sv_sessions st) = MAX_CLIENTS → (∀ k, awaiting fs c st k ↔ k ∈ l) →
  ((ffsplit_count_state st c fs =? 0)%nat = bool_decide (l = [])).
Proof.
  intros Hlen Hk. destruct (Nat.eqb_spec (ffsplit_count_state st c fs) 0) as [Hz|Hz]; symmetry.
  - apply bool_decide_eq_true. destruct l as [|k l]; [done|]. exfalso.
    destruct (proj2 (Hk k) (list_elem_of_here _ _)) as [H1 H2].
    by apply (proj1 (count_state_zero st c fs Hlen) Hz k).
  - apply bool_decide_eq_false. intros ->. apply Hz, (count_state_zero st c fs Hlen). intros j H1 H2.
    by apply (not_elem_of_nil j), Hk.
Qed.

(** ** The last NACK is answered *)

Record released (c : Z) (j : nat) (st st' : Server) : Prop := {
  rl_ack k : awaiting FC_SENDING_ACK c st k → sess st' k = cast_vote VOTE_ACK (sess st k);
  rl_other k : k ≠ j → ¬ awaiting FC_SENDING_ACK c st k → sess st' k = sess st k;
  rl_self : sess st' j = (sess st j) <| s_ff_state := FC_WAITING_FOR_CHANGE |>;
  rl_state : cl_state (clus st' c) = FCL_SENDING_ACKS ∧ (∃ k, awaiting FC_SENDING_ACK c st k) ∨
    cl_state (clus st' c) = FCL_WAITING_FOR_CHANGE ∧ ∀ k, ¬ awaiting FC_SENDING_ACK c st k;
  rl_sent k : awaiting FC_SENDING_ACK c st k →
    ESend k (build_vote_info (u32 (s_vote_info_seq (sess st k) + 1)) (s_last_ring_id (sess st k)) VOTE_ACK) ∈ sv_out st';
}.

(** A round of ACKs reaches every client that waits for one. *)
Lemma ack_round_spec tv st : length (sv_sessions st) = MAX_CLIENTS → tv_leaving tv = false →
  let c := s_cluster (sess st (tv_slot tv)) in
  let r := ffsplit_send_votes tv true st in
  env r.1 = env st ∧ (∀ d, clus r.1 d = clus st d) ∧
  (∀ k, awaiting FC_SENDING_ACK c st k →
     sess r.1 k = cast_vote VOTE_ACK (sess st k) ∧ vote_effect st tv VOTE_ACK k ∈ sv_out r.1) ∧
  (∀ k, ¬ awaiting FC_SENDING_ACK c st k → sess r.1 k = sess st k) ∧
  (if (r.2 =? 0)%nat then ∀ k, ¬ awaiting FC_SENDING_ACK c st k else ∃ k, awaiting FC_SENDING_ACK c st k).
Proof.
  intros Hlen Hl c r. destruct (send_votes_spec st tv true Hlen) as (He & Hcl & _ & Hs & Ho & Hn). fold c in Hs. fold r in He, Hcl, Hs, Ho, Hn.
  assert (∀ k, votes tv true c (s_node_id (sess st (tv_slot tv))) (sess st k) = true ↔ awaiting FC_SENDING_ACK c st k) as Hv.
  { intros k. unfold votes, awaiting. rewrite Hl. cbn [andb negb]. rewrite !andb_true_iff, bool_decide_eq_true.
    split; [by intros [[? _] ?]|by intros [? ?]]. }
  assert (∀ k, awaiting FC_SENDING_ACK c st k → k ∈ voters st tv true slots) as Hin.
  { intros k Hw. apply list_elem_of_In, List.filter_In. split; [|by apply Hv].
    apply list_elem_of_In, elem_of_slots. rewrite <-Hlen. apply sess_in_range. by destruct Hw as [[-> _]%in_cluster_true _]. }
  split_and!; [done|done| | |].
  - intros k Hw. split; [by rewrite Hs, (proj2 (Hv k))|]. rewrite Ho. apply elem_of_app. right.
    apply list_elem_of_fmap. exists k. split; [done|auto].
  - intros k Hw. rewrite Hs. destruct (votes _ _ _ _ _) eqn:E; [by apply Hv in E|done].
  - rewrite Hn. destruct (voters st tv true slots) as [|k l] eqn:El; cbn [length Nat.eqb].
    + intros k Hw%Hin. by apply not_elem_of_nil in Hw.
    + exists k. apply Hv. assert (In k (k :: l)) as Hk by (by left). rewrite <-El in Hk. by apply List.filter_In in Hk as [_ ?].
Qed.

(** The answer of a NACKed client leaves the ACKs alone. *)
Lemma answered_ack c st j k : s_phase (sess st j) = ACTIVE → s_ff_state (sess st j) = FC_SENDING_NACK →
  awaiting FC_SENDING_ACK c (answered j st) k ↔ awaiting FC_SENDING_ACK c st k.
Proof.
  intros Ha Hff. unfold awaiting. rewrite answered_sess by done. case_decide; [|done]. subst k. cbn. naive_solver congruence.
Qed.
Lemma awaiting_ne c st j k : s_ff_state (sess st j) = FC_SENDING_NACK → awaiting FC_SENDING_ACK c st k → k ≠ j.
Proof. intros Hff [_ H] ->. congruence. Qed.

(** The writes after the round. *)
Lemma released_intro c j st st3 (acks : nat) :
  s_phase (sess st j) = ACTIVE → s_ff_state (sess st j) = FC_SENDING_NACK →
  0 <= c < Z.of_nat (length (sv_clusters st3)) → cl_state (clus st3 c) = FCL_SENDING_ACKS →
  (∀ k, awaiting FC_SENDING_ACK c st k → sess st3 k = cast_vote VOTE_ACK (sess st k) ∧
     ESend k (build_vote_info (u32 (s_vote_info_seq (sess st k) + 1)) (s_last_ring_id (sess st k)) VOTE_ACK) ∈ sv_out st3) →
  (∀ k, ¬ awaiting FC_SENDING_ACK c st k → sess st3 k = sess (answered j st) k) →
  (if (acks =? 0)%nat then ∀ k, ¬ awaiting FC_SENDING_ACK c st k else ∃ k, awaiting FC_SENDING_ACK c st k) →
  released c j st (notify (if (acks =? 0)%nat then upd_clus c (λ cl, cl <| cl_state := FCL_WAITING_FOR_CHANGE |>) st3
                           else st3)).
Proof.
  intros Ha Hff Hc Hcs H1 H2 H3. unfold notify. set (st4 := if (acks =? 0)%nat then _ else st3).
  assert ((∀ k, sess st4 k = sess st3 k) ∧ sv_out st4 = sv_out st3) as [Hs Ho]
    by (unfold st4; case_match; [split; [intros; apply sess_upd_clus|apply out_upd_clus]|done]).
  split.
  - intros k Hw. rewrite sess_emit, Hs. by apply H1.
  - intros k Hkj Hw. rewrite sess_emit, Hs, H2 by done. by rewrite answered_sess, decide_False.
  - rewrite sess_emit, Hs, H2; [by rewrite answered_sess, decide_True|]. intros Hw. by apply (awaiting_ne c st j j Hff Hw).
  - rewrite clus_emit. unfold st4. destruct (acks =? 0)%nat; [right|by left].
    rewrite clus_upd, decide_True by done. auto.
  - intros k Hw. rewrite out_emit, Ho. apply elem_of_app. left. by apply H1.
Qed.

Lemma last_nack j st : inv st → s_phase (sess st j) = ACTIVE → s_ff_state (sess st j) = FC_SENDING_NACK →
  let c := s_cluster (sess st j) in
  cl_state (clus st c) = FCL_SENDING_NACKS → (∀ k, awaiting FC_SENDING_NACK c st k ↔ k ∈ [j]) →
  released c j st (handle_vote_info_reply j (answer j st) st).
Proof.
  intros Hinv Ha Hff c Hst Hk. rewrite answer_eq by done. fold c. rewrite Hst.
  pose proof (answered_inv j st Hinv Ha) as Hinv1.
  assert (∀ k, awaiting FC_SENDING_NACK c (answered j st) k ↔ k ∈ []) as Hk1.
  { apply (answered_awaiting FC_SENDING_NACK c st j []); [done|apply NoDup_singleton|exact Hk|exact Ha]. }
  rewrite (count_awaiting _ c _ [] (inv_len_sessions _ Hinv1) Hk1), bool_decide_eq_true_2 by done. cbv zeta.
  set (tv := mkTV _ _ _ _ _ _). set (st2 := upd_clus c (λ cl, cl <| cl_state := FCL_SENDING_ACKS |>) (answered j st)).
  assert (∀ k, sess st2 k = sess (answered j st) k) as Hs2 by (intros; apply sess_upd_clus).
  assert (length (sv_sessions st2) = MAX_CLIENTS ∧ length (sv_clusters st2) = MAX_CLUSTERS) as [Hlen Hlenc].
  { unfold st2. rewrite (env_sessions _ _ (env_upd_clus _ _ _)), (env_clusters _ _ (env_upd_clus _ _ _)).
    split; [by apply inv_len_sessions|by apply inv_len_clusters]. }
  assert (s_cluster (sess st2 (tv_slot tv)) = c) as Hc by (rewrite Hs2, answered_sess, decide_True by done; done).
  assert (∀ k, awaiting FC_SENDING_ACK c st2 k ↔ awaiting FC_SENDING_ACK c st k) as Hw.
  { intros k. rewrite <-(answered_ack c st j k Ha Hff). unfold awaiting. by rewrite Hs2. }
  destruct (so_active _ _ (inv_sess _ Hinv j) Ha) as (Hr & _). fold c in Hr.
  assert (cl_state (clus st2 c) = FCL_SENDING_ACKS) as Hcs.
  { unfold st2. rewrite clus_upd, decide_True; [done|]. by rewrite (inv_len_clusters _ Hinv1). }
  destruct (ack_round_spec tv st2 Hlen eq_refl) as (He & Hcl & R1 & R2 & R3). rewrite Hc in R1, R2, R3.
  pose proof (env_clusters _ _ He) as Hlenc3. rewrite Hlenc in Hlenc3. rewrite <-(Hcl c) in Hcs.
  destruct (ffsplit_send_votes tv true st2) as [st3 acks]. cbn [fst snd] in *.
  apply released_intro; [done|done|by rewrite Hlenc3|done| | |].
  - intros k Hwk. pose proof (awaiting_ne c st j k Hff Hwk) as Hkj.
    assert (sess st2 k = sess st k) as Ek by (by rewrite Hs2, answered_sess, decide_False).
    destruct (R1 k) as [A1 A2]; [by apply Hw|]. rewrite Ek in A1. split; [done|].
    unfold vote_effect, eff_ring, overridden in A2. cbn [tv tv_leaving tv_slot negb andb] in A2.
    rewrite (proj2 (Nat.eqb_neq k j)) in A2 by done. by rewrite Ek in A2.
  - intros k Hwk. rewrite R2; [apply Hs2|]. by rewrite Hw.
  - destruct (acks =? 0)%nat; [intros k; rewrite <-Hw; apply R3|]. destruct R3 as [k Hwk]. exists k. by apply Hw.
Qed.

Lemma awaiting_active fs c st j : awaiting fs c st j → s_phase (sess st j) = ACTIVE ∧ s_cluster (sess st j) = c.
Proof. by intros [H%in_cluster_true _]. Qed.

(** An answer before the last leaves the cluster as it is. *)
Definition round_state (fs : FfClientState) : FfClusterState :=
  match fs with FC_SENDING_NACK => FCL_SENDING_NACKS | _ => FCL_SENDING_ACKS end.

Lemma early_answer fs c st j k : inv st → in_cluster (sess st j) c = true → k ≠ j → awaiting fs c st k →
  cl_state (clus st c) = round_state fs → fs ≠ FC_WAITING_FOR_CHANGE →
  handle_vote_info_reply j (answer j st) st = notify (answered j st).
Proof.
  intros Hinv [Ha Hc]%in_cluster_true Hkj [Hk1 Hk2] Hst Hfs. rewrite answer_eq by done. rewrite Hc, Hst.
  assert (ffsplit_count_state (answered j st) c fs ≠ 0%nat) as Hcnt.
  { intros Hz. apply (proj1 (count_state_zero _ c fs (inv_len_sessions _ (answered_inv j st Hinv Ha))) Hz k);
      by rewrite answered_sess, decide_False. }
  apply Nat.eqb_neq in Hcnt. destruct fs; [done|by cbn [round_state]; rewrite Hcnt..].
Qed.

(** ** On the wire *)

(** What the vote protocol reads of a session: neither its timer nor its buffer. *)
Definition unwired (s : Session) : Session := s <| s_deadline_ms := 0 |> <| s_rx := [] |>.

Record alike (st st' : Server) : Prop := {
  al_sess k : unwired (sess st' k) = unwired (sess st k);
  al_clus c : clus st' c = clus st c;
}.
#[export] Instance alike_equiv : Equivalence alike.
Proof.
  split.
  - by intros st.
  - intros st st' [H1 H2]. by split; intros; symmetry.
  - intros st1 st2 st3 [H1 H2] [H3 H4]. split; intros; etrans; eauto.
Qed.

Lemma alike_proj {A} (F : Session → A) st st' k : (∀ s, F (unwired s) = F s) → alike st st' → F (sess st' k) = F (sess st k).
Proof. intros HF [H _]. by rewrite <-(HF (sess st' k)), <-(HF (sess st k)), H. Qed.

#[export] Instance awaiting_proper fs c : Proper (alike ==> eq ==> iff) (awaiting fs c).
Proof.
  intros st st' H k _ <-. unfold awaiting.
  by rewrite (alike_proj (λ s, in_cluster s c) _ _ k (λ _, eq_refl) H), (alike_proj s_ff_state _ _ k (λ _, eq_refl) H).
Qed.

(** Client [j] answers its last vote. *)
Definition reply (now : Z) (st : Server) (j : nat) : Server :=
  exec st (EvData (Z.of_nat j) (MockClient.vote_info_reply (s_vote_info_seq (sess st j))) now).
Definition answers (now : Z) (l : list nat) (st : Server) : Server := foldl (reply now) st l.

(** The clients of a cluster can answer: nothing they sent is half-read. *)
Record answerable (c : Z) (st : Server) : Prop := {
  an_good : good st;
  an_typed : typed st;
  an_max : 8 <= sv_max_rx_frame st;
  an_rx k : in_cluster (sess st k) c = true → s_rx (sess st k) = [];
}.

Lemma vote_info_reply_bytes seq : is_bytes (MockClient.vote_info_reply seq).
Proof. rewrite vote_info_reply_frame. repeat constructor; apply u8_range || by vm_compute. Qed.

Lemma received_alike j f now st : s_phase (sess st j) = ACTIVE → alike st (received j f now st).
Proof.
  intros Ha. split; [|done]. intros k. rewrite received_sess by (by rewrite Ha). case_decide as E; [subst k|done].
  unfold reschedule_dpd. by repeat case_match.
Qed.

Lemma reply_spec now c st j : answerable c st → in_cluster (sess st j) c = true →
  ∃ st0, let st1 := handle_vote_info_reply j (answer j st0) st0 in
    inv st0 ∧ alike st st0 ∧ alike st1 (reply now st j) ∧ (∀ e, e ∈ sv_out st1 → e ∈ sv_out (reply now st j)) ∧
    answerable c (reply now st j).
Proof.
  intros [Hg Ht Hm Hrx] Hj. pose proof (proj1 (in_cluster_true _ _) Hj) as [Ha _].
  set (f := MockClient.vote_info_reply (s_vote_info_seq (sess st j))). exists (received j f now st).
  pose proof (received_alike j f now st Ha) as Hal. destruct (received_busy j f now st Hg) as (Hb & Hf & _); [by rewrite Ha|].
  rewrite Hrx in Hf by done. set (st0 := received j f now st) in *. cbv zeta. set (st1 := handle_vote_info_reply _ _ _).
  assert (s_phase (sess st0 j) = ACTIVE) as Ha0 by (by rewrite (alike_proj s_phase _ _ j (λ _, eq_refl) Hal)).
  destruct (handle_vote_info_reply_ok j (answer j st0) st0 (busy_inv _ _ Hb) Ha0) as [Hh _]. fold st1 in Hh.
  assert (reply now st j = notify ((upd_sess j (λ s, s <| s_rx ::= drop 14 |>) st1) <| sv_processing := false |>)) as Heq.
  { unfold reply. rewrite reply_delivered; [|done|done|by apply Hrx|done|apply Ht]. unfold heard. fold f. fold st0.
    unfold st1, answer. by rewrite (alike_proj s_vote_info_seq _ _ j (λ _, eq_refl) Hal). }
  assert (∀ k, sess (reply now st j) k = if decide (k = j) then (sess st1 j) <| s_rx ::= drop 14 |> else sess st1 k) as Hs.
  { intros k. rewrite Heq. trans (sess (upd_sess j (λ s, s <| s_rx ::= drop 14 |>) st1) k); [done|].
    case_decide as E; [subst k|by apply sess_upd_ne]. rewrite sess_upd_eq; [done|]. apply (hp_alive _ _ _ Hh). by rewrite Ha0. }
  split_and!; [apply Hb|done| | |split].
  - split; [|intros d; by rewrite Heq]. intros k. rewrite Hs. case_decide as E; [by subst k|done].
  - intros e He. rewrite Heq. apply elem_of_app. by left.
  - by apply on_data_good.
  - apply typed_exec; [apply vote_info_reply_bytes|done].
  - unfold reply. cbn [exec]. by rewrite (cp_max _ _ _ (on_data_post _ _ _ _ Hg)).
  - intros k. rewrite Hs. case_decide as E.
    + intros _. cbn. by rewrite (hp_rx _ _ _ Hh), Hf.
    + intros Hk. rewrite (hp_rx _ _ _ Hh). unfold st0. rewrite received_sess, decide_False by (done || by rewrite Ha). apply Hrx.
      rewrite <-Hk. symmetry. apply (unvoted_proj (λ s, in_cluster s c)); [done|]. rewrite (hp_other _ _ _ Hh) by done.
      unfold st0. by rewrite received_sess, decide_False by (done || by rewrite Ha).
Qed.

(** What the answer to the last NACK amounts to, seen from the network. *)
Record nacks_done (c : Z) (st st' : Server) : Prop := {
  nd_ans : answerable c st';
  nd_acked k : awaiting FC_SENDING_ACK c st k → unwired (sess st' k) = unwired (cast_vote VOTE_ACK (sess st k)) ∧
    ESend k (build_vote_info (u32 (s_vote_info_seq (sess st k) + 1)) (s_last_ring_id (sess st k)) VOTE_ACK) ∈ sv_out st';
  nd_other k : ¬ awaiting FC_SENDING_ACK c st k → s_last_ack_nack (sess st' k) = s_last_ack_nack (sess st k);
  nd_state : cl_state (clus st' c) = FCL_SENDING_ACKS ∧ (∃ k, awaiting FC_SENDING_ACK c st k) ∨
    cl_state (clus st' c) = FCL_WAITING_FOR_CHANGE ∧ ∀ k, ¬ awaiting FC_SENDING_ACK c st k;
  nd_nacks k : ¬ awaiting FC_SENDING_NACK c st' k;
  nd_acks k : awaiting FC_SENDING_ACK c st' k ↔ awaiting FC_SENDING_ACK c st k;
}.

(** The same, between the states around the handler. *)
Lemma released_done c j st0 st1 : released c j st0 st1 → (∀ k, awaiting FC_SENDING_NACK c st0 k ↔ k ∈ [j]) →
  (∀ k, ¬ awaiting FC_SENDING_NACK c st1 k) ∧
  (∀ k, awaiting FC_SENDING_ACK c st1 k ↔ awaiting FC_SENDING_ACK c st0 k) ∧
  (∀ k, ¬ awaiting FC_SENDING_ACK c st0 k → s_last_ack_nack (sess st1 k) = s_last_ack_nack (sess st0 k)).
Proof.
  intros [R1 R2 R3 R4 R5] Hk.
  assert (s_ff_state (sess st0 j) = FC_SENDING_NACK) as Hff by (by apply (Hk j), list_elem_of_singleton).
  split_and!.
  - intros k Hn. destruct (decide (k = j)) as [->|Hkj]; [destruct Hn as [_ Hn]; by rewrite R3 in Hn|].
    assert (¬ awaiting FC_SENDING_ACK c st0 k) as Hna by (intros Hw; destruct Hn as [_ Hn], Hw as [? Hw]; rewrite R1 in Hn by done; cbn in Hn; congruence).
    unfold awaiting in Hn. rewrite R2 in Hn by done. by apply Hkj, list_elem_of_singleton, Hk.
  - intros k. split.
    + intros Hw. destruct (decide (awaiting FC_SENDING_ACK c st0 k)) as [|Hna]; [done|]. exfalso.
      destruct (decide (k = j)) as [->|Hkj]; [destruct Hw as [_ Hw]; by rewrite R3 in Hw|].
      unfold awaiting in Hw. rewrite R2 in Hw by done. done.
    + intros Hw. unfold awaiting. rewrite R1 by done. exact Hw.
  - intros k Hw. destruct (decide (k = j)) as [->|Hkj]; [by rewrite R3|by rewrite R2].
Qed.

Lemma last_nack_done now c st j : answerable c st → cl_state (clus st c) = FCL_SENDING_NACKS →
  (∀ k, awaiting FC_SENDING_NACK c st k ↔ k ∈ [j]) → nacks_done c st (reply now st j).
Proof.
  intros Han Hst Hk. assert (awaiting FC_SENDING_NACK c st j) as Hj by (by apply Hk, list_elem_of_singleton).
  destruct (reply_spec now c st j Han (proj1 Hj)) as (st0 & Hinv & A0 & A1 & Ho & Han').
  assert (∀ k, awaiting FC_SENDING_NACK c st0 k ↔ k ∈ [j]) as Hk0 by (intros k; by rewrite <-A0).
  pose proof Hj as Hj0. rewrite A0 in Hj0. destruct (awaiting_active _ _ _ _ Hj0) as [Ha Hc].
  assert (released c j st0 (handle_vote_info_reply j (answer j st0) st0)) as HR.
  { rewrite <-Hc in *. apply last_nack; [done|done|apply Hj0|by rewrite (al_clus _ _ A0)|done]. }
  set (st1 := handle_vote_info_reply j (answer j st0) st0) in *. set (st' := reply now st j) in *. clearbody st1 st'.
  destruct (released_done c j st0 st1 HR Hk0) as (D1 & D2 & D3). destruct HR as [R1 R2 R3 R4 R5]. split; [done|..].
  - intros k Hw. pose proof Hw as Hw0. rewrite A0 in Hw0. specialize (R5 k Hw0).
    rewrite (alike_proj s_vote_info_seq _ _ k (λ _, eq_refl) A0), (alike_proj s_last_ring_id _ _ k (λ _, eq_refl) A0) in R5.
    split; [|by apply Ho]. rewrite (al_sess _ _ A1 k), R1 by done.
    pose proof (al_sess _ _ A0 k) as E. destruct (sess st0 k), (sess st k). by inversion E.
  - intros k Hw. rewrite A0 in Hw. rewrite (alike_proj s_last_ack_nack _ _ k (λ _, eq_refl) A1), D3 by done.
    by apply alike_proj.
  - rewrite (al_clus _ _ A1). destruct R4 as [[E [k Hw]]|[E Hno]]; [left|right]; (split; [done|]).
    + exists k. by rewrite A0.
    + intros k. rewrite A0. apply Hno.
  - intros k. rewrite <-A1. apply D1.
  - intros k. by rewrite <-A1, D2, A0.
Qed.

(** An answer before the last of its round. *)
Record one_answered (c : Z) (j : nat) (st st' : Server) : Prop := {
  oa_ans : answerable c st';
  oa_state : clus st' c = clus st c;
  oa_other k : k ≠ j → unwired (sess st' k) = unwired (sess st k);
  oa_self : unwired (sess st' j) = unwired ((sess st j) <| s_ff_state := FC_WAITING_FOR_CHANGE |>);
}.

Lemma early_reply now fs c st j k : answerable c st → in_cluster (sess st j) c = true → k ≠ j → awaiting fs c st k →
  cl_state (clus st c) = round_state fs → fs ≠ FC_WAITING_FOR_CHANGE → one_answered c j st (reply now st j).
Proof.
  intros Han Hj Hkj Hk Hst Hfs. destruct (reply_spec now c st j Han Hj) as (st0 & Hinv & A0 & A1 & _ & Han').
  assert (in_cluster (sess st0 j) c = true) as Hj0 by (by rewrite (alike_proj (λ s, in_cluster s c) _ _ j (λ _, eq_refl) A0)).
  pose proof (proj1 (in_cluster_true _ _) Hj0) as [Ha Hc]. rewrite A0 in Hk.
  rewrite (early_answer fs c st0 j k) in A1 by (done || by rewrite (al_clus _ _ A0)).
  assert (alike (answered j st0) (reply now st j)) as A2 by (by destruct A1; split). clear A1.
  set (st' := reply now st j) in *. clearbody st'. split; [done|..].
  - rewrite (al_clus _ _ A2). apply (al_clus _ _ A0).
  - intros i Hi. rewrite (al_sess _ _ A2), answered_sess, decide_False by done. apply (al_sess _ _ A0).
  - rewrite (al_sess _ _ A2), answered_sess, decide_True by done. pose proof (al_sess _ _ A0 j) as E.
    destruct (sess st0 j), (sess st j). by inversion E.
Qed.

Lemma one_answered_awaiting fs c j st st' k : one_answered c j st st' → fs ≠ FC_WAITING_FOR_CHANGE →
  awaiting fs c st' k ↔ awaiting fs c st k ∧ k ≠ j.
Proof.
  intros [_ _ B4 B5] Hfs. unfold awaiting.
  change (in_cluster (unwired (sess st' k)) c = true ∧ s_ff_state (unwired (sess st' k)) = fs ↔
    (in_cluster (sess st k) c = true ∧ s_ff_state (sess st k) = fs) ∧ k ≠ j).
  destruct (decide (k = j)) as [->|Hk]; [rewrite B5; cbn; naive_solver|rewrite (B4 k Hk)]. split; [|by intros []].
  by intros H.
Qed.
Lemma one_answered_vote c j st st' k : one_answered c j st st' → s_last_ack_nack (sess st' k) = s_last_ack_nack (sess st k).
Proof.
  intros [_ _ B4 B5]. change (s_last_ack_nack (unwired (sess st' k)) = s_last_ack_nack (sess st k)).
  destruct (decide (k = j)) as [->|Hk]; [by rewrite B5|by rewrite B4].
Qed.

(** The first of several clients in the same state answers. *)
Lemma first_reply now fs c st j k l : answerable c st → NoDup (j :: k :: l) → (∀ i, awaiting fs c st i ↔ i ∈ j :: k :: l) →
  cl_state (clus st c) = round_state fs → fs ≠ FC_WAITING_FOR_CHANGE →
  one_answered c j st (reply now st j) ∧ ∀ i, awaiting fs c (reply now st j) i ↔ i ∈ k :: l.
Proof.
  intros Han [Hjl _]%NoDup_cons Hw Hst Hfs.
  assert (one_answered c j st (reply now st j)) as H.
  { apply (early_reply now fs c st j k); [done|apply Hw, list_elem_of_here| |apply Hw; right; left|done|done].
    intros ->. apply Hjl. left. }
  split; [done|]. intros i. rewrite (one_answered_awaiting fs c j st _ i H Hfs), Hw, elem_of_cons.
  split; [by intros [[?|?] ?]|]. intros Hi. split; [by right|]. by intros ->.
Qed.

Lemma nacks_phase now l c st : answerable c st → cl_state (clus st c) = FCL_SENDING_NACKS → NoDup l → l ≠ [] →
  (∀ k, awaiting FC_SENDING_NACK c st k ↔ k ∈ l) → nacks_done c st (answers now l st).
Proof.
  revert st. induction l as [|j [|k l] IH]; intros st Han Hst Hnd Hl Hk; [done|by apply last_nack_done|].
  cbn [answers foldl]. change (foldl (reply now) (reply now (reply now st j) k) l) with (answers now (k :: l) (reply now st j)).
  destruct (first_reply now FC_SENDING_NACK c st j k l Han Hnd Hk Hst) as [H1 B3]; [done|].
  assert (s_ff_state (sess st j) = FC_SENDING_NACK) as Hff by (apply Hk, list_elem_of_here).
  set (st1 := reply now st j) in *. clearbody st1.
  destruct (IH st1) as [D1 D2 D3 D4 D5 D6]; [apply H1|by rewrite (oa_state _ _ _ _ H1)|by apply NoDup_cons in Hnd as [_ ?]|done|done|].
  assert (∀ i, awaiting FC_SENDING_ACK c st1 i ↔ awaiting FC_SENDING_ACK c st i) as Hw.
  { intros i. rewrite (one_answered_awaiting _ c j st) by done. split; [by intros []|].
    intros Hi. split; [done|by apply (awaiting_ne c st j i)]. }
  split; [done| | | |done|intros i; by rewrite D6, Hw].
  - intros i Hwi. destruct (D2 i) as [E1 E2]; [by apply Hw|]. pose proof (oa_other _ _ _ _ H1 i (awaiting_ne c st j i Hff Hwi)) as E.
    rewrite E1. clear E1. destruct (sess st1 i), (sess st i). inversion E. by subst.
  - intros i Hwi. rewrite D3 by (by rewrite Hw). by apply (one_answered_vote c j).
  - destruct D4 as [[E [i Hi]]|[E Hno]]; [left; split; [done|]; exists i; by apply Hw|right]. split; [done|].
    intros i Hwi. by apply (Hno i), Hw.
Qed.

Lemma last_ack now c st j : answerable c st → cl_state (clus st c) = FCL_SENDING_ACKS →
  (∀ k, awaiting FC_SENDING_ACK c st k ↔ k ∈ [j]) →
  let st' := reply now st j in
  cl_state (clus st' c) = FCL_WAITING_FOR_CHANGE ∧ (∀ k, ¬ awaiting FC_SENDING_ACK c st' k) ∧
  (∀ k, s_last_ack_nack (sess st' k) = s_last_ack_nack (sess st k)).
Proof.
  intros Han Hst Hk st'. assert (awaiting FC_SENDING_ACK c st j) as Hj by (by apply Hk, list_elem_of_singleton).
  destruct (reply_spec now c st j Han (proj1 Hj)) as (st0 & Hinv & A0 & A1 & _ & _). fold st' in A1. clearbody st'.
  assert (∀ k, awaiting FC_SENDING_ACK c st0 k ↔ k ∈ [j]) as Hk0 by (intros k; by rewrite <-A0).
  pose proof Hj as Hj0. rewrite A0 in Hj0. destruct (awaiting_active _ _ _ _ Hj0) as [Ha Hc].
  pose proof (answered_awaiting FC_SENDING_ACK c st0 j [] ltac:(done) (NoDup_singleton j) Hk0 Ha) as Hk1.
  pose proof (answered_inv j st0 Hinv Ha) as Hinv1. rewrite answer_eq in A1 by done. rewrite Hc, (al_clus _ _ A0), Hst in A1.
  rewrite (count_awaiting _ c _ [] (inv_len_sessions _ Hinv1) Hk1), bool_decide_eq_true_2 in A1 by done. unfold notify in A1.
  split_and!.
  - rewrite (al_clus _ _ A1), clus_emit, clus_upd, decide_True; [done|]. split; [done|]. rewrite (inv_len_clusters _ Hinv1), <-Hc.
    apply (so_active _ _ (inv_sess _ Hinv j) Ha).
  - intros i. rewrite <-A1. unfold awaiting. rewrite sess_emit, sess_upd_clus. intros Hw. by apply (not_elem_of_nil i), Hk1.
  - intros k. rewrite (alike_proj s_last_ack_nack _ _ k (λ _, eq_refl) A1), sess_emit, sess_upd_clus, answered_sess by done.
    rewrite <-(alike_proj s_last_ack_nack _ _ k (λ _, eq_refl) A0). case_decide as E; [by subst k|done].
Qed.

Lemma acks_phase now l c st : answerable c st → cl_state (clus st c) = FCL_SENDING_ACKS → NoDup l → l ≠ [] →
  (∀ k, awaiting FC_SENDING_ACK c st k ↔ k ∈ l) →
  let st' := answers now l st in
  cl_state (clus st' c) = FCL_WAITING_FOR_CHANGE ∧ (∀ k, ¬ awaiting FC_SENDING_ACK c st' k) ∧
  (∀ k, s_last_ack_nack (sess st' k) = s_last_ack_nack (sess st k)).
Proof.
  revert st. induction l as [|j [|k l] IH]; intros st Han Hst Hnd Hl Hk; [done|by apply last_ack|].
  cbn [answers foldl]. change (foldl (reply now) (reply now (reply now st j) k) l) with (answers now (k :: l) (reply now st j)).
  destruct (first_reply now FC_SENDING_ACK c st j k l Han Hnd Hk Hst) as [H1 B3]; [done|].
  set (st1 := reply now st j) in *. clearbody st1. cbv zeta.
  destruct (IH st1) as (D1 & D2 & D3); [apply H1|by rewrite (oa_state _ _ _ _ H1)|by apply NoDup_cons in Hnd as [_ ?]|done|done|].
  split_and!; [done|done|]. intros i. rewrite D3. by apply (one_answered_vote c j).
Qed.

Lemma awaiting_list fs c st k : length (sv_sessions st) = MAX_CLIENTS →
  awaiting fs c st k ↔ k ∈ List.filter (λ i, in_cluster (sess st i) c && bool_decide (s_ff_state (sess st i) = fs)) slots.
Proof.
  intros Hlen. rewrite list_elem_of_In, List.filter_In, <-list_elem_of_In, elem_of_slots, andb_true_iff, bool_decide_eq_true.
  unfold awaiting. split; [|naive_solver]. intros [H1 H2]. split_and!; [|done..]. rewrite <-Hlen. apply sess_in_range.
  by apply in_cluster_true in H1 as [-> _].
Qed.

(** Both rounds, once the answers of the first are in. *)
Lemma both_rounds now st c losers winners :
  answerable c st → cl_state (clus st c) = FCL_SENDING_NACKS → NoDup losers → losers ≠ [] → NoDup winners →
  (∀ k, awaiting FC_SENDING_NACK c st k ↔ k ∈ losers) → (∀ k, awaiting FC_SENDING_ACK c st k ↔ k ∈ winners) →
  let st1 := answers now losers st in
  let st2 := answers now winners st1 in
  nacks_done c st st1 ∧ cl_state (clus st2 c) = FCL_WAITING_FOR_CHANGE ∧ (∀ k, ¬ awaiting FC_SENDING_ACK c st2 k) ∧
  ∀ k, s_last_ack_nack (sess st2 k) = s_last_ack_nack (sess st1 k).
Proof.
  intros Han Hst Hnl Hl Hnw Hlose Hwin st1 st2.
  pose proof (nacks_phase now losers c st Han Hst Hnl Hl Hlose) as HD. fold st1 in HD. split; [done|].
  destruct HD as [D1 _ _ D4 _ D6]. unfold st2. destruct D4 as [[E [i Hi]]|[E Hno]].
  - apply acks_phase; [done|done|done| |intros k; by rewrite D6, Hwin]. intros ->. by apply Hwin, not_elem_of_nil in Hi.
  - destruct winners as [|k winners]; [|by destruct (Hno k); apply Hwin, list_elem_of_here].
    split_and!; [done| |done]. intros k. rewrite D6. apply Hno.
Qed.

(** C6: the vote transfer cannot get stuck.  In a cluster that is revoking votes,
    let [losers] be the clients with an unanswered NACK and [winners] those due
    an ACK, in any order, none with a half-read frame.  Once every loser has
    sent the frame that answers its vote, each winner has been sent ACK with a
    fresh sequence number and no NACK is left; once every winner has answered
    too, the cluster is idle, no vote is outstanding, the last vote of each
    winner is ACK, of each loser NACK, and of every other client unchanged. *)
Theorem vote_transfer_completes now st c losers winners :
  answerable c st → cl_state (clus st c) = FCL_SENDING_NACKS → NoDup losers → losers ≠ [] → NoDup winners →
  (∀ k, awaiting FC_SENDING_NACK c st k ↔ k ∈ losers) → (∀ k, awaiting FC_SENDING_ACK c st k ↔ k ∈ winners) →
  let st1 := answers now losers st in
  let st2 := answers now winners st1 in
  (∀ k, k ∈ winners →
     ESend k (build_vote_info (u32 (s_vote_info_seq (sess st k) + 1)) (s_last_ring_id (sess st k)) VOTE_ACK) ∈ sv_out st1) ∧
  (∀ k, ¬ awaiting FC_SENDING_NACK c st1 k) ∧
  cl_state (clus st2 c) = FCL_WAITING_FOR_CHANGE ∧ (∀ k, ¬ awaiting FC_SENDING_ACK c st2 k) ∧
  (∀ k, k ∈ winners → s_last_ack_nack (sess st2 k) = VOTE_ACK) ∧
  (∀ k, k ∈ losers → s_last_ack_nack (sess st2 k) = VOTE_NACK) ∧
  (∀ k, k ∉ winners → s_last_ack_nack (sess st2 k) = s_last_ack_nack (sess st k)).
Proof.
  intros Han Hst Hnl Hl Hnw Hlose Hwin st1 st2.
  destruct (both_rounds now st c losers winners) as ([D1 D2 D3 D4 D5 D6] & E1 & E2 & E3); try done.
  fold st1 in D1, D2, D3, D4, D5, D6, E1, E2, E3. fold st2 in E1, E2, E3.
  assert (∀ k, k ∉ winners → s_last_ack_nack (sess st2 k) = s_last_ack_nack (sess st k)) as Hrest
    by (intros k Hk; rewrite E3; apply D3; by rewrite Hwin).
  split_and!; [|done|done|done| | |done].
  - intros k Hk%Hwin. apply (D2 k Hk).
  - intros k Hk%Hwin. rewrite E3. change (s_last_ack_nack (unwired (sess st1 k)) = VOTE_ACK). by rewrite (proj1 (D2 k Hk)).
  - intros k [Hk1 Hk]%Hlose. rewrite Hrest; [by apply (so_nack _ _ (inv_sess _ (good_inv _ (an_good _ _ Han)) k))|].
    intros [_ Hw]%Hwin. congruence.
Qed.
(** The clients of a concrete state, as lists. *)
Lemma good_awaiting fs c st l : good st →
  List.filter (λ i, in_cluster (sess st i) c && bool_decide (s_ff_state (sess st i) = fs)) slots = l →
  ∀ k, awaiting fs c st k ↔ k ∈ l.
Proof. intros Hg <- k. by apply awaiting_list, inv_len_sessions, good_inv. Qed.
Lemma good_answerable c st : good st → typed st → 8 <= sv_max_rx_frame st → Forall (λ k, s_rx (sess st k) = []) slots →
  answerable c st.
Proof.
  intros Hg Ht Hm Hrx. split; [done..|]. intros k [Ha _]%in_cluster_true. apply (proj1 (Forall_forall _ _) Hrx), elem_of_slots.
  rewrite <-(inv_len_sessions _ (good_inv _ Hg)). apply sess_in_range. by rewrite Ha.
Qed.
Lemma split_typed : typed split_decided.
Proof.
  apply typed_run; [|apply typed_run; [|apply typed0]];
    repeat constructor; apply (bool_decide_unpack _); vm_compute; exact I.
Qed.
Lemma split_answerable : answerable 0 split_decided.
Proof.
  apply good_answerable; [exact split_decided_good|exact split_typed|..]; apply (bool_decide_unpack _); vm_compute; exact I.
Qed.
Lemma vote_transfer_completes_witness :
  let st1 := answers 1000 [0%nat] split_decided in
  let st2 := answers 1000 [1%nat] st1 in
  s_last_ack_nack (sess st2 1) = VOTE_ACK ∧ s_last_ack_nack (sess st2 0) = VOTE_NACK ∧
  cl_state (clus st2 0) = FCL_WAITING_FOR_CHANGE.
Proof.
  destruct (vote_transfer_completes 1000 split_decided 0 [0%nat] [1%nat]) as (_ & _ & H2 & _ & H3 & H4 & _).
  - exact split_answerable.
  - vm_compute. reflexivity.
  - apply NoDup_singleton.
  - discriminate.
  - apply NoDup_singleton.
  - apply good_awaiting; [exact split_decided_good|vm_compute; reflexivity].
  - apply good_awaiting; [exact split_decided_good|vm_compute; reflexivity].
  - split; [|split]; [apply H3, list_elem_of_here|apply H4, list_elem_of_here|exact H2].
Defined.

(** ** A late answer *)

(** C40: an answer that comes late cancels an ACK.  In a cluster that is revoking
    votes, let [losers] be the clients with an unanswered NACK, and [j] and
    [others] those due an ACK, none with a half-read frame.  If [j] now answers the
    vote it was sent before the decision - its sequence number is still current, so
    the answer counts - it is no longer due anything: when the losers have answered
    no NACK is outstanding, and when the others have too, the cluster is idle, no
    ACK is outstanding and the others have been told ACK, but the last vote of [j],
    as of everyone else, is the one from before: its ACK was never sent. *)
Theorem late_answer_cancels_ack now st c losers others j :
  answerable c st → cl_state (clus st c) = FCL_SENDING_NACKS → NoDup losers → losers ≠ [] → NoDup others → j ∉ others →
  (∀ k, awaiting FC_SENDING_NACK c st k ↔ k ∈ losers) → (∀ k, awaiting FC_SENDING_ACK c st k ↔ k ∈ j :: others) →
  let st' := answers now (j :: losers ++ others) st in
  (∀ k, ¬ awaiting FC_SENDING_NACK c (answers now (j :: losers) st) k) ∧
  cl_state (clus st' c) = FCL_WAITING_FOR_CHANGE ∧ (∀ k, ¬ awaiting FC_SENDING_ACK c st' k) ∧
  (∀ k, k ∈ others → s_last_ack_nack (sess st' k) = VOTE_ACK) ∧
  (∀ k, k ∉ others → s_last_ack_nack (sess st' k) = s_last_ack_nack (sess st k)).
Proof.
  intros Han Hst Hnl Hl Hno Hj Hlose Hwin. pose proof (proj2 (Hwin j) (list_elem_of_here _ _)) as [Hjc Hff].
  destruct losers as [|k l]; [done|].
  assert (k ≠ j) as Hkj by (intros ->; pose proof (proj2 (Hlose j) (list_elem_of_here _ _)) as [_ ?]; congruence).
  assert (one_answered c j st (reply now st j)) as H1.
  { apply (early_reply now FC_SENDING_NACK c st j k); [done|done|done|apply Hlose, list_elem_of_here|done|done]. }
  assert (∀ i, awaiting FC_SENDING_ACK c (reply now st j) i ↔ i ∈ others) as Hw.
  { intros i. rewrite (one_answered_awaiting _ c j st), Hwin, elem_of_cons by done. split; [by intros [[->|?] ?]|].
    intros Hi. split; [by right|]. by intros ->. }
  cbv zeta. change (answers now (j :: k :: l) st) with (answers now (k :: l) (reply now st j)).
  change (answers now (j :: (k :: l) ++ others) st) with (answers now ((k :: l) ++ others) (reply now st j)).
  unfold answers. rewrite foldl_app. fold (answers now (k :: l) (reply now st j)).
  set (st1 := reply now st j) in *. clearbody st1. fold (answers now others (answers now (k :: l) st1)).
  destruct (both_rounds now st1 c (k :: l) others) as (HD & E & Hna & Hv);
    [apply H1|by rewrite (oa_state _ _ _ _ H1)|done|done|done|..].
  { intros i. rewrite (one_answered_awaiting _ c j st) by done. rewrite Hlose. split; [by intros []|]. intros Hi. split; [done|].
    intros ->. apply Hlose in Hi as [_ Hi]. congruence. }
  { done. }
  split_and!; [intros i; apply (nd_nacks _ _ _ HD)|done|done|intros i Hi; rewrite Hv|intros i Hi; rewrite Hv].
  - destruct (nd_acked _ _ _ HD i) as [Eu _]; [by apply Hw|].
    change (s_last_ack_nack (unwired (sess (answers now (k :: l) st1) i)) = VOTE_ACK). by rewrite Eu.
  - rewrite (nd_other _ _ _ HD) by (by rewrite Hw). by apply (one_answered_vote c j).
Qed.

(** In the split, the node told NACK reports a passing heuristics check before its
    answer is read. *)
Definition late_event : Event := EvData 0 (MockClient.membership 6 (mkRingId 4 300) [4] HEUR_PASS) 1000.
Definition late_decided : Server := exec split_decided late_event.
Lemma late_decided_good : good late_decided.
Proof. apply on_data_good, split_decided_good. Qed.
Lemma late_answerable : answerable 0 late_decided.
Proof.
  apply good_answerable; [exact late_decided_good| |apply (bool_decide_unpack _); vm_compute; exact I..].
  apply typed_exec; [apply (bool_decide_unpack _); vm_compute; exact I|exact split_typed].
Qed.
Lemma late_answer_cancels_ack_witness :
  nl_ids (cl_quorate_partition (clus late_decided 0)) = [4] ∧ s_node_id (sess late_decided 0) = 4 ∧
  s_last_ack_nack (sess (answers 1000 [0%nat; 1%nat] late_decided) 0) = VOTE_NACK ∧
  cl_state (clus (answers 1000 [0%nat; 1%nat] late_decided) 0) = FCL_WAITING_FOR_CHANGE.
Proof.
  split; [vm_compute; reflexivity|]. split; [vm_compute; reflexivity|].
  destruct (late_answer_cancels_ack 1000 late_decided 0 [1%nat] [] 0%nat) as (_ & H1 & _ & _ & H3).
  - exact late_answerable.
  - vm_compute. reflexivity.
  - apply NoDup_singleton.
  - discriminate.
  - apply NoDup_nil_2.
  - apply not_elem_of_nil.
  - apply good_awaiting; [exact late_decided_good|vm_compute; reflexivity].
  - apply good_awaiting; [exact late_decided_good|vm_compute; reflexivity].
  - split; [|exact H1]. specialize (H3 0%nat (not_elem_of_nil _)). refine (eq_trans H3 _). vm_compute. reflexivity.
Defined.
