(* ===== verification/Phases.v ===== *)
(** * No cluster waits for nobody

    A cluster that is sending NACKs has a client whose answer to a NACK is
    outstanding, and one that is sending ACKs a client whose answer to an ACK is:
    an invariant of all executions.  With the progress of the vote transfer it
    follows that no reachable state is a dead end. *)
From S2P Require Import Prelude Double Wire Tlv Msg State Ffsplit Select Handlers Lifecycle Invariant.
From S2P Require Import HandlerFacts InitFacts VoteOrder Safety Scenarios Typed Shift Chunks Delivery Outputs Progress.
Open Scope Z_scope.

(** The states of a cluster in which the server waits for answers, and for which. *)
Definition expects (cs : FfClusterState) : option FfClientState :=
  match cs with
  | FCL_SENDING_NACKS => Some FC_SENDING_NACK
  | FCL_SENDING_ACKS => Some FC_SENDING_ACK
  | _ => None
  end.
Definition phased (st : Server) : Prop :=
  ∀ c fs, expects (cl_state (clus st c)) = Some fs → ∃ k, awaiting fs c st k.

Lemma expects_waiting cs : expects cs ≠ Some FC_WAITING_FOR_CHANGE.
Proof. by destruct cs. Qed.

(** A step that keeps the invariant. *)
Definition holds (st st' : Server) : Prop := phased st → phased st'.
Lemma holds_refl st : holds st st.
Proof. by intros H. Qed.
Lemma holds_trans st1 st2 st3 : holds st1 st2 → holds st2 st3 → holds st1 st3.
Proof. unfold holds. auto. Qed.
#[export] Hint Resolve holds_refl : qnetd.

(** ** Steps that concern no vote *)

Lemma holds_calm st st' :
  (∀ fs c k, fs ≠ FC_WAITING_FOR_CHANGE → awaiting fs c st k → awaiting fs c st' k) →
  (∀ c, cl_state (clus st' c) = cl_state (clus st c) ∨ expects (cl_state (clus st' c)) = None) → holds st st'.
Proof.
  intros Hw Hc H c fs Hfs. destruct (Hc c) as [E|E]; [|congruence]. rewrite E in Hfs.
  destruct (H c fs Hfs) as [k Hk]. exists k. apply Hw; [|done]. intros ->. by apply expects_waiting in Hfs.
Qed.

Definition phase_view (s : Session) := (s_phase s, s_cluster s, s_ff_state s).
Lemma holds_view st st' : (∀ j, phase_view (sess st' j) = phase_view (sess st j)) → (∀ c, clus st' c = clus st c) →
  holds st st'.
Proof.
  intros Hs Hc. apply holds_calm; [|intros c; left; by rewrite Hc]. intros fs c k _ [H1 H2].
  specialize (Hs k). unfold phase_view in Hs. unfold awaiting, in_cluster in *. injection Hs as -> -> ->. done.
Qed.
(** A session outside the clusters. *)
Lemma holds_inactive slot st st' : (∀ j, j ≠ slot → sess st' j = sess st j) → s_phase (sess st slot) ≠ ACTIVE →
  (∀ c, cl_state (clus st' c) = cl_state (clus st c) ∨ expects (cl_state (clus st' c)) = None) → holds st st'.
Proof.
  intros Hs Ha Hc. apply holds_calm; [|done]. intros fs c k _ Hk. destruct (decide (k = slot)) as [->|Hn].
  - by destruct (awaiting_active _ _ _ _ Hk).
  - unfold awaiting. by rewrite Hs.
Qed.

Lemma holds_emit e st st' : holds st st' → holds st (emit e st').
Proof. intros H. eapply holds_trans; [exact H|]. by apply holds_view. Qed.
Lemma holds_send i f st st' : holds st st' → holds st (send i f st').
Proof. apply holds_emit. Qed.
Lemma holds_send_err i m code st st' : holds st st' → holds st (send_err i m code st').
Proof. apply holds_emit. Qed.
Lemma holds_notify st st' : holds st st' → holds st (notify st').
Proof. apply holds_emit. Qed.
Lemma holds_benign slot f st st' : benign f → holds st st' → holds st (upd_sess slot f st').
Proof.
  intros Hb H. eapply holds_trans; [exact H|]. apply holds_view; [|done]. intros j. rewrite sess_upd. case_decide; [|done].
  destruct (core_fields _ _ (bn_core _ Hb (sess st' j))) as (E1 & E2 & _ & _ & E5 & _). unfold phase_view. congruence.
Qed.
#[export] Hint Resolve holds_send holds_send_err holds_notify : qnetd.

(** ** Decisions *)

(** What the algorithm leaves behind: the other clusters are as they were, and in
    its own cluster somebody who stays is expected to answer. *)
Record redecided (tv : TriggerView) (c : Z) (st st' : Server) : Prop := {
  rd_other fs d k : d ≠ c → awaiting fs d st k → awaiting fs d st' k ∧ k ≠ tv_slot tv;
  rd_state d : d ≠ c → clus st' d = clus st d;
  rd_here fs : expects (cl_state (clus st' c)) = Some fs →
    ∃ k, awaiting fs c st' k ∧ (tv_leaving tv = true → k ≠ tv_slot tv);
}.

Lemma decided_awaiting tv st w st' c k fs : decided tv st w st' → length (sv_sessions st) = MAX_CLIENTS →
  c = s_cluster (sess st (tv_slot tv)) → k ∈ assigned st tv w fs → awaiting fs c st' k.
Proof.
  intros Hd Hlen -> [H1 H2]%assigned_elem; [|done]. unfold awaiting. rewrite (dec_sess _ _ _ _ Hd k).
  rewrite (unvoted_in_cluster (sess st k) _ _ (decided_sess_unvoted _ _ _ _ _ _)). split; [done|].
  unfold decided_sess. rewrite H1, H2. destruct fs; [done|done|by case_match].
Qed.

Lemma ffsplit_do_redecided tv st : inv st → s_phase (sess st (tv_slot tv)) = ACTIVE →
  redecided tv (s_cluster (sess st (tv_slot tv))) st (ffsplit_do tv st).1.1.
Proof.
  intros Hinv Ha. pose proof (inv_len_sessions _ Hinv) as Hlen. set (c := s_cluster (sess st (tv_slot tv))).
  destruct (so_active _ _ (inv_sess _ Hinv (tv_slot tv)) Ha) as (Hr & _). fold c in Hr.
  assert (∀ fs d k, d ≠ c → awaiting fs d st k → k ≠ tv_slot tv) as Hne
    by (intros fs d k Hd [_ Hk]%awaiting_active ->; by apply Hd).
  destruct (ffsplit_is_stable (pending_decision tv st) tv) eqn:Hst.
  - destruct (ffsplit_do_decided tv st) as (st' & -> & Hd); [done|by rewrite (inv_len_clusters _ Hinv)|done|]. cbn [fst].
    set (w := ffsplit_select_partition _ _) in *. split.
    + intros fs d k Hdc Hk. split; [|by eapply Hne]. destruct (awaiting_active _ _ _ _ Hk) as [_ Hkd].
      unfold awaiting. rewrite (dec_sess _ _ _ _ Hd k). unfold decided_sess. fold c.
      assert (in_cluster (sess st k) c = false) as ->; [|done]. apply in_cluster_false. intros [_ E]. congruence.
    + intros d Hdc. by apply (dec_clus_ne _ _ _ _ Hd).
    + intros fs Hfs. unfold c in Hfs. rewrite (dec_clus _ _ _ _ Hd) in Hfs.
      change (expects (decided_state (assigned st tv w FC_SENDING_NACK) (assigned st tv w FC_SENDING_ACK)) = Some fs) in Hfs.
      assert (∃ k, k ∈ assigned st tv w fs ∧ fs ≠ FC_WAITING_FOR_CHANGE) as (k & Hk & Hw).
      { destruct (assigned st tv w FC_SENDING_NACK) as [|k l] eqn:El.
        - destruct (assigned st tv w FC_SENDING_ACK) as [|k l] eqn:El'; [done|]. injection Hfs as <-. exists k.
          rewrite El'. split; [apply list_elem_of_here|done].
        - injection Hfs as <-. exists k. rewrite El. split; [apply list_elem_of_here|done]. }
      exists k. split; [by eapply decided_awaiting|]. intros Hl ->. apply assigned_elem in Hk as [_ Hk]; [|done].
      unfold new_ff in Hk. by rewrite Hl, Z.eqb_refl in Hk.
  - rewrite ffsplit_do_unstable by done. cbn [fst]. split.
    + intros fs d k Hdc Hk. split; [|by eapply Hne]. unfold awaiting. by rewrite pending_decision_sess.
    + intros d Hdc. by apply pending_decision_clus_ne.
    + intros fs. unfold pending_decision. fold c. rewrite clus_upd, decide_True; [done|]. by rewrite (inv_len_clusters _ Hinv).
Qed.

Lemma redecided_holds tv c st st' : redecided tv c st st' → holds st st'.
Proof.
  intros [H1 H2 H3] H d fs Hfs. destruct (decide (d = c)) as [->|Hd]; [destruct (H3 fs Hfs) as (k & ? & _); eauto|].
  rewrite H2 in Hfs by done. destruct (H d fs Hfs) as [k Hk]. exists k. by apply H1.
Qed.

(** ** Departures *)

Lemma leave_holds slot st : inv st → s_phase (sess st slot) ≠ FREE → holds st (leave_reset slot st).
Proof.
  intros Hinv Hf. destruct (decide (s_phase (sess st slot) = ACTIVE)) as [Ha|Ha].
  2: { rewrite leave_reset_inactive by done. unfold reset_sess.
       apply (holds_inactive slot); [intros; by apply sess_upd_ne|done|by left]. }
  set (tv := mkTV slot true (s_last_ring_id (sess st slot)) (s_config_list (sess st slot))
    (s_membership_list (sess st slot)) (s_last_heuristics (sess st slot))).
  destruct (ffsplit_do_post tv st Hinv Ha) as (st1 & res & Hdo & _ & [He Hu Hi Hinv1] & _).
  destruct (leave_reset_active slot st st1 ERR_NO_ERROR res Hinv Hinv1 He Hu Ha Hdo) as (_ & _ & Hs & Hcl & Hcl' & _).
  pose proof (ffsplit_do_redecided tv st Hinv Ha) as HR. rewrite Hdo in HR. cbn [fst tv tv_slot] in HR.
  destruct HR as [R1 R2 R3]. set (c := s_cluster (sess st slot)) in *. set (st' := leave_reset slot st) in *.
  intros H d fs Hfs. assert (∀ k, k ≠ slot → awaiting fs d st1 k → awaiting fs d st' k) as Hk
    by (intros k Hks; unfold awaiting; by rewrite Hs).
  destruct (decide (d = c)) as [->|Hd].
  - rewrite Hcl in Hfs. unfold left_cluster in Hfs. destruct (_ <=? 0); [done|].
    destruct (R3 fs Hfs) as (k & Hw & Hks). exists k. apply Hk; [by apply Hks|done].
  - rewrite Hcl', R2 in Hfs by done. destruct (H d fs Hfs) as [k Hw]. exists k. destruct (R1 _ _ _ Hd Hw). by apply Hk.
Qed.

(** ** The handlers *)

Section handlers.
Context (slot : nat) (st : Server) (Hinv : inv st) (Hf : s_phase (sess st slot) ≠ FREE).

Lemma handle_init_holds m now : holds st (handle_init slot m now st).
Proof using Hinv Hf.
  destruct (handle_init_cases slot m now st Hinv Hf) as (code & st2 & -> & Hc). apply holds_notify, holds_send.
  destruct (init_frame_eqs _ _ (init_fields_frame m (sess st slot))) as (Ep & Ec & _ & Ef & _).
  set (st1 := upd_sess slot (λ _, (init_fields m (sess st slot)).2) st) in *.
  assert (∀ j, phase_view (sess st1 j) = phase_view (sess st j)) as Hv.
  { intros j. unfold st1. rewrite sess_upd. case_decide as Hd; [|done]. destruct Hd as [<- _]. unfold phase_view. congruence. }
  assert (holds st st1) as Hs1 by (by apply holds_view).
  destruct Hc as [[_ ->]|(_ & Hno & _ & c & Hj)]; [done|]. eapply holds_trans; [exact Hs1|].
  apply (holds_inactive slot); [apply (jn_other _ _ _ _ _ Hj)| |].
  - specialize (Hv slot). unfold phase_view in Hv. injection Hv as -> _ _. by apply init_fields_no_error in Hno as [? _].
  - intros d. destruct (decide (d = c)) as [->|Hd]; [|left; by rewrite (jn_clus_ne _ _ _ _ _ Hj)].
    rewrite (jn_clus _ _ _ _ _ Hj). unfold joined_cluster. case_match; [by left|by right].
Qed.

Lemma handle_preinit_holds m : holds st (handle_preinit slot m st).
Proof using Hf.
  unfold handle_preinit. case_match; [auto with qnetd|]. case_match; [auto with qnetd|]. bool_to_prop. apply holds_send.
  apply (holds_inactive slot); [intros j Hj; by apply sess_upd_ne|congruence|by left].
Qed.

Lemma handle_set_option_holds m now : holds st (handle_set_option slot m now st).
Proof using Type.
  unfold handle_set_option. case_match eqn:Hhb; [auto with qnetd|]. apply holds_send.
  destruct (m_keep_active_partition_tie_breaker_set m).
  1: apply holds_benign; auto with qnetd.
  all: destruct (m_heartbeat_interval_set m); [|apply holds_refl]; simpl in Hhb.
  all: apply holds_benign; auto with qnetd; apply holds_benign; auto with qnetd.
Qed.

(** A decision on behalf of a client that stays. *)
Lemma decide_holds tv : tv_slot tv = slot → tv_leaving tv = false → s_phase (sess st slot) = ACTIVE →
  ∃ st' r, ffsplit_do tv st = (st', ERR_NO_ERROR, r) ∧ r ≠ VOTE_ACK ∧ r ≠ VOTE_NACK ∧ holds st st'.
Proof using Hinv.
  intros Htv Hl Ha. rewrite <-Htv in Ha. pose proof (redecided_holds _ _ _ _ (ffsplit_do_redecided tv st Hinv Ha)) as H.
  destruct (hok_decide tv st Hinv Ha Hl) as (st' & r & E & ? & ? & _). rewrite E in H. eauto 6.
Qed.

Lemma handle_node_list_holds m : s_phase (sess st slot) = ACTIVE → holds st (handle_node_list slot m st).
Proof using Hinv.
  intros Ha. unfold handle_node_list. case_match; [auto with qnetd|].
  assert (match node_list_decide slot m st with
          | inl _ => True
          | inr (st', code, r) => code = ERR_NO_ERROR ∧ r ≠ VOTE_ACK ∧ r ≠ VOTE_NACK ∧ holds st st'
          end) as Hd.
  { unfold node_list_decide.
    destruct (m_node_list_type m);
      repeat match goal with |- context [if ?b then inl _ else _] => destruct b; [exact I|] end;
      try match goal with |- context [if ?b then inr _ else _] => destruct b end;
      try (split_and!; [done|done|done|apply holds_refl]);
      match goal with |- context [ffsplit_do ?tv st] =>
        destruct (decide_holds tv eq_refl eq_refl Ha) as (st' & r & -> & ? & ? & ?) end; done. }
  destruct (node_list_decide slot m st) as [code|[[st' code] result]]; [auto with qnetd|].
  destruct Hd as (-> & Hra & Hrn & Hs). cbn. apply holds_notify, holds_send.
  apply holds_benign; [by apply benign_record|]. by apply holds_benign; [apply benign_store|].
Qed.

Lemma handle_heuristics_change_holds m : s_phase (sess st slot) = ACTIVE → holds st (handle_heuristics_change slot m st).
Proof using Hinv.
  intros Ha. unfold handle_heuristics_change. case_match; [auto with qnetd|].
  destruct (nl_empty (s_config_list (sess st slot)) || nl_empty (s_membership_list (sess st slot))); [|
    match goal with |- context [ffsplit_do ?tv st] =>
      destruct (decide_holds tv eq_refl eq_refl Ha) as (st' & r & -> & ? & ? & ?) end];
    cbn; apply holds_notify, holds_send, holds_benign; auto using benign_record with qnetd;
    apply holds_benign; auto with qnetd.
Qed.

(** Somebody is counted. *)
Lemma count_someone st1 c fs : length (sv_sessions st1) = MAX_CLIENTS → (ffsplit_count_state st1 c fs =? 0)%nat = false →
  ∃ k, awaiting fs c st1 k.
Proof using Type.
  intros Hlen Hc. pose proof (awaiting_list fs c st1) as Hl.
  rewrite (count_awaiting fs c st1 _ Hlen (λ k, Hl k Hlen)) in Hc.
  set (l := List.filter _ slots) in *. destruct l as [|k l']; [done|]. exists k. apply Hl; [done|]. apply list_elem_of_here.
Qed.

(** The round of ACKs once nobody is left to answer a NACK. *)
Lemma ack_phase_holds st1 c tv : inv st1 → tv_leaving tv = false → s_cluster (sess st1 (tv_slot tv)) = c →
  0 <= c < Z.of_nat MAX_CLUSTERS → (∀ d fs, d ≠ c → expects (cl_state (clus st1 d)) = Some fs → ∃ k, awaiting fs d st1 k) →
  phased (let '(st2, acks) := ffsplit_send_votes tv true (upd_clus c (λ cl, cl <| cl_state := FCL_SENDING_ACKS |>) st1) in
          if (acks =? 0)%nat then upd_clus c (λ cl, cl <| cl_state := FCL_WAITING_FOR_CHANGE |>) st2 else st2).
Proof using Type.
  intros Hinv1 Hl Hc Hr Ho. set (st2 := upd_clus c (λ cl, cl <| cl_state := FCL_SENDING_ACKS |>) st1).
  assert (∀ k, sess st2 k = sess st1 k) as Hs2 by (intros; apply sess_upd_clus).
  assert (length (sv_sessions st2) = MAX_CLIENTS ∧ length (sv_clusters st2) = MAX_CLUSTERS) as [Hlen Hlenc].
  { unfold st2. rewrite (env_sessions _ _ (env_upd_clus _ _ _)), (env_clusters _ _ (env_upd_clus _ _ _)).
    split; [by apply inv_len_sessions|by apply inv_len_clusters]. }
  destruct (ack_round_spec tv st2 Hlen Hl) as (He & Hcl & R1 & R2 & R3). rewrite Hs2, Hc in R1, R2, R3.
  pose proof (env_clusters _ _ He) as Hlenc3. rewrite Hlenc in Hlenc3.
  destruct (ffsplit_send_votes tv true st2) as [st3 acks]. cbn [fst snd] in *.
  assert (∀ fs d k, awaiting fs d st1 k → awaiting fs d st3 k) as Hw.
  { intros fs d k. unfold awaiting. destruct (decide (awaiting FC_SENDING_ACK c st2 k)) as [H|H];
      [rewrite (proj1 (R1 k H))|rewrite (R2 k H)]; by rewrite Hs2. }
  assert (∀ d fs, d ≠ c → expects (cl_state (clus st3 d)) = Some fs → ∃ k, awaiting fs d st3 k) as Ho3.
  { intros d fs Hd Hfs. rewrite Hcl in Hfs. unfold st2 in Hfs. rewrite clus_upd_ne in Hfs by done.
    destruct (Ho d fs Hd Hfs) as [k Hk]. exists k. auto. }
  intros d fs Hfs. destruct (decide (d = c)) as [->|Hd].
  - destruct (acks =? 0)%nat; [by rewrite clus_upd, decide_True in Hfs by (by rewrite Hlenc3)|].
    rewrite Hcl in Hfs. unfold st2 in Hfs. rewrite clus_upd, decide_True in Hfs by (by rewrite (inv_len_clusters _ Hinv1)).
    injection Hfs as <-. destruct R3 as [k Hk]. exists k. apply Hw. unfold awaiting in *. by rewrite Hs2 in Hk.
  - destruct (acks =? 0)%nat; [|by apply Ho3]. rewrite clus_upd_ne in Hfs by done. destruct (Ho3 d fs Hd Hfs) as [k Hk].
    exists k. unfold awaiting. by rewrite sess_upd_clus.
Qed.

Lemma handle_vote_info_reply_holds m : s_phase (sess st slot) = ACTIVE → holds st (handle_vote_info_reply slot m st).
Proof using Hinv.
  intros Ha. unfold handle_vote_info_reply. case_match; [auto with qnetd|]. case_match; [apply holds_refl|].
  apply holds_notify. fold (answered slot st). pose proof (answered_inv slot st Hinv Ha) as Hinv1.
  destruct (so_active _ _ (inv_sess _ Hinv slot) Ha) as (Hr & _).
  assert (s_cluster (sess (answered slot st) slot) = s_cluster (sess st slot)) as Hc
    by (by rewrite answered_sess, decide_True).
  intros Hph. assert (∀ d fs, d ≠ s_cluster (sess st slot) → expects (cl_state (clus (answered slot st) d)) = Some fs →
    ∃ k, awaiting fs d (answered slot st) k) as Ho.
  { intros d fs Hd Hfs. destruct (Hph d fs Hfs) as [k Hk]. exists k. unfold awaiting. rewrite answered_sess by done.
    case_decide as E; [|done]. subst k. apply awaiting_active in Hk as [_ Hk]. congruence. }
  cbv zeta. rewrite Hc. set (c := s_cluster (sess st slot)) in *. set (st1 := answered slot st) in *.
  assert ((∀ fs, expects (cl_state (clus st1 c)) = Some fs → ∃ k, awaiting fs c st1 k) → phased st1) as Hsame.
  { intros H1 d fs. destruct (decide (d = c)) as [->|Hd]; [apply H1|by apply Ho]. }
  destruct (cl_state (clus st1 c)) eqn:Hst; [by apply Hsame|by apply Hsame|..].
  - destruct (ffsplit_count_state st1 c FC_SENDING_NACK =? 0)%nat eqn:Hz.
    + apply ack_phase_holds; [done|done|exact Hc|done|done].
    + apply Hsame. intros fs [= <-]. apply count_someone; [by apply inv_len_sessions|done].
  - destruct (ffsplit_count_state st1 c FC_SENDING_ACK =? 0)%nat eqn:Hz.
    + intros d fs. rewrite clus_upd. case_decide as E; [done|]. intros Hfs.
      assert (d ≠ c) as Hd by (intros ->; apply E; split; [done|]; by rewrite (inv_len_clusters _ Hinv1)).
      destruct (Ho d fs Hd Hfs) as [k Hk]. exists k. unfold awaiting. by rewrite sess_upd_clus.
    + apply Hsame. intros fs [= <-]. apply count_someone; [by apply inv_len_sessions|done].
Qed.

Lemma disconnect_holds st' : sv_processing st' = true → holds st st' → holds st (disconnect_client slot st').
Proof using Type.
  intros Hp H. unfold disconnect_client. case_match; [done|].
  change (sv_processing (set_field _ _ _)) with (sv_processing st'). rewrite Hp.
  eapply holds_trans; [exact H|]. apply holds_view; [|done]. intros j.
  change (phase_view (sess (upd_sess slot (λ s, s <| s_schedule_disconnect := true |>) st') j) = phase_view (sess st' j)).
  rewrite sess_upd. by destruct (decide (slot = j ∧ _)).
Qed.

Lemma handle_frame_holds type frame len plen now : sv_processing st = true →
  holds st (handle_frame slot type frame len plen now st).
Proof using Hinv Hf.
  intros Hp. unfold handle_frame.
  assert (holds st (disconnect_client slot (send_err slot MsgDecoded0 ERR_ERROR_DECODING_MSG st))) as Hd.
  { apply disconnect_holds; [done|]. auto with qnetd. }
  destruct (msg_decode _ _ _) as [m| |]; [|done..]. unfold dispatch. case_match; [auto with qnetd|].
  assert (∀ f, (s_phase (sess st slot) = ACTIVE → holds st f) →
    holds st (if negb (bool_decide (s_phase (sess st slot) = ACTIVE))
              then send_err slot m ERR_INIT_REQUIRED st else f)) as Hg.
  { intros f Hfn. destruct (bool_decide_reflect (s_phase (sess st slot) = ACTIVE)); cbn [negb]; auto with qnetd. }
  destruct type; try (apply Hg; intros Ha; try (by auto with qnetd)).
  - apply handle_preinit_holds.
  - apply handle_init_holds.
  - apply handle_set_option_holds.
  - by apply handle_node_list_holds.
  - by apply handle_vote_info_reply_holds.
  - by apply handle_heuristics_change_holds.
Qed.
End handlers.

(** ** The calls *)

Lemma drain_loop_holds n st : inv st → sched st → n = length (sv_pending_close st) → holds st (drain_loop n st).
Proof.
  revert st. induction n as [|n IH]; intros st Hinv Hsch Hn; [apply holds_refl|].
  destruct (sv_pending_close st) as [|x l _] eqn:E using rev_ind; [simpl in Hn; lia|].
  rewrite length_app in Hn. simpl in Hn.
  destruct (drain_step n st l x Hinv Hsch E) as (-> & Hx & _ & Hinv0 & Hl & Hsch1 & E1).
  set (st0 := st <| sv_pending_close := l |>) in *.
  apply (holds_trans _ st0); [by apply holds_view|]. apply (holds_trans _ (emit (EClose x) (leave_reset x st0))).
  - by apply holds_emit, leave_holds.
  - apply IH; [by apply inv_emit, (lp_inv _ _ _ Hl)|done|rewrite E1; lia].
Qed.

Lemma drain_closes_holds st : inv st → sched st → holds st (drain_closes st).
Proof.
  intros Hinv Hs. unfold drain_closes. apply holds_notify. set (st1 := st <| sv_processing := true |>).
  eapply holds_trans; [|by apply holds_view].
  exact (drain_loop_holds (length (sv_pending_close st1)) st1 (inv_processing true st Hinv) (sched_processing true st Hs) eq_refl).
Qed.

Lemma scheduled_holds slot st : holds st (scheduled slot st).
Proof.
  apply holds_view; [|done]. intros j.
  change (phase_view (sess (upd_sess slot (λ s, s <| s_schedule_disconnect := true |>) st) j) = phase_view (sess st j)).
  rewrite sess_upd. by case_decide.
Qed.

Lemma tick_holds now st : good st → holds st (tick now st).
Proof.
  assert (∀ l st, good st → holds st (foldl (tick_step now) st l)) as H; [|apply H].
  clear st. induction l as [|i l IH]; intros st Hg; [apply holds_refl|]. cbn [foldl].
  destruct (tick_step_post now st i Hg) as [_ Hg' _]. eapply holds_trans; [|by apply IH]. clear IH Hg'. unfold tick_step.
  destruct (bool_decide_reflect (s_phase (sess st i) = FREE)) as [|Hf]; [apply holds_refl|]. cbn [orb].
  case_match; [apply holds_refl|]. case_match; [|apply holds_refl].
  destruct (disconnect_starts st i Hg Hf) as (-> & Hinv & Hsch & _).
  eapply holds_trans; [apply scheduled_holds|]. by apply drain_closes_holds.
Qed.

Lemma on_connect_holds now peer st : good st → holds st (on_connect now peer st).2.
Proof.
  intros Hg. destruct (List.find (λ i, bool_decide (s_phase (sess st i) = FREE)) slots) as [i|] eqn:E.
  2: { unfold on_connect. rewrite E. apply holds_refl. }
  destruct (on_connect_sess now peer st i (inv_len_sessions _ (good_inv _ Hg)) E) as (_ & _ & Hf & _ & Hc & _ & Hs).
  apply (holds_inactive i); [done|by rewrite Hf|intros c; left; by rewrite Hc].
Qed.

Lemma on_disconnected_holds slot st : good st → holds st (on_disconnected slot st).
Proof.
  intros Hg. destruct (bad_slot slot st) eqn:Hb; [unfold on_disconnected; rewrite Hb; apply holds_refl|].
  destruct (on_disconnected_leaves slot st Hg Hb) as (-> & Hinv0 & Hf & _). apply holds_notify, holds_notify.
  apply (holds_trans _ (st <| sv_processing := true |>)); [by apply holds_view|].
  eapply holds_trans; [by apply leave_holds|by apply holds_view].
Qed.

Lemma on_data_step_holds slot now st b st' : busy slot st → on_data_step slot now st = Some (b, st') → holds st st'.
Proof.
  intros [Hinv Hs Hp Hf]. unfold on_data_step. rewrite (bool_decide_eq_false_2 _ Hf). cbn [orb].
  repeat case_match; intros; simplify_eq.
  - apply disconnect_holds; [done|]. auto with qnetd.
  - apply holds_benign; [apply benign_rx|]. by apply handle_frame_holds.
Qed.

Lemma on_data_loop_holds fuel slot now st : busy slot st → holds st (on_data_loop fuel slot now st).
Proof.
  revert st. induction fuel as [|fuel IH]; intros st Hb; [apply holds_refl|]. cbn [on_data_loop].
  pose proof (on_data_step_cases slot now st Hb) as Hc.
  destruct (on_data_step slot now st) as [[[] st1]|] eqn:E; [| |apply holds_refl].
  - destruct Hc as ([Hb1 _ _ _] & _). eapply holds_trans; [by eapply on_data_step_holds|auto].
  - by eapply on_data_step_holds.
Qed.

Lemma on_data_holds slot data now st : good st → holds st (on_data slot data now st).
Proof.
  intros Hg. pose proof Hg as [Hinv Hp Hpe Hsd]. rewrite on_data_eq.
  destruct (bad_slot slot st) eqn:Hb; [apply holds_refl|]. rewrite Hsd. cbv zeta.
  destruct (bad_slot_false _ _ Hb) as (_ & _ & Hf). set (i := Z.to_nat slot) in *.
  destruct (received_busy i data now st Hg Hf) as (Hbusy & _).
  apply (holds_trans _ (received i data now st)).
  { eapply holds_trans; [|by apply (holds_view (upd_sess i (reschedule_dpd now)
      (upd_sess i (λ s, s <| s_rx ::= λ rx, rx ++ data |>) st)))].
    apply holds_benign; [apply benign_dpd|]. apply holds_benign; [apply benign_rx|apply holds_refl]. }
  set (st1 := received i data now st) in *. eapply holds_trans; [by apply on_data_loop_holds|].
  destruct (on_data_loop_post (S (length (s_rx (sess st1 i)))) i now st1 Hbusy) as [[Hi2 Hs2 _ _] _ _ _ _ _]; [lia|].
  set (st2 := on_data_loop _ i now st1) in *.
  apply (holds_trans _ (st2 <| sv_processing := false |>)); [by apply holds_view|].
  apply drain_closes_holds; [by apply inv_processing|by apply sched_processing].
Qed.

Lemma reachable_phased max st : reachable max st → phased st.
Proof.
  induction 1 as [|st e Hr IH].
  - intros c fs. assert (clus (Server0 max) c = Cluster0) as ->; [|done]. unfold clus. case_match; [done|].
    cbn [Server0 sv_clusters]. destruct (_ !! Z.to_nat c) eqn:E; [|done]. by apply lookup_replicate in E as [-> _].
  - destruct (reachable_good _ _ Hr) as [Hg _]. revert IH. change (holds st (exec st e)).
    destruct e as [now peer|slot data now|slot|now]; cbn [exec];
      [by apply on_connect_holds|by apply on_data_holds|by apply on_disconnected_holds|by apply tick_holds].
Qed.

Definition waiters (fs : FfClientState) (c : Z) (st : Server) : list nat :=
  List.filter (λ i, in_cluster (sess st i) c && bool_decide (s_ff_state (sess st i) = fs)) slots.
Lemma waiters_nodup fs c st : NoDup (waiters fs c st).
Proof. apply NoDup_ListNoDup, List.NoDup_filter, NoDup_ListNoDup, NoDup_seq. Qed.
Lemma waiters_in fs c st : Forall (λ k, in_cluster (sess st k) c = true) (waiters fs c st).
Proof. apply Forall_forall. intros k [_ [? _]%andb_prop]%list_elem_of_In%List.filter_In. done. Qed.

(** C7: no reachable state is a dead end.  After any calls with any data, a
    cluster in which votes are being revoked or granted has a client that has not
    answered its vote: the server never waits for nobody.  If moreover the data
    were bytes, frames of 8 bytes are accepted and no client of the cluster has a
    half-read frame, there are clients of it whose answers, sent as frames one
    after the other, bring the cluster back to rest. *)
Theorem no_dead_end max es c now :
  let st := run (Server0 max) es in
  (∀ fs, expects (cl_state (clus st c)) = Some fs → ∃ k, awaiting fs c st k) ∧
  (Forall event_bytes es → 8 <= max → (∀ k, in_cluster (sess st k) c = true → s_rx (sess st k) = []) →
   ∃ l, Forall (λ k, in_cluster (sess st k) c = true) l ∧ expects (cl_state (clus (answers now l st) c)) = None).
Proof.
  intros st. assert (reachable max st) as Hr by apply run_reachable, reach_init.
  pose proof (reachable_phased max st Hr c) as Hph. split; [exact Hph|]. intros Hes Hmax Hrx.
  destruct (reachable_good _ _ Hr) as [Hg Hm]. pose proof (inv_len_sessions _ (good_inv _ Hg)) as Hlen.
  assert (answerable c st) as Han by (split; [done|by apply typed_run; [|apply typed0]|lia|done]).
  assert (∀ fs k, awaiting fs c st k ↔ k ∈ waiters fs c st) as Hw by (intros; by apply awaiting_list).
  destruct (cl_state (clus st c)) eqn:Hst; [by exists []; change (answers now [] st) with st; rewrite Hst..| |].
  - exists (waiters FC_SENDING_NACK c st ++ waiters FC_SENDING_ACK c st). split; [apply Forall_app; auto using waiters_in|].
    unfold answers. rewrite foldl_app.
    destruct (both_rounds now st c (waiters FC_SENDING_NACK c st) (waiters FC_SENDING_ACK c st)) as (_ & E & _);
      auto using waiters_nodup; [|by unfold answers in E; rewrite E].
    destruct (Hph FC_SENDING_NACK eq_refl) as [k Hk%Hw]. intros E. rewrite E in Hk. by apply not_elem_of_nil in Hk.
  - exists (waiters FC_SENDING_ACK c st). split; [apply waiters_in|].
    destruct (acks_phase now (waiters FC_SENDING_ACK c st) c st) as (E & _); auto using waiters_nodup; [|by rewrite E].
    destruct (Hph FC_SENDING_ACK eq_refl) as [k Hk%Hw]. intros E. rewrite E in Hk. by apply not_elem_of_nil in Hk.
Qed.
(** The split of the tests, with the NACK unanswered. *)
Lemma split_run : run (Server0 32768) (ack_two_nodes_events ++ split_events) = split_decided.
Proof. unfold split_decided, two_acked. apply run_app. Qed.
Lemma no_dead_end_witness :
  let st := run (Server0 32768) (ack_two_nodes_events ++ split_events) in
  expects (cl_state (clus split_decided 0)) = Some FC_SENDING_NACK ∧
  ∃ l, Forall (λ k, in_cluster (sess st k) 0 = true) l ∧ expects (cl_state (clus (answers 1000 l st) 0)) = None.
Proof.
  split; [vm_compute; reflexivity|].
  refine (proj2 (no_dead_end 32768 (ack_two_nodes_events ++ split_events) 0 1000) _ _ _).
  - repeat constructor; apply (bool_decide_unpack _); vm_compute; exact I.
  - lia.
  - intros k. rewrite split_run. apply (an_rx 0 split_decided split_answerable k).
Defined.
