(* ===== verification/Election.v ===== *)
(** * Correctness of the election

    The theorems on the stability test, the partition selection and the vote
    transfer of the ffsplit algorithm (server.cpp 522-779). *)
From S2P Require Import Prelude Wire Tlv Msg State Ffsplit Select Handlers Lifecycle Invariant.
From S2P Require Import HandlerFacts InitFacts Safety Scenarios.

(** C15: every selected partition is the membership reported by a connected
    client of the cluster (with the trigger's incoming lists in place of its
    stored ones), it is not empty, and it has at least half of that client's
    configured nodes - strictly more than half when their number is odd. *)
Theorem winner_has_quorum st tv w :
  ffsplit_select_partition st tv = Some w →
  ∃ i cfg, walks st (s_cluster (sess st (tv_slot tv))) tv i = true ∧
    eff_membership st i tv = w ∧ eff_config st i tv = cfg ∧ w ≠ [] ∧ cfg ≠ [] ∧
    ((length cfg < 2 * length w)%nat ∨ (Nat.even (length cfg) = true ∧ length cfg = 2 * length w)%nat).
Proof.
  rewrite select_scan, fmap_Some. intros (cd & Hs & ->).
  destruct (scan_origin st tv slots None cd Hs) as [?|(i & _ & Hc & b & Hb)]; [done|].
  destruct (candidate_inv _ _ _ _ _ Hc) as (Hw & -> & ? & ?). apply better_quorum in Hb.
  by exists i, (eff_config st i tv).
Qed.
Lemma winner_has_quorum_witness :
  ∃ i cfg, walks split_pending 0 (split_tv HEUR_UNDEFINED) i = true ∧
    eff_membership split_pending i (split_tv HEUR_UNDEFINED) = members [2] ∧
    eff_config split_pending i (split_tv HEUR_UNDEFINED) = cfg ∧ members [2] ≠ [] ∧ cfg ≠ [] ∧
    ((length cfg < 2 * 1)%nat ∨ (Nat.even (length cfg) = true ∧ length cfg = 2 * 1)%nat).
Proof. apply (winner_has_quorum split_pending (split_tv HEUR_UNDEFINED) (members [2])). vm_compute. reflexivity. Defined.

(** C29: a client whose partition has a strict majority of its configuration
    makes the election succeed: some partition is selected, whatever the others
    report. *)
Theorem majority_elects st tv i :
  length (sv_sessions st) = MAX_CLIENTS →
  walks st (s_cluster (sess st (tv_slot tv))) tv i = true → eff_config st i tv ≠ [] →
  (length (eff_config st i tv) < 2 * length (eff_membership st i tv))%nat →
  ∃ w, ffsplit_select_partition st tv = Some w.
Proof.
  intros Hlen Hw Hc Hmaj.
  assert (eff_membership st i tv ≠ []) as Hm by (intros E; rewrite E in Hmaj; simpl in Hmaj; lia).
  pose proof (candidate_of _ _ _ _ Hw Hc Hm) as Hcand. rewrite select_scan.
  assert (i ∈ slots) as [l1 [l2 Hl]]%list_elem_of_split by (by eapply walker_slot).
  assert (is_Some (scan st tv slots None)) as [cd ->]; [|by eexists].
  rewrite Hl. unfold scan. rewrite foldl_app. cbn [foldl]. apply scan_some. unfold select_step. rewrite Hcand.
  rewrite majority_better by done. done.
Qed.
Lemma majority_elects_witness : ∃ w, ffsplit_select_partition two_acked
  (mkTV 0 false ring0 (configured [2; 4]) (members [2; 4]) HEUR_UNDEFINED) = Some w.
Proof.
  apply (majority_elects two_acked
    (mkTV 0 false ring0 (configured [2; 4]) (members [2; 4]) HEUR_UNDEFINED) 1%nat);
    vm_compute; [reflexivity|reflexivity|discriminate|lia].
Defined.

(** The heuristics score of a partition cannot go negative and at most
    doubles the number of its members: no more clients fail or pass than are
    connected. *)
Theorem partition_score_bounds st cd :
  let s := ffsplit_partition_stats st (Some cd) in
  (n_pass s + n_fail s ≤ n_clients s ≤ length (cd_mem cd))%nat ∧
  0 <= score s <= 2 * Z.of_nat (length (cd_mem cd)).
Proof.
  intros s. pose proof (stats_bounds st (Some cd)) as [H1 H2]. fold s in H1, H2. unfold score. lia.
Qed.

(** The candidates of a 50:50 split whose clients list themselves. *)
Record fifty_fifty (st : Server) (tv : TriggerView) : Prop := {
  ff_len : length (sv_sessions st) = MAX_CLIENTS;
  ff_half cd : is_candidate st tv cd → half cd;
  ff_self cd : is_candidate st tv cd → s_node_id (sess st (cd_client cd)) ∈ nl_ids (cd_mem cd);
  ff_some : ∃ cd, is_candidate st tv cd;
}.

Lemma is_candidate_active st tv cd : is_candidate st tv cd → s_phase (sess st (cd_client cd)) = ACTIVE.
Proof.
  intros (i & _ & Hc). apply candidate_inv in Hc as (Hw%walks_in_cluster & -> & _).
  by apply in_cluster_true in Hw as [? _].
Qed.

(** A candidate of a 50:50 split beats no candidate at all. *)
Lemma half_beats_none st tv cd prev keep : fifty_fifty st tv → is_candidate st tv cd →
  ffsplit_partition_better st cd None prev keep = true.
Proof.
  intros [Hlen Hh Hself _] Hc. rewrite half_better by auto. cbv zeta. cbn [ffsplit_partition_stats].
  pose proof (self_counted st cd Hlen (is_candidate_active _ _ _ Hc) (Hself _ Hc)) as Hn.
  pose proof (stats_bounds st (Some cd)) as [Hb _]. cbn [ffsplit_partition_stats] in *.
  set (s := foldl _ _ _) in *. unfold score. cbn [n_clients n_pass n_fail].
  destruct (Z.eqb_spec (Z.of_nat (n_clients s) + (Z.of_nat (n_pass s) - Z.of_nat (n_fail s)))
    (Z.of_nat 0 + (Z.of_nat 0 - Z.of_nat 0))) as [Hz|Hz]; cbn [negb]; [|apply Z.ltb_lt; lia].
  destruct (Nat.eqb_spec (n_clients s) 0); [lia|]. cbn [negb]. by apply Nat.ltb_lt.
Qed.

(** A maximum over the candidates. *)
Lemma max_elem {A} (f : A → Z) (l : list A) x : x ∈ l → ∃ y, y ∈ l ∧ ∀ z, z ∈ l → f z <= f y.
Proof.
  revert x. induction l as [|a l IH]; intros x Hx; [by apply not_elem_of_nil in Hx|].
  destruct l as [|b l]; [exists a; set_solver|].
  destruct (IH b ltac:(apply list_elem_of_here)) as (y & Hy & Hm).
  destruct (Z.leb_spec (f y) (f a)) as [Hle|Hgt].
  - exists a. split; [apply list_elem_of_here|]. intros z [->|Hz]%elem_of_cons; [lia|]. specialize (Hm z Hz). lia.
  - exists y. split; [by apply list_elem_of_further|]. intros z [->|Hz]%elem_of_cons; [lia|auto].
Qed.

Lemma max_candidate st tv (f : Candidate → Z) : (∃ cd, is_candidate st tv cd) →
  ∃ cd, is_candidate st tv cd ∧ ∀ cd', is_candidate st tv cd' → f cd' <= f cd.
Proof.
  intros [cd Hcd%elem_of_candidates]. destruct (max_elem f _ cd Hcd) as (y & Hy & Hm).
  exists y. split; [by apply elem_of_candidates|]. intros cd' Hcd'. by apply Hm, elem_of_candidates.
Qed.

(** The hypotheses on a concrete state are checked on the list of candidates. *)
#[export] Instance half_dec cd : Decision (half cd).
Proof. unfold half. apply _. Defined.
Lemma fifty_fifty_check st tv :
  length (sv_sessions st) = MAX_CLIENTS →
  Forall (λ cd, half cd ∧ s_node_id (sess st (cd_client cd)) ∈ nl_ids (cd_mem cd)) (candidates st tv) →
  candidates st tv ≠ [] → fifty_fifty st tv.
Proof.
  intros Hlen HF Hne. pose proof (candidates_Forall st tv _ HF) as H. split; [done|by apply H..|].
  destruct (candidates st tv) as [|cd l] eqn:E; [done|]. exists cd. apply elem_of_candidates.
  rewrite E. apply list_elem_of_here.
Qed.

(** C26: in a 50:50 split the heuristics decide first: the winner has the highest
    score of all partitions. *)
Theorem highest_score_wins st tv :
  fifty_fifty st tv →
  ∃ cd, ffsplit_select_partition st tv = Some (cd_mem cd) ∧ is_candidate st tv cd ∧
    ∀ cd', is_candidate st tv cd' →
      score (ffsplit_partition_stats st (Some cd')) <= score (ffsplit_partition_stats st (Some cd)).
Proof.
  intros Hff. destruct (max_candidate st tv (λ cd, score (ffsplit_partition_stats st (Some cd))) (ff_some _ _ Hff))
    as (m & Hm & Hmax). cbv beta in Hmax.
  destruct (scan_prefers st tv (λ cd, score (ffsplit_partition_stats st (Some cd)) =
                                      score (ffsplit_partition_stats st (Some m)))) as (cd & Hs & Hcd & Hsc).
  - intros cd [b|] Hcd HP Hb; [|by eapply half_beats_none].
    destruct Hb as [Hb Hne]. rewrite half_better by (by apply (ff_half _ _ Hff)). cbv zeta.
    specialize (Hmax b Hb). rewrite (proj2 (Z.eqb_neq _ _)) by congruence. cbn [negb]. apply Z.ltb_lt. lia.
  - intros cd b Hcd Hb HP Hne. rewrite half_better by (by apply (ff_half _ _ Hff)). cbv zeta.
    specialize (Hmax cd Hcd). rewrite (proj2 (Z.eqb_neq _ _)) by congruence. cbn [negb]. apply Z.ltb_ge. lia.
  - intros cd. apply _.
  - eauto.
  - exists cd. rewrite select_scan, Hs. split_and!; [done|done|]. intros cd' Hc'. rewrite Hsc. auto.
Qed.

Lemma highest_score_wins_witness :
  ∃ cd, ffsplit_select_partition split_pending (split_tv HEUR_FAIL) = Some (cd_mem cd) ∧
    is_candidate split_pending (split_tv HEUR_FAIL) cd ∧
    ∀ cd', is_candidate split_pending (split_tv HEUR_FAIL) cd' →
      score (ffsplit_partition_stats split_pending (Some cd')) <=
      score (ffsplit_partition_stats split_pending (Some cd)).
Proof.
  apply (highest_score_wins split_pending (split_tv HEUR_FAIL)), fifty_fifty_check.
  - vm_compute. reflexivity.
  - apply (bool_decide_unpack _). vm_compute. exact I.
  - vm_compute. discriminate.
Defined.

(** Equal scores and client counts. *)
Record tied (st : Server) (tv : TriggerView) : Prop := {
  tied_half : fifty_fifty st tv;
  tied_score cd cd' : is_candidate st tv cd → is_candidate st tv cd' →
    score (ffsplit_partition_stats st (Some cd)) = score (ffsplit_partition_stats st (Some cd'));
  tied_clients cd cd' : is_candidate st tv cd → is_candidate st tv cd' →
    n_clients (ffsplit_partition_stats st (Some cd)) = n_clients (ffsplit_partition_stats st (Some cd'));
}.

Lemma tied_check st tv sc n :
  fifty_fifty st tv →
  Forall (λ cd, score (ffsplit_partition_stats st (Some cd)) = sc ∧
                n_clients (ffsplit_partition_stats st (Some cd)) = n) (candidates st tv) → tied st tv.
Proof.
  intros Hff HF. pose proof (candidates_Forall st tv _ HF) as H.
  split; [done|..]; intros cd cd' H1%H H2%H; destruct H1, H2; congruence.
Qed.

Lemma tied_better st tv cd b prev keep : tied st tv → is_candidate st tv cd → is_candidate st tv b →
  ffsplit_partition_better st cd (Some b) prev keep =
    let preferred := ffsplit_is_preferred_partition st (cd_client cd) (cd_cfg cd) (cd_mem cd) in
    if keep then
      let in1 := nl_mem prev (s_node_id (sess st (cd_client cd))) in
      let in2 := nl_mem prev (s_node_id (sess st (cd_client b))) in
      if negb (eqb in1 in2) then in1 else preferred
    else preferred.
Proof.
  intros [Hff Hs Hn] Hcd Hb. rewrite half_better by (by apply (ff_half _ _ Hff)). cbv zeta.
  by rewrite (Hs cd b), (Hn cd b), Z.eqb_refl, Nat.eqb_refl by done.
Qed.

(** C27: in a 50:50 split - every candidate partition has exactly half of its
    configuration - whose candidates list their own clients and have equal scores
    and equal numbers of connected clients, the partition that was quorate before
    is kept if every client leaves the active-partition criterion enabled: the
    winning client was in the previous quorate partition as soon as one candidate
    was. *)
Theorem active_partition_kept st tv :
  tied st tv → keep_active st tv = true →
  let prev := nl_ids (cl_quorate_partition (clus st (s_cluster (sess st (tv_slot tv))))) in
  (∃ cd, is_candidate st tv cd ∧ s_node_id (sess st (cd_client cd)) ∈ prev) →
  ∃ cd, ffsplit_select_partition st tv = Some (cd_mem cd) ∧ is_candidate st tv cd ∧
    s_node_id (sess st (cd_client cd)) ∈ prev.
Proof.
  intros Ht Hk prev Hex.
  destruct (scan_prefers st tv (λ cd, s_node_id (sess st (cd_client cd)) ∈ prev)) as (cd & Hs & Hcd & Hin).
  - intros cd [b|] Hcd HP Hb; [|by eapply half_beats_none; [apply tied_half|]]. destruct Hb as [Hb Hne].
    rewrite (tied_better st tv) by done. rewrite Hk. cbv zeta.
    by rewrite (proj2 (nl_mem_true _ _) HP), (proj2 (nl_mem_false _ _) Hne).
  - intros cd b Hcd Hb HP Hne. rewrite (tied_better st tv) by done. rewrite Hk. cbv zeta.
    by rewrite (proj2 (nl_mem_true _ _) HP), (proj2 (nl_mem_false _ _) Hne).
  - intros cd. apply _.
  - done.
  - exists cd. by rewrite select_scan, Hs.
Qed.

Lemma active_partition_kept_witness :
  let prev := nl_ids (cl_quorate_partition (clus split_pending 0)) in
  ∃ cd, ffsplit_select_partition split_pending (split_tv HEUR_UNDEFINED) = Some (cd_mem cd) ∧
    is_candidate split_pending (split_tv HEUR_UNDEFINED) cd ∧
    s_node_id (sess split_pending (cd_client cd)) ∈ prev.
Proof.
  apply (active_partition_kept split_pending (split_tv HEUR_UNDEFINED)).
  - apply (tied_check _ _ 1 1); [apply fifty_fifty_check|].
    + vm_compute. reflexivity.
    + apply (bool_decide_unpack _). vm_compute. exact I.
    + vm_compute. discriminate.
    + apply (bool_decide_unpack _). vm_compute. exact I.
  - vm_compute. reflexivity.
  - exists (mkCandidate 0 (configured [2; 4]) (members [4]) HEUR_UNDEFINED). split.
    + exists 0%nat. split; [apply (bool_decide_unpack _); vm_compute; exact I|vm_compute; reflexivity].
    + apply (bool_decide_unpack _). vm_compute. exact I.
Defined.

(** C28: in a 50:50 split - every candidate partition has exactly half of its
    configuration - whose candidates list their own clients and have equal scores
    and equal numbers of connected clients, and in which the active-partition
    criterion is disabled or does not discriminate, the tie-breaker decides: if the
    clients of all candidates name the same preferred node and some candidate
    partition contains it, the winner does. *)
Theorem tie_breaker_decides st tv p :
  tied st tv →
  (keep_active st tv = false ∨
   ∀ cd cd', is_candidate st tv cd → is_candidate st tv cd' →
     let prev := nl_ids (cl_quorate_partition (clus st (s_cluster (sess st (tv_slot tv))))) in
     s_node_id (sess st (cd_client cd)) ∈ prev ↔ s_node_id (sess st (cd_client cd')) ∈ prev) →
  (∀ cd, is_candidate st tv cd → preferred_id (s_tie_breaker (sess st (cd_client cd))) (cd_cfg cd) = p) →
  (∃ cd, is_candidate st tv cd ∧ p ∈ nl_ids (cd_mem cd)) →
  ∃ w, ffsplit_select_partition st tv = Some w ∧ p ∈ nl_ids w.
Proof.
  intros Ht Hk Hp Hex.
  assert (∀ cd b, is_candidate st tv cd → is_candidate st tv b →
    ffsplit_partition_better st cd (Some b) (cl_quorate_partition (clus st (s_cluster (sess st (tv_slot tv)))))
      (keep_active st tv) = bool_decide (p ∈ nl_ids (cd_mem cd))) as Hb.
  { intros cd b Hcd Hb. rewrite (tied_better st tv) by done. cbv zeta.
    assert (ffsplit_is_preferred_partition st (cd_client cd) (cd_cfg cd) (cd_mem cd) =
            bool_decide (p ∈ nl_ids (cd_mem cd))) as ->.
    { apply eq_true_iff_eq. rewrite is_preferred_spec, Hp, bool_decide_eq_true by done. done. }
    destruct Hk as [->|Hk]; [done|]. specialize (Hk cd b Hcd Hb). cbv zeta in Hk.
    rewrite <-!nl_mem_true in Hk. destruct (keep_active st tv); [|done].
    apply eq_true_iff_eq in Hk. by rewrite Hk, eqb_reflx. }
  destruct (scan_prefers st tv (λ cd, p ∈ nl_ids (cd_mem cd))) as (cd & Hs & Hcd & Hin).
  - intros cd [b|] Hcd HP Hbb; [|by eapply half_beats_none; [apply tied_half|]]. destruct Hbb as [Hbb _].
    rewrite Hb by done. by apply bool_decide_eq_true.
  - intros cd b Hcd Hbb HP Hne. rewrite Hb by done. by apply bool_decide_eq_false.
  - intros cd. apply _.
  - done.
  - exists (cd_mem cd). by rewrite select_scan, Hs.
Qed.
Lemma tie_breaker_decides_witness :
  ∃ w, ffsplit_select_partition split_pending (split_tv HEUR_UNDEFINED) = Some w ∧ 2 ∈ nl_ids w.
Proof.
  apply (tie_breaker_decides split_pending (split_tv HEUR_UNDEFINED) 2).
  - apply (tied_check _ _ 1 1); [apply fifty_fifty_check|].
    + vm_compute. reflexivity.
    + apply (bool_decide_unpack _). vm_compute. exact I.
    + vm_compute. discriminate.
    + apply (bool_decide_unpack _). vm_compute. exact I.
  - right. assert (∀ cd, is_candidate split_pending (split_tv HEUR_UNDEFINED) cd →
      s_node_id (sess split_pending (cd_client cd)) ∈
      nl_ids (cl_quorate_partition (clus split_pending
        (s_cluster (sess split_pending (tv_slot (split_tv HEUR_UNDEFINED))))))) as H.
    { apply candidates_Forall, (bool_decide_unpack _). vm_compute. exact I. }
    intros cd cd' H1 H2. split; intros _; by apply H.
  - apply candidates_Forall, (bool_decide_unpack _). vm_compute. exact I.
  - exists (mkCandidate 1 (configured [2; 4]) (members [2]) HEUR_UNDEFINED). split.
    + exists 1%nat. split; [apply (bool_decide_unpack _); vm_compute; exact I|vm_compute; reflexivity].
    + apply (bool_decide_unpack _). vm_compute. exact I.
Defined.

(** ** Stability *)

(** Node ids are unique among the clients the walks visit. *)
Definition unique_ids (st : Server) (tv : TriggerView) : Prop :=
  ∀ i j, walks st (s_cluster (sess st (tv_slot tv))) tv i = true →
    walks st (s_cluster (sess st (tv_slot tv))) tv j = true →
    s_node_id (sess st i) = s_node_id (sess st j) → i = j.

(** Without a repeated INIT they are. *)
Lemma safe_unique_ids st tv : safe st → unique_ids st tv.
Proof.
  intros Hs i j [[Hi Ei]%in_cluster_true _]%andb_prop [[Hj Ej]%in_cluster_true _]%andb_prop E.
  apply (safe_ids _ Hs); congruence.
Qed.

(** On a concrete state. *)
Lemma unique_ids_check st tv : length (sv_sessions st) = MAX_CLIENTS →
  NoDup ((λ i, s_node_id (sess st i)) <$>
    List.filter (walks st (s_cluster (sess st (tv_slot tv))) tv) slots) → unique_ids st tv.
Proof.
  intros Hlen Hnd i j Hi Hj E.
  assert (∀ k, walks st (s_cluster (sess st (tv_slot tv))) tv k = true →
    k ∈ List.filter (walks st (s_cluster (sess st (tv_slot tv))) tv) slots) as Hin.
  { intros k Hk. apply list_elem_of_In, List.filter_In. split; [|done].
    apply list_elem_of_In. by eapply walker_slot. }
  apply Hin, list_elem_of_lookup in Hi as [a Ha]. apply Hin, list_elem_of_lookup in Hj as [b Hb].
  assert (a = b) as ->; [|congruence].
  eapply NoDup_lookup; [exact Hnd|..]; rewrite list_lookup_fmap; [by rewrite Ha|rewrite Hb; simpl; by rewrite E].
Qed.

(** C24: if the node ids of the cluster's clients are unique (as in every state
    reached without a repeated INIT), the membership is stable exactly when all
    clients (the leaving node excepted) report the same set of configured nodes and
    each client has the ring id of every connected client in the membership it
    reports and reports no node that this client does not report; so two clients
    that list each other report the same membership. *)
Theorem stable_iff_views_agree st tv :
  length (sv_sessions st) = MAX_CLIENTS → unique_ids st tv →
  let walker i := walks st (s_cluster (sess st (tv_slot tv))) tv i = true in
  ffsplit_is_stable st tv = true ↔
  (∀ i j, walker i → walker j → ∀ id,
     id ∈ nl_ids (eff_config st i tv) ↔ id ∈ nl_ids (eff_config st j tv)) ∧
  (∀ i j, walker i → walker j → s_node_id (sess st j) ∈ nl_ids (eff_membership st i tv) →
     eff_ring st i tv = eff_ring st j tv ∧
     nl_ids (eff_membership st i tv) ⊆ nl_ids (eff_membership st j tv) ∧
     (s_node_id (sess st i) ∈ nl_ids (eff_membership st j tv) → ∀ id,
        id ∈ nl_ids (eff_membership st i tv) ↔ id ∈ nl_ids (eff_membership st j tv))).
Proof.
  intros Hlen Hu walker. unfold ffsplit_is_stable.
  rewrite andb_true_iff, stable_configs_spec, stable_rings_spec by done. split; intros [H1 H2]; split.
  - intros i j Hi Hj id. destruct (decide (i = j)) as [->|Hne]; [done|]. split; apply H1; done || congruence.
  - intros i j Hi Hj Hin. destruct (H2 i j Hi Hj Hin) as [Er Hsub]. split_and!; [done..|].
    intros Hin' id. split; [apply Hsub|by apply (H2 j i)].
  - intros i j Hi Hj _ id. by apply H1.
  - intros i j Hi Hj Hin. by destruct (H2 i j Hi Hj Hin) as (? & ? & _).
Qed.
(** Two clients with one view. *)
Lemma stable_iff_views_agree_witness :
  let st := two_acked in
  let tv := mkTV 0 false (mkRingId 2 100) (configured [2; 4]) (members [2; 4]) HEUR_UNDEFINED in
  s_node_id (sess st 0) ≠ s_node_id (sess st 1) ∧
  eff_ring st 1%nat tv = eff_ring st 0%nat tv ∧
  (∀ id, id ∈ nl_ids (eff_membership st 1%nat tv) ↔ id ∈ nl_ids (eff_membership st 0%nat tv)).
Proof.
  cbv zeta. split; [vm_compute; discriminate|].
  destruct (stable_iff_views_agree two_acked (mkTV 0 false (mkRingId 2 100) (configured [2; 4]) (members [2; 4]) HEUR_UNDEFINED))
    as [H _].
  - vm_compute. reflexivity.
  - apply unique_ids_check; [vm_compute; reflexivity|].
    apply (bool_decide_unpack _). vm_compute. exact I.
  - destruct H as [_ H]; [vm_compute; reflexivity|].
    destruct (H 1%nat 0%nat) as (Hr & _ & Ha); [vm_compute; reflexivity..| |].
    + apply (bool_decide_unpack _). vm_compute. exact I.
    + split; [exact Hr|]. apply Ha. apply (bool_decide_unpack _). vm_compute. exact I.
Defined.

(** C16: in a stable cluster whose clients have unique node ids (as in every state
    reached without a repeated INIT) and list themselves in the membership they
    report, the connected clients of the selected partition agree: they are on
    one ring, and each reports exactly the selected set of nodes. *)
Theorem winners_agree st tv w :
  length (sv_sessions st) = MAX_CLIENTS → unique_ids st tv → ffsplit_is_stable st tv = true →
  (∀ i, walks st (s_cluster (sess st (tv_slot tv))) tv i = true → eff_membership st i tv ≠ [] →
     s_node_id (sess st i) ∈ nl_ids (eff_membership st i tv)) →
  ffsplit_select_partition st tv = Some w →
  ∃ ring, ∀ i, walks st (s_cluster (sess st (tv_slot tv))) tv i = true → s_node_id (sess st i) ∈ nl_ids w →
    eff_ring st i tv = ring ∧ ∀ id, id ∈ nl_ids (eff_membership st i tv) ↔ id ∈ nl_ids w.
Proof.
  intros Hlen Hu Hst Hself Hsel. unfold ffsplit_is_stable in Hst. apply andb_prop in Hst as [_ Hr].
  pose proof (proj1 (stable_rings_spec _ _ _ Hlen Hu) Hr) as Hrings.
  rewrite select_scan, fmap_Some in Hsel. destruct Hsel as (cd & Hs & ->).
  destruct (scan_origin st tv slots None cd Hs) as [?|(k & _ & Hc & _)]; [done|].
  destruct (candidate_inv _ _ _ _ _ Hc) as (Hk & -> & _ & Hm). cbn [cd_mem] in *.
  exists (eff_ring st k tv). intros i Hi Hin. destruct (Hrings k i Hk Hi Hin) as [E Hsub].
  split; [done|]. intros id. split; [|apply Hsub].
  apply (Hrings i k Hi Hk). apply Hsub. by apply Hself.
Qed.
Lemma winners_agree_witness :
  let st := split_pending in let tv := split_tv HEUR_UNDEFINED in
  ∃ ring, ∀ i, walks st (s_cluster (sess st (tv_slot tv))) tv i = true →
    s_node_id (sess st i) ∈ nl_ids (members [2]) →
    eff_ring st i tv = ring ∧ ∀ id, id ∈ nl_ids (eff_membership st i tv) ↔ id ∈ nl_ids (members [2]).
Proof.
  cbv zeta. apply (winners_agree split_pending (split_tv HEUR_UNDEFINED) (members [2])).
  - vm_compute. reflexivity.
  - apply unique_ids_check; [vm_compute; reflexivity|].
    apply (bool_decide_unpack _). vm_compute. exact I.
  - vm_compute. reflexivity.
  - intros i Hi _.
    assert (Forall (λ i, walks split_pending 0 (split_tv HEUR_UNDEFINED) i = true →
      s_node_id (sess split_pending i) ∈ nl_ids (eff_membership split_pending i (split_tv HEUR_UNDEFINED))) slots) as H.
    { apply (bool_decide_unpack _). vm_compute. exact I. }
    rewrite Forall_forall in H. apply H; [|exact Hi].
    eapply walker_slot; [|exact Hi]. vm_compute. reflexivity.
  - vm_compute. reflexivity.
Defined.

(** ** The decision *)

(** The two outcomes of the algorithm, from a well-formed state. *)
Lemma ffsplit_do_stable tv st : inv st → s_phase (sess st (tv_slot tv)) = ACTIVE →
  ffsplit_is_stable (pending_decision tv st) tv = true →
  ∃ st', ffsplit_do tv st = (st', ERR_NO_ERROR, VOTE_NO_CHANGE) ∧
    decided tv st (ffsplit_select_partition (pending_decision tv st) tv) st'.
Proof.
  intros Hinv Hact Hst. apply ffsplit_do_decided; [by apply inv_len_sessions| |done].
  rewrite (inv_len_clusters _ Hinv). apply (so_active _ _ (inv_sess _ Hinv (tv_slot tv)) Hact).
Qed.

Lemma filter_all {A} (P : A → Prop) `{∀ x, Decision (P x)} (l : list A) : (∀ x, x ∈ l → P x) → filter P l = l.
Proof.
  induction l as [|x l IH]; intros Hl; [done|]. rewrite filter_cons, decide_True by (apply Hl, list_elem_of_here).
  f_equal. apply IH. intros y Hy. by apply Hl, list_elem_of_further.
Qed.

(** [walks]: the clients of the trigger's cluster that a decision is about, all of
    them, or on a departure all but the node that leaves. *)
Lemma walks_cluster st c tv j : walks st c tv j = true → in_cluster (sess st j) c = true.
Proof. by intros [? _]%andb_prop. Qed.
Lemma walks_ff tv w st c j : walks st c tv j = true →
  new_ff tv w (s_node_id (sess st (tv_slot tv))) (sess st j) =
    if decide (s_node_id (sess st j) ∈ nl_ids (default [] w)) then FC_SENDING_ACK else FC_SENDING_NACK.
Proof.
  intros [_ Hl%negb_true_iff]%andb_prop. unfold skip_in_cluster_walk in Hl. unfold new_ff. rewrite Hl.
  destruct w as [w|]; simpl; [|done].
  case_decide as H; [by rewrite (proj2 (nl_mem_true _ _) H)|by rewrite (proj2 (nl_mem_false _ _) H)].
Qed.
(** The node that leaves is left alone. *)
Lemma leaver_ff tv w st c j : in_cluster (sess st j) c = true → walks st c tv j = false →
  new_ff tv w (s_node_id (sess st (tv_slot tv))) (sess st j) = FC_WAITING_FOR_CHANGE.
Proof. unfold walks, skip_in_cluster_walk, new_ff. intros ->. cbn [andb]. by intros ->%negb_false_iff. Qed.

(** Nobody loses: everyone who takes part is in the partition. *)
Lemma no_losers tv st w : inv st →
  (∀ k, walks st (s_cluster (sess st (tv_slot tv))) tv k = true → s_node_id (sess st k) ∈ nl_ids (default [] w)) ↔ assigned st tv w FC_SENDING_NACK = [].
Proof.
  intros Hinv. pose proof (inv_len_sessions _ Hinv) as Hlen. split.
  - intros H. destruct (assigned st tv w FC_SENDING_NACK) as [|k l] eqn:E; [done|].
    assert (k ∈ assigned st tv w FC_SENDING_NACK) as Hk by (rewrite E; apply list_elem_of_here).
    apply assigned_elem in Hk as [Hk Hf]; [|done]. destruct (walks st (s_cluster (sess st (tv_slot tv))) tv k) eqn:Ht.
    + by rewrite (walks_ff _ _ _ _ _ Ht), decide_True in Hf by auto.
    + by rewrite (leaver_ff _ _ _ _ _ Hk Ht) in Hf.
  - intros E k Hk. pose proof (assigned_nil tv st w Hlen _ E k (walks_cluster _ _ _ _ Hk)) as Hn.
    rewrite (walks_ff _ _ _ _ _ Hk) in Hn. by case_decide.
Qed.

(** C5: a decision in a stable cluster, taken for a client that stays or for one
    that leaves, records the selected partition as the quorate one and splits the
    clients of the cluster by it: members are due an ACK and the others are sent a
    NACK at once; members get the ACK at once only if there was nobody to NACK, and
    otherwise keep their last vote for now.  The node that leaves is skipped: it
    is due nothing and told nothing.  No other session or cluster changes. *)
Theorem decision_assigns_votes tv st :
  inv st → s_phase (sess st (tv_slot tv)) = ACTIVE →
  ffsplit_is_stable (pending_decision tv st) tv = true →
  let c := s_cluster (sess st (tv_slot tv)) in
  let w := default [] (ffsplit_select_partition (pending_decision tv st) tv) in
  ∃ st', ffsplit_do tv st = (st', ERR_NO_ERROR, VOTE_NO_CHANGE) ∧
    cl_quorate_partition (clus st' c) = w ∧ sv_decisions st' = u32 (sv_decisions st + 1) ∧
    (∀ j, walks st c tv j = true → s_node_id (sess st j) ∈ nl_ids w →
       s_ff_state (sess st' j) = FC_SENDING_ACK ∧
       ((∀ k, walks st c tv k = true → s_node_id (sess st k) ∈ nl_ids w) →
          s_last_ack_nack (sess st' j) = VOTE_ACK) ∧
       (∀ k, walks st c tv k = true → s_node_id (sess st k) ∉ nl_ids w →
          s_last_ack_nack (sess st' j) = s_last_ack_nack (sess st j))) ∧
    (∀ j, walks st c tv j = true → s_node_id (sess st j) ∉ nl_ids w →
       s_ff_state (sess st' j) = FC_SENDING_NACK ∧ s_last_ack_nack (sess st' j) = VOTE_NACK) ∧
    (∀ j, in_cluster (sess st j) c = true → walks st c tv j = false →
       s_ff_state (sess st' j) = FC_WAITING_FOR_CHANGE ∧ s_last_ack_nack (sess st' j) = s_last_ack_nack (sess st j)) ∧
    (∀ j, in_cluster (sess st j) c = false → sess st' j = sess st j) ∧
    (∀ d, d ≠ c → clus st' d = clus st d).
Proof.
  intros Hinv Hact Hst c w. destruct (ffsplit_do_stable tv st Hinv Hact Hst) as (st' & Hdo & Hd).
  set (ow := ffsplit_select_partition (pending_decision tv st) tv) in *.
  pose proof (no_losers tv st ow Hinv) as Hnil. fold w in Hnil.
  exists st'. split_and!; [done|unfold c; by rewrite (dec_clus _ _ _ _ Hd)|by apply (dec_decisions _ _ _ _ Hd)|..].
  - intros j Hj Hin. rewrite (dec_sess _ _ _ _ Hd). unfold decided_sess. fold c. rewrite (walks_cluster _ _ _ _ Hj), (walks_ff _ _ _ _ _ Hj).
    fold w. rewrite decide_True by done. split_and!.
    + by case_bool_decide.
    + intros H%Hnil. by rewrite bool_decide_eq_true_2.
    + intros k Hk Hn. rewrite bool_decide_eq_false_2; [done|]. intros E. by apply Hn, (proj2 Hnil E).
  - intros j Hj Hn. rewrite (dec_sess _ _ _ _ Hd). unfold decided_sess. fold c.
    rewrite (walks_cluster _ _ _ _ Hj), (walks_ff _ _ _ _ _ Hj). fold w. by rewrite decide_False.
  - intros j Hj Ht. rewrite (dec_sess _ _ _ _ Hd). unfold decided_sess. fold c. by rewrite Hj, (leaver_ff _ _ _ _ _ Hj Ht).
  - intros j Hj. rewrite (dec_sess _ _ _ _ Hd). unfold decided_sess. fold c. by rewrite Hj.
  - apply (dec_clus_ne _ _ _ _ Hd).
Qed.
(** Node 4 loses in a split; and when it leaves instead, node 2 is ACKed at once. *)
Lemma decision_assigns_votes_witness :
  (∃ st', ffsplit_do (split_tv HEUR_UNDEFINED) split_pending = (st', ERR_NO_ERROR, VOTE_NO_CHANGE) ∧
    s_ff_state (sess st' 0) = FC_SENDING_NACK ∧ s_ff_state (sess st' 1) = FC_SENDING_ACK) ∧
  (∃ st', ffsplit_do leaving_tv split_pending = (st', ERR_NO_ERROR, VOTE_NO_CHANGE) ∧
    s_ff_state (sess st' 0) = FC_WAITING_FOR_CHANGE ∧ s_ff_state (sess st' 1) = FC_SENDING_ACK).
Proof.
  split.
  - destruct (decision_assigns_votes (split_tv HEUR_UNDEFINED) split_pending) as (st' & Hdo & _ & _ & Ha & Hn & _);
      [apply good_inv, split_pending_good|vm_compute; reflexivity..|].
    exists st'. split; [exact Hdo|]. split.
    + apply Hn; [vm_compute; reflexivity|]. apply (bool_decide_unpack _). vm_compute. exact I.
    + apply Ha; [vm_compute; reflexivity|]. apply (bool_decide_unpack _). vm_compute. exact I.
  - destruct (decision_assigns_votes leaving_tv split_pending) as (st' & Hdo & _ & _ & Ha & _ & Hl & _);
      [apply good_inv, split_pending_good|vm_compute; reflexivity..|].
    exists st'. split; [exact Hdo|]. split.
    + apply Hl; vm_compute; reflexivity.
    + apply Ha; [vm_compute; reflexivity|]. apply (bool_decide_unpack _). vm_compute. exact I.
Defined.

(** C23: the frames of a decision are VOTE_INFO frames for the clients it is about -
    all of the cluster, or all but the node whose departure triggers it - in slot
    order, each carrying the client's next sequence number and its current ring:
    either only NACKs, one for each such client outside the selected partition, or
    - if there is none - only ACKs, one for each such client. *)
Theorem decision_sends_nacks_or_acks tv st :
  inv st → s_phase (sess st (tv_slot tv)) = ACTIVE →
  ffsplit_is_stable (pending_decision tv st) tv = true →
  let c := s_cluster (sess st (tv_slot tv)) in
  let w := default [] (ffsplit_select_partition (pending_decision tv st) tv) in
  let clients := List.filter (walks st c tv) slots in
  let losers := filter (λ i, s_node_id (sess st i) ∉ nl_ids w) clients in
  let frame v i := ESend i (build_vote_info (u32 (s_vote_info_seq (sess st i) + 1)) (eff_ring st i tv) v) in
  ∃ st', ffsplit_do tv st = (st', ERR_NO_ERROR, VOTE_NO_CHANGE) ∧
    sv_out st' = sv_out st ++
      (if decide (losers = []) then frame VOTE_ACK <$> clients else frame VOTE_NACK <$> losers).
Proof.
  intros Hinv Hact Hst c w clients losers frame.
  destruct (ffsplit_do_stable tv st Hinv Hact Hst) as (st' & Hdo & Hd).
  set (ow := ffsplit_select_partition (pending_decision tv st) tv) in *.
  assert (∀ fs l, fs ≠ FC_WAITING_FOR_CHANGE →
    List.filter (λ i, in_cluster (sess st i) c &&
      bool_decide (new_ff tv ow (s_node_id (sess st (tv_slot tv))) (sess st i) = fs)) l =
    filter (λ i, (if decide (s_node_id (sess st i) ∈ nl_ids w) then FC_SENDING_ACK else FC_SENDING_NACK) = fs)
      (List.filter (walks st c tv) l)) as Hfil.
  { intros fs l Hfs. induction l as [|i l IH]; [done|]. cbn [List.filter]. destruct (walks st c tv i) eqn:Ht.
    - rewrite (walks_cluster _ _ _ _ Ht), (walks_ff _ _ _ _ _ Ht). cbn [andb]. rewrite filter_cons. fold w.
      destruct (decide (_ = fs)) as [E|E]; [rewrite bool_decide_eq_true_2 by done; by f_equal|by rewrite bool_decide_eq_false_2].
    - destruct (in_cluster (sess st i) c) eqn:Hc; [|done]. by rewrite (leaver_ff _ _ _ _ _ Hc Ht), bool_decide_eq_false_2 by done. }
  assert (assigned st tv ow FC_SENDING_NACK = losers) as E1.
  { unfold assigned. fold c. rewrite Hfil by done. apply list_filter_iff. intros i. by case_decide. }
  exists st'. split; [done|]. rewrite (dec_out _ _ _ _ Hd), E1. f_equal.
  destruct (decide (losers = [])) as [Hn|Hn].
  - rewrite Hn, bool_decide_eq_true_2 by done. cbn [fmap list_fmap app]. change (frame VOTE_ACK) with (vote_effect st tv VOTE_ACK).
    f_equal. unfold assigned. fold c. rewrite Hfil by done. apply filter_all. intros i Hi.
    destruct (decide _) as [|Hw]; [done|]. exfalso. apply (not_elem_of_nil i). rewrite <-Hn. by apply list_elem_of_filter.
  - rewrite bool_decide_eq_false_2, app_nil_r by done. done.
Qed.
Lemma decision_sends_nacks_or_acks_witness :
  (∃ st', ffsplit_do (split_tv HEUR_UNDEFINED) split_pending = (st', ERR_NO_ERROR, VOTE_NO_CHANGE) ∧
    sv_out st' = sv_out split_pending ++ [ESend 0 (build_vote_info 2 (mkRingId 4 200) VOTE_NACK)]) ∧
  (∃ st', ffsplit_do leaving_tv split_pending = (st', ERR_NO_ERROR, VOTE_NO_CHANGE) ∧
    sv_out st' = sv_out split_pending ++ [ESend 1 (build_vote_info 2 (mkRingId 2 100) VOTE_ACK)]).
Proof.
  split.
  - destruct (decision_sends_nacks_or_acks (split_tv HEUR_UNDEFINED) split_pending) as (st' & Hdo & Ho);
      [apply good_inv, split_pending_good|vm_compute; reflexivity..|].
    exists st'. split; [exact Hdo|]. rewrite Ho. vm_compute. reflexivity.
  - destruct (decision_sends_nacks_or_acks leaving_tv split_pending) as (st' & Hdo & Ho);
      [apply good_inv, split_pending_good|vm_compute; reflexivity..|].
    exists st'. split; [exact Hdo|]. rewrite Ho. vm_compute. reflexivity.
Defined.

(** While the membership is unstable the algorithm decides nothing: it only
    marks the cluster as waiting, sends no frame, keeps every session and every
    quorate partition, and asks the client to wait. *)
Theorem unstable_defers tv st :
  inv st → s_phase (sess st (tv_slot tv)) = ACTIVE →
  ffsplit_is_stable (pending_decision tv st) tv = false →
  ∃ st', ffsplit_do tv st = (st', ERR_NO_ERROR, VOTE_WAIT_FOR_REPLY) ∧
    sv_sessions st' = sv_sessions st ∧ sv_out st' = sv_out st ∧ sv_decisions st' = sv_decisions st ∧
    (∀ d, clus st' d = if decide (d = s_cluster (sess st (tv_slot tv)))
                       then (clus st d) <| cl_state := FCL_WAITING_FOR_STABLE_MEMBERSHIP |> else clus st d).
Proof.
  intros Hinv Hact Hst. exists (pending_decision tv st). split; [by apply ffsplit_do_unstable|].
  destruct (so_active _ _ (inv_sess _ Hinv (tv_slot tv)) Hact) as (Hc & _).
  unfold pending_decision. split_and!; [by unfold upd_clus; case_match..|].
  intros d. rewrite clus_upd, (inv_len_clusters _ Hinv).
  repeat case_decide; try done; naive_solver.
Qed.
(** Node 4 announces a membership that its peer has not confirmed. *)
Lemma unstable_defers_witness :
  ∃ st', ffsplit_do (mkTV 0 false (mkRingId 4 200) (configured [2; 4]) (members [2; 4]) HEUR_UNDEFINED) two_acked
    = (st', ERR_NO_ERROR, VOTE_WAIT_FOR_REPLY) ∧ sv_sessions st' = sv_sessions two_acked.
Proof.
  destruct (unstable_defers (mkTV 0 false (mkRingId 4 200) (configured [2; 4]) (members [2; 4]) HEUR_UNDEFINED)
    two_acked) as (st' & Hdo & Hs & _).
  - apply good_inv, two_acked_good.
  - vm_compute. reflexivity.
  - vm_compute. reflexivity.
  - exists st'. split; [exact Hdo|exact Hs].
Defined.
