(* ===== verification/Correctness.v ===== *)
(** * Correctness of the server

    The theorems on whole executions: what holds in every reachable state for
    arbitrary input, what holds as long as no client repeats its INIT, and the
    functional behaviour of the calls of the interface. *)
From S2P Require Import Prelude Wire Tlv Msg State Ffsplit Select Handlers Lifecycle Invariant.
From S2P Require Import HandlerFacts InitFacts VoteOrder Safety Scenarios Shift Chunks Delivery.

(** ** Safety of the arbiter *)

(** C1: no split brain.  In every execution in which no client repeats its INIT,
    all clients of a cluster that were last told ACK are members of one
    partition, the cluster's quorate partition; so are all clients that are due
    an ACK, and a client with an unanswered NACK is outside of it and was last
    told NACK. *)
Theorem acks_in_one_partition max st :
  reachable_clean max st → ∀ c i, in_cluster (sess st i) c = true →
  let quorate := nl_ids (cl_quorate_partition (clus st c)) in
  (s_last_ack_nack (sess st i) = VOTE_ACK → s_node_id (sess st i) ∈ quorate) ∧
  (s_ff_state (sess st i) = FC_SENDING_ACK → s_node_id (sess st i) ∈ quorate) ∧
  (s_ff_state (sess st i) = FC_SENDING_NACK →
     s_node_id (sess st i) ∉ quorate ∧ s_last_ack_nack (sess st i) = VOTE_NACK).
Proof.
  intros Hr c i [Ha <-]%in_cluster_true quorate. apply reachable_clean_safe in Hr as [Hg Hs].
  destruct (safe_sess _ Hs i) as [S1 S2 S3]. split_and!; auto.
  intros Hff. split; [auto|]. by apply (so_nack _ _ (inv_sess _ (good_inv _ Hg) i)).
Qed.
Lemma acks_in_one_partition_witness :
  s_last_ack_nack (sess split_resolved 1) = VOTE_ACK ∧ s_node_id (sess split_resolved 1) = 2 ∧
  s_node_id (sess split_resolved 1) ∈ nl_ids (cl_quorate_partition (clus split_resolved 0)).
Proof.
  split; [vm_compute; reflexivity|]. split; [vm_compute; reflexivity|].
  apply (acks_in_one_partition 32768 split_resolved split_resolved_reachable 0 1); vm_compute; reflexivity.
Defined.

(** C3: votes move in two phases.  Whenever the handling of a frame or the
    departure of a client tells some client ACK, no client of that cluster has
    an unanswered NACK afterwards. *)
Theorem acks_wait_for_nacks st :
  inv st →
  (∀ slot type frame frame_len payload_len now j,
     s_phase (sess st slot) ≠ FREE → sv_processing st = true →
     let st' := handle_frame slot type frame frame_len payload_len now st in
     newly_acked st st' j → nacks_answered st' (s_cluster (sess st' j))) ∧
  (∀ slot j, s_phase (sess st slot) ≠ FREE →
     let st' := reset_sess slot (leave_cluster slot st) in
     newly_acked st st' j → nacks_answered st' (s_cluster (sess st' j))).
Proof.
  intros Hinv. split.
  - intros slot type frame frame_len payload_len now j Hf Hp st' Hn. by eapply handle_frame_ack_ok.
  - intros slot j Hf st' Hn. by eapply leave_ack_ok.
Qed.
(** The reply to the NACK releases the ACK. *)
Lemma acks_wait_for_nacks_witness :
  let st := split_decided <| sv_processing := true |> in
  let reply := MockClient.vote_info_reply 2 in
  let st' := handle_frame 0 MT_VOTE_INFO_REPLY reply (length reply) (length reply - MSG_HEADER_LEN) 1000 st in
  newly_acked st st' 1 ∧ nacks_answered st' (s_cluster (sess st' 1)).
Proof.
  assert (let st := split_decided <| sv_processing := true |> in
    let reply := MockClient.vote_info_reply 2 in
    newly_acked st (handle_frame 0 MT_VOTE_INFO_REPLY reply (length reply) (length reply - MSG_HEADER_LEN) 1000 st) 1) as H.
  { cbv zeta. split; vm_compute; [discriminate|reflexivity]. }
  cbv zeta in H |- *. split; [exact H|].
  assert (inv (split_decided <| sv_processing := true |>)) as Hinv
    by (apply inv_processing, good_inv, split_decided_good).
  pose proof (proj1 (acks_wait_for_nacks _ Hinv) 0%nat MT_VOTE_INFO_REPLY (MockClient.vote_info_reply 2)
    (length (MockClient.vote_info_reply 2)) (length (MockClient.vote_info_reply 2) - MSG_HEADER_LEN)%nat 1000 1%nat) as Hw.
  cbv zeta in Hw. refine (Hw _ _ H); [vm_compute; discriminate|reflexivity].
Defined.

(** C30: node ids identify clients: in every execution in which no client repeats
    its INIT, two active clients of a cluster have different node ids. *)
Theorem node_ids_unique max st :
  reachable_clean max st → ∀ c i j, in_cluster (sess st i) c = true → in_cluster (sess st j) c = true →
  s_node_id (sess st i) = s_node_id (sess st j) → i = j.
Proof.
  intros Hr c i j [Hi <-]%in_cluster_true [Hj Hc]%in_cluster_true E.
  apply reachable_clean_safe in Hr as [_ Hs]. by apply (safe_ids _ Hs).
Qed.
Lemma node_ids_unique_witness :
  in_cluster (sess two_acked 0) 0 = true ∧ in_cluster (sess two_acked 1) 0 = true ∧
  s_node_id (sess two_acked 0) ≠ s_node_id (sess two_acked 1).
Proof.
  split; [vm_compute; reflexivity|]. split; [vm_compute; reflexivity|]. intros E.
  discriminate (node_ids_unique 32768 two_acked two_acked_reachable 0 0 1 ltac:(vm_compute; reflexivity)
    ltac:(vm_compute; reflexivity) E).
Defined.

(** ** The re-INIT defect *)




Section repeated_init.
Context (i : nat) (f : Frame) (m : MsgDecoded) (plen now : Z) (st : Server).
Context (Hg : good st) (Ha : s_phase (sess st i) = ACTIVE) (Hrx : s_rx (sess st i) = []).
Context (Hf : is_frame f 3 plen) (Hmax : plen <= sv_max_rx_frame st) (Hd : frame_decode f = Ok m).
Let st' := on_data (Z.of_nat i) f now st.




End repeated_init.


(** ** Every execution *)

(** A run with a client that sends garbage: an oversized length, then a
    malformed option. *)
Definition garbage_run : Server :=
  run two_acked [EvConnect 2000 peer0; EvData 2 [0; 0; 255; 255; 255; 255] 2000;
                 EvConnect 2000 peer0; EvData 2 [0; 0; 0; 0; 0; 5; 0; 0; 0; 9; 1] 2000; EvTick 2500].
Lemma garbage_reachable : reachable 32768 garbage_run.
Proof. apply run_reachable, run_reachable, reach_init. Qed.

(** C8: the structural invariant holds in every state the server can reach with
    any sequence of calls and any received bytes, and between calls nothing is
    left in progress: the processing flag is clear and no close is pending or
    scheduled. *)
Theorem server_invariant max st :
  reachable max st →
  inv st ∧ sv_processing st = false ∧ sv_pending_close st = [] ∧
  (∀ i, s_schedule_disconnect (sess st i) = false) ∧ sv_max_rx_frame st = max.
Proof. intros [[H1 H2 H3 H4] H5]%reachable_good. done. Qed.
Lemma server_invariant_witness : inv garbage_run ∧ sv_pending_close garbage_run = [].
Proof.
  destruct (server_invariant 32768 garbage_run garbage_reachable) as (H1 & _ & H2 & _).
  split; [exact H1|exact H2].
Defined.

(** Members of a cluster. *)
Lemma used_iff st c : inv st → 0 <= c < Z.of_nat MAX_CLUSTERS →
  cl_used (clus st c) = true ↔ ∃ i, in_cluster (sess st i) c = true.
Proof.
  intros Hinv Hc. pose proof (inv_members _ Hinv c Hc) as Hm. split.
  - intros Hu. rewrite Hu in Hm. destruct Hm as [_ Hpos]. unfold cnt in Hpos.
    destruct (List.filter _ slots) as [|i l] eqn:E; [simpl in Hpos; lia|]. exists i.
    assert (In i (i :: l)) as Hi by (by left). rewrite <-E in Hi. by apply List.filter_In in Hi as [_ ?].
  - intros [i [Ha Hi]%in_cluster_true]. destruct (so_active _ _ (inv_sess _ Hinv i) Ha) as (_ & Hu & _).
    by rewrite Hi in Hu.
Qed.
Lemma members_cnt st c : inv st → 0 <= c < Z.of_nat MAX_CLUSTERS →
  cl_members (clus st c) = Z.of_nat (cnt st c).
Proof.
  intros Hinv Hc. pose proof (inv_members _ Hinv c Hc) as Hm. pose proof (used_iff st c Hinv Hc) as Hiff.
  destruct (cl_used (clus st c)) eqn:Hu; [by destruct Hm|]. rewrite Hm. simpl.
  destruct (cnt st c) eqn:En; [done|]. exfalso. unfold cnt in En.
  destruct (List.filter _ slots) as [|i l] eqn:E; [done|].
  assert (In i (i :: l)) as Hi by (by left). rewrite <-E in Hi. apply List.filter_In in Hi as [_ Hi].
  assert (false = true) by (apply Hiff; eauto). done.
Qed.

(** A cluster entry lives exactly as long as it has clients: it is in use if
    and only if some active session belongs to it, its member count is the
    number of those sessions, and an unused entry is fully reset; distinct
    entries in use have distinct names. *)
Theorem clusters_track_clients max st c :
  reachable max st → 0 <= c < Z.of_nat MAX_CLUSTERS →
  (cl_used (clus st c) = true ↔ ∃ i, in_cluster (sess st i) c = true) ∧
  cl_members (clus st c) = Z.of_nat (length (List.filter (λ i, in_cluster (sess st i) c) slots)) ∧
  (cl_used (clus st c) = false → clus st c = Cluster0) ∧
  (∀ d, cl_used (clus st c) = true → cl_used (clus st d) = true →
     cl_name (clus st c) = cl_name (clus st d) → c = d).
Proof.
  intros [[Hinv _ _ _] _]%reachable_good Hc.
  split_and!; [by apply used_iff|by apply members_cnt| |].
  - intros Hu. pose proof (inv_members _ Hinv c Hc) as Hm. by rewrite Hu in Hm.
  - intros d. apply (inv_names _ Hinv).
Qed.
Lemma clusters_track_clients_witness : cl_members (clus two_acked 0) = 2 ∧
  (cl_used (clus two_acked 0) = true ↔ ∃ i, in_cluster (sess two_acked i) 0 = true).
Proof.
  split; [vm_compute; reflexivity|].
  apply (clusters_track_clients 32768 two_acked 0); [|vm_compute; split; [discriminate|reflexivity]].
  apply run_reachable, reach_init.
Defined.

(** An active session was admitted by INIT with valid parameters: its cluster
    index is valid, it refers to the entry of its cluster name, its heartbeat is
    within the limits and its algorithm is ffsplit; a session that is not active
    holds no vote and no cluster. *)
Theorem sessions_well_formed max st i :
  reachable max st →
  (s_phase (sess st i) = ACTIVE →
     0 <= s_cluster (sess st i) < Z.of_nat MAX_CLUSTERS ∧
     cl_name (clus st (s_cluster (sess st i))) = s_cluster_name (sess st i) ∧
     HEARTBEAT_MIN_MS <= s_heartbeat_ms (sess st i) <= HEARTBEAT_MAX_MS ∧
     s_algorithm (sess st i) = ALG_FFSPLIT) ∧
  (s_phase (sess st i) ≠ ACTIVE →
     s_cluster (sess st i) = -1 ∧ s_last_ack_nack (sess st i) = VOTE_UNDEFINED ∧
     s_ff_state (sess st i) = FC_WAITING_FOR_CHANGE) ∧
  (s_phase (sess st i) = FREE → sess st i = Session0).
Proof.
  intros [[Hinv _ _ _] _]%reachable_good. destruct (inv_sess _ Hinv i) as [S1 S2 S3 _ _]. split_and!.
  - intros Ha. destruct (S1 Ha) as (? & _ & ? & ? & ?). done.
  - intros Ha. by destruct (S2 Ha) as (? & ? & ?).
  - done.
Qed.
Lemma sessions_well_formed_witness : s_phase (sess garbage_run 2) = FREE ∧ sess garbage_run 2 = Session0.
Proof.
  assert (s_phase (sess garbage_run 2) = FREE) as H by (vm_compute; reflexivity).
  split; [exact H|]. apply (sessions_well_formed 32768 garbage_run 2 garbage_reachable). exact H.
Defined.

(** The session table as a list over the slots. *)
Lemma sessions_slots st : length (sv_sessions st) = MAX_CLIENTS → sv_sessions st = sess st <$> slots.
Proof.
  intros Hlen. apply list_eq. intros i. rewrite list_lookup_fmap. unfold slots.
  destruct (decide (i < MAX_CLIENTS)%nat) as [Hi|Hi].
  - rewrite lookup_seq_lt by done. cbn [fmap option_fmap option_map]. unfold sess. rewrite Nat.add_0_l.
    destruct (lookup_lt_is_Some_2 (sv_sessions st) i) as [s ->]; [lia|done].
  - rewrite lookup_seq_ge, (proj2 (lookup_ge_None _ _)) by lia. done.
Qed.

Lemma connected_count st : connected_clients st =
  Z.of_nat (length (List.filter (λ s, bool_decide (s_phase s = ACTIVE)) (sv_sessions st))).
Proof.
  unfold connected_clients. rewrite <-(Z.add_0_l (Z.of_nat _)). generalize 0.
  induction (sv_sessions st) as [|s l IH]; intros n; cbn [foldl List.filter]; [simpl; lia|].
  destruct (bool_decide (s_phase s = ACTIVE)); rewrite IH; cbn [length]; lia.
Qed.

(** Every active session is counted in one of the two clusters. *)
Lemma active_count st : inv st →
  (length (List.filter (λ s, bool_decide (s_phase s = ACTIVE)) (sv_sessions st)) = cnt st 0 + cnt st 1)%nat.
Proof.
  intros Hinv. rewrite (sessions_slots st) by (by apply inv_len_sessions). unfold cnt.
  induction slots as [|i l IH]; [done|]. rewrite fmap_cons. cbn [List.filter].
  pose proof (so_active _ _ (inv_sess _ Hinv i)) as Ha.
  assert (∀ c, in_cluster (sess st i) c = bool_decide (s_phase (sess st i) = ACTIVE) && (s_cluster (sess st i) =? c))
    as E by done. rewrite !E. clear E.
  destruct (bool_decide_reflect (s_phase (sess st i) = ACTIVE)) as [Hp|Hp]; cbn [andb]; [|exact IH].
  destruct (Ha Hp) as (Hc & _). unfold MAX_CLUSTERS in Hc.
  destruct (Z.eqb_spec (s_cluster (sess st i)) 0), (Z.eqb_spec (s_cluster (sess st i)) 1); cbn [length]; lia.
Qed.

(** The introspection functions agree with the state: the number of connected
    clients is the sum of the member counts, at most [MAX_CLIENTS], and
    [any_ack] holds exactly if some active session was last told ACK. *)
Theorem introspection_agrees max st :
  reachable max st →
  connected_clients st = cl_members (clus st 0) + cl_members (clus st 1) ∧
  0 <= connected_clients st <= Z.of_nat MAX_CLIENTS ∧
  (any_ack st = true ↔ ∃ i, s_phase (sess st i) = ACTIVE ∧ s_last_ack_nack (sess st i) = VOTE_ACK).
Proof.
  intros [[Hinv _ _ _] _]%reachable_good. rewrite connected_count. split_and!.
  - rewrite active_count, !members_cnt by (done || (unfold MAX_CLUSTERS; lia)). lia.
  - lia.
  - rewrite <-(inv_len_sessions _ Hinv). apply inj_le, List.filter_length_le.
  - unfold any_ack. rewrite existsb_exists. split.
    + intros (s & Hin%list_elem_of_In & Hs). apply list_elem_of_lookup in Hin as [i Hi].
      bool_to_prop. exists i. unfold sess. by rewrite Hi.
    + intros (i & Hp & Hv). exists (sess st i). rewrite Hp, Hv. split; [|done].
      apply list_elem_of_In. assert (i < length (sv_sessions st))%nat as Hi by (apply sess_in_range; by rewrite Hp).
      destruct (lookup_lt_is_Some_2 _ _ Hi) as [s Hs]. unfold sess. rewrite Hs. by eapply list_elem_of_lookup_2.
Qed.
Lemma introspection_agrees_witness : connected_clients two_acked = 2 ∧
  connected_clients two_acked = cl_members (clus two_acked 0) + cl_members (clus two_acked 1).
Proof.
  split; [vm_compute; reflexivity|].
  apply (introspection_agrees 32768 two_acked). apply run_reachable, reach_init.
Defined.
