(* ===== verification/Calls.v ===== *)
(** * The calls of the interface

    Functional theorems on [on_connect], [on_data], [on_disconnected], [tick]
    and the admission of a client by INIT. *)
From S2P Require Import Prelude Wire Tlv Msg State Ffsplit Select Handlers Lifecycle Invariant.
From S2P Require Import HandlerFacts InitFacts VoteOrder Safety Scenarios.

(** ** Receiving *)

(** C22: the frame loop of [on_data] ends by its own condition: with any fuel above
    the length of the receive buffer it computes the same state, so the bound
    the model uses is no restriction. *)
Theorem on_data_loop_terminates slot data now st fuel :
  good st → s_phase (sess st slot) ≠ FREE →
  let st1 := received slot data now st in
  (length (s_rx (sess st slot)) + length data < fuel)%nat →
  on_data_loop fuel slot now st1 = on_data_loop (S (length (s_rx (sess st1 slot)))) slot now st1 ∧
  (s_schedule_disconnect (sess (on_data_loop fuel slot now st1) slot) = true ∨
   on_data_step slot now (on_data_loop fuel slot now st1) = None).
Proof.
  intros Hg Hf st1 Hfuel. destruct (received_busy slot data now st Hg Hf) as (Hb & Hrx & _).
  fold st1 in Hb, Hrx. assert (length (s_rx (sess st1 slot)) < fuel)%nat as Hl by (rewrite Hrx, length_app; lia).
  split; [apply on_data_loop_fuel; [done|done|lia]|].
  destruct (on_data_loop_post fuel slot now st1 Hb Hl) as [Hb' _ _ _ _ Hd]. destruct Hd as [Hd|Hd]; [by left|right].
  set (st2 := on_data_loop fuel slot now st1) in *. clearbody st2. clear -Hd.
  unfold on_data_step. case_match; [done|]. case_match eqn:El; [done|]. bool_to_prop.
  destruct Hd as [Hd|(plen & E32 & Hm & Hlen)]; [lia|].
  rewrite E32. destruct (be_get16 (s_rx (sess st2 slot))); [|done..].
  rewrite (proj2 (Z.ltb_ge _ _)) by done. by rewrite (proj2 (Nat.ltb_lt _ _)).
Qed.
Lemma on_data_loop_terminates_witness :
  let data := MockClient.echo_request 6 in
  let st1 := received 0 data 1000 two_acked in
  on_data_loop 1000 0 1000 st1 = on_data_loop (S (length (s_rx (sess st1 0)))) 0 1000 st1.
Proof.
  apply (on_data_loop_terminates 0 (MockClient.echo_request 6) 1000 two_acked 1000).
  - apply two_acked_good.
  - vm_compute. discriminate.
  - vm_compute. lia.
Defined.

(** C21: [on_data] consumes every complete frame: afterwards the session is closed,
    or its buffer is a suffix of the bytes received so far that does not start
    with a complete frame and does not announce an oversized one. *)
Theorem on_data_consumes_frames max st slot data now :
  reachable max st → bad_slot slot st = false →
  let i := Z.to_nat slot in
  let st' := on_data slot data now st in
  sess st' i = Session0 ∨
  (∃ n, s_rx (sess st' i) = drop n (s_rx (sess st i) ++ data)) ∧
  ((length (s_rx (sess st' i)) < MSG_HEADER_LEN)%nat ∨
   ∃ plen, be_get32 (drop 2 (s_rx (sess st' i))) = Ok plen ∧ plen <= max ∧
     (length (s_rx (sess st' i)) < MSG_HEADER_LEN + Z.to_nat plen)%nat).
Proof.
  intros [Hg Hm]%reachable_good Hb i st'.
  destruct (on_data_facts slot data now st Hg Hb) as (_ & _ & [H|[H1 H2]]); [by left|right].
  rewrite Hm in H1. done.
Qed.
Lemma on_data_consumes_frames_witness :
  let st' := on_data 0 (MockClient.echo_request 6 ++ [0; 8]) 1000 two_acked in
  sess st' 0 = Session0 ∨
  (∃ n, s_rx (sess st' 0) = drop n (s_rx (sess two_acked 0) ++ MockClient.echo_request 6 ++ [0; 8])) ∧
  ((length (s_rx (sess st' 0)) < MSG_HEADER_LEN)%nat ∨
   ∃ plen, be_get32 (drop 2 (s_rx (sess st' 0))) = Ok plen ∧ plen <= 32768 ∧
     (length (s_rx (sess st' 0)) < MSG_HEADER_LEN + Z.to_nat plen)%nat).
Proof.
  apply (on_data_consumes_frames 32768 two_acked 0 (MockClient.echo_request 6 ++ [0; 8]) 1000).
  - apply run_reachable, reach_init.
  - vm_compute. reflexivity.
Defined.

(** C32: the bytes of one client cannot touch another client except for its votes:
    identity, lists, timers, buffers and scheduling of every other session are
    unchanged by [on_data]. *)
Theorem on_data_isolates_clients max st slot data now j :
  reachable max st → j ≠ Z.to_nat slot →
  unvoted (sess (on_data slot data now st) j) = unvoted (sess st j).
Proof.
  intros [Hg Hm]%reachable_good Hj. destruct (bad_slot slot st) eqn:Hb.
  - unfold on_data. by rewrite Hb.
  - destruct (on_data_facts slot data now st Hg Hb) as (_ & H & _). by apply H.
Qed.
Lemma on_data_isolates_clients_witness :
  unvoted (sess (on_data 0 [255; 255; 255; 255; 255; 255] 1000 two_acked) 1) = unvoted (sess two_acked 1).
Proof.
  apply (on_data_isolates_clients 32768 two_acked 0 [255; 255; 255; 255; 255; 255] 1000 1).
  - apply run_reachable, reach_init.
  - discriminate.
Defined.

(** ** Timers *)

(** A session that has not reached its deadline. *)
Definition in_time (now : Z) (s : Session) : Prop :=
  s_phase s = FREE ∨ s_deadline_ms s = 0 ∨ now < s_deadline_ms s.

Lemma in_time_unvoted now s s' : unvoted s' = unvoted s → in_time now s → in_time now s'.
Proof.
  intros Hu. unfold in_time. rewrite (unvoted_phase _ _ Hu).
  by rewrite (unvoted_proj s_deadline_ms _ _ (λ _, eq_refl) Hu).
Qed.

Lemma tick_step_in_time now st i : good st →
  let st' := tick_step now st i in
  good st' ∧ in_time now (sess st' i) ∧
  (∀ j, in_time now (sess st j) → in_time now (sess st' j)) ∧
  (∀ j, j ≠ i ∨ in_time now (sess st j) → unvoted (sess st' j) = unvoted (sess st j)) ∧
  (¬ in_time now (sess st i) → sess st' i = Session0).
Proof.
  intros Hg. unfold tick_step. pose proof (good_sched _ Hg i) as Hsd.
  destruct (bool_decide_reflect (s_phase (sess st i) = FREE)) as [Hf|Hf]; cbn [orb].
  { split_and!; try done; [by left|]. intros []. by left. }
  destruct (Z.eqb_spec (s_deadline_ms (sess st i)) 0) as [Hz|Hz]; cbn [orb].
  { split_and!; try done; [by right; left|]. intros []. by right; left. }
  rewrite Hsd. destruct (Z.leb_spec (s_deadline_ms (sess st i)) now) as [Hle|Hlt].
  2: { split_and!; try done; [by right; right|]. intros []. by right; right. }
  destruct (disconnect_now st i Hg Hf) as (_ & H1 & H2 & H3 & _).
  split_and!; [done| | | |done].
  - rewrite H2. by left.
  - intros j Hj. destruct (decide (j = i)) as [->|Hne]; [rewrite H2; by left|].
    apply (in_time_unvoted _ (sess st j)); auto.
  - intros j [Hne|[?|[?|?]]]; [by apply H3|..].
    all: apply H3; intros ->; done || lia.
Qed.

Lemma tick_loop_in_time now l st : good st → NoDup l →
  let st' := foldl (tick_step now) st l in
  good st' ∧ (∀ i, i ∈ l → in_time now (sess st' i)) ∧
  (∀ j, in_time now (sess st j) → unvoted (sess st' j) = unvoted (sess st j)) ∧
  (∀ j, j ∈ l → ¬ in_time now (sess st j) → s_phase (sess st' j) = FREE).
Proof.
  revert st. induction l as [|i l IH]; intros st Hg Hnd.
  { split_and!; [done| |done|]; by intros j ?%not_elem_of_nil. }
  apply NoDup_cons in Hnd as [Hi Hnd]. cbn [foldl].
  destruct (tick_step_in_time now st i Hg) as (A1 & A2 & A3 & A4 & A5).
  destruct (IH _ A1 Hnd) as (B1 & B2 & B3 & B4). set (st1 := tick_step now st i) in *.
  set (st2 := foldl _ st1 l) in *. clearbody st2. split_and!; [done|..].
  - intros j [->|Hj]%elem_of_cons; [|auto]. apply (in_time_unvoted _ (sess st1 i)); auto.
  - intros j Hj. rewrite B3 by auto. apply A4. by right.
  - intros j [->|Hj]%elem_of_cons Hex.
    + rewrite (unvoted_phase _ _ (B3 i A2)), A5 by done. done.
    + apply B4; [done|]. assert (j ≠ i) as Hne by (intros ->; done).
      intros Hin. apply Hex. by apply (in_time_unvoted _ (sess st1 j)); [rewrite A4 by (by left)|].
Qed.

Lemma tick_in_time now st : good st →
  let st' := tick now st in
  good st' ∧ (∀ i, i ∈ slots → in_time now (sess st' i)) ∧
  (∀ j, in_time now (sess st j) → unvoted (sess st' j) = unvoted (sess st j)) ∧
  (∀ j, j ∈ slots → ¬ in_time now (sess st j) → s_phase (sess st' j) = FREE).
Proof. intros Hg. exact (tick_loop_in_time now slots st Hg (NoDup_seq 0 MAX_CLIENTS)). Qed.

(** Dead peer detection.  After [tick] every session that had reached its
    deadline is closed and no session is past its deadline; the sessions within
    their deadline lose nothing but possibly their vote. *)
Theorem tick_closes_expired max st now i :
  reachable max st →
  let expired s := s_phase s ≠ FREE ∧ s_deadline_ms s ≠ 0 ∧ s_deadline_ms s <= now in
  let st' := tick now st in
  ¬ expired (sess st' i) ∧ (expired (sess st i) → s_phase (sess st' i) = FREE) ∧
  (¬ expired (sess st i) → unvoted (sess st' i) = unvoted (sess st i)).
Proof.
  intros [Hg _]%reachable_good expired st'.
  assert (∀ s, ¬ expired s ↔ in_time now s) as Hex.
  { intros s. unfold expired, in_time. destruct (decide (s_phase s = FREE)), (decide (s_deadline_ms s = 0)),
      (decide (s_deadline_ms s <= now)); naive_solver lia. }
  destruct (tick_in_time now st Hg) as (Hg' & H1 & H2 & H3). fold st' in Hg', H1, H2, H3.
  clearbody st'. split_and!.
  - apply Hex. destruct (decide (i < MAX_CLIENTS)%nat) as [Hi|Hi]; [by apply H1, elem_of_slots|].
    left. rewrite sess_out_of_range; [done|by apply (inv_len_sessions _ (good_inv _ Hg'))|lia].
  - intros Hi. apply H3; [|by rewrite <-Hex; intros H].
    apply elem_of_slots. rewrite <-(inv_len_sessions _ (good_inv _ Hg)). apply sess_in_range, Hi.
  - intros Hi. by apply H2, Hex.
Qed.
(** The silent node of the dead-loser scenario. *)
Lemma tick_closes_expired_witness :
  s_deadline_ms (sess two_acked 1) = 13000 ∧ s_phase (sess (tick 14000 two_acked) 1) = FREE.
Proof.
  split; [vm_compute; reflexivity|].
  apply (tick_closes_expired 32768 two_acked 14000 1).
  - apply run_reachable, reach_init.
  - vm_compute. split_and!; discriminate.
Defined.

(** ** Connections *)

Lemma find_first {A} (f : A → bool) (l : list A) x : List.find f l = Some x →
  ∃ l1 l2, l = l1 ++ x :: l2 ∧ f x = true ∧ Forall (λ y, f y = false) l1.
Proof.
  induction l as [|a l IH]; intros H; [done|]. cbn [List.find] in H. destruct (f a) eqn:E.
  - injection H as ->. by exists [], l.
  - destruct (IH H) as (l1 & l2 & -> & Hx & HF). exists (a :: l1), l2. split_and!; [done|done|by constructor].
Qed.

Lemma slots_split l1 i l2 : slots = l1 ++ i :: l2 → ∀ k, (k < i)%nat → k ∈ l1.
Proof.
  intros E k Hk. assert (slots !! length l1 = Some i) as Hi by (rewrite E; by apply list_lookup_middle).
  unfold slots in *. apply lookup_seq in Hi as [Hi Hl]. simpl in Hi. subst i.
  apply list_elem_of_lookup. exists k.
  rewrite <-(lookup_app_l l1 (length l1 :: l2)) by done. rewrite <-E. apply lookup_seq. lia.
Qed.

(** [on_connect] takes the first free slot and sets up a fresh session that
    awaits PREINIT with the handshake timeout; it returns -1 and changes nothing
    exactly when all slots are taken. *)
Theorem on_connect_takes_first_free max st now peer :
  reachable max st →
  let '(slot, st') := on_connect now peer st in
  (slot = -1 ∧ st' = st ∧ ∀ i, (i < MAX_CLIENTS)%nat → s_phase (sess st i) ≠ FREE) ∨
  (∃ i, slot = Z.of_nat i ∧ (i < MAX_CLIENTS)%nat ∧ s_phase (sess st i) = FREE ∧
     (∀ k, (k < i)%nat → s_phase (sess st k) ≠ FREE) ∧
     sess st' i = Session0 <| s_phase := WAIT_PREINIT |> <| s_peer := peer |>
                    <| s_deadline_ms := u64 (now + PREACTIVE_TIMEOUT_MS) |> ∧
     (∀ j, j ≠ i → sess st' j = sess st j) ∧ (∀ c, clus st' c = clus st c)).
Proof.
  intros [[Hinv _ _ _] _]%reachable_good.
  destruct (List.find (λ i, bool_decide (s_phase (sess st i) = FREE)) slots) as [i|] eqn:E.
  - destruct (on_connect_sess now peer st i (inv_len_sessions _ Hinv) E) as (H1 & H2 & H3 & _ & H4 & H5 & H6).
    destruct (on_connect now peer st) as [slot st']. cbn [fst snd] in *. right. exists i. split_and!; try done.
    intros k Hk Hf. destruct (find_first _ _ _ E) as (l1 & l2 & Hs & _ & HF).
    rewrite Forall_forall in HF. specialize (HF k (slots_split _ _ _ Hs k Hk)). bool_to_prop. done.
  - unfold on_connect. rewrite E. left. split_and!; [done..|]. intros i Hi Hf.
    pose proof (List.find_none _ _ E i) as Hn. cbv beta in Hn.
    rewrite bool_decide_eq_true_2 in Hn by done. discriminate Hn. by apply list_elem_of_In, elem_of_slots.
Qed.
Lemma on_connect_takes_first_free_witness :
  let '(slot, st') := on_connect 5000 peer0 two_acked in
  (slot = -1 ∧ st' = two_acked ∧ ∀ i, (i < MAX_CLIENTS)%nat → s_phase (sess two_acked i) ≠ FREE) ∨
  (∃ i, slot = Z.of_nat i ∧ (i < MAX_CLIENTS)%nat ∧ s_phase (sess two_acked i) = FREE ∧
     (∀ k, (k < i)%nat → s_phase (sess two_acked k) ≠ FREE) ∧
     sess st' i = Session0 <| s_phase := WAIT_PREINIT |> <| s_peer := peer0 |>
                    <| s_deadline_ms := u64 (5000 + PREACTIVE_TIMEOUT_MS) |> ∧
     (∀ j, j ≠ i → sess st' j = sess two_acked j) ∧ (∀ c, clus st' c = clus two_acked c)).
Proof. apply (on_connect_takes_first_free 32768 two_acked 5000 peer0). apply run_reachable, reach_init. Defined.

(** A cluster entry without clients is fully reset. *)
Lemma no_clients_reset st c : inv st → (∀ j, in_cluster (sess st j) c = false) → clus st c = Cluster0.
Proof.
  intros Hinv Hno. destruct (decide (0 <= c < Z.of_nat MAX_CLUSTERS)) as [Hc|Hc].
  - pose proof (inv_members _ Hinv c Hc) as Hm. destruct (cl_used (clus st c)); [|done].
    destruct Hm as [_ Hpos]. exfalso. unfold cnt in Hpos.
    destruct (List.filter _ slots) as [|k l] eqn:E; [simpl in Hpos; lia|].
    assert (In k (k :: l)) as Hk by (by left). rewrite <-E in Hk. apply List.filter_In in Hk as [_ Hk].
    by rewrite Hno in Hk.
  - unfold clus. destruct (Z.ltb_spec c 0); [done|].
    rewrite (proj2 (lookup_ge_None _ _)); [done|]. rewrite (inv_len_clusters _ Hinv). lia.
Qed.

Lemma on_disconnected_sess slot st : good st → bad_slot slot st = false →
  let i := Z.to_nat slot in
  let st' := on_disconnected slot st in
  good st' ∧ sess st' i = Session0 ∧ (∀ j, j ≠ i → unvoted (sess st' j) = unvoted (sess st j)).
Proof.
  intros Hg Hb i st'. pose proof Hg as [Hinv Hp Hpe Hsd].
  destruct (bad_slot_false _ _ Hb) as (_ & _ & Hf). fold i in Hf.
  pose proof (on_disconnected_post slot st Hg) as [_ Hg' _]. fold st' in Hg'. split; [done|].
  unfold st' in *. rewrite on_disconnected_eq in * by done. fold i in Hg' |- *.
  destruct (leave_reset_post i (st <| sv_processing := true |>)) as [He Hs0 Hu Hi _]; [by apply inv_processing|done|].
  set (st1 := leave_reset i (st <| sv_processing := true |>)) in *.
  assert (sv_pending_close st1 = []) as Hpe1 by (rewrite (env_pending _ _ He); exact Hpe).
  assert (sched st1) as Hs1.
  { split; [|rewrite Hpe1; apply NoDup_nil_2]. intros j. rewrite Hpe1, elem_of_nil.
    destruct (decide (j = i)) as [->|Hj]; [by rewrite Hs0|].
    rewrite (unvoted_proj s_schedule_disconnect _ _ (λ _, eq_refl) (Hu j Hj)).
    change (sess (st <| sv_processing := true |>) j) with (sess st j). by rewrite Hsd. }
  destruct (drain_closes_post (st1 <| sv_processing := false |>)) as (_ & Hg2 & _ & D4 & _);
    [by apply inv_processing|by apply sched_processing|].
  change (sv_pending_close (st1 <| sv_processing := false |>)) with (sv_pending_close st1) in D4.
  rewrite Hpe1 in D4. set (st2 := drain_closes _) in *.
  assert (∀ j, unvoted (sess st2 j) = unvoted (sess st1 j)) as Hd by (intros j; apply D4, not_elem_of_nil).
  change (sess st2 i = Session0 ∧ (∀ j, j ≠ i → unvoted (sess st2 j) = unvoted (sess st j))). split.
  - apply (so_free _ _ (inv_sess _ (good_inv _ Hg2) i)). by rewrite (unvoted_phase _ _ (Hd i)), Hs0.
  - intros j Hj. rewrite Hd. exact (Hu j Hj).
Qed.

(** C33: [on_disconnected] frees the slot and nothing else: the session is reset,
    the other sessions keep everything but their votes, and the cluster entry of
    the last client is released. *)
Theorem on_disconnected_frees_slot max st slot :
  reachable max st → bad_slot slot st = false →
  let i := Z.to_nat slot in
  let c := s_cluster (sess st i) in
  let st' := on_disconnected slot st in
  sess st' i = Session0 ∧ (∀ j, j ≠ i → unvoted (sess st' j) = unvoted (sess st j)) ∧
  ((∀ j, j ≠ i → in_cluster (sess st j) c = false) → clus st' c = Cluster0).
Proof.
  intros [Hg _]%reachable_good Hb i c st'. destruct (on_disconnected_sess slot st Hg Hb) as (Hg' & H0 & Hu).
  split_and!; [done|done|]. intros Hlast. apply no_clients_reset; [by apply good_inv|]. intros j.
  destruct (decide (j = i)) as [->|Hj]; [unfold st', i; by rewrite H0|].
  unfold st'. rewrite (unvoted_in_cluster _ _ c (Hu j Hj)). by apply Hlast.
Qed.
Lemma on_disconnected_frees_slot_witness :
  sess (on_disconnected 0 two_acked) 0 = Session0 ∧
  (∀ j, j ≠ 0%nat → unvoted (sess (on_disconnected 0 two_acked) j) = unvoted (sess two_acked j)).
Proof.
  destruct (on_disconnected_frees_slot 32768 two_acked 0) as (H1 & H2 & _).
  - apply run_reachable, reach_init.
  - vm_compute. reflexivity.
  - split; [exact H1|exact H2].
Defined.

(** ** Admission *)

(** C19: INIT of a client that is not yet active is answered once, with a code, and
    that code tells what happened.  NO_ERROR: all required options were present
    and valid, the client is now active in the cluster entry of its cluster
    name, and every other active client of that cluster name has the same
    tie-breaker and another node id.  Any other code: the client is not active
    and no cluster entry changed.  No other session changes. *)
Theorem init_admission slot m now st :
  inv st → s_phase (sess st slot) ≠ FREE → s_phase (sess st slot) ≠ ACTIVE →
  let st' := handle_init slot m now st in
  ∃ code, sv_out st' = sv_out st ++
      [ESend slot (build_init_reply (m_seq_number_set m) (m_seq_number m) code
         (m_supported_messages_present m) (m_supported_options_present m)
         (sv_max_rx_frame st) (sv_max_rx_frame st)); ENotify] ∧
    (∀ j, j ≠ slot → sess st' j = sess st j) ∧
    (code = ERR_NO_ERROR →
       m_node_id_set m = true ∧ m_ring_id_set m = true ∧ m_heartbeat_interval_set m = true ∧
       m_tie_breaker_set m = true ∧ m_decision_algorithm m = ALG_FFSPLIT ∧
       HEARTBEAT_MIN_MS <= m_heartbeat_interval m <= HEARTBEAT_MAX_MS ∧
       s_phase (sess st' slot) = ACTIVE ∧ s_node_id (sess st' slot) = m_node_id m ∧
       cl_used (clus st' (s_cluster (sess st' slot))) = true ∧
       cl_name (clus st' (s_cluster (sess st' slot))) = s_cluster_name (sess st slot) ∧
       ∀ j, j ≠ slot → s_phase (sess st j) = ACTIVE → s_cluster_name (sess st j) = s_cluster_name (sess st slot) →
         s_node_id (sess st j) ≠ m_node_id m ∧
         TieBreaker_eqb (m_tie_breaker m) (s_tie_breaker (sess st j)) = true) ∧
    (code ≠ ERR_NO_ERROR →
       s_phase (sess st' slot) = s_phase (sess st slot) ∧ ∀ c, clus st' c = clus st c).
Proof.
  intros Hinv Hf Ha st'. destruct (handle_init_cases slot m now st Hinv Hf) as (code & st2 & Hst' & Hcases).
  set (s' := (init_fields m (sess st slot)).2) in *. set (st1 := upd_sess slot (λ _, s') st) in *.
  assert (sess st1 slot = s') as Es by (by apply sess_upd_eq).
  assert (∀ j, j ≠ slot → sess st1 j = sess st j) as Ene by (intros; by apply sess_upd_ne).
  pose proof (init_frame_eqs _ _ (init_fields_frame m (sess st slot))) as (Ep & _ & En & _). fold s' in Ep, En.
  exists code. unfold st'. rewrite Hst'. destruct Hcases as [[Hc ->]|(-> & Hfl & Hco & c & Hj)].
  { split_and!; [cbn; by rewrite <-app_assoc|exact Ene|by intros E|]. intros _.
    split; [|done]. change (s_phase (sess st1 slot) = s_phase (sess st slot)). by rewrite Es. }
  destruct (init_fields_no_error m (sess st slot) Hfl) as (_ & M1 & M2 & M3 & M4 & _ & M6 & Hhb & Hs').
  fold s' in Hhb, Hs'. destruct (joined_sess_fields c now s') as (J1 & J2 & _ & J4 & _).
  pose proof (jn_slot _ _ _ _ _ Hj) as Hjs. rewrite Es in Hjs.
  assert (s_node_id s' = m_node_id m ∧ s_tie_breaker s' = m_tie_breaker m ∧
          s_heartbeat_ms s' = m_heartbeat_interval m) as (N1 & N2 & N3) by (by rewrite Hs').
  split_and!; [| |intros _|by intros []].
  - cbn. rewrite (jn_out _ _ _ _ _ Hj). by rewrite <-app_assoc.
  - intros j Hne. change (sess st2 j = sess st j). rewrite (jn_other _ _ _ _ _ Hj) by done. auto.
  - change (m_node_id_set m = true ∧ m_ring_id_set m = true ∧ m_heartbeat_interval_set m = true ∧
      m_tie_breaker_set m = true ∧ m_decision_algorithm m = ALG_FFSPLIT ∧
      HEARTBEAT_MIN_MS <= m_heartbeat_interval m <= HEARTBEAT_MAX_MS ∧
      s_phase (sess st2 slot) = ACTIVE ∧ s_node_id (sess st2 slot) = m_node_id m ∧
      cl_used (clus st2 (s_cluster (sess st2 slot))) = true ∧
      cl_name (clus st2 (s_cluster (sess st2 slot))) = s_cluster_name (sess st slot) ∧
      ∀ j, j ≠ slot → s_phase (sess st j) = ACTIVE → s_cluster_name (sess st j) = s_cluster_name (sess st slot) →
        s_node_id (sess st j) ≠ m_node_id m ∧
        TieBreaker_eqb (m_tie_breaker m) (s_tie_breaker (sess st j)) = true).
    rewrite Hjs, J1, J2, J4, (jn_clus _ _ _ _ _ Hj), Es. unfold hb_ok in Hhb. rewrite N3 in Hhb.
    destruct (jn_range _ _ _ _ _ Hj) as [R1 R2].
    split_and!; try done; try apply Hhb.
    + unfold joined_cluster. by destruct (cl_used (clus st1 c)) eqn:E.
    + unfold joined_cluster. destruct (cl_used (clus st1 c)) eqn:E; [|by rewrite En].
      simpl. rewrite <-En. rewrite (proj2 (jn_name _ _ _ _ _ Hj c (conj R1 R2) E) eq_refl). by rewrite Es.
    + intros j Hne Hact Hname.
      destruct (init_consistency_ok st1 slot slots Hco j) as (K1 & K2 & _).
      * apply elem_of_slots. rewrite <-(inv_len_sessions _ Hinv). apply sess_in_range. by rewrite Hact.
      * done.
      * by rewrite Ene.
      * by rewrite (Ene j), Es, En by done.
      * rewrite (Ene j), Es, N1 in K1 by done. rewrite (Ene j), Es, N2 in K2 by done. auto.
Qed.
(** Node 3 joins the two nodes of [two_acked]. *)
Definition joining : Server :=
  (run two_acked [EvConnect 3000 peer0; EvData 2 (MockClient.preinit 1 tc) 3000]).
Definition init_msg : MsgDecoded :=
  MsgDecoded0 <| m_type := MT_INIT |> <| m_seq_number_set := true |> <| m_seq_number := 2 |>
    <| m_node_id_set := true |> <| m_node_id := 3 |> <| m_ring_id_set := true |> <| m_ring_id := ring0 |>
    <| m_heartbeat_interval_set := true |> <| m_heartbeat_interval := 8000 |>
    <| m_tie_breaker_set := true |> <| m_tie_breaker := TieBreaker0 |>
    <| m_decision_algorithm_set := true |> <| m_decision_algorithm := ALG_FFSPLIT |>.
Lemma init_admission_witness :
  s_phase (sess joining 2) = WAIT_INIT ∧ s_phase (sess (handle_init 2 init_msg 3000 joining) 2) = ACTIVE ∧
  ∀ j, j ≠ 2%nat → sess (handle_init 2 init_msg 3000 joining) j = sess joining j.
Proof.
  split; [vm_compute; reflexivity|]. split; [vm_compute; reflexivity|].
  destruct (init_admission 2 init_msg 3000 joining) as (code & _ & H & _).
  - apply good_inv, (reachable_good 32768). apply run_reachable, run_reachable, reach_init.
  - vm_compute. discriminate.
  - vm_compute. discriminate.
  - exact H.
Defined.

(** ** Memory *)

(** A buffer between calls: less than the largest frame. *)
Definition rx_bounded (max : Z) (s : Session) : Prop := Z.of_nat (length (s_rx s)) < Z.of_nat MSG_HEADER_LEN + max.

Lemma rx_bounded0 max : 0 <= max → rx_bounded max Session0.
Proof. unfold rx_bounded, MSG_HEADER_LEN. cbn. lia. Qed.
Lemma rx_bounded_unvoted max s s' : unvoted s' = unvoted s → rx_bounded max s → rx_bounded max s'.
Proof. intros Hu. unfold rx_bounded. by rewrite (unvoted_proj s_rx _ _ (λ _, eq_refl) Hu). Qed.
Lemma rx_bounded_rest max s : 0 <= max → no_full_frame max (s_rx s) → rx_bounded max s.
Proof. intros Hm [Hl|(plen & _ & Hle & Hl)]; unfold rx_bounded, MSG_HEADER_LEN in *; lia. Qed.

Lemma exec_rx_bounded e st i : good st → 0 <= sv_max_rx_frame st →
  rx_bounded (sv_max_rx_frame st) (sess st i) → rx_bounded (sv_max_rx_frame st) (sess (exec st e) i).
Proof.
  intros Hg Hm Hi. destruct e as [now peer|slot data now|slot|now]; cbn [exec].
  - destruct (List.find (λ i, bool_decide (s_phase (sess st i) = FREE)) slots) as [k|] eqn:E.
    + destruct (on_connect_sess now peer st k (inv_len_sessions _ (good_inv _ Hg)) E) as (_ & _ & _ & _ & _ & Hk & H).
      destruct (decide (i = k)) as [->|Hne]; [rewrite Hk; by apply rx_bounded0|by rewrite H].
    + unfold on_connect. by rewrite E.
  - destruct (bad_slot slot st) eqn:Hb; [unfold on_data; by rewrite Hb|].
    destruct (on_data_facts slot data now st Hg Hb) as (_ & H & Hs).
    destruct (decide (i = Z.to_nat slot)) as [->|Hne]; [|by apply (rx_bounded_unvoted _ (sess st i)); [apply H|]].
    destruct Hs as [->|[Hn _]]; [by apply rx_bounded0|by apply rx_bounded_rest].
  - destruct (bad_slot slot st) eqn:Hb; [unfold on_disconnected; by rewrite Hb|].
    destruct (on_disconnected_sess slot st Hg Hb) as (_ & H0 & H).
    destruct (decide (i = Z.to_nat slot)) as [->|Hne]; [rewrite H0; by apply rx_bounded0|].
    by apply (rx_bounded_unvoted _ (sess st i)); [apply H|].
  - destruct (tick_in_time now st Hg) as (Hg' & _ & Hin & Hex). set (st' := tick now st) in *. clearbody st'.
    destruct (decide (s_phase (sess st' i) = FREE)) as [Hf|Hf].
    { rewrite (so_free _ _ (inv_sess _ (good_inv _ Hg') i) Hf). by apply rx_bounded0. }
    apply (rx_bounded_unvoted _ (sess st i)); [|done]. apply Hin. unfold in_time.
    destruct (decide (s_deadline_ms (sess st i) = 0)) as [|Hz]; [by right; left|].
    destruct (decide (now < s_deadline_ms (sess st i))) as [|Hle]; [by right; right|]. exfalso. apply Hf, Hex.
    + apply elem_of_slots. rewrite <-(inv_len_sessions _ (good_inv _ Hg')). by apply sess_in_range.
    + intros [Hi0|[|]]; [|done|lia]. apply Hf. rewrite (unvoted_phase _ _ (Hin i (or_introl Hi0))). done.
Qed.

(** C20: the receive buffers are bounded.  Between calls no session holds more than
    an incomplete frame of at most [max_rx_frame] bytes of payload, however much
    its client has sent and in whatever pieces, so the buffers of all clients
    together stay below [MAX_CLIENTS] largest frames. *)
Theorem receive_buffers_bounded max st :
  0 <= max → reachable max st →
  (∀ i, Z.of_nat (length (s_rx (sess st i))) < Z.of_nat MSG_HEADER_LEN + max) ∧
  Z.of_nat (list_sum (length ∘ s_rx <$> sv_sessions st)) <= Z.of_nat MAX_CLIENTS * (Z.of_nat MSG_HEADER_LEN + max).
Proof.
  intros Hm Hr.
  assert (∀ i, rx_bounded max (sess st i)) as H.
  { induction Hr as [|st e Hr IH]; intros i.
    - assert (sess (Server0 max) i = Session0) as ->; [|by apply rx_bounded0]. unfold sess. cbn [Server0 sv_sessions].
      destruct (_ !! i) eqn:E; [|done]. by apply lookup_replicate in E as [-> _].
    - destruct (reachable_good _ _ Hr) as [Hg Hmax]. rewrite <-Hmax in *. by apply exec_rx_bounded. }
  split; [exact H|]. destruct (reachable_good _ _ Hr) as [Hg _].
  rewrite <-(inv_len_sessions _ (good_inv _ Hg)).
  assert (Forall (rx_bounded max) (sv_sessions st)) as HF.
  { apply Forall_lookup. intros i s Hs. specialize (H i). unfold sess in H. by rewrite Hs in H. }
  clear -HF. induction HF as [|s l Hs _ IH]; [cbn; lia|].
  change (list_sum (length ∘ s_rx <$> s :: l)) with (length (s_rx s) + list_sum (length ∘ s_rx <$> l))%nat.
  cbn [length]. unfold rx_bounded in Hs. lia.
Qed.
Lemma receive_buffers_bounded_witness :
  length (s_rx (sess (on_data 0 [0; 8; 0; 0; 128] 1000 two_acked) 0)) = 5%nat ∧
  Z.of_nat (length (s_rx (sess (on_data 0 [0; 8; 0; 0; 128] 1000 two_acked) 0))) < 6 + 32768.
Proof.
  split; [vm_compute; reflexivity|].
  apply (receive_buffers_bounded 32768 (on_data 0 [0; 8; 0; 0; 128] 1000 two_acked)).
  - discriminate.
  - exact (run_reachable 32768 two_acked [EvData 0 [0; 8; 0; 0; 128] 1000] (run_reachable _ _ _ (reach_init 32768))).
Defined.
