(* ===== verification/Deadlines.v ===== *)
(** * Dead peer detection

    Deadlines over executions: a client is given up one and a half heartbeats
    after its last data - not later, if the embedder ticks, and not earlier,
    whatever the other clients do meanwhile.  The timeout of the handshake is
    restarted by any data, so it does not bound the handshake. *)
From S2P Require Import Prelude Double Wire Tlv Msg State Ffsplit Select Handlers Lifecycle Invariant.
From S2P Require Import HandlerFacts InitFacts Safety Scenarios Shift Chunks Delivery Outputs Calls.
From stdpp Require Import gmap.
Open Scope Z_scope.

(** Events that are not about client [i]: calls for other clients, new
    connections, and ticks before its deadline. *)
Definition spares (i : nat) (deadline : Z) (e : Event) : Prop :=
  match e with
  | EvConnect _ _ => True
  | EvData slot _ _ | EvDisconnected slot => slot ≠ Z.of_nat i
  | EvTick now => now < deadline
  end.
#[export] Instance spares_dec i deadline e : Decision (spares i deadline e).
Proof. destruct e; cbn [spares]; apply _. Defined.

Lemma exec_good st e : good st → good (exec st e).
Proof.
  intros Hg. destruct e as [now peer|slot data now|slot|now].
  - apply (cp_good _ _ _ (on_connect_post now peer st Hg)).
  - apply (cp_good _ _ _ (on_data_post slot data now st Hg)).
  - apply (cp_good _ _ _ (on_disconnected_post slot st Hg)).
  - apply (cp_good _ _ _ (tick_post now st Hg)).
Qed.

(** They leave the session alone, up to its votes. *)
Lemma exec_spares i st e : good st → s_phase (sess st i) ≠ FREE → spares i (s_deadline_ms (sess st i)) e →
  unvoted (sess (exec st e) i) = unvoted (sess st i).
Proof.
  intros Hg Hf. destruct e as [now peer|slot data now|slot|now]; cbn [spares exec].
  - intros _. destruct (List.find (λ i, bool_decide (s_phase (sess st i) = FREE)) slots) as [k|] eqn:E.
    + destruct (on_connect_sess now peer st k (inv_len_sessions _ (good_inv _ Hg)) E) as (_ & _ & Hk & _ & _ & _ & H).
      rewrite H; [done|]. by intros ->.
    + unfold on_connect. by rewrite E.
  - intros Hs. destruct (bad_slot slot st) eqn:Hb; [unfold on_data; by rewrite Hb|].
    destruct (bad_slot_false _ _ Hb) as (_ & H0 & _). apply (on_data_facts slot data now st Hg Hb). lia.
  - intros Hs. destruct (bad_slot slot st) eqn:Hb; [unfold on_disconnected; by rewrite Hb|].
    destruct (bad_slot_false _ _ Hb) as (_ & H0 & _). apply (on_disconnected_sess slot st Hg Hb). lia.
  - intros Ht. apply (tick_in_time now st Hg). right. by right.
Qed.

Lemma run_spares i es st : good st → s_phase (sess st i) ≠ FREE → Forall (spares i (s_deadline_ms (sess st i))) es →
  good (run st es) ∧ unvoted (sess (run st es) i) = unvoted (sess st i).
Proof.
  revert st. induction es as [|e es IH]; intros st Hg Hf Hes; [done|].
  apply Forall_cons in Hes as [He Hes]. pose proof (exec_spares i st e Hg Hf He) as Hu.
  destruct (IH (exec st e)) as [H1 H2].
  - by apply exec_good.
  - by rewrite (unvoted_phase _ _ Hu).
  - by rewrite (unvoted_proj s_deadline_ms _ _ (λ _, eq_refl) Hu).
  - split; [exact H1|]. change (run st (e :: es)) with (run (exec st e) es). by rewrite H2.
Qed.

(** A connection that is no longer open was closed. *)
Lemma follows_closes o es o' i : follows o es = Some o' → i ∈ o → i ∉ o' → EClose i ∈ es.
Proof.
  revert o. induction es as [|e es IH]; intros o; cbn [follows]; [by intros [= ->]|].
  intros [o1 [Ha Hf]]%bind_Some Hi Hn. destruct (decide (i ∈ o1)) as [H1|H1].
  - apply list_elem_of_further. by eapply IH.
  - destruct e as [k f|k|]; cbn [allowed] in Ha; [case_decide; simplify_eq; done| |by simplify_eq].
    case_decide; simplify_eq. destruct (decide (k = i)) as [->|Hk]; [apply list_elem_of_here|].
    destruct H1. apply elem_of_difference. rewrite elem_of_singleton. auto.
Qed.

(** A tick at the deadline closes the session and its connection. *)
Lemma tick_closes i now st : good st → s_phase (sess st i) ≠ FREE → s_deadline_ms (sess st i) ≠ 0 →
  s_deadline_ms (sess st i) <= now →
  sess (tick now st) i = Session0 ∧ EClose i ∈ outputs st (tick now st).
Proof.
  intros Hg Hf Hz Hle. destruct (tick_in_time now st Hg) as (Hg' & _ & _ & H).
  pose proof (inv_len_sessions _ (good_inv _ Hg)) as Hlen. pose proof (inv_len_sessions _ (good_inv _ Hg')) as Hlen'.
  assert (s_phase (sess (tick now st) i) = FREE) as H0.
  { apply H; [apply elem_of_slots; rewrite <-Hlen; by apply sess_in_range|]. intros [|[|]]; [done|done|lia]. }
  split; [by apply (so_free _ _ (inv_sess _ (good_inv _ Hg') i))|].
  destruct (tick_speaks now st Hg) as [_ Hsp]. apply (follows_closes _ _ _ _ Hsp).
  - by apply live_elem.
  - rewrite live_elem by done. auto.
Qed.

(** C13: dead peers are detected on time.  Let an active client be heard at time
    [now], and let its heartbeat interval then be [hb].  Whatever happens for
    other clients, and however often the embedder ticks before [now + 1.5 hb],
    the client keeps its session and its deadline; the first tick at or after
    that time resets the session and closes the connection. *)
Theorem dead_peer_detected max st slot data now es now' :
  reachable max st → bad_slot slot st = false →
  let i := Z.to_nat slot in
  let st1 := on_data slot data now st in
  let limit := now + 3 * s_heartbeat_ms (sess st1 i) / 2 in
  s_phase (sess st1 i) = ACTIVE → 0 <= now → limit < 2 ^ 64 → Forall (spares i limit) es →
  let st2 := run st1 es in
  unvoted (sess st2 i) = unvoted (sess st1 i) ∧ s_deadline_ms (sess st2 i) = limit ∧
  (limit <= now' → sess (tick now' st2) i = Session0 ∧ EClose i ∈ outputs st2 (tick now' st2)).
Proof.
  intros [Hg _]%reachable_good Hb i st1 limit Ha Hnow Hlim Hes st2.
  assert (good st1) as Hg1 by (by apply on_data_good).
  assert (s_phase (sess st1 i) ≠ FREE) as Hf1 by (by rewrite Ha).
  assert (HEARTBEAT_MIN_MS <= s_heartbeat_ms (sess st1 i) <= HEARTBEAT_MAX_MS) as Hhb.
  { by destruct (so_active _ _ (inv_sess _ (good_inv _ Hg1) i) Ha) as (_ & _ & _ & ? & _). }
  unfold HEARTBEAT_MIN_MS, HEARTBEAT_MAX_MS in Hhb.
  assert (s_deadline_ms (sess st1 i) = limit) as Hd.
  { pose proof (on_data_fresh slot data now st Hg Hb Hf1) as [Hfr _]%fresh_iff. fold i st1 in Hfr.
    rewrite Hfr by (done || lia). rewrite dpd_interval_half by (unfold is_u32; lia). cbn [default]. apply u64_id.
    unfold is_u64. pose proof (Z.div_pos (3 * s_heartbeat_ms (sess st1 i)) 2). unfold limit in *. lia. }
  rewrite <-Hd in Hes. destruct (run_spares i es st1 Hg1 Hf1 Hes) as [Hg2 Hu]. fold st2 in Hg2, Hu.
  assert (s_deadline_ms (sess st2 i) = limit) as Hd2 by (by rewrite (unvoted_proj s_deadline_ms _ _ (λ _, eq_refl) Hu)).
  split_and!; [done|done|]. intros Hle. apply tick_closes; [done|by rewrite (unvoted_phase _ _ Hu)| |lia].
  rewrite Hd2. pose proof (Z.div_le_lower_bound (3 * s_heartbeat_ms (sess st1 i)) 2 1). unfold limit. lia.
Qed.
(** Node 4 answers at 7500 and falls silent; node 2 and the clock go on. *)
Lemma dead_peer_detected_witness :
  let st1 := on_data 0 (MockClient.echo_request 6) 7500 two_acked in
  let es := [EvTick 10000; EvData 1 (MockClient.echo_request 6) 12000; EvTick 19499] in
  let st2 := run st1 es in
  s_phase (sess st2 0) = ACTIVE ∧ s_deadline_ms (sess st2 0) = 19500 ∧
  sess (tick 19500 st2) 0 = Session0.
Proof.
  cbv zeta. set (es := [_; _; _]).
  destruct (dead_peer_detected 32768 two_acked 0 (MockClient.echo_request 6) 7500 es 19500) as (_ & H2 & H3).
  - exact (run_reachable _ _ _ (reach_init 32768)).
  - vm_compute. reflexivity.
  - vm_compute. reflexivity.
  - discriminate.
  - vm_compute. reflexivity.
  - apply (bool_decide_unpack _). vm_compute. exact I.
  - split; [vm_compute; reflexivity|]. split; [vm_compute; reflexivity|]. apply H3. vm_compute. discriminate.
Defined.

(** ** The handshake *)

(** Before INIT. *)
Definition in_handshake (s : Session) : Prop := s_phase s = WAIT_PREINIT ∨ s_phase s = WAIT_INIT.
Lemma in_handshake_not_free s : in_handshake s → s_phase s ≠ FREE.
Proof. intros [E|E]; by rewrite E. Qed.

(** A frame that is out of place in the handshake, an ECHO_REQUEST: it is answered
    with an error. *)
Section early.
Context (i : nat) (f : Frame) (m : MsgDecoded) (plen : Z).
Context (Hf : is_frame f 8 plen) (Hd : frame_decode f = Ok m).

Lemma early_handled now st : in_handshake (sess st i) →
  ∃ code, handled i f 8 now st = send_err i m code (received i f now st).
Proof using Hf Hd.
  intros Hh. pose proof Hd as Hd'. unfold frame_decode in Hd'. rewrite (fr_type _ _ _ Hf), outcome_bind_ok in Hd'.
  unfold handled, handle_frame. rewrite Hd'. change (MsgType_of_Z 8) with MT_ECHO_REQUEST. unfold dispatch.
  rewrite received_sess, decide_True, dpd_phase by (done || by apply in_handshake_not_free).
  change (s_phase ((sess st i) <| s_rx ::= λ rx, rx ++ f |>)) with (s_phase (sess st i)). destruct Hh as [-> | ->]; by eexists.
Qed.

Lemma early_sess now st : good st → in_handshake (sess st i) → s_rx (sess st i) = [] → plen <= sv_max_rx_frame st →
  sess (on_data (Z.of_nat i) f now st) i =
    (reschedule_dpd now ((sess st i) <| s_rx ::= λ rx, rx ++ f |>)) <| s_rx ::= drop (length f) |>.
Proof using Hf Hd.
  intros Hg Hh Hrx Hmax. pose proof (in_handshake_not_free _ Hh) as Hfr.
  destruct (early_handled now st Hh) as [code Ed].
  assert (sess (received i f now st) i = reschedule_dpd now ((sess st i) <| s_rx ::= λ rx, rx ++ f |>)) as Er
    by (by rewrite received_sess, decide_True).
  rewrite (frame_delivered i f 8 plen now st Hg Hfr Hrx Hf Hmax); rewrite Ed; unfold send_err, send.
  - set (st1 := emit _ (received i f now st)).
    change (sess (upd_sess i (λ s, s <| s_rx ::= drop (length f) |>) st1) i =
      (reschedule_dpd now ((sess st i) <| s_rx ::= λ rx, rx ++ f |>)) <| s_rx ::= drop (length f) |>).
    rewrite sess_upd_eq; unfold st1; rewrite sess_emit, Er; [done|]. by rewrite dpd_phase.
  - rewrite sess_emit, Er. pose proof (good_sched _ Hg i). unfold reschedule_dpd. by repeat case_match.
Qed.

Lemma early_delivered now st : good st → in_handshake (sess st i) → s_rx (sess st i) = [] → plen <= sv_max_rx_frame st →
  let s' := sess (on_data (Z.of_nat i) f now st) i in
  s_phase s' = s_phase (sess st i) ∧ s_rx s' = [] ∧ s_deadline_ms s' = u64 (now + PREACTIVE_TIMEOUT_MS).
Proof using Hf Hd.
  intros Hg Hh Hrx Hmax s'. pose proof (in_handshake_not_free _ Hh) as Hfr. unfold s'. rewrite early_sess by done.
  set (s0 := (sess st i) <| s_rx ::= λ rx, rx ++ f |>).
  assert (s_phase s0 = s_phase (sess st i)) as E0 by done. assert (s_rx s0 = f) as E1 by (cbn; by rewrite Hrx).
  split_and!.
  - exact (eq_trans (dpd_phase now s0) E0).
  - change (drop (length f) (s_rx (reschedule_dpd now s0)) = []). by rewrite rx_dpd, E1, drop_all.
  - change (s_deadline_ms (reschedule_dpd now s0) = u64 (now + PREACTIVE_TIMEOUT_MS)). unfold reschedule_dpd. rewrite E0.
    by destruct Hh as [-> | ->].
Qed.
End early.

(** Rounds of events that spare the client, each ended by the frame. *)
Abbreviation Rounds := (list (list Event * Z)).
Definition drip (i : nat) (f : Frame) (rs : Rounds) : list Event := rs ≫= λ r, r.1 ++ [EvData (Z.of_nat i) f r.2].
Fixpoint paced (i : nat) (deadline : Z) (rs : Rounds) : Prop :=
  match rs with
  | [] => True
  | (es, t) :: rs => Forall (spares i deadline) es ∧ 0 <= t ∧ t + PREACTIVE_TIMEOUT_MS < 2 ^ 64 ∧
      paced i (t + PREACTIVE_TIMEOUT_MS) rs
  end.

Lemma run_max es st : good st → sv_max_rx_frame (run st es) = sv_max_rx_frame st.
Proof.
  revert st. induction es as [|e es IH]; intros st Hg; [done|]. change (run st (e :: es)) with (run (exec st e) es).
  rewrite IH by (by apply exec_good). apply (cp_max _ _ _ (exec_post st e Hg)).
Qed.

Lemma drip_kept i f m plen rs st : is_frame f 8 plen → frame_decode f = Ok m → plen <= sv_max_rx_frame st →
  good st → in_handshake (sess st i) → s_rx (sess st i) = [] → paced i (s_deadline_ms (sess st i)) rs →
  s_phase (sess (run st (drip i f rs)) i) = s_phase (sess st i).
Proof.
  intros Hf Hd. revert st. induction rs as [|[es t] rs IH]; intros st Hmax Hg Hh Hrx Hp; [done|].
  destruct Hp as (Hes & H0 & H64 & Hp). destruct (run_spares i es st Hg (in_handshake_not_free _ Hh) Hes) as [Hg1 Hu].
  change (drip i f ((es, t) :: rs)) with ((es ++ [EvData (Z.of_nat i) f t]) ++ drip i f rs). rewrite !run_app.
  change (run (run st es) [EvData (Z.of_nat i) f t]) with (on_data (Z.of_nat i) f t (run st es)).
  pose proof (run_max es st Hg) as Hm1. set (st1 := run st es) in *.
  pose proof (unvoted_phase _ _ Hu) as Ep. pose proof (unvoted_proj s_rx _ _ (λ _, eq_refl) Hu) as Erx.
  assert (in_handshake (sess st1 i)) as Hh1 by (unfold in_handshake; by rewrite Ep).
  destruct (early_delivered i f m plen Hf Hd t st1 Hg1 Hh1) as (P1 & P2 & P3); [congruence|lia|].
  rewrite IH; [congruence| |by apply on_data_good|unfold in_handshake; by rewrite P1|done|].
  - rewrite (cp_max _ _ _ (on_data_post (Z.of_nat i) f t st1 Hg1)). lia.
  - rewrite P3, u64_id; [exact Hp|]. unfold is_u64, PREACTIVE_TIMEOUT_MS in *. lia.
Qed.

(** A frame every 29999 ms, with a tick just before it, [n] times from [t]. *)
Fixpoint every_29999 (t : Z) (n : nat) : Rounds :=
  match n with O => [] | S n => ([EvTick t], t) :: every_29999 (t + 29999) n end.
Lemma every_paced i t n : 0 <= t → t + 30000 * (Z.of_nat n + 1) < 2 ^ 64 → paced i (t + 1) (every_29999 t n).
Proof.
  assert (∀ d, t < d → 0 <= t → t + 30000 * (Z.of_nat n + 1) < 2 ^ 64 → paced i d (every_29999 t n)) as H; [|apply H; lia].
  revert t. induction n as [|n IH]; intros t d Hd H0 H64; [done|]. cbn [every_29999 paced]. unfold PREACTIVE_TIMEOUT_MS.
  split_and!; [by constructor|done|lia|]. apply IH; lia.
Qed.

(** C38: the handshake timeout restarts with any data, so it bounds the silence of
    a client and not the length of its handshake.  Whatever data a client sends, if
    its session is before INIT afterwards, its deadline is [PREACTIVE_TIMEOUT_MS]
    after this data.  A client that has nothing half-read and sends any
    ECHO_REQUEST now and then, between which anything may happen for other clients
    and the clock may tick before the current deadline, stays in its handshake
    phase for ever; in particular with a frame every 29999 ms, for any number [n]
    of them. *)
Theorem handshake_timeout_restarts max st i f m plen :
  reachable max st → bad_slot (Z.of_nat i) st = false → is_frame f 8 plen → frame_decode f = Ok m → plen <= max →
  (∀ data now, in_handshake (sess (on_data (Z.of_nat i) data now st) i) →
     s_deadline_ms (sess (on_data (Z.of_nat i) data now st) i) = u64 (now + PREACTIVE_TIMEOUT_MS)) ∧
  (in_handshake (sess st i) → s_rx (sess st i) = [] →
     (∀ rs, paced i (s_deadline_ms (sess st i)) rs → s_phase (sess (run st (drip i f rs)) i) = s_phase (sess st i)) ∧
     (∀ n t, t + 1 = s_deadline_ms (sess st i) → 0 <= t → t + 30000 * (Z.of_nat n + 1) < 2 ^ 64 →
        s_phase (sess (run st (drip i f (every_29999 t n))) i) = s_phase (sess st i))).
Proof.
  intros [Hg Hm]%reachable_good Hb Hf Hd Hmax. split.
  - intros data now Hh. pose proof (on_data_fresh (Z.of_nat i) data now st Hg Hb) as Hfr. cbv zeta in Hfr. rewrite Nat2Z.id in Hfr.
    specialize (Hfr (in_handshake_not_free _ Hh)). apply fresh_iff in Hfr as [_ Hfr]. by apply Hfr.
  - intros Hh Hrx. split; [intros rs Hp|intros n t Ht H0 H64]; (eapply drip_kept; [done|done|by rewrite Hm|done..|]); [done|].
    rewrite <-Ht. by apply every_paced.
Qed.
(** A client that connected at time 0 and sends an ECHO_REQUEST every 29999 ms, a
    thousand times, still has its slot after more than eight hours. *)
Lemma handshake_timeout_restarts_witness :
  let st := run (Server0 32768) [EvConnect 0 peer0] in
  s_deadline_ms (sess st 0) = 30000 ∧
  s_phase (sess (run st (drip 0 (MockClient.echo_request 1) (every_29999 29999 1000))) 0) = WAIT_PREINIT.
Proof.
  cbv zeta. split; [vm_compute; reflexivity|].
  refine (eq_trans (proj2 (proj2 (handshake_timeout_restarts 32768 (run (Server0 32768) [EvConnect 0 peer0]) 0
    (MockClient.echo_request 1) _ 8 _ _ _ _ _) _ _) 1000%nat 29999 _ _ _) _).
  - apply run_reachable, reach_init.
  - vm_compute. reflexivity.
  - split; vm_compute; reflexivity.
  - vm_compute. reflexivity.
  - discriminate.
  - left. vm_compute. reflexivity.
  - vm_compute. reflexivity.
  - vm_compute. reflexivity.
  - lia.
  - lia.
  - vm_compute. reflexivity.
Defined.
