(* ===== verification/Status.v ===== *)
(** * The status line (msg.cpp 266-324, server.cpp 798-817)

    The text the introspection interface publishes: names of votes and message
    types, the decimal node ids printed by [snprintf], and [status_string]. *)
From Stdlib Require Import String Ascii.
From S2P Require Import Prelude Wire Tlv Msg State Ffsplit Select Handlers Lifecycle Invariant.
From S2P Require Import HandlerFacts InitFacts VoteOrder Safety Scenarios Correctness.

(** A string literal as bytes. *)
Definition str (s : string) : bytes := (λ a, Z.of_N (N_of_ascii a)) <$> list_ascii_of_string s.

Definition vote_str (v : Vote) : bytes :=
  match v with
  | VOTE_UNDEFINED => str "undef"
  | VOTE_ACK => str "ACK"
  | VOTE_NACK => str "NACK"
  | VOTE_ASK_LATER => str "ask-later"
  | VOTE_WAIT_FOR_REPLY => str "wait"
  | VOTE_NO_CHANGE => str "no-change"
  end.

Definition msg_type_str (t : MsgType) : bytes :=
  match t with
  | MT_PREINIT => str "preinit"
  | MT_PREINIT_REPLY => str "preinit-reply"
  | MT_STARTTLS => str "starttls"
  | MT_INIT => str "init"
  | MT_INIT_REPLY => str "init-reply"
  | MT_SERVER_ERROR => str "server-error"
  | MT_SET_OPTION => str "set-option"
  | MT_SET_OPTION_REPLY => str "set-option-reply"
  | MT_ECHO_REQUEST => str "echo-request"
  | MT_ECHO_REPLY => str "echo-reply"
  | MT_NODE_LIST => str "node-list"
  | MT_NODE_LIST_REPLY => str "node-list-reply"
  | MT_ASK_FOR_VOTE => str "ask-for-vote"
  | MT_ASK_FOR_VOTE_REPLY => str "ask-for-vote-reply"
  | MT_VOTE_INFO => str "vote-info"
  | MT_VOTE_INFO_REPLY => str "vote-info-reply"
  | MT_HEURISTICS_CHANGE => str "heuristics-change"
  | MT_HEURISTICS_CHANGE_REPLY => str "heuristics-change-reply"
  | MT_OTHER _ => str "?"
  end.

(** [%u]: the decimal digits of an unsigned value; ten are enough for 32 bits. *)
Fixpoint print_digits (fuel : nat) (n : Z) (acc : bytes) : bytes :=
  match fuel with
  | O => acc
  | S fuel =>
      let acc := (48 + n mod 10) :: acc in
      if n / 10 =? 0 then acc else print_digits fuel (n / 10) acc
  end.
Definition print_u32 (n : Z) : bytes := print_digits 10 n [].

(** [snprintf(buf, 48, " %u=%s", node_id, vote)]: at most 47 characters are kept. *)
Definition status_entry (s : Session) : bytes :=
  take 47 (str " " ++ print_u32 (s_node_id s) ++ str "=" ++ vote_str (s_last_ack_nack s)).

(** The part of cluster [c]. *)
Definition status_cluster (st : Server) (c : Z) : bytes :=
  cl_name (clus st c) ++ str ":" ++
  concat (status_entry <$> List.filter (λ s, in_cluster s c) (sv_sessions st)).

Definition status_step (st : Server) (out : bytes) (c : nat) : bytes :=
  if negb (cl_used (clus st (Z.of_nat c))) then out
  else
    let out := if bool_decide (out = []) then out else out ++ str " | " in
    out ++ status_cluster st (Z.of_nat c).

Definition status_string (st : Server) : bytes :=
  let out := foldl (status_step st) [] cluster_slots in
  if bool_decide (out = []) then str "idle" else out.

Example status_two_acked : status_string two_acked = str "tc: 4=ACK 2=ACK".
Proof. vm_compute. reflexivity. Qed.
Example status_split : status_string split_decided = str "tc: 4=NACK 2=ACK".
Proof. vm_compute. reflexivity. Qed.

(** ** Decimal numbers *)

Definition parse_digits (l : bytes) : Z := foldl (λ v d, 10 * v + (d - 48)) 0 l.
Definition is_digit (d : Z) : Prop := 48 <= d <= 57.

Lemma foldl_digits l v :
  foldl (λ v d, 10 * v + (d - 48)) v l = v * 10 ^ Z.of_nat (length l) + parse_digits l.
Proof.
  unfold parse_digits. revert v. induction l as [|d l IH]; intros v; [simpl; lia|].
  cbn [foldl length]. rewrite IH, (IH (10 * 0 + (d - 48))). rewrite Nat2Z.inj_succ, Z.pow_succ_r by lia. lia.
Qed.

Lemma print_digits_spec fuel n acc : 0 <= n < 10 ^ Z.of_nat fuel →
  ∃ ds, print_digits fuel n acc = ds ++ acc ∧ (length ds ≤ fuel)%nat ∧ Forall is_digit ds ∧
    parse_digits ds = n ∧ (fuel ≠ 0%nat → ds ≠ []).
Proof.
  revert n acc. induction fuel as [|fuel IH]; intros n acc Hn.
  { exists []. split_and!; [done|simpl; lia|constructor|cbn in *; lia|done]. }
  rewrite Nat2Z.inj_succ, Z.pow_succ_r in Hn by lia. cbn [print_digits].
  pose proof (Z.mod_pos_bound n 10 ltac:(lia)) as Hm. pose proof (Z.div_mod n 10 ltac:(lia)) as Hd.
  assert (is_digit (48 + n mod 10)) as Hdig by (unfold is_digit; lia).
  destruct (Z.eqb_spec (n / 10) 0) as [Hz|Hz].
  - exists [48 + n mod 10]. split_and!; [done|simpl; lia|by apply Forall_singleton| |done].
    unfold parse_digits. cbn [foldl]. lia.
  - destruct (IH (n / 10) ((48 + n mod 10) :: acc)) as (ds & -> & Hl & HF & Hp & Hne).
    { split; [apply Z.div_pos; lia|]. apply Z.div_lt_upper_bound; lia. }
    exists (ds ++ [48 + n mod 10]). rewrite <-app_assoc. split_and!; [done| | | |].
    + rewrite length_app. simpl. lia.
    + apply Forall_app. by rewrite Forall_singleton.
    + unfold parse_digits. rewrite foldl_app. fold (parse_digits ds). rewrite Hp. cbn [foldl]. lia.
    + intros _ E. by apply app_eq_nil in E as [_ E].
Qed.

Lemma print_u32_spec n : is_u32 n →
  (length (print_u32 n) ≤ 10)%nat ∧ Forall is_digit (print_u32 n) ∧ parse_digits (print_u32 n) = n.
Proof.
  intros Hn. destruct (print_digits_spec 10 n []) as (ds & E & H1 & H2 & H3 & _).
  { unfold is_u32 in Hn. simpl. lia. }
  unfold print_u32. rewrite E, app_nil_r. done.
Qed.

(** An entry of the status line is never truncated by the 48-byte buffer, and
    its decimal digits denote the node id. *)
Theorem status_entry_exact s :
  is_u32 (s_node_id s) →
  ∃ digits, status_entry s = str " " ++ digits ++ str "=" ++ vote_str (s_last_ack_nack s) ∧
    (length (status_entry s) < 48)%nat ∧ Forall is_digit digits ∧ parse_digits digits = s_node_id s.
Proof.
  intros Hn. destruct (print_u32_spec _ Hn) as (H1 & H2 & H3). exists (print_u32 (s_node_id s)).
  assert (length (vote_str (s_last_ack_nack s)) ≤ 9)%nat as Hv
    by (destruct (s_last_ack_nack s); apply (bool_decide_unpack _); vm_compute; exact I).
  assert (length (str " " ++ print_u32 (s_node_id s) ++ str "=" ++ vote_str (s_last_ack_nack s)) ≤ 47)%nat as Hl.
  { rewrite !length_app. change (length (str " ")) with 1%nat. change (length (str "=")) with 1%nat. lia. }
  unfold status_entry. rewrite take_ge by done. split_and!; [done|lia|done|done].
Qed.
Lemma status_entry_exact_witness : ∃ digits,
  status_entry (sess two_acked 0) = str " " ++ digits ++ str "=" ++ vote_str VOTE_ACK ∧
  parse_digits digits = 4.
Proof.
  destruct (status_entry_exact (sess two_acked 0)) as (ds & H1 & _ & _ & H2).
  - apply (bool_decide_unpack _). vm_compute. exact I.
  - exists ds. split; [exact H1|exact H2].
Defined.

(** A cluster in use leaves a colon (58) in the line. *)
Lemma status_colon st l out :
  (58 ∈ out ∨ ∃ c : nat, c ∈ l ∧ cl_used (clus st (Z.of_nat c)) = true) → 58 ∈ foldl (status_step st) out l.
Proof.
  revert out. induction l as [|c l IH]; intros out H; cbn [foldl].
  { destruct H as [H|(c & ?%not_elem_of_nil & _)]; done. }
  apply IH. assert (cl_used (clus st (Z.of_nat c)) = true → 58 ∈ status_step st out c) as Hc.
  { intros Hu. unfold status_step. rewrite Hu. cbn [negb]. apply elem_of_app. right.
    unfold status_cluster. apply elem_of_app. right. apply elem_of_app. left. apply list_elem_of_here. }
  destruct H as [H|(d & [->|Hd]%elem_of_cons & Hu)]; [left|by left; apply Hc|right; eauto].
  destruct (cl_used (clus st (Z.of_nat c))) eqn:Hu; [by apply Hc|]. unfold status_step. by rewrite Hu.
Qed.
Lemma status_unused st l : (∀ c : nat, c ∈ l → cl_used (clus st (Z.of_nat c)) = false) →
  foldl (status_step st) [] l = [].
Proof.
  intros H. induction l as [|c l IH]; [done|]. cbn [foldl].
  assert (status_step st [] c = []) as ->.
  { unfold status_step. by rewrite (H c (list_elem_of_here _ _)). }
  apply IH. intros d Hd. by apply H, list_elem_of_further.
Qed.

(** The status line reads "idle" exactly when no client is active. *)
Theorem status_idle_iff max st :
  reachable max st → status_string st = str "idle" ↔ ∀ i, s_phase (sess st i) ≠ ACTIVE.
Proof.
  intros [[Hinv _ _ _] _]%reachable_good. unfold status_string. split.
  - intros Hs i Hact. destruct (so_active _ _ (inv_sess _ Hinv i) Hact) as (Hc & Hu & _).
    assert (58 ∈ foldl (status_step st) [] cluster_slots) as Hin.
    { apply status_colon. right. exists (Z.to_nat (s_cluster (sess st i))). rewrite Z2Nat.id by lia.
      split; [|done]. apply elem_of_cluster_slots. lia. }
    destruct (foldl (status_step st) [] cluster_slots) as [|b l]; [by apply not_elem_of_nil in Hin|].
    rewrite bool_decide_eq_false_2 in Hs by done. rewrite Hs in Hin.
    apply (bool_decide_eq_true_2 (58 ∈ str "idle")) in Hin. vm_compute in Hin. done.
  - intros Hno. rewrite status_unused; [done|]. intros c Hc%elem_of_cluster_slots.
    destruct (cl_used (clus st (Z.of_nat c))) eqn:Hu; [|done]. exfalso.
    apply used_iff in Hu as [i [Hi _]%in_cluster_true]; [|done|lia]. by apply (Hno i).
Qed.
Lemma status_idle_iff_witness :
  status_string (Server0 32768) = str "idle" ↔ ∀ i, s_phase (sess (Server0 32768) i) ≠ ACTIVE.
Proof. apply (status_idle_iff 32768 (Server0 32768)). apply reach_init. Defined.
