(* ===== verification/Transport.v ===== *)
(** * Embedding the server: the [Transport] interface

    [Transport] (server.h 20-26) and [on_state_change] as a type class, with the
    laws an implementation must satisfy, and a call of the server with its
    effects carried out.  A transport never calls back into the server, so the
    effects of a call can be performed in order when the call is over.  An
    embedder that hands slots out and back as the interface demands stays in
    step with the server: its open connections are the sessions in use. *)
From S2P Require Import Prelude Wire Tlv Msg State Ffsplit Select Handlers Lifecycle Invariant.
From S2P Require Import HandlerFacts InitFacts Safety Scenarios Outputs.
From stdpp Require Import gmap.
Open Scope Z_scope.

Class Transport (T : Type) := {
  tp_send_frame : nat → bytes → T → T;
  tp_close_connection : nat → T → T;
  tp_state_change : T → T;
}.

(** The open connections and the shape of the table, and how the operations
    change them. *)
Class TransportLaws (T : Type) `{Transport T} := {
  opened : T → gset nat;
  table_ok : T → Prop;
  table_send i f t : table_ok t → table_ok (tp_send_frame i f t);
  table_close i t : table_ok t → table_ok (tp_close_connection i t);
  table_state_change t : table_ok t → table_ok (tp_state_change t);
  opened_send i f t : opened (tp_send_frame i f t) = opened t;
  opened_close i t : opened (tp_close_connection i t) = opened t ∖ {[i]};
  opened_state_change t : opened (tp_state_change t) = opened t;
}.

Section embedder.
Context {T : Type} `{Transport T}.

Definition perform1 (t : T) (e : Effect) : T :=
  match e with
  | ESend i f => tp_send_frame i f t
  | EClose i => tp_close_connection i t
  | ENotify => tp_state_change t
  end.
Definition perform (es : list Effect) (t : T) : T := foldl perform1 t es.

(** A call [f] of the server, with its effects. *)
Definition call (f : Server → Server) (w : Server * T) : Server * T :=
  (f w.1, perform (outputs w.1 (f w.1)) w.2).

Context `{!TransportLaws T}.

Lemma perform_follows es t o' : follows (opened t) es = Some o' → opened (perform es t) = o'.
Proof.
  revert t. induction es as [|e es IH]; intros t; cbn [follows perform foldl].
  { by injection 1. }
  intros [o1 [Ha Hf]]%bind_Some. apply IH. rewrite <-Hf. f_equal. clear Hf IH.
  destruct e as [i f|i|]; cbn [allowed perform1] in *.
  - case_decide; simplify_eq. apply opened_send.
  - case_decide; simplify_eq. apply opened_close.
  - simplify_eq. apply opened_state_change.
Qed.

Lemma perform_table es t : table_ok t → table_ok (perform es t).
Proof.
  revert t. induction es as [|e es IH]; intros t Ht; [done|]. apply IH.
  destruct e; cbn [perform1]; auto using table_send, table_close, table_state_change.
Qed.

(** The embedder and the server agree. *)
Record in_sync (w : Server * T) : Prop := {
  is_reachable : reachable 32768 w.1;
  is_opened : opened w.2 = live w.1;
  is_table : table_ok w.2;
}.

Lemma in_sync_good w : in_sync w → good w.1.
Proof. intros [Hr _ _]. by destruct (reachable_good _ _ Hr). Qed.

Lemma reach_call st e st' : reachable 32768 st → exec st e = st' → reachable 32768 st'.
Proof. intros Hr <-. by apply reach_step. Qed.

(** Any call that keeps the contract keeps the agreement. *)
Lemma call_sync e f (w : Server * T) : reachable 32768 w.1 → table_ok w.2 → exec w.1 e = f w.1 →
  speaks (opened w.2) w.1 (f w.1) (live (f w.1)) → in_sync (call f w).
Proof.
  intros Hr Ht He [_ Hf]. split; [by apply (reach_call _ _ _ Hr He)| |by apply perform_table].
  by apply perform_follows.
Qed.

Lemma on_data_sync slot data now w : in_sync w → in_sync (call (on_data slot data now) w).
Proof.
  intros Hs. pose proof Hs as [Hr Ho Ht]. apply (call_sync (EvData slot data now)); [done..|].
  rewrite Ho. by apply on_data_speaks, in_sync_good.
Qed.

Lemma tick_sync now w : in_sync w → in_sync (call (tick now) w).
Proof.
  intros Hs. pose proof Hs as [Hr Ho Ht]. apply (call_sync (EvTick now)); [done..|].
  rewrite Ho. by apply tick_speaks, in_sync_good.
Qed.

(** The embedder closes its side, then reports it. *)
Lemma on_disconnected_sync (i : nat) (w : Server * T) : (i < MAX_CLIENTS)%nat → i ∈ opened w.2 → in_sync w →
  in_sync (call (on_disconnected (Z.of_nat i)) (w.1, tp_close_connection i w.2)).
Proof.
  intros Hi Hl Hs. pose proof (in_sync_good _ Hs) as Hg. destruct Hs as [Hr Ho Ht].
  apply (call_sync (EvDisconnected (Z.of_nat i))); cbn [fst snd]; [done|by apply table_close|done|].
  rewrite opened_close. rewrite Ho in Hl |- *. apply live_elem in Hl; [|apply inv_len_sessions, Hg].
  assert (bad_slot (Z.of_nat i) w.1 = false) as Hb.
  { unfold bad_slot. rewrite Nat2Z.id, (bool_decide_eq_false_2 _ Hl), orb_false_r. apply orb_false_intro; lia. }
  destruct (on_disconnected_speaks (Z.of_nat i) w.1 Hg Hb) as [Hsp _]. by rewrite Nat2Z.id in Hsp.
Qed.

(** A new connection: refused with -1, or bound to a slot that was not open. *)
Lemma on_connect_sync now peer (w : Server * T) : in_sync w →
  let r := on_connect now peer w.1 in
  let w' := call (λ st, (on_connect now peer st).2) w in
  reachable 32768 w'.1 ∧ table_ok w'.2 ∧ (r.1 < 0 → in_sync w') ∧
  (0 <= r.1 → (Z.to_nat r.1 < MAX_CLIENTS)%nat ∧ Z.to_nat r.1 ∉ opened w'.2 ∧
     live w'.1 = {[Z.to_nat r.1]} ∪ opened w'.2).
Proof.
  intros Hs. pose proof (in_sync_good _ Hs) as Hg. destruct Hs as [Hr0 Ho Ht].
  destruct (on_connect_speaks now peer w.1 Hg) as ([_ Hf] & Hl & Hr).
  assert (reachable 32768 (on_connect now peer w.1).2) as Hr' by (by apply (reach_call _ (EvConnect now peer) _ Hr0)).
  cbv zeta. set (w' := call (λ st, (on_connect now peer st).2) w).
  assert (opened w'.2 = live w.1) as Ho' by (apply perform_follows; by rewrite Ho).
  assert (table_ok w'.2) as Ht' by (by apply perform_table).
  split_and!; [done|done| |].
  - intros Hneg. split; [done| |done]. rewrite Ho'. unfold w'. cbn [call fst]. rewrite Hl.
    by rewrite (proj2 (Z.ltb_lt _ _)).
  - intros Hpos. destruct (Hr Hpos) as [H1 H2]. rewrite Ho'. unfold w'. cbn [call fst]. rewrite Hl.
    by rewrite (proj2 (Z.ltb_ge _ _)).
Qed.

(** A change of the transport that is none to the contract. *)
Lemma in_sync_same (w : Server * T) t : opened t = opened w.2 → table_ok t → in_sync w → in_sync (w.1, t).
Proof. intros Ho Ht [Hr Hw _]. split; [done| |done]. cbn [fst snd]. by rewrite Ho. Qed.
End embedder.
