(* ===== verification/Component.v ===== *)
(** * The ESPHome component (qnetd_component.h, qnetd_component.cpp)

    The parts the embedder's loop is made of: the 64-bit clock built on the
    32-bit [millis()], and the transmit side of a connection - direct write,
    queueing of the unsent remainder, flushing and closing.  The socket is a type
    class: its operations and the laws a stream socket obeys. *)
From S2P Require Import Prelude Wire Tlv Msg State Ffsplit Handlers Lifecycle.

(** ** The clock *)

Record Clock : Set := mkClock { last_millis_ : Z; millis_high_ : Z }.
Definition Clock0 : Clock := mkClock 0 0.

(** [now_ms_()], with the result of [millis()] as argument. *)
Definition now_ms_ (millis : Z) (ck : Clock) : Z * Clock :=
  let high := if millis <? last_millis_ ck then u64 (millis_high_ ck + 2 ^ 32) else millis_high_ ck in
  (Z.lor high millis, mkClock millis high).

(** The results of a sequence of readings. *)
Fixpoint clock_readings (ck : Clock) (ms : list Z) : list Z :=
  match ms with
  | [] => []
  | m :: ms => let '(t, ck) := now_ms_ m ck in t :: clock_readings ck ms
  end.

(** Readings at least once per wrap of the 32-bit counter, starting from [t0]. *)
Fixpoint spaced (t0 : Z) (ts : list Z) : Prop :=
  match ts with
  | [] => True
  | t :: ts => t0 <= t < t0 + 2 ^ 32 ∧ t < 2 ^ 64 ∧ spaced t ts
  end.

Lemma lor_high_low h m : 0 <= m < 2 ^ 32 → Z.lor (h * 2 ^ 32) m = h * 2 ^ 32 + m.
Proof.
  intros Hm. rewrite <-(Z.shiftl_mul_pow2 h 32), lor_shiftl_add by lia. by rewrite Z.shiftl_mul_pow2.
Qed.

Lemma now_ms_step t0 t : 0 <= t0 → t0 <= t < t0 + 2 ^ 32 → t < 2 ^ 64 →
  now_ms_ (t mod 2 ^ 32) (mkClock (t0 mod 2 ^ 32) (t0 / 2 ^ 32 * 2 ^ 32)) =
    (t, mkClock (t mod 2 ^ 32) (t / 2 ^ 32 * 2 ^ 32)).
Proof.
  intros H0 Ht H64. unfold now_ms_. cbn [last_millis_ millis_high_].
  pose proof (Z.div_mod t0 (2 ^ 32) ltac:(lia)) as E0. pose proof (Z.mod_pos_bound t0 (2 ^ 32) ltac:(lia)) as B0.
  pose proof (Z.div_mod t (2 ^ 32) ltac:(lia)) as E1. pose proof (Z.mod_pos_bound t (2 ^ 32) ltac:(lia)) as B1.
  assert ((if t mod 2 ^ 32 <? t0 mod 2 ^ 32 then u64 (t0 / 2 ^ 32 * 2 ^ 32 + 2 ^ 32) else t0 / 2 ^ 32 * 2 ^ 32) =
          t / 2 ^ 32 * 2 ^ 32) as ->.
  { destruct (Z.ltb_spec (t mod 2 ^ 32) (t0 mod 2 ^ 32)).
    - assert (t / 2 ^ 32 = t0 / 2 ^ 32 + 1) as -> by lia. rewrite u64_id; [lia|]. unfold is_u64. lia.
    - assert (t / 2 ^ 32 = t0 / 2 ^ 32) as -> by lia. done. }
  rewrite lor_high_low by done. f_equal. lia.
Qed.

(** C37: the 64-bit clock is exact: whatever the wraps of the 32-bit millisecond
    counter, [now_ms_] returns the true time as long as it is called at least
    once per wrap (49.7 days). *)
Theorem clock_exact ts :
  spaced 0 ts → clock_readings Clock0 ((λ t, t mod 2 ^ 32) <$> ts) = ts.
Proof.
  assert (∀ t0, 0 <= t0 → spaced t0 ts →
    clock_readings (mkClock (t0 mod 2 ^ 32) (t0 / 2 ^ 32 * 2 ^ 32)) ((λ t, t mod 2 ^ 32) <$> ts) = ts) as H.
  { induction ts as [|t ts IH]; intros t0 H0 Hs; [done|]. destruct Hs as (H1 & H2 & H3).
    rewrite fmap_cons. cbn [clock_readings]. rewrite now_ms_step by done. f_equal. apply IH; [lia|done]. }
  apply (H 0). lia.
Qed.
Lemma clock_exact_witness :
  clock_readings Clock0 [1000; 4294967295; 5; 4294967290] = [1000; 4294967295; 4294967301; 8589934586].
Proof.
  apply (clock_exact [1000; 4294967295; 4294967301; 8589934586]).
  apply (bool_decide_unpack _). vm_compute. exact I.
Defined.

(** ** Connections *)

(** The result of a non-blocking write: bytes taken, EWOULDBLOCK/EAGAIN, or
    another error. *)
Inductive WriteResult : Set := WOk (n : nat) | WAgain | WErr.

(** The result of a non-blocking read: some bytes, end of stream, EWOULDBLOCK or
    EAGAIN, or another error. *)
Inductive ReadResult : Set := RData (d : bytes) | REof | RAgain | RErr.

(** [socket::Socket], as far as the component uses it. *)
Class Socket (S : Type) := {
  sock_write : S → bytes → WriteResult * S;
  sock_read : S → nat → ReadResult * S;
}.

(** A stream socket delivers the bytes it took, in order, and hands out the bytes
    it received, in order, before it would block or reports the end of the
    stream; the two directions are independent. *)
Class SocketLaws (S : Type) `{Socket S} := {
  delivered : S → bytes;
  incoming : S → bytes;
  write_ok s d n s' : sock_write s d = (WOk n, s') →
    (n ≤ length d)%nat ∧ delivered s' = delivered s ++ take n d;
  write_again s d s' : sock_write s d = (WAgain, s') → delivered s' = delivered s;
  write_err s d s' : sock_write s d = (WErr, s') → delivered s' = delivered s;
  write_incoming s d : incoming (sock_write s d).2 = incoming s;
  read_delivered s n : delivered (sock_read s n).2 = delivered s;
  read_data s n d s' : (0 < n)%nat → sock_read s n = (RData d, s') →
    (0 < length d ≤ n)%nat ∧ incoming s = d ++ incoming s';
  read_again s n s' : sock_read s n = (RAgain, s') → incoming s = [] ∧ incoming s' = [];
  read_eof s n s' : sock_read s n = (REof, s') → incoming s = [] ∧ incoming s' = [];
  read_err s n s' : sock_read s n = (RErr, s') → (length (incoming s') ≤ length (incoming s))%nat;
}.

(** The amount of data waiting. *)
Definition available {S} `{SocketLaws S} (s : S) : nat := length (incoming s).

Lemma write_available {S} `{SocketLaws S} s d : available (sock_write s d).2 = available s.
Proof. unfold available. by rewrite write_incoming. Qed.
Lemma read_available {S} `{SocketLaws S} s n : (0 < n)%nat → (available (sock_read s n).2 ≤ available s)%nat.
Proof.
  intros Hn. unfold available. destruct (sock_read s n) as [[d| | |] s'] eqn:E; cbn [snd].
  - destruct (read_data _ _ _ _ Hn E) as [_ ->]. rewrite length_app. lia.
  - by destruct (read_eof _ _ _ E) as [-> ->].
  - by destruct (read_again _ _ _ E) as [-> ->].
  - by apply (read_err _ n).
Qed.

(** [struct Conn]; a null [sock] is [None]. *)
Record Conn (S : Type) : Type := mkConn { cn_sock : option S; cn_tx : bytes; cn_used : bool }.
Arguments mkConn {S} _ _ _.
Arguments cn_sock {S} _.
Arguments cn_tx {S} _.
Arguments cn_used {S} _.
Definition Conn0 {S} : Conn S := mkConn None [] false.

Section conn.
Context {S : Type} `{Socket S}.

(** The assignments after [accept]. *)
Definition conn_open (s : S) : Conn S := mkConn (Some s) [] true.

(** [send_frame(slot, data, len)] on the connection of the slot. *)
Definition send_frame (data : bytes) (c : Conn S) : Conn S :=
  match cn_used c, cn_sock c with
  | true, Some s =>
      match cn_tx c with
      | [] =>
          match sock_write s data with
          | (WErr, s) => mkConn (Some s) [] true
          | (r, s) =>
              let n := match r with WOk n => n | _ => 0%nat end in
              mkConn (Some s) (if (n <? length data)%nat then drop n data else []) true
          end
      | tx => mkConn (Some s) (tx ++ data) true
      end
  | _, _ => c
  end.

Definition close_connection (c : Conn S) : Conn S := mkConn None [] false.

(** The flush of the queue in [loop]. *)
Definition flush (c : Conn S) : Conn S :=
  match cn_used c, cn_sock c, cn_tx c with
  | true, Some s, (_ :: _) as tx =>
      match sock_write s tx with
      | (WOk n, s) => mkConn (Some s) (if (0 <? n)%nat then drop n tx else tx) true
      | (_, s) => mkConn (Some s) tx true
      end
  | _, _, _ => c
  end.

(** What happens to an open connection between its frames. *)
Inductive ConnOp : Set := OpSend (frame : bytes) | OpFlush.
Definition conn_op (c : Conn S) (o : ConnOp) : Conn S :=
  match o with OpSend f => send_frame f c | OpFlush => flush c end.

(** Whether a frame is dropped: the queue is empty and the write fails hard. *)
Definition drops (data : bytes) (c : Conn S) : bool :=
  match cn_used c, cn_sock c, cn_tx c with
  | true, Some s, [] => match (sock_write s data).1 with WErr => true | _ => false end
  | _, _, _ => false
  end.

(** The frames that were not dropped. *)
Fixpoint accepted (c : Conn S) (ops : list ConnOp) : list bytes :=
  match ops with
  | [] => []
  | o :: ops =>
      match o with
      | OpSend f => if drops f c then [] else [f]
      | OpFlush => []
      end ++ accepted (conn_op c o) ops
  end.

Context `{!SocketLaws S}.

(** The bytes delivered so far and those still queued. *)
Definition stream (c : Conn S) : bytes :=
  match cn_sock c with Some s => delivered s ++ cn_tx c | None => [] end.
Definition is_open (c : Conn S) : Prop := cn_used c = true ∧ is_Some (cn_sock c).

Lemma send_frame_stream data c : is_open c →
  is_open (send_frame data c) ∧
  stream (send_frame data c) = stream c ++ (if drops data c then [] else data).
Proof.
  destruct c as [[s|] tx u]; intros [Hu Hs]; cbn in Hu; [|by destruct Hs]. subst u.
  unfold send_frame, drops, stream, is_open. cbn [cn_used cn_sock cn_tx].
  destruct tx as [|b tx].
  - destruct (sock_write s data) as [[n| |] s'] eqn:E; cbn [cn_used cn_sock cn_tx fst snd].
    + destruct (write_ok _ _ _ _ E) as [Hn ->]. split; [by eauto|]. rewrite <-!app_assoc. f_equal.
      destruct (Nat.ltb_spec n (length data)).
      * by rewrite take_drop.
      * rewrite take_ge, app_nil_r by done. done.
    + split; [by eauto|]. rewrite (write_again _ _ _ E), app_nil_r. f_equal.
      destruct data; done.
    + split; [by eauto|]. by rewrite (write_err _ _ _ E), !app_nil_r.
  - cbn. split; [by eauto|]. by rewrite <-app_assoc.
Qed.

Lemma flush_stream c : is_open c → is_open (flush c) ∧ stream (flush c) = stream c.
Proof.
  destruct c as [[s|] tx u]; intros [Hu Hs]; cbn in Hu; [|by destruct Hs]. subst u.
  unfold flush, stream, is_open. cbn [cn_used cn_sock cn_tx]. destruct tx as [|b tx]; [by eauto|].
  destruct (sock_write s (b :: tx)) as [[n| |] s'] eqn:E; cbn [cn_used cn_sock cn_tx].
  - destruct (write_ok _ _ _ _ E) as [Hn ->]. split; [by eauto|]. rewrite <-app_assoc. f_equal.
    destruct (Nat.ltb_spec 0 n); [apply take_drop|]. by replace n with 0%nat by lia.
  - split; [by eauto|]. by rewrite (write_again _ _ _ E).
  - split; [by eauto|]. by rewrite (write_err _ _ _ E).
Qed.

Lemma ops_stream ops c : is_open c →
  is_open (foldl conn_op c ops) ∧ stream (foldl conn_op c ops) = stream c ++ concat (accepted c ops).
Proof.
  revert c. induction ops as [|o ops IH]; intros c Hc; cbn [foldl accepted].
  { cbn. by rewrite app_nil_r. }
  destruct o as [f|]; cbn [conn_op].
  - destruct (send_frame_stream f c Hc) as [H1 H2]. destruct (IH _ H1) as [H3 H4]. split; [done|].
    rewrite H4, H2, concat_app, <-app_assoc. f_equal. destruct (drops f c); cbn; by rewrite ?app_nil_r.
  - destruct (flush_stream c Hc) as [H1 H2]. destruct (IH _ H1) as [H3 H4]. split; [done|].
    rewrite H4, H2. done.
Qed.
End conn.

(** C36: the transmit path keeps the byte stream intact: for any sequence of frames
    and flushes on an open connection, the bytes the socket delivered followed by
    the queued bytes are exactly the frames that were not dropped by a hard write
    error, whole and in order - partial writes never tear, reorder or duplicate. *)
Theorem transmit_stream_intact {S} `{SocketLaws S} (s : S) (ops : list ConnOp) :
  delivered s = [] →
  let c := foldl conn_op (conn_open s) ops in
  ∃ s', cn_sock c = Some s' ∧ delivered s' ++ cn_tx c = concat (accepted (conn_open s) ops).
Proof.
  intros Hs c. destruct (ops_stream ops (conn_open s)) as [[_ [s' Hs']] Hst]; [by split; eauto|].
  fold c in Hs', Hst. exists s'. split; [done|]. unfold stream in Hst. rewrite Hs' in Hst.
  rewrite Hst. cbn. by rewrite Hs, !app_nil_r.
Qed.

(** A socket that takes a scripted number of bytes per write, and whose peer has
    sent some bytes and possibly closed its side. *)
Record ScriptSocket : Set := mkScript { sc_out : bytes; sc_script : list nat; sc_in : bytes; sc_eof : bool }.
#[export] Instance script_socket : Socket ScriptSocket := {|
  sock_write s d :=
    match sc_script s with
    | [] => (WAgain, s)
    | n :: l => (WOk (length (take n d)), mkScript (sc_out s ++ take n d) l (sc_in s) (sc_eof s))
    end;
  sock_read s n :=
    match sc_in s with
    | [] => (if sc_eof s then REof else RAgain, s)
    | b => (RData (take n b), mkScript (sc_out s) (sc_script s) (drop n b) (sc_eof s))
    end |}.
#[export] Program Instance script_laws : SocketLaws ScriptSocket :=
  {| delivered := sc_out; incoming := sc_in |}.
Next Obligation.
  intros [out [|k l] inp e] d n s'; cbn; intros E; [done|]. injection E as <- <-. split.
  - rewrite length_take. lia.
  - cbn. f_equal. rewrite length_take. symmetry. destruct (Nat.min_spec k (length d)) as [[Hl ->]|[Hl ->]]; [done|].
    by rewrite !take_ge.
Qed.
Next Obligation. intros [out [|k l] inp e] d s'; cbn; intros E; [by injection E as <-|done]. Qed.
Next Obligation. intros [out [|k l] inp e] d s'; cbn; intros E; done. Qed.
Next Obligation. by intros [out [|k l] inp e] d. Qed.
Next Obligation. by intros [out l [|b inp] e] n. Qed.
Next Obligation.
  intros [out l [|b inp] e] n d s' Hn; cbn; [by destruct e|]. intros E. injection E as <- <-. split.
  - rewrite length_take. cbn [length]. lia.
  - symmetry. exact (take_drop n (b :: inp)).
Qed.
Next Obligation. intros [out l [|b inp] []] n s'; cbn; intros E; try done. by injection E as <-. Qed.
Next Obligation. intros [out l [|b inp] []] n s'; cbn; intros E; try done. by injection E as <-. Qed.
Next Obligation. by intros [out l [|b inp] []] n s'. Qed.

Lemma transmit_stream_intact_witness :
  let c := foldl conn_op (conn_open (mkScript [] [2; 1; 5]%nat [] false)) [OpSend [1; 2; 3]; OpSend [4; 5]; OpFlush; OpFlush] in
  ∃ s', cn_sock c = Some s' ∧ delivered s' ++ cn_tx c = [1; 2; 3; 4; 5].
Proof.
  destruct (transmit_stream_intact (mkScript [] [2; 1; 5]%nat [] false) [OpSend [1; 2; 3]; OpSend [4; 5]; OpFlush; OpFlush])
    as (s' & H1 & H2); [reflexivity|].
  exists s'. split; [exact H1|]. rewrite H2. vm_compute. reflexivity.
Defined.
