(* ===== verification/ComponentLoop.v ===== *)
(** * The ESPHome component: setup, loop and publishing (qnetd_component.cpp)

    [QnetdComponent] owns the server, a table of connections and the sensors.
    [setup] creates the server and the listening socket, [loop] accepts, flushes,
    reads, ticks and publishes.  The operating system is the environment: the
    millisecond counter and the connections to accept are arguments of [loop], a
    connection's socket is a state of the class [Socket]. *)
From Stdlib Require Import String.
From S2P Require Import Prelude Wire Tlv Msg State Ffsplit Select Handlers Lifecycle Invariant.
From S2P Require Import HandlerFacts InitFacts VoteOrder Safety Scenarios Outputs Correctness Status.
From S2P Require Import Transport Component.
From stdpp Require Import gmap.
Open Scope Z_scope.

(** ** State *)

(** [conns_] and [dirty_], what the server's callbacks touch. *)
Record Net (S : Type) : Type := mkNet { conns_ : list (Conn S); dirty_ : bool }.
Arguments mkNet {S} _ _.
Arguments conns_ {S} _.
Arguments dirty_ {S} _.

(** The sensors; an absent one is [None] (null, or compiled out), a present one
    the list of the values published so far. *)
Record Sensors : Type := mkSensors {
  connected_sensor_ : option (list Z);
  decisions_sensor_ : option (list Z);
  vote_granted_sensor_ : option (list bool);
  status_sensor_ : option (list bytes);
}.

Record QnetdComponent (S : Type) : Type := mkComponent {
  port_ : Z;
  server_ : Server;
  net_ : Net S;
  clock_ : Clock;
  failed_ : bool;
  sensors_ : Sensors;
}.
Arguments mkComponent {S} _ _ _ _ _ _.
Arguments port_ {S} _.
Arguments server_ {S} _.
Arguments net_ {S} _.
Arguments clock_ {S} _.
Arguments failed_ {S} _.
Arguments sensors_ {S} _.

(** [struct sockaddr_storage], as far as the peer name depends on it. *)
Inductive SockAddr : Set := AF_INET (addr : Z) | AF_INET6 (addr : Z) | AF_OTHER.

(** ** The callbacks *)

Section net.
Context {S : Type} `{Socket S}.

Definition conn (n : Net S) (i : nat) : Conn S := default Conn0 (conns_ n !! i).
Definition upd_conn (i : nat) (f : Conn S → Conn S) (n : Net S) : Net S :=
  mkNet (alter f i (conns_ n)) (dirty_ n).

(** [c.used && c.sock != nullptr]. *)
Definition conn_live (c : Conn S) : bool := cn_used c && bool_decide (is_Some (cn_sock c)).

(** The [Transport] of the component, and the lambda of [on_state_change]. *)
#[export] Instance net_transport : Transport (Net S) := {|
  tp_send_frame i f := upd_conn i (send_frame f);
  tp_close_connection i := upd_conn i close_connection;
  tp_state_change n := mkNet (conns_ n) true |}.

Definition open_conns (n : Net S) : gset nat :=
  list_to_set (filter (λ i, conn_live (conn n i) = true) (seq 0 (length (conns_ n)))).

Lemma open_conns_elem n i : i ∈ open_conns n ↔ conn_live (conn n i) = true.
Proof.
  unfold open_conns. rewrite elem_of_list_to_set, list_elem_of_filter, elem_of_seq. split; [naive_solver|].
  intros Hl. split; [done|]. unfold conn in Hl. destruct (conns_ n !! i) eqn:E; [|done].
  apply lookup_lt_Some in E. lia.
Qed.

Lemma conn_upd n i f j : f Conn0 = Conn0 ∨ (i < length (conns_ n))%nat →
  conn (upd_conn i f n) j = if decide (i = j) then f (conn n j) else conn n j.
Proof.
  intros Hf. unfold conn, upd_conn. cbn [conns_]. rewrite list_lookup_alter. case_decide as E; [|done]. subst j.
  destruct (conns_ n !! i) eqn:E; [done|]. destruct Hf as [Hf|Hf]; [exact (eq_sym Hf)|].
  apply lookup_ge_None in E. lia.
Qed.

Lemma conn_live_send f c : conn_live (send_frame f c) = conn_live c.
Proof. destruct c as [[s|] tx []]; cbn; [|done..]. by destruct tx; [destruct (sock_write s f) as [[] ?]|]. Qed.
Lemma conn_live_flush c : conn_live (flush c) = conn_live c.
Proof. destruct c as [[s|] [|b tx] []]; cbn; [done|done| |done..]. by destruct (sock_write s (b :: tx)) as [[] ?]. Qed.

#[export] Program Instance net_laws : TransportLaws (Net S) := {| opened := open_conns; table_ok n := length (conns_ n) = MAX_CLIENTS |}.
Next Obligation. intros i f t. cbn. by rewrite length_alter. Qed.
Next Obligation. intros i t. cbn. by rewrite length_alter. Qed.
Next Obligation. done. Qed.
Next Obligation.
  intros i f t. apply set_eq. intros j. rewrite !open_conns_elem. cbn [tp_send_frame net_transport].
  rewrite conn_upd by (by left). case_decide; [|done]. by rewrite conn_live_send.
Qed.
Next Obligation.
  intros i t. apply set_eq. intros j. rewrite elem_of_difference, elem_of_singleton, !open_conns_elem.
  cbn [tp_close_connection net_transport]. rewrite conn_upd by (by left). case_decide; naive_solver.
Qed.
Next Obligation. done. Qed.

(** ** Setup *)

(** The constructed component.  [server_] is null until [setup] creates it; nothing
    runs before. *)
Definition component0 : QnetdComponent S :=
  mkComponent 5403 (Server0 32768) (mkNet (replicate MAX_CLIENTS Conn0) false) Clock0 false
    (mkSensors None None None None).

(** The setters the generated configuration calls before [setup]. *)
Definition set_port (port : Z) (c : QnetdComponent S) : QnetdComponent S :=
  mkComponent port (server_ c) (net_ c) (clock_ c) (failed_ c) (sensors_ c).
Definition set_sensors (f : Sensors → Sensors) (c : QnetdComponent S) : QnetdComponent S :=
  mkComponent (port_ c) (server_ c) (net_ c) (clock_ c) (failed_ c) (f (sensors_ c)).
Definition set_connected_sensor (p : option (list Z)) : QnetdComponent S → QnetdComponent S :=
  set_sensors (λ s, mkSensors p (decisions_sensor_ s) (vote_granted_sensor_ s) (status_sensor_ s)).
Definition set_decisions_sensor (p : option (list Z)) : QnetdComponent S → QnetdComponent S :=
  set_sensors (λ s, mkSensors (connected_sensor_ s) p (vote_granted_sensor_ s) (status_sensor_ s)).
Definition set_vote_granted_sensor (p : option (list bool)) : QnetdComponent S → QnetdComponent S :=
  set_sensors (λ s, mkSensors (connected_sensor_ s) (decisions_sensor_ s) p (status_sensor_ s)).
Definition set_status_sensor (p : option (list bytes)) : QnetdComponent S → QnetdComponent S :=
  set_sensors (λ s, mkSensors (connected_sensor_ s) (decisions_sensor_ s) (vote_granted_sensor_ s) p).

(** [this->mark_failed()]. *)
Definition mark_failed (c : QnetdComponent S) : QnetdComponent S :=
  mkComponent (port_ c) (server_ c) (net_ c) (clock_ c) true (sensors_ c).

(** [setup()].  [created] and [listen] are results of the socket calls,
    [set_sockaddr_any] and [bind] depend on the port; the calls after a failure
    are not made. *)
Definition setup (created : bool) (set_sockaddr_any bind : Z → Z) (listen : Z) (c : QnetdComponent S)
    : QnetdComponent S :=
  let c := mkComponent (port_ c) (Server0 32768) (net_ c) (clock_ c) (failed_ c) (sensors_ c) in
  if negb created then mark_failed c
  else if (set_sockaddr_any (port_ c) =? 0) || negb (bind (port_ c) =? 0) || negb (listen =? 0) then
    mark_failed c
  else c.

(** ** Publishing *)

Definition publish_state {A} (v : A) (sensor : option (list A)) : option (list A) := (λ l, l ++ [v]) <$> sensor.

Definition publish_ (st : Server) (s : Sensors) : Sensors :=
  mkSensors (publish_state (connected_clients st) (connected_sensor_ s))
    (publish_state (sv_decisions st) (decisions_sensor_ s))
    (publish_state (any_ack st) (vote_granted_sensor_ s))
    (match status_sensor_ s with
     | Some l => if bool_decide (last l = Some (status_string st)) then Some l
                 else publish_state (status_string st) (Some l)
     | None => None
     end).

(** ** The loop *)

Context (inet_ntop : SockAddr → bytes) (use_ipv6 : bool).

(** The peer name passed to [on_connect]. *)
Definition peer_name (a : SockAddr) : bytes :=
  match a with
  | AF_INET _ => inet_ntop a
  | AF_INET6 _ => if use_ipv6 then inet_ntop a else str "?"
  | AF_OTHER => str "?"
  end.

(** One accepted connection. *)
Definition accept_step (now : Z) (w : Server * Net S) (a : S * SockAddr) : Server * Net S :=
  let slot := (on_connect now (peer_name a.2) w.1).1 in
  let w := call (λ st, (on_connect now (peer_name a.2) st).2) w in
  if slot <? 0 then w
  else (w.1, upd_conn (Z.to_nat slot) (λ _, conn_open a.1) w.2).

(** [while (c.used && c.sock != nullptr)]: read until the socket would block, or
    the connection is gone; [None] when the fuel runs out. *)
Fixpoint read_loop (fuel : nat) (now : Z) (i : nat) (w : Server * Net S) : option (Server * Net S) :=
  match fuel with
  | O => None
  | Datatypes.S fuel =>
      match cn_used (conn w.2 i), cn_sock (conn w.2 i) with
      | true, Some s =>
          let '(r, s) := sock_read s 512 in
          let n := upd_conn i (λ c, mkConn (Some s) (cn_tx c) (cn_used c)) w.2 in
          match r with
          | RData d => read_loop fuel now i (call (on_data (Z.of_nat i) d now) (w.1, n))
          | REof | RErr =>
              Some (call (on_disconnected (Z.of_nat i)) (w.1, tp_close_connection i n))
          | RAgain => Some (w.1, n)
          end
      | _, _ => Some w
      end
  end.

(** The per-connection I/O of slot [i]. *)
Definition io_step (fuel : nat) (now : Z) (w : Server * Net S) (i : nat) : option (Server * Net S) :=
  if negb (conn_live (conn w.2 i)) then Some w
  else read_loop fuel now i (w.1, upd_conn i flush w.2).

Fixpoint io_loop (fuel : nat) (now : Z) (idx : list nat) (w : Server * Net S) : option (Server * Net S) :=
  match idx with
  | [] => Some w
  | i :: idx => w ← io_step fuel now w i; io_loop fuel now idx w
  end.

(** The body of [loop()] up to publishing, at time [now]. *)
Definition pump (fuel : nat) (now : Z) (acc : list (S * SockAddr)) (w : Server * Net S)
    : option (Server * Net S) :=
  w ← io_loop fuel now (seq 0 MAX_CLIENTS) (foldl (accept_step now) w acc);
  Some (call (tick now) w).

(** [loop()]: [millis] is the result of [millis()], [acc] what [accept] yields
    until it returns null. *)
Definition loop (fuel : nat) (millis : Z) (acc : list (S * SockAddr)) (c : QnetdComponent S)
    : option (QnetdComponent S) :=
  if failed_ c then Some c
  else
    let '(now, clock) := now_ms_ millis (clock_ c) in
    w ← pump fuel now acc (server_ c, net_ c);
    if dirty_ w.2
    then Some (mkComponent (port_ c) w.1 (mkNet (conns_ w.2) false) clock (failed_ c) (publish_ w.1 (sensors_ c)))
    else Some (mkComponent (port_ c) w.1 w.2 clock (failed_ c) (sensors_ c)).
End net.

(** ** The component stays in step with the server *)

Section sync.
Context {S : Type} `{Socket S} (inet_ntop : SockAddr → bytes) (use_ipv6 : bool).

(** A step of the loop: it keeps the tables in step, and whatever changes the
    server sets [dirty_]. *)
Record moves (w w' : Server * Net S) : Prop := {
  mv_sync : in_sync w → in_sync w';
  mv_dirty : in_sync w → dirty_ w'.2 = true ∨ w'.1 = w.1 ∧ dirty_ w'.2 = dirty_ w.2;
}.

Lemma moves_refl w : moves w w.
Proof. split; [done|by right]. Qed.
Lemma moves_trans w1 w2 w3 : moves w1 w2 → moves w2 w3 → moves w1 w3.
Proof.
  intros [A1 A2] [B1 B2]. split; [auto|]. intros Hs. destruct (B2 (A1 Hs)) as [|[E1 E2]]; [by left|].
  rewrite E1, E2. auto.
Qed.

Lemma perform_dirty es (n : Net S) :
  (dirty_ n = true → dirty_ (perform es n) = true) ∧ (ENotify ∈ es → dirty_ (perform es n) = true).
Proof.
  unfold perform. revert n. induction es as [|e es IH]; intros n; [split; [done|by intros ?%not_elem_of_nil]|].
  cbn [foldl]. destruct (IH (perform1 n e)) as [H1 H2]. split.
  - intros Hd. apply H1. by destruct e.
  - intros [<-|Hin]%elem_of_cons; [by apply H1|auto].
Qed.

Lemma call_dirty f (w : Server * Net S) : f w.1 = w.1 ∨ told w.1 (f w.1) →
  dirty_ (call f w).2 = true ∨ f w.1 = w.1 ∧ dirty_ (call f w).2 = dirty_ w.2.
Proof.
  intros [E|Hn]; [right|left].
  - split; [done|]. unfold call. cbn [snd]. rewrite E. unfold outputs. by rewrite drop_all.
  - by apply perform_dirty, told_elem.
Qed.

Lemma tick_moves now w : moves w (call (tick now) w).
Proof. split; [apply tick_sync|]. intros Hs. by apply (call_dirty (tick now)), tick_told, in_sync_good. Qed.

Lemma on_data_moves slot d now w : moves w (call (on_data slot d now) w).
Proof. split; [apply on_data_sync|]. intros Hs. by apply (call_dirty (on_data slot d now)), on_data_told, in_sync_good. Qed.

(** A write to a connection that does not open or close it. *)
Lemma upd_moves i f w : conn_live (f (conn w.2 i)) = conn_live (conn w.2 i) → (f Conn0 = Conn0 ∨ (i < MAX_CLIENTS)%nat) →
  moves w (w.1, upd_conn i f w.2).
Proof.
  intros Hl Hf. split; [|by right]. intros Hs. pose proof (is_table _ Hs) as Hc. cbn in Hc.
  apply in_sync_same; [|by cbn; rewrite length_alter|done]. apply set_eq. intros j.
  cbn [opened net_laws]. rewrite !open_conns_elem, conn_upd by (rewrite Hc; done).
  case_decide as E; [|done]. subst j. by rewrite Hl.
Qed.

Lemma accept_moves now w a : moves w (accept_step inet_ntop use_ipv6 now w a).
Proof.
  unfold accept_step. set (peer := peer_name _ _ _). set (r := on_connect now peer w.1).
  set (f := λ st, (on_connect now peer st).2). split.
  - intros Hs. destruct (on_connect_sync now peer w Hs) as (Hr & Ht & Hneg & Hpos). fold r in Hneg, Hpos.
    destruct (Z.ltb_spec r.1 0) as [|Hz]; [by apply Hneg|].
    destruct (Hpos Hz) as (Hi & Hn & Hl). fold f in Hr, Ht, Hn, Hl.
    change (length (conns_ (call f w).2) = MAX_CLIENTS) in Ht.
    split; [done| |by cbn; rewrite length_alter]. cbn [fst snd]. rewrite Hl. apply set_eq. intros j.
    rewrite elem_of_union, elem_of_singleton. cbn [opened net_laws].
    rewrite !open_conns_elem, conn_upd by (right; by rewrite Ht). case_decide; naive_solver.
  - intros _. pose proof (call_dirty f w (on_connect_told now peer w.1)) as Hd. by destruct (r.1 <? 0).
Qed.

(** The peer is gone: close the connection, then tell the server. *)
Lemma disconnected_moves i w : conn_live (conn w.2 i) = true →
  moves w (call (on_disconnected (Z.of_nat i)) (w.1, tp_close_connection i w.2)).
Proof.
  intros Hl. split; intros Hs.
  - apply on_disconnected_sync; [|by apply open_conns_elem|done]. pose proof (is_table _ Hs) as Hc. cbn in Hc.
    unfold conn in Hl. destruct (conns_ w.2 !! i) eqn:E; [|done]. apply lookup_lt_Some in E. lia.
  - exact (call_dirty (on_disconnected (Z.of_nat i)) (w.1, tp_close_connection i w.2)
      (on_disconnected_told (Z.of_nat i) w.1 (in_sync_good _ Hs))).
Qed.

Lemma read_loop_moves fuel now i w w' : read_loop fuel now i w = Some w' → moves w w'.
Proof.
  revert w. induction fuel as [|fuel IH]; intros w; [done|]. cbn [read_loop].
  destruct (cn_used (conn w.2 i)) eqn:Hu; [|intros [= <-]; apply moves_refl].
  destruct (cn_sock (conn w.2 i)) as [s|] eqn:Hs; [|intros [= <-]; apply moves_refl].
  destruct (sock_read s 512) as [r s']. set (f := λ c : Conn S, mkConn (Some s') (cn_tx c) (cn_used c)).
  assert (conn_live (conn w.2 i) = true) as Hl by (unfold conn_live; by rewrite Hu, Hs, bool_decide_eq_true_2 by eauto).
  assert (i < length (conns_ w.2))%nat as Hi.
  { unfold conn in Hu. destruct (conns_ w.2 !! i) eqn:E; [|done]. by apply lookup_lt_Some in E. }
  assert (moves w (w.1, upd_conn i f w.2)) as Hm.
  { split; [|by right]. intros Hw. refine (mv_sync _ _ (upd_moves i f w _ _) Hw).
    - rewrite Hl. unfold conn_live. cbn. by rewrite Hu.
    - right. pose proof (is_table _ Hw) as Hc. cbn in Hc. lia. }
  assert (conn_live (conn (upd_conn i f w.2) i) = true) as Hl'.
  { rewrite conn_upd, decide_True by (done || by right). unfold conn_live. cbn. by rewrite Hu. }
  intros E. apply (moves_trans _ _ _ Hm). destruct r as [d| | |].
  - eapply moves_trans; [|by eapply IH]. apply on_data_moves.
  - injection E as <-. by apply (disconnected_moves i (w.1, upd_conn i f w.2)).
  - injection E as <-. apply moves_refl.
  - injection E as <-. by apply (disconnected_moves i (w.1, upd_conn i f w.2)).
Qed.

Lemma pump_moves fuel now acc w w' : pump inet_ntop use_ipv6 fuel now acc w = Some w' → moves w w'.
Proof.
  unfold pump. intros [w2 [Hio [= <-]]]%bind_Some. eapply moves_trans; [|apply tick_moves].
  assert (moves w (foldl (accept_step inet_ntop use_ipv6 now) w acc)) as Ha.
  { clear Hio. revert w. induction acc as [|a acc IH]; intros w; [apply moves_refl|]. cbn [foldl].
    eapply moves_trans; [apply accept_moves|apply IH]. }
  eapply moves_trans; [exact Ha|]. clear Ha. revert Hio. generalize (foldl (accept_step inet_ntop use_ipv6 now) w acc).
  generalize (seq 0 MAX_CLIENTS). induction l as [|i l IH]; intros w1; cbn [io_loop].
  { intros [= <-]. apply moves_refl. }
  intros [w3 [H1 H2]]%bind_Some. eapply moves_trans; [|by eapply IH]. unfold io_step in H1.
  destruct (conn_live (conn w1.2 i)) eqn:Hl; cbn [negb] in H1; [|injection H1 as <-; apply moves_refl].
  eapply moves_trans; [|by eapply read_loop_moves].
  apply upd_moves; [apply conn_live_flush|by left].
Qed.
End sync.

(** ** The loop ends *)

Section total.
Context {S : Type} `{SocketLaws S} (inet_ntop : SockAddr → bytes) (use_ipv6 : bool).

(** The data waiting on a connection. *)
Definition waiting (c : Conn S) : nat := match cn_sock c with Some s => available s | None => 0%nat end.
Definition less_waiting (n n' : Net S) : Prop := ∀ i, (waiting (conn n' i) ≤ waiting (conn n i))%nat.

Lemma less_refl n : less_waiting n n.
Proof. by intros i. Qed.
Lemma less_trans n1 n2 n3 : less_waiting n1 n2 → less_waiting n2 n3 → less_waiting n1 n3.
Proof. intros H1 H2 i. specialize (H1 i). specialize (H2 i). lia. Qed.

Lemma waiting_send f c : waiting (send_frame f c) = waiting c.
Proof.
  destruct c as [[s|] tx []]; [|done..]. unfold send_frame, waiting. cbn [cn_used cn_sock cn_tx].
  destruct tx; [|done]. rewrite <-(write_available s f). by destruct (sock_write s f) as [[] ?].
Qed.
Lemma waiting_flush c : waiting (flush c) = waiting c.
Proof.
  destruct c as [[s|] [|b tx] []]; [done|done| |done..]. unfold flush, waiting. cbn [cn_used cn_sock cn_tx].
  rewrite <-(write_available s (b :: tx)). by destruct (sock_write s (b :: tx)) as [[] ?].
Qed.

Lemma upd_less i f n : f Conn0 = Conn0 → (∀ c, (waiting (f c) ≤ waiting c)%nat) → less_waiting n (upd_conn i f n).
Proof. intros Hz Hf j. rewrite conn_upd by (by left). case_decide; [apply Hf|done]. Qed.

Lemma perform_less es (n : Net S) : less_waiting n (perform es n).
Proof.
  unfold perform. revert n. induction es as [|e es IH]; intros n; [apply less_refl|]. cbn [foldl].
  eapply less_trans; [|apply IH]. destruct e as [i f|i|].
  - apply upd_less; [done|]. intros c. by rewrite waiting_send.
  - apply upd_less; [done|]. intros c. cbn. lia.
  - by intros i.
Qed.

Lemma read_loop_total fuel now i w : (waiting (conn w.2 i) < fuel)%nat →
  ∃ w', read_loop fuel now i w = Some w' ∧ less_waiting w.2 w'.2.
Proof.
  revert w. induction fuel as [|fuel IH]; intros w Hw; [lia|]. cbn [read_loop].
  destruct (cn_used (conn w.2 i)) eqn:Hu; [|by eexists; split; [done|apply less_refl]].
  destruct (cn_sock (conn w.2 i)) as [s|] eqn:Hs; [|by eexists; split; [done|apply less_refl]].
  destruct (sock_read s 512) as [r s'] eqn:Hr. set (f := λ c : Conn S, mkConn (Some s') (cn_tx c) (cn_used c)).
  assert (i < length (conns_ w.2))%nat as Hi.
  { unfold conn in Hu. destruct (conns_ w.2 !! i) eqn:E; [|done]. by apply lookup_lt_Some in E. }
  assert (waiting (conn w.2 i) = available s) as Ew by (unfold waiting; by rewrite Hs).
  assert ((∀ d, r = RData d → available s' < available s)%nat) as Hd.
  { intros d ->. destruct (read_data s 512 d s') as [? E]; [lia|done|]. unfold available. rewrite E, length_app. lia. }
  assert ((available s' ≤ available s)%nat) as Hle.
  { pose proof (read_available s 512 ltac:(lia)) as E. rewrite Hr in E. exact E. }
  assert (waiting (conn (upd_conn i f w.2) i) = available s') as Ew'.
  { rewrite conn_upd, decide_True by (done || by right). done. }
  assert (less_waiting w.2 (upd_conn i f w.2)) as Hl.
  { intros j. destruct (decide (i = j)) as [<-|Hj]; [lia|]. rewrite conn_upd, decide_False by (done || by right). done. }
  destruct r as [d| | |].
  - set (w1 := (w.1, upd_conn i f w.2)). pose proof (perform_less (outputs w1.1 (on_data (Z.of_nat i) d now w1.1)) w1.2) as Hp.
    destruct (IH (call (on_data (Z.of_nat i) d now) w1)) as (w' & -> & Hw').
    + specialize (Hp i). specialize (Hd d eq_refl). cbn [call snd].
      change (waiting (conn w1.2 i)) with (waiting (conn (upd_conn i f w.2) i)) in Hp. lia.
    + exists w'. split; [done|]. eapply less_trans; [exact Hl|]. eapply less_trans; [exact Hp|exact Hw'].
  - eexists. split; [done|]. eapply less_trans; [exact Hl|]. cbn [call snd].
    eapply less_trans; [|apply perform_less]. apply upd_less; [done|]. intros c. cbn. lia.
  - eexists. split; [done|]. exact Hl.
  - eexists. split; [done|]. eapply less_trans; [exact Hl|]. cbn [call snd].
    eapply less_trans; [|apply perform_less]. apply upd_less; [done|]. intros c. cbn. lia.
Qed.

(** More fuel changes nothing. *)
Lemma read_loop_mono f1 f2 now i w w' : (f1 ≤ f2)%nat → read_loop f1 now i w = Some w' → read_loop f2 now i w = Some w'.
Proof.
  revert f2 w. induction f1 as [|f1 IH]; intros [|f2] w Hf; try (done || lia). cbn [read_loop].
  destruct (cn_used (conn w.2 i)); [|done]. destruct (cn_sock (conn w.2 i)) as [s|]; [|done].
  destruct (sock_read s 512) as [[] s']; [|done..]. apply IH. lia.
Qed.
Lemma io_loop_mono f1 f2 now idx w w' : (f1 ≤ f2)%nat → io_loop f1 now idx w = Some w' → io_loop f2 now idx w = Some w'.
Proof.
  intros Hf. revert w. induction idx as [|i idx IH]; intros w; [done|]. cbn [io_loop].
  intros [w1 [H1 H2]]%bind_Some. apply bind_Some. exists w1. split; [|auto]. unfold io_step in *.
  destruct (negb _); [done|]. by eapply read_loop_mono.
Qed.

Lemma io_loop_total fuel now idx w : (∀ i, waiting (conn w.2 i) < fuel)%nat →
  ∃ w', io_loop fuel now idx w = Some w'.
Proof.
  revert w. induction idx as [|i idx IH]; intros w Hw; cbn [io_loop]; [by eauto|].
  assert (∃ w1, io_step fuel now w i = Some w1 ∧ less_waiting w.2 w1.2) as (w1 & -> & Hl).
  { unfold io_step. destruct (negb _); [eexists; split; [done|apply less_refl]|].
    assert (less_waiting w.2 (upd_conn i flush w.2)) as Hf by (apply upd_less; [done|]; intros c; by rewrite waiting_flush).
    destruct (read_loop_total fuel now i (w.1, upd_conn i flush w.2)) as (w1 & -> & H1).
    - specialize (Hf i). specialize (Hw i). cbn [snd]. lia.
    - exists w1. split; [done|]. by eapply less_trans. }
  apply IH. intros j. specialize (Hl j). specialize (Hw j). lia.
Qed.

Lemma accept_waiting fuel now acc (w : Server * Net S) :
  (∀ i, waiting (conn w.2 i) < fuel)%nat → Forall (λ a, available a.1 < fuel)%nat acc →
  ∀ i, (waiting (conn (foldl (accept_step inet_ntop use_ipv6 now) w acc).2 i) < fuel)%nat.
Proof.
  intros Hw Ha. revert w Hw. induction Ha as [|a acc Ha _ IH]; intros w Hw; [done|]. cbn [foldl]. apply IH.
  intros i. unfold accept_step. set (f := λ st, (on_connect _ _ st).2).
  assert (∀ j, waiting (conn (call f w).2 j) < fuel)%nat as Hc.
  { intros j. pose proof (perform_less (outputs w.1 (f w.1)) w.2 j) as Hp. specialize (Hw j). cbn [call snd]. lia. }
  case_match; [apply Hc|]. cbn [snd]. set (k := Z.to_nat _).
  destruct (decide (k < length (conns_ (call f w).2))%nat) as [Hk|Hk].
  - rewrite conn_upd by (by right). case_decide; [exact Ha|apply Hc].
  - unfold conn, upd_conn. cbn [conns_]. rewrite list_lookup_alter. case_decide as E; [|apply Hc]. subst k i.
    rewrite (proj2 (lookup_ge_None _ _)) by lia. specialize (Hw 0%nat). cbn. lia.
Qed.
End total.

(** ** Runs of the component *)

(** A component as the generated code configures it; an absent sensor is not set.
    No sensor has published anything yet. *)
Definition configured {S} (port : Z) (s : Sensors) : QnetdComponent S :=
  set_status_sensor (status_sensor_ s) (set_vote_granted_sensor (vote_granted_sensor_ s)
    (set_decisions_sensor (decisions_sensor_ s) (set_connected_sensor (connected_sensor_ s) (set_port port component0)))).
Definition silent (s : Sensors) : Prop :=
  (∀ l, connected_sensor_ s = Some l → l = []) ∧ (∀ l, decisions_sensor_ s = Some l → l = []) ∧
  (∀ l, vote_granted_sensor_ s = Some l → l = []) ∧ (∀ l, status_sensor_ s = Some l → l = []).

(** Between two loops the network acts on the sockets. *)
Definition network_step {S} (f : nat → S → S) (c : QnetdComponent S) : QnetdComponent S :=
  mkComponent (port_ c) (server_ c)
    (mkNet (imap (λ i k, mkConn (f i <$> cn_sock k) (cn_tx k) (cn_used k)) (conns_ (net_ c))) (dirty_ (net_ c)))
    (clock_ c) (failed_ c) (sensors_ c).

(** The states of the component: after [setup], and after any number of loops
    and anything the network does in between. *)
Inductive component_reachable {S} `{Socket S} (inet_ntop : SockAddr → bytes) (use_ipv6 : bool)
    : QnetdComponent S → Prop :=
| cr_setup port sensors created sl bind listen : silent sensors →
    component_reachable inet_ntop use_ipv6 (setup created sl bind listen (configured port sensors))
| cr_network c f : component_reachable inet_ntop use_ipv6 c →
    component_reachable inet_ntop use_ipv6 (network_step f c)
| cr_loop c fuel millis acc c' : component_reachable inet_ntop use_ipv6 c →
    loop inet_ntop use_ipv6 fuel millis acc c = Some c' → component_reachable inet_ntop use_ipv6 c'.

(** The sensors show the state of the server. *)
Record shows (s : Sensors) (st : Server) : Prop := {
  sh_connected l : connected_sensor_ s = Some l → last l = Some (connected_clients st);
  sh_decisions l : decisions_sensor_ s = Some l → last l = Some (sv_decisions st);
  sh_vote l : vote_granted_sensor_ s = Some l → last l = Some (any_ack st);
  sh_status l : status_sensor_ s = Some l → last l = Some (status_string st);
}.

Lemma publish_last {A} (v : A) o l : publish_state v o = Some l → last l = Some v.
Proof. destruct o; [|done]. intros [= <-]. apply last_snoc. Qed.
Lemma publish_shows st s : shows (publish_ st s) st.
Proof.
  split; cbn; [apply publish_last..|]. intros l. destruct (status_sensor_ s) as [l0|]; [|done].
  case_bool_decide as E; [by intros [= <-]|intros [= <-]; apply last_snoc].
Qed.

Record component_ok {S} `{Socket S} (c : QnetdComponent S) : Prop := {
  co_sync : in_sync (server_ c, net_ c);
  co_clean : dirty_ (net_ c) = false;
  co_shows : server_ c = Server0 32768 ∧ silent (sensors_ c) ∨ shows (sensors_ c) (server_ c);
}.

Lemma live0 max : live (Server0 max) = ∅.
Proof. apply (bool_decide_unpack _). vm_compute. exact I. Qed.

Lemma reachable_ok {S} `{Socket S} inet_ntop use_ipv6 (c : QnetdComponent S) :
  component_reachable inet_ntop use_ipv6 c → component_ok c.
Proof.
  induction 1 as [port sensors created sl bind listen Hsil|c f _ [[Hr Ho Hc] Hd Hsh]|c fuel millis acc c' _ IH Hl].
  - assert (∀ b, component_ok (mkComponent port (Server0 32768) (mkNet (S := S) (replicate MAX_CLIENTS Conn0) false)
      Clock0 b sensors)) as H0.
    { intros b. split; [split|done|by left]; cbn [server_ net_ fst snd opened net_laws]; [apply reach_init| |done].
      rewrite live0. apply set_eq. intros i. rewrite open_conns_elem. unfold conn. cbn [conns_].
      split; [|set_solver]. destruct (_ !! i) eqn:E; [|done]. by apply lookup_replicate in E as [-> _]. }
    unfold setup, configured, mark_failed. destruct sensors. cbn. repeat case_match; apply H0.
  - split; [split|done|done]; cbn [server_ net_ network_step fst snd conns_ opened table_ok net_laws] in *; [done| |by rewrite length_imap].
    rewrite <-Ho. apply set_eq. intros i. rewrite !open_conns_elem. unfold conn. cbn [conns_].
    rewrite list_lookup_imap. destruct (conns_ (net_ c) !! i) as [k|]; [|done]. unfold conn_live. cbn.
    by destruct (cn_sock k).
  - unfold loop in Hl. destruct (failed_ c); [by injection Hl as <-|].
    destruct (now_ms_ millis (clock_ c)) as [now clock]. destruct IH as [Hs Hd Hsh].
    apply bind_Some in Hl as (w & Hp & Hl). pose proof (pump_moves _ _ _ _ _ _ _ Hp) as [Hm Hm'].
    specialize (Hm Hs). specialize (Hm' Hs). cbn [fst snd] in Hm'. destruct w as [st n]. cbn [fst snd] in *.
    destruct (dirty_ n) eqn:En; injection Hl as <-.
    + destruct Hm as [M1 M2 M3]. split; [by split|done|right; apply publish_shows].
    + split; cbn [server_ net_ sensors_]; [done|done|]. destruct Hm' as [|[-> _]]; [done|exact Hsh].
Qed.

(** A run: one client connects and joins; in the next loop it hangs up. *)
Module Run.
Definition ntop (a : SockAddr) : bytes := [112].
Definition started : QnetdComponent ScriptSocket :=
  setup true (λ _, 16) (λ _, 0) 0 (configured 5403 (mkSensors (Some []) (Some []) (Some []) (Some []))).
Definition joiner (node_id : Z) : ScriptSocket :=
  mkScript [] [100; 10; 100]%nat
    (MockClient.preinit 1 Scenarios.tc ++ MockClient.init 2 node_id ring0 8000 TieBreaker0 ALG_FFSPLIT) false.
Definition joined : QnetdComponent ScriptSocket :=
  default started (loop ntop true 200 1000 [(joiner 1, AF_INET 1)] started).
(** The peer closes its side. *)
Definition hung_up : QnetdComponent ScriptSocket :=
  network_step (λ _ s, mkScript (sc_out s) (sc_script s) [] true) joined.
Definition left : QnetdComponent ScriptSocket := default started (loop ntop true 200 1100 [] hung_up).

Example joined_status : status_sensor_ (sensors_ joined) = Some [str "tc: 1=undef"].
Proof. vm_compute. reflexivity. Qed.
Example left_status : status_sensor_ (sensors_ left) = Some [str "tc: 1=undef"; str "idle"] ∧
  open_conns (net_ left) = ∅.
Proof. split; [vm_compute; reflexivity|]. apply (bool_decide_unpack _). vm_compute. exact I. Qed.

Lemma joined_reachable : component_reachable ntop true joined.
Proof.
  apply (cr_loop _ _ started 200 1000 [(joiner 1, AF_INET 1)]); [apply cr_setup; repeat split; by intros l [= <-]|].
  vm_compute. reflexivity.
Qed.
End Run.

(** C9: the component and the server agree on who is connected.  After [setup]
    and any number of loops - whatever connects, arrives, fails or closes - the
    server is in a state reachable through its interface, and a slot has an open
    connection exactly if its session is in use. *)
Theorem component_tracks_sessions {S} `{Socket S} inet_ntop use_ipv6 (c : QnetdComponent S) :
  component_reachable inet_ntop use_ipv6 c →
  reachable 32768 (server_ c) ∧ length (conns_ (net_ c)) = MAX_CLIENTS ∧
  ∀ i, (cn_used (conn (net_ c) i) = true ∧ is_Some (cn_sock (conn (net_ c) i))) ↔
       s_phase (sess (server_ c) i) ≠ FREE.
Proof.
  intros [[Hr Ho Hc] _ _]%reachable_ok. cbn [fst snd opened table_ok net_laws] in *. split_and!; [done|done|]. intros i.
  destruct (reachable_good _ _ Hr) as [Hg _].
  rewrite <-live_elem, <-Ho, open_conns_elem by (apply inv_len_sessions, Hg). unfold conn_live.
  rewrite andb_true_iff, bool_decide_eq_true. done.
Qed.

Lemma component_tracks_sessions_witness :
  s_phase (sess (server_ Run.joined) 0) = ACTIVE ∧ cn_used (conn (net_ Run.joined) 0) = true.
Proof.
  assert (s_phase (sess (server_ Run.joined) 0) = ACTIVE) as H by (vm_compute; reflexivity). split; [exact H|].
  destruct (component_tracks_sessions Run.ntop true Run.joined Run.joined_reachable) as (_ & _ & Hi).
  apply (proj2 (Hi 0%nat)). rewrite H. discriminate.
Defined.

(** C25: the sensors are never stale.  Between two loops every configured sensor
    shows the current state of the server - the number of connected clients, the
    decision counter, whether some client holds an ACK, the status line - unless
    nothing has happened yet, when nothing is published. *)
Theorem sensors_current {S} `{Socket S} inet_ntop use_ipv6 (c : QnetdComponent S) :
  component_reachable inet_ntop use_ipv6 c →
  dirty_ (net_ c) = false ∧
  (server_ c = Server0 32768 ∧ silent (sensors_ c) ∨ shows (sensors_ c) (server_ c)).
Proof. by intros [_ H1 H2]%reachable_ok. Qed.

Lemma sensors_current_witness :
  connected_sensor_ (sensors_ Run.joined) = Some [1] ∧ dirty_ (net_ Run.joined) = false.
Proof.
  split; [vm_compute; reflexivity|]. apply (sensors_current Run.ntop true Run.joined Run.joined_reachable).
Defined.

(** The loop returns.  If every open connection and every new one has fewer
    than [fuel] bytes waiting, one run of [loop] reads them all and returns, with
    the same result for every larger amount of fuel. *)
Theorem loop_terminates {S} `{SocketLaws S} inet_ntop use_ipv6 fuel millis acc (c : QnetdComponent S) :
  (∀ i, waiting (conn (net_ c) i) < fuel)%nat → Forall (λ a, available a.1 < fuel)%nat acc →
  ∃ c', ∀ fuel', (fuel ≤ fuel')%nat → loop inet_ntop use_ipv6 fuel' millis acc c = Some c'.
Proof.
  intros Hw Ha. unfold loop. destruct (failed_ c); [by eauto|].
  destruct (now_ms_ millis (clock_ c)) as [now clock]. unfold pump.
  destruct (io_loop_total fuel now (seq 0 MAX_CLIENTS) (foldl (accept_step inet_ntop use_ipv6 now) (server_ c, net_ c) acc))
    as [w Hio]; [by apply accept_waiting|].
  destruct (dirty_ (call (tick now) w).2) eqn:E; eexists; intros fuel' Hf;
    rewrite (io_loop_mono _ _ _ _ _ _ Hf Hio); cbn [mbind option_bind]; by rewrite E.
Qed.
Lemma loop_terminates_witness :
  available (Run.joiner 1) = 135%nat ∧
  ∃ c', ∀ fuel', (200 ≤ fuel')%nat → loop Run.ntop true fuel' 1000 [(Run.joiner 1, AF_INET 1)] Run.started = Some c'.
Proof.
  split; [vm_compute; reflexivity|].
  apply (loop_terminates Run.ntop true 200 1000 [(Run.joiner 1, AF_INET 1)] Run.started).
  - intros i. change (net_ Run.started) with (mkNet (S := ScriptSocket) (replicate MAX_CLIENTS Conn0) false).
    unfold conn. cbn [conns_]. destruct (replicate MAX_CLIENTS Conn0 !! i) eqn:E; [|cbn; lia].
    apply lookup_replicate in E as [-> _]. cbn. lia.
  - constructor; [|constructor]. cbv beta. apply (bool_decide_unpack _). vm_compute. exact I.
Defined.
