(* ===== verification/Stream.v ===== *)
(** * The byte stream through the component

    What [loop] reads from a connection reaches the server whole and in order,
    however the socket cuts it: composing the reads of 512 bytes with [on_data]
    amounts to one call with everything the peer sent. *)
From S2P Require Import Prelude Wire Tlv Msg State Ffsplit Select Handlers Lifecycle Invariant.
From S2P Require Import HandlerFacts InitFacts VoteOrder Safety Scenarios Shift Chunks Outputs Correctness Calls Status.
From S2P Require Import Transport Component ComponentLoop.
From stdpp Require Import gmap.
Open Scope Z_scope.

(** ** Disconnections and the record of effects *)

Lemma leave_recorded i p st : reset_sess i (leave_cluster i (recorded p st)) = recorded p (reset_sess i (leave_cluster i st)).
Proof. by rewrite <-(shift_recorded i p st), shift_leave_cluster, reset_shift. Qed.

Lemma on_disconnected_recorded p slot st : good st →
  on_disconnected slot (recorded p st) = recorded p (on_disconnected slot st).
Proof.
  intros Hg. unfold on_disconnected. change (bad_slot slot (recorded p st)) with (bad_slot slot st).
  destruct (bad_slot slot st) eqn:Hb; [done|]. destruct (bad_slot_false _ _ Hb) as (_ & _ & Hf).
  change (sv_processing (recorded p st)) with (sv_processing st). rewrite (good_processing _ Hg).
  set (i := Z.to_nat slot) in *. cbv zeta.
  change ((recorded p st) <| sv_processing := true |>) with (recorded p (st <| sv_processing := true |>)).
  rewrite leave_recorded. destruct (leave_reset_post i (st <| sv_processing := true |>)) as [He _ _ _ _];
    [apply inv_processing, Hg|exact Hf|]. apply env_pending in He. fold (leave_reset i (st <| sv_processing := true |>)).
  set (st1 := leave_reset i (st <| sv_processing := true |>)) in *. clearbody st1.
  change ((recorded p st1) <| sv_processing := false |>) with (recorded p (st1 <| sv_processing := false |>)).
  rewrite (drain_recorded i).
  - generalize (drain_closes (st1 <| sv_processing := false |>)). intros x. by rewrite <-!(shift_recorded i), shift_notify.
  - right. change (sv_pending_close st1 = []). rewrite He. exact (good_pending _ Hg).
Qed.

Lemma on_disconnected_unnotified slot x y : good x → good y → unnotified x = unnotified y →
  unnotified (on_disconnected slot x) = unnotified (on_disconnected slot y).
Proof.
  intros Hx Hy E. rewrite <-(recorded_muted x), <-(recorded_muted y), !on_disconnected_recorded by (by apply good_muted).
  rewrite !unnotified_recorded.
  assert (muted x = muted y) as -> by (change (muted (unnotified x) = muted (unnotified y)); by rewrite E).
  f_equal. change (sv_out (unnotified x) = sv_out (unnotified y)). by rewrite E.
Qed.

(** ** Feeding the server *)

(** The bytes read in one go; the server hears nothing if there are none. *)
Definition feed (i : nat) (d : bytes) (now : Z) (st : Server) : Server :=
  match d with [] => st | _ => on_data (Z.of_nat i) d now st end.

Lemma feed_good i d now st : good st → good (feed i d now st).
Proof. destruct d; [done|apply on_data_good]. Qed.
Lemma feed_data i d now st : d ≠ [] → feed i d now st = on_data (Z.of_nat i) d now st.
Proof. by destruct d. Qed.
Lemma feed_app i d p now st : good st → d ≠ [] →
  unnotified (feed i p now (on_data (Z.of_nat i) d now st)) = unnotified (feed i (d ++ p) now st).
Proof.
  intros Hg Hd. rewrite (feed_data i (d ++ p)) by (by destruct d). destruct p as [|b p]; cbn [feed]; [by rewrite app_nil_r|].
  by rewrite on_data_two.
Qed.
(** A client that is gone is not fed. *)
Lemma feed_free i d now st : s_phase (sess st i) = FREE → feed i d now st = st.
Proof.
  intros Hf. destruct d as [|b d]; [done|]. cbn [feed]. unfold on_data.
  assert (bad_slot (Z.of_nat i) st = true) as ->; [|done]. unfold bad_slot. by rewrite Nat2Z.id, bool_decide_eq_true_2, orb_true_r.
Qed.

Section stream.
Context {S : Type} `{SocketLaws S}.

(** From socket [s] to socket [s'] by writes and by reads that hand out [d]. *)
Inductive sock_moves : S → bytes → S → Prop :=
| sm_refl s : sock_moves s [] s
| sm_write s b r s1 d s' : sock_write s b = (r, s1) → sock_moves s1 d s' → sock_moves s d s'
| sm_read s d1 s1 d s' : sock_read s 512 = (RData d1, s1) → sock_moves s1 d s' → sock_moves s (d1 ++ d) s'.

Lemma sock_moves_app s1 d1 s2 d2 s3 : sock_moves s1 d1 s2 → sock_moves s2 d2 s3 → sock_moves s1 (d1 ++ d2) s3.
Proof. induction 1; intros; [done|by eapply sm_write; eauto|]. rewrite <-app_assoc. by eapply sm_read; eauto. Qed.
Lemma sock_moves_incoming s d s' : sock_moves s d s' → incoming s = d ++ incoming s'.
Proof.
  induction 1 as [s|s b r s1 d s' Hw _ IH|s d1 s1 d s' Hr _ IH]; [done| |].
  - rewrite <-IH, <-(write_incoming s b). by rewrite Hw.
  - destruct (read_data s 512 d1 s1) as [_ ->]; [lia|done|]. by rewrite IH, app_assoc.
Qed.

(** What a connection was written to, it can still be read from. *)
Definition written (c c' : Conn S) : Prop := ∀ s', cn_sock c' = Some s' → ∃ s, cn_sock c = Some s ∧ sock_moves s [] s'.

Lemma written_refl c : written c c.
Proof. intros s Hs. exists s. split; [done|constructor]. Qed.
Lemma written_trans c1 c2 c3 : written c1 c2 → written c2 c3 → written c1 c3.
Proof.
  intros H1 H2 s3 (s2 & (s1 & E & M1)%H1 & M2)%H2. exists s1. split; [done|]. exact (sock_moves_app _ [] _ [] _ M1 M2).
Qed.
Lemma written_sock s b c r s' : sock_write s b = (r, s') → cn_sock c = Some s → ∃ s0, cn_sock c = Some s0 ∧ sock_moves s0 [] s'.
Proof. intros E Hc. exists s. split; [done|]. eapply sm_write; [exact E|constructor]. Qed.
Lemma written_send f c : written c (send_frame f c).
Proof.
  destruct c as [[s|] tx []]; try apply written_refl. unfold send_frame, written. cbn [cn_used cn_sock cn_tx].
  destruct tx; [|apply (written_refl (mkConn (Some s) _ true))].
  destruct (sock_write s f) as [r s'] eqn:E. destruct r; cbn [cn_sock]; intros ? [= <-]; exact (written_sock s f (mkConn (Some s) [] true) _ _ E eq_refl).
Qed.
Lemma written_flush c : written c (flush c).
Proof.
  destruct c as [[s|] [|b tx] []]; try apply written_refl. unfold flush, written. cbn [cn_used cn_sock cn_tx].
  destruct (sock_write s (b :: tx)) as [r s'] eqn:E.
  destruct r; cbn [cn_sock]; intros ? [= <-]; exact (written_sock s _ (mkConn (Some s) [] true) _ _ E eq_refl).
Qed.

(** Effects write to a connection, unless they close it. *)
Lemma perform_written es (n : Net S) i : written (conn n i) (conn (perform es n) i).
Proof.
  unfold perform. revert n. induction es as [|e es IH]; intros n; [apply written_refl|]. cbn [foldl].
  eapply written_trans; [|apply IH]. destruct e as [j f|j|]; cbn; [| |apply written_refl];
    rewrite conn_upd by (by left); (case_decide; [|apply written_refl]).
  - apply written_send.
  - by intros s'.
Qed.

Lemma live_sock (c : Conn S) : conn_live c = true → ∃ s, cn_sock c = Some s.
Proof. by intros [_ Hb%bool_decide_eq_true]%andb_prop. Qed.

(** Without a connection there is no session. *)
Lemma not_live_free i (w : Server * Net S) : in_sync w → conn_live (conn w.2 i) = false → s_phase (sess w.1 i) = FREE.
Proof.
  intros Hs Hl. destruct (decide (s_phase (sess w.1 i) = FREE)) as [|Hf]; [done|]. exfalso.
  apply live_elem in Hf; [|by apply inv_len_sessions, good_inv, in_sync_good]. rewrite <-(is_opened _ Hs) in Hf.
  cbn [opened net_laws] in Hf. apply open_conns_elem in Hf. congruence.
Qed.

(** What reading a connection with socket [s] amounts to for the server.  All that
    is waiting is fed to it, until the socket would block or the server itself
    closes the connection; or the socket reports the end of the stream or an
    error, and what was read before is fed to it and the disconnection reported. *)
Inductive streamed (i : nat) (now : Z) (s : S) (st st' : Server) : Prop :=
| str_blocked s1 s2 : sock_moves s (incoming s) s1 → sock_read s1 512 = (RAgain, s2) →
    unnotified st' = unnotified (feed i (incoming s) now st) → streamed i now s st st'
| str_closed : s_phase (sess st' i) = FREE →
    unnotified st' = unnotified (feed i (incoming s) now st) → streamed i now s st st'
| str_ended d s1 r s2 : sock_moves s d s1 → sock_read s1 512 = (r, s2) → r = REof ∨ r = RErr →
    unnotified st' = unnotified (on_disconnected (Z.of_nat i) (feed i d now st)) → streamed i now s st st'.

Lemma streamed_written i now s s' st st' : sock_moves s [] s' → streamed i now s' st st' → streamed i now s st st'.
Proof.
  intros Hm. pose proof (sock_moves_incoming _ _ _ Hm) as E. cbn in E.
  intros [s1 s2 M R U|P U|d s1 r s2 M R C U]; rewrite <-?E in *.
  - eapply str_blocked; [|exact R|exact U]. exact (sock_moves_app _ [] _ _ _ Hm M).
  - by apply str_closed.
  - eapply str_ended; [|exact R|exact C|exact U]. exact (sock_moves_app _ [] _ _ _ Hm M).
Qed.

Lemma streamed_step i now s d s' st st' : good st → sock_read s 512 = (RData d, s') →
  streamed i now s' (on_data (Z.of_nat i) d now st) st' → streamed i now s st st'.
Proof.
  intros Hg Hr. destruct (read_data s 512 d s') as [Hl E]; [lia|done|]. assert (d ≠ []) as Hd by (intros ->; cbn in Hl; lia).
  intros [s1 s2 M R U|P U|d1 s1 r s2 M R C U].
  - eapply str_blocked; [rewrite E; by eapply sm_read|exact R|]. by rewrite U, E, feed_app.
  - apply str_closed; [done|]. by rewrite U, E, feed_app.
  - eapply str_ended; [by eapply sm_read|exact R|exact C|]. rewrite U.
    apply on_disconnected_unnotified; [by apply feed_good, on_data_good|by apply feed_good|by apply feed_app].
Qed.

Lemma read_loop_stream fuel now i w w' s : in_sync w → read_loop fuel now i w = Some w' →
  conn_live (conn w.2 i) = true → cn_sock (conn w.2 i) = Some s → streamed i now s w.1 w'.1.
Proof.
  revert w s. induction fuel as [|fuel IH]; intros w s Hs; [done|]. cbn [read_loop]. intros E Hl Hc.
  destruct (cn_used (conn w.2 i)) eqn:Hu; [|by unfold conn_live in Hl; rewrite Hu in Hl]. rewrite Hc in E.
  destruct (sock_read s 512) as [r s'] eqn:Hr. set (f := λ c : Conn S, mkConn (Some s') (cn_tx c) (cn_used c)) in *.
  pose proof (in_sync_good _ Hs) as Hg.
  destruct r as [d| | |].
  - assert (i < length (conns_ w.2))%nat as Hi.
    { unfold conn in Hu. destruct (conns_ w.2 !! i) eqn:Ei; [|done]. by apply lookup_lt_Some in Ei. }
    assert (in_sync (w.1, upd_conn i f w.2)) as Hs1.
    { apply (upd_moves i f w); [|right; rewrite <-(is_table _ Hs); exact Hi|done].
      rewrite Hl. unfold conn_live. cbn. by rewrite Hu. }
    assert (cn_sock (conn (upd_conn i f w.2) i) = Some s') as Hf by (by rewrite conn_upd, decide_True by (done || by right)).
    pose proof (on_data_sync (Z.of_nat i) d now _ Hs1) as Hs2.
    set (w1 := call (on_data (Z.of_nat i) d now) (w.1, upd_conn i f w.2)) in *.
    eapply streamed_step; [done|exact Hr|]. change (on_data (Z.of_nat i) d now w.1) with w1.1.
    destruct (conn_live (conn w1.2 i)) eqn:Hl1.
    + destruct (live_sock _ Hl1) as [s1 Hc1].
      destruct (perform_written _ _ _ _ Hc1) as (s0 & Hs0 & Hm). cbn [fst snd] in Hs0. rewrite Hf in Hs0.
      injection Hs0 as <-. exact (streamed_written _ _ _ _ _ _ Hm (IH w1 s1 Hs2 E Hl1 Hc1)).
    + assert (w' = w1) as ->.
      { destruct fuel as [|fuel]; [done|]. cbn [read_loop] in E.
        destruct (cn_used (conn w1.2 i)) eqn:Hu1, (cn_sock (conn w1.2 i)) eqn:Hc1; try (by injection E as <-).
        unfold conn_live in Hl1. by rewrite Hu1, Hc1, bool_decide_eq_true_2 in Hl1 by eauto. }
      pose proof (not_live_free i w1 Hs2 Hl1) as Hfree. apply str_closed; [done|]. by rewrite feed_free.
  - injection E as <-. eapply str_ended; [constructor|exact Hr|by left|done].
  - injection E as <-. destruct (read_again _ _ _ Hr) as [E _]. eapply str_blocked; [rewrite E; constructor|exact Hr|by rewrite E].
  - injection E as <-. eapply str_ended; [constructor|exact Hr|by right|done].
Qed.
End stream.

(** C12: the component delivers the byte stream.  In a component whose tables agree
    with the server's, one visit of [loop] to an open connection returns.  If after
    the reads (and the server's writes) of the visit the socket would block, or the
    server closed the connection while handling the data, the server is left as if
    everything the peer had sent had been passed to [on_data] in one piece, whatever
    pieces the socket hands out.  It is left disconnected only if the socket, after
    handing out a part of the data, reported the end of the stream or an error:
    then as if that part had been passed to [on_data] in one piece and
    [on_disconnected] called afterwards.  The two differ in nothing but repeated
    notifications. *)
Theorem received_stream_delivered {S} `{SocketLaws S} fuel now i st (n : Net S) s :
  in_sync (st, n) → conn_live (conn n i) = true → cn_sock (conn n i) = Some s → (length (incoming s) < fuel)%nat →
  ∃ st' n', io_step fuel now (st, n) i = Some (st', n') ∧ in_sync (st', n') ∧ streamed i now s st st'.
Proof.
  intros Hs Hl Hk Hf. unfold io_step. set (w := (st, n)) in *. change n with w.2 in Hl, Hk |- *. change st with w.1.
  rewrite Hl. cbn [negb]. set (w1 := (w.1, upd_conn i flush w.2)).
  assert (conn w1.2 i = flush (conn w.2 i)) as Hc by (cbn [w1 snd]; rewrite conn_upd, decide_True by (done || by left); done).
  assert (in_sync w1) as Hs1 by (apply (upd_moves i flush w); [apply conn_live_flush|by left|done]).
  assert (waiting (conn w1.2 i) < fuel)%nat as Hw by (rewrite Hc, waiting_flush; unfold waiting; by rewrite Hk).
  destruct (read_loop_total fuel now i w1 Hw) as (w' & E & _). exists w'.1, w'.2. rewrite <-surjective_pairing. split; [done|].
  split; [exact (mv_sync _ _ (read_loop_moves fuel now i w1 w' E) Hs1)|].
  assert (conn_live (conn w1.2 i) = true) as Hl1 by (by rewrite Hc, conn_live_flush).
  destruct (live_sock _ Hl1) as [s1 Hk1].
  pose proof Hk1 as Hk2. rewrite Hc in Hk2. apply written_flush in Hk2 as (s0 & Hs0 & Hm). rewrite Hk in Hs0. injection Hs0 as <-.
  apply (streamed_written _ _ _ _ _ _ Hm). by apply (read_loop_stream fuel now i w1 w').
Qed.
(** Two echo requests, 28 bytes, wait on the connection of a client that has joined. *)
Definition echoes : bytes := MockClient.echo_request 3 ++ MockClient.echo_request 4.
Definition echoing : QnetdComponent ScriptSocket :=
  network_step (λ _ s, mkScript (sc_out s) (sc_script s) echoes (sc_eof s)) Run.joined.
Lemma received_stream_delivered_witness :
  ∃ s, cn_sock (conn (net_ echoing) 0) = Some s ∧ incoming s = echoes ∧
  ∃ st' n', io_step 100 1000 (server_ echoing, net_ echoing) 0 = Some (st', n') ∧ in_sync (st', n') ∧
    streamed 0 1000 s (server_ echoing) st'.
Proof.
  eexists. split; [vm_compute; reflexivity|]. split; [vm_compute; reflexivity|].
  refine (received_stream_delivered 100 1000 0 (server_ echoing) (net_ echoing) _ _ _ _ _).
  - exact (co_sync _ (reachable_ok Run.ntop true echoing (cr_network _ _ _ _ Run.joined_reachable))).
  - vm_compute. reflexivity.
  - vm_compute. reflexivity.
  - apply (bool_decide_unpack _). vm_compute. exact I.
Defined.
