(* ===== verification/Host.v ===== *)
(** * The POSIX server (host/qnetd_lite.cpp)

    The select-driven wrapper around the core that the interoperability tests
    run.  The operating system is a type class [Posix] over an abstract state:
    one operation per system call, with the results and the [errno] the code
    looks at.  File descriptors are the numbers the system hands out; the sets
    given to and left by [select] are sets of numbers, as in [fd_set]. *)
From Stdlib Require Import String.
From S2P Require Import Prelude Wire Tlv Msg State Ffsplit Select Handlers Lifecycle Invariant.
From S2P Require Import HandlerFacts InitFacts VoteOrder Safety Scenarios Outputs Correctness Status.
From S2P Require Import Transport Component ComponentLoop.
From stdpp Require Import gmap.
Open Scope Z_scope.

Inductive Errno : Set := EINTR | EAGAIN | EWOULDBLOCK | EOTHER.
#[export] Instance Errno_eq_dec : EqDecision Errno.
Proof. solve_decision. Defined.

(** The system calls.  A negative count is a failure with the given [errno]. *)
Class Posix (W : Type) := {
  sys_clock_gettime : W → (Z * Z) * W;
  sys_send : Z → bytes → W → (Z * Errno) * W;
  sys_recv : Z → nat → W → (Z * Errno * bytes) * W;
  sys_close : Z → W → W;
  sys_select : Z → gset Z → W → (Z * Errno * gset Z) * W;
  sys_accept : Z → W → (Z * SockAddr) * W;
}.

(** [now_ms()]. *)
Definition now_ms {W} `{Posix W} (w : W) : Z * W :=
  let '((tv_sec, tv_nsec), w) := sys_clock_gettime w in
  (u64 (u64 (u64 tv_sec * 1000) + tv_nsec ÷ 1000000), w).

(** [struct PosixTransport], with the system it acts on. *)
Record PosixTransport (W : Type) : Type := mkPosix { fds : list Z; os : W }.
Arguments mkPosix {W} _ _.
Arguments fds {W} _.
Arguments os {W} _.

Section host.
Context {W : Type} `{Posix W}.

(** [PosixTransport()]: no slot has a descriptor. *)
Definition PosixTransport0 (w : W) : PosixTransport W := mkPosix (replicate MAX_CLIENTS (-1)) w.

Definition fd (t : PosixTransport W) (i : nat) : Z := default (-1) (fds t !! i).
Definition set_fd (i : nat) (v : Z) (t : PosixTransport W) : PosixTransport W :=
  mkPosix (alter (λ _, v) i (fds t)) (os t).

(** The [while] loop of [send_frame] from offset [off]: [EINTR] is retried, other
    failures end it.  The fuel bounds the number of calls of [send]. *)
Fixpoint send_loop (fuel : nat) (f : Z) (data : bytes) (off : nat) (w : W) : W :=
  match fuel with
  | O => w
  | S fuel =>
      if (off <? length data)%nat then
        let '((n, errno), w) := sys_send f (drop off data) w in
        if n <=? 0 then
          if bool_decide (errno = EINTR) then send_loop fuel f data off w else w
        else send_loop fuel f data (off + Z.to_nat n) w
      else w
  end.

Context (fuel : nat).

(** [send_frame] and [close_connection]; [main] installs no [on_state_change]. *)
#[export] Instance posix_transport : Transport (PosixTransport W) := {|
  tp_send_frame i f t :=
    if fd t i <? 0 then t else mkPosix (fds t) (send_loop fuel (fd t i) f 0 (os t));
  tp_close_connection i t :=
    set_fd i (-1) (if 0 <=? fd t i then mkPosix (fds t) (sys_close (fd t i) (os t)) else t);
  tp_state_change t := t |}.

(** The port: [argc > 1 ? uint16_t(atoi(argv[1])) : 5403]. *)
Definition main_port (arg : option Z) : Z := match arg with Some v => u16 v | None => 5403 end.

(** [FD_SET] of every connection, and the largest descriptor. *)
Definition read_set (ls : Z) (t : PosixTransport W) : gset Z * Z :=
  foldl (λ '(s, m) i,
    if 0 <=? fd t i then ({[fd t i]} ∪ s, if m <? fd t i then fd t i else m) else (s, m))
    ({[ls]}, ls) (seq 0 MAX_CLIENTS).

Context (inet_ntop : SockAddr → bytes).

Definition host_name (a : SockAddr) : bytes :=
  match a with AF_INET6 _ => inet_ntop a | _ => str "?" end.

(** A connection request. *)
Definition accept_one (ls now : Z) (w : Server * PosixTransport W) : Server * PosixTransport W :=
  let '((f, sa), sys) := sys_accept ls (os w.2) in
  let w := (w.1, mkPosix (fds w.2) sys) in
  if f <? 0 then w
  else
    let slot := (on_connect now (host_name sa) w.1).1 in
    let w := call (λ st, (on_connect now (host_name sa) st).2) w in
    if slot <? 0 then (w.1, mkPosix (fds w.2) (sys_close f (os w.2)))
    else (w.1, set_fd (Z.to_nat slot) f w.2).

(** Reading from slot [i] if its descriptor is in the set. *)
Definition recv_step (now : Z) (rfds : gset Z) (w : Server * PosixTransport W) (i : nat)
    : Server * PosixTransport W :=
  let f := fd w.2 i in
  if (f <? 0) || negb (bool_decide (f ∈ rfds)) then w
  else
    let '((n, errno, buf), sys) := sys_recv f 2048 (os w.2) in
    let w := (w.1, mkPosix (fds w.2) sys) in
    if 0 <? n then call (on_data (Z.of_nat i) (take (Z.to_nat n) buf) now) w
    else if (n =? 0) || (negb (bool_decide (errno = EWOULDBLOCK)) && negb (bool_decide (errno = EAGAIN))) then
      call (on_disconnected (Z.of_nat i)) (w.1, tp_close_connection i w.2)
    else w.

(** One iteration of the loop of [main]: [None] when the program returns 1. *)
Definition main_step (ls : Z) (w : Server * PosixTransport W) : option (Server * PosixTransport W) :=
  let '(rfds, maxfd) := read_set ls w.2 in
  let '((r, errno, rfds), sys) := sys_select (maxfd + 1) rfds (os w.2) in
  if (r <? 0) && negb (bool_decide (errno = EINTR)) then None
  else
    let '(now, sys) := now_ms sys in
    let w := (w.1, mkPosix (fds w.2) sys) in
    let w := if (0 <? r) && bool_decide (ls ∈ rfds) then accept_one ls now w else w in
    let w := foldl (recv_step now rfds) w (seq 0 MAX_CLIENTS) in
    Some (call (tick now) w).

(** [main] up to the loop: the listening socket and the state the loop starts
    in.  [ls] is the descriptor, [bind] and [listen] the results of the calls. *)
Definition main_start (ls bind listen : Z) (sys : W) : option (Server * PosixTransport W) :=
  if negb (bind =? 0) || negb (listen =? 0) then None else Some (Server0 32768, PosixTransport0 sys).

(** ** The transport *)

Lemma fd_set i v t j : fd (set_fd i v t) j = if decide (i = j ∧ (i < length (fds t))%nat) then v else fd t j.
Proof.
  unfold fd, set_fd. cbn [fds]. rewrite list_lookup_alter. destruct (decide (i = j)) as [->|Hne].
  - destruct (fds t !! j) eqn:E.
    + apply lookup_lt_Some in E as Hl. by rewrite decide_True.
    + apply lookup_ge_None in E. rewrite decide_False by lia. done.
  - by rewrite decide_False by naive_solver.
Qed.

Definition open_fds (t : PosixTransport W) : gset nat :=
  list_to_set (filter (λ i, 0 <= fd t i) (seq 0 (length (fds t)))).
Lemma open_fds_elem t i : i ∈ open_fds t ↔ 0 <= fd t i.
Proof.
  unfold open_fds. rewrite elem_of_list_to_set, list_elem_of_filter, elem_of_seq. split; [naive_solver|].
  intros Hl. split; [done|]. unfold fd in Hl. destruct (fds t !! i) eqn:E; [|cbn in Hl; lia].
  apply lookup_lt_Some in E. lia.
Qed.

#[export] Program Instance posix_laws : TransportLaws (PosixTransport W) := {|
  opened := open_fds; table_ok t := length (fds t) = MAX_CLIENTS |}.
Next Obligation. intros i f t. cbn. by case_match. Qed.
Next Obligation. intros i t. cbn. rewrite length_alter. by case_match. Qed.
Next Obligation. done. Qed.
Next Obligation. intros i f t. cbn. by case_match. Qed.
Next Obligation.
  intros i t. apply set_eq. intros j. rewrite elem_of_difference, elem_of_singleton, !open_fds_elem.
  cbn [tp_close_connection posix_transport]. set (t' := if 0 <=? fd t i then _ else t).
  assert (∀ k, fd t' k = fd t k) as E by (intros k; unfold t'; by case_match).
  assert (length (fds t') = length (fds t)) as El by (unfold t'; by case_match).
  rewrite fd_set, E, El. case_decide as Hd; [lia|]. split; [|naive_solver]. intros Hj. split; [done|].
  intros ->. apply Hd. split; [done|]. unfold fd in Hj. destruct (fds t !! i) eqn:Ei; [|cbn in Hj; lia].
  by apply lookup_lt_Some in Ei.
Qed.
Next Obligation. done. Qed.

(** ** The host stays in step with the server *)

(** System calls change nothing the contract is about. *)
Lemma os_sync (w : Server * PosixTransport W) sys : in_sync w → in_sync (w.1, mkPosix (fds w.2) sys).
Proof. intros Hs. apply in_sync_same; [done|apply (is_table _ Hs)|done]. Qed.

Lemma accept_one_sync ls now w : in_sync w → in_sync (accept_one ls now w).
Proof.
  intros Hs. unfold accept_one. destruct (sys_accept ls (os w.2)) as [[f sa] sys].
  apply (os_sync w sys) in Hs. set (w1 := (w.1, mkPosix (fds w.2) sys)) in *. clearbody w1.
  destruct (Z.ltb_spec f 0) as [|Hf]; [done|]. set (peer := host_name sa). set (r := on_connect now peer w1.1).
  destruct (on_connect_sync now peer w1 Hs) as (Hr & Ht & Hneg & Hpos). fold r in Hneg, Hpos.
  destruct (Z.ltb_spec r.1 0) as [Hz|Hz]; [by apply os_sync, Hneg|].
  destruct (Hpos Hz) as (Hi & Hn & Hl). set (w2 := call (λ st, (on_connect now peer st).2) w1) in *.
  change (length (fds w2.2) = MAX_CLIENTS) in Ht.
  split; [done| |by cbn; rewrite length_alter]. cbn [fst snd]. rewrite Hl. apply set_eq. intros j.
  rewrite elem_of_union, elem_of_singleton. cbn [opened posix_laws].
  rewrite !open_fds_elem, fd_set, Ht. case_decide as Hd; [naive_solver|].
  split; [by right|]. intros [->|]; [|done]. exfalso. auto.
Qed.

Lemma fd_range (t : PosixTransport W) i : length (fds t) = MAX_CLIENTS → 0 <= fd t i → (i < MAX_CLIENTS)%nat.
Proof.
  intros Hl Hf. unfold fd in Hf. destruct (fds t !! i) eqn:E; [|cbn in Hf; lia]. apply lookup_lt_Some in E. lia.
Qed.

Lemma recv_step_sync now rfds w i : in_sync w → in_sync (recv_step now rfds w i).
Proof.
  intros Hs. unfold recv_step. destruct (Z.ltb_spec (fd w.2 i) 0) as [|Hf]; [done|]. cbn [orb].
  destruct (negb (bool_decide (fd w.2 i ∈ rfds))); [done|].
  destruct (sys_recv (fd w.2 i) 2048 (os w.2)) as [[[n errno] buf] sys].
  apply (os_sync w sys) in Hs. case_match; [by apply on_data_sync|]. case_match; [|done].
  apply (on_disconnected_sync i (w.1, mkPosix (fds w.2) sys)); [|by apply open_fds_elem|done].
  apply (fd_range w.2); [apply (is_table _ Hs)|done].
Qed.

Lemma main_step_sync ls w w' : in_sync w → main_step ls w = Some w' → in_sync w'.
Proof.
  intros Hs. unfold main_step. destruct (read_set ls w.2) as [rfds maxfd].
  destruct (sys_select (maxfd + 1) rfds (os w.2)) as [[[r errno] rfds'] sys].
  destruct (_ && _); [done|]. destruct (now_ms sys) as [now sys2]. intros <-%(inj Some). apply tick_sync.
  apply (os_sync w sys2) in Hs.
  assert (∀ l w, in_sync w → in_sync (foldl (recv_step now rfds') w l)) as Hl.
  { induction l as [|i l IH]; intros w1 H1; [done|]. cbn [foldl]. by apply IH, recv_step_sync. }
  apply Hl. case_match; [by apply accept_one_sync|done].
Qed.

(** The states at the head of the loop of [main]. *)
Inductive host_reachable (ls : Z) : Server * PosixTransport W → Prop :=
| hr_start bind listen sys w : main_start ls bind listen sys = Some w → host_reachable ls w
| hr_step w w' : host_reachable ls w → main_step ls w = Some w' → host_reachable ls w'.

Lemma host_in_sync ls w : host_reachable ls w → in_sync w.
Proof.
  induction 1 as [bind listen sys w E|w w' _ IH E]; [|by eapply main_step_sync].
  unfold main_start in E. destruct (_ || _); [done|]. injection E as <-.
  split; cbn [fst snd opened table_ok posix_laws]; [apply reach_init| |done].
  rewrite live0. apply set_eq. intros i. rewrite open_fds_elem. split; [|set_solver].
  unfold fd. cbn [fds PosixTransport0]. destruct (_ !! i) eqn:E; [apply lookup_replicate in E as [-> _]|]; cbn; lia.
Qed.

(** The descriptors [select] watches. *)
Lemma read_set_spec ls t : length (fds t) = MAX_CLIENTS →
  let '(s, m) := read_set ls t in
  (∀ f, f ∈ s ↔ f = ls ∨ ∃ i, 0 <= fd t i ∧ f = fd t i) ∧ (∀ f, f ∈ s → f <= m).
Proof.
  intros Hlen. unfold read_set.
  assert (∀ n, let '(s, m) := foldl (λ '(s, m) i,
      if 0 <=? fd t i then ({[fd t i]} ∪ s, if m <? fd t i then fd t i else m) else (s, m)) (({[ls]} : gset Z), ls) (seq 0 n) in
    (∀ f, f ∈ s ↔ f = ls ∨ ∃ i, (i < n)%nat ∧ 0 <= fd t i ∧ f = fd t i) ∧ (∀ f, f ∈ s → f <= m)) as Hn.
  { induction n as [|n IH]; [cbn; split; [set_solver by lia|intros f ?%elem_of_singleton; lia]|].
    rewrite seq_S, foldl_app. destruct (foldl _ _ (seq 0 n)) as [s m]. destruct IH as [I1 I2]. cbn [foldl Nat.add].
    destruct (Z.leb_spec 0 (fd t n)) as [Hf|Hf]; split; intros f.
    - rewrite elem_of_union, elem_of_singleton, I1. split.
      + intros [->|[->|(i & Hi & H1 & H2)]]; [right; exists n; split; [lia|done]|by left|].
        right. exists i. split; [lia|done].
      + intros [->|(i & Hi & H1 & ->)]; [by right; left|].
        destruct (decide (i = n)) as [->|]; [by left|right; right; exists i; split; [lia|done]].
    - rewrite elem_of_union, elem_of_singleton. destruct (Z.ltb_spec m (fd t n)); intros [->|Hin%I2]; lia.
    - rewrite I1. split.
      + intros [->|(i & Hi & H1 & H2)]; [by left|]. right. exists i. split; [lia|done].
      + intros [->|(i & Hi & H1 & ->)]; [by left|]. right. exists i. split; [|done].
        destruct (decide (i = n)) as [->|]; lia.
    - apply I2. }
  specialize (Hn MAX_CLIENTS). destruct (foldl _ _ _) as [s m]. destruct Hn as [H1 H2]. split; [|done].
  intros f. rewrite H1. split; intros [->|(i & Hi)]; [by left|right; naive_solver|by left|].
  right. exists i. destruct Hi as [Hi ->]. split; [by apply (fd_range t)|done].
Qed.
End host.

(** ** Sending *)

(** What POSIX guarantees of [send]: a positive count is the length of a prefix
    that was queued for delivery, a failure sends nothing, and only so many
    signals interrupt. *)
Class PosixLaws (W : Type) `{Posix W} := {
  sent : Z → W → bytes;
  interrupts : W → nat;
  send_count f d w n e w' : sys_send f d w = ((n, e), w') → 0 < n →
    n <= Z.of_nat (length d) ∧ sent f w' = sent f w ++ take (Z.to_nat n) d ∧ (interrupts w' ≤ interrupts w)%nat;
  send_fails f d w n e w' : sys_send f d w = ((n, e), w') → n <= 0 → sent f w' = sent f w;
  send_interrupted f d w n w' : sys_send f d w = ((n, EINTR), w') → n <= 0 → (interrupts w' < interrupts w)%nat;
}.

(** The loop ended with a failure other than [EINTR]. *)
Definition send_failed {W} `{Posix W} (f : Z) (data : bytes) (w' : W) : Prop :=
  ∃ off w n e, sys_send f (drop off data) w = ((n, e), w') ∧ n <= 0 ∧ e ≠ EINTR ∧ (off < length data)%nat.

Lemma send_loop_post {W} `{PosixLaws W} fuel f data off (w : W) :
  (length data - off + interrupts w < fuel)%nat → (off ≤ length data)%nat →
  let w' := send_loop fuel f data off w in
  ∃ k, (off ≤ k ≤ length data)%nat ∧ sent f w' = sent f w ++ take (k - off) (drop off data) ∧
    (k = length data ∨ send_failed f data w') ∧
    ∀ fuel', (fuel ≤ fuel')%nat → send_loop fuel' f data off w = w'.
Proof.
  revert off w. induction fuel as [|fuel IH]; intros off w Hf Ho; [lia|]. cbn [send_loop].
  destruct (Nat.ltb_spec off (length data)) as [Hlt|Hge].
  2: { exists off. rewrite Nat.sub_diag, take_0, app_nil_r. split_and!; [lia|lia|done|left; lia|].
       intros [|fuel'] Hle; [done|]. cbn [send_loop]. by rewrite (proj2 (Nat.ltb_ge _ _)). }
  assert (∀ fuel', send_loop (S fuel') f data off w =
    let '((n, errno), w) := sys_send f (drop off data) w in
    if n <=? 0 then if bool_decide (errno = EINTR) then send_loop fuel' f data off w else w
    else send_loop fuel' f data (off + Z.to_nat n) w) as Hstep.
  { intros fuel'. cbn [send_loop]. by rewrite (proj2 (Nat.ltb_lt _ _)). }
  destruct (sys_send f (drop off data) w) as [[n errno] w1] eqn:E.
  destruct (Z.leb_spec n 0) as [Hn|Hn].
  - pose proof (send_fails _ _ _ _ _ _ E Hn) as Es. case_bool_decide as He.
    + subst errno. pose proof (send_interrupted _ _ _ _ _ E Hn) as Hi.
      destruct (IH off w1) as (k & H1 & H2 & H3 & H4); [lia|lia|]. exists k. rewrite <-Es.
      split_and!; [lia|lia|done|done|].
      intros [|fuel'] Hle; [lia|]. rewrite Hstep. apply H4. lia.
    + exists off. rewrite Nat.sub_diag, take_0, app_nil_r. split_and!; [lia|lia|done| |].
      * right. by exists off, w, n, errno.
      * intros [|fuel'] Hle; [lia|]. by rewrite Hstep.
  - destruct (send_count _ _ _ _ _ _ E Hn) as (Hle & Es & Hi). rewrite length_drop in Hle.
    destruct (IH (off + Z.to_nat n)%nat w1) as (k & H1 & H2 & H3 & H4); [lia|lia|]. exists k.
    split_and!; [lia|lia| |done|].
    + rewrite H2, Es, <-app_assoc. f_equal. rewrite <-drop_drop.
      replace (k - off)%nat with (Z.to_nat n + (k - (off + Z.to_nat n)))%nat by lia.
      apply take_take_drop.
    + intros [|fuel'] Hfu; [lia|]. rewrite Hstep. apply H4. lia.
Qed.

(** [now_ms] is the time in whole milliseconds. *)
Lemma now_ms_exact {W} `{Posix W} (w w' : W) sec nsec :
  sys_clock_gettime w = ((sec, nsec), w') → 0 <= sec < 2 ^ 53 → 0 <= nsec < 10 ^ 9 →
  now_ms w = ((sec * 10 ^ 9 + nsec) / 10 ^ 6, w').
Proof.
  intros E Hs Hn. unfold now_ms. rewrite E. rewrite Z.quot_div_nonneg by lia. f_equal.
  rewrite (u64_id sec) by (unfold is_u64; lia). rewrite (u64_id (sec * 1000)) by (unfold is_u64; lia).
  rewrite u64_id.
  - replace (sec * 10 ^ 9 + nsec) with (sec * 1000 * 10 ^ 6 + nsec) by lia. by rewrite Z.div_add_l by lia.
  - unfold is_u64. pose proof (Z.div_pos nsec 1000000). pose proof (Z.div_lt_upper_bound nsec 1000000 1000). lia.
Qed.

(** ** A scripted operating system *)

Module Mock.
(** The answers the system will give, and what it was asked to do. *)
Record OS : Type := mkOS {
  mo_select : list (Z * Errno * option (gset Z));  (* [None]: the set is left as it was *)
  mo_accept : list (Z * SockAddr);
  mo_recv : list (Z * Errno * bytes);
  mo_send : list (Z * Errno);
  mo_sent : list (Z * bytes);
  mo_received_from : list Z;
}.

#[global] Instance posix : Posix OS := {|
  sys_clock_gettime w := ((1000, 0), w);
  sys_send f d w :=
    match mo_send w with
    | [] => ((Z.of_nat (length d), EOTHER),
             mkOS (mo_select w) (mo_accept w) (mo_recv w) [] (mo_sent w ++ [(f, d)]) (mo_received_from w))
    | (n, e) :: l =>
        let d := take (Z.to_nat n) d in
        ((if 0 <? n then Z.of_nat (length d) else n, e),
         mkOS (mo_select w) (mo_accept w) (mo_recv w) l (mo_sent w ++ [(f, d)]) (mo_received_from w))
    end;
  sys_recv f n w :=
    let w' r := mkOS (mo_select w) (mo_accept w) r (mo_send w) (mo_sent w) (mo_received_from w ++ [f]) in
    match mo_recv w with
    | [] => ((-1, EAGAIN, []), w' [])
    | r :: l => (r, w' l)
    end;
  sys_close f w := w;
  sys_select n s w :=
    match mo_select w with
    | [] => ((0, EOTHER, ∅), w)
    | (r, e, s') :: l =>
        ((r, e, default s s'), mkOS l (mo_accept w) (mo_recv w) (mo_send w) (mo_sent w) (mo_received_from w))
    end;
  sys_accept ls w :=
    match mo_accept w with
    | [] => ((-1, AF_OTHER), w)
    | a :: l => (a, mkOS (mo_select w) l (mo_recv w) (mo_send w) (mo_sent w) (mo_received_from w))
    end |}.

Definition sent_to (f : Z) (l : list (Z * bytes)) : bytes := concat (snd <$> filter (λ x, x.1 = f) l).
Lemma sent_to_app f l d : sent_to f (l ++ [(f, d)]) = sent_to f l ++ d.
Proof.
  unfold sent_to. rewrite filter_app, fmap_app, concat_app. f_equal. cbn [filter list_filter].
  rewrite decide_True by done. cbn. apply app_nil_r.
Qed.

#[global] Program Instance laws : PosixLaws OS :=
  {| sent f w := sent_to f (mo_sent w); interrupts w := length (mo_send w) |}.
Next Obligation.
  intros f d [sel acc rcv [|[n0 e0] l] snt lg] n e w'; cbn; intros E Hn; injection E as <- <- <-; cbn [mo_sent mo_send].
  - rewrite sent_to_app, Nat2Z.id, firstn_all. split_and!; [lia|done|cbn; lia].
  - destruct (Z.ltb_spec 0 n0); [|lia]. rewrite sent_to_app, Nat2Z.id, length_take in *.
    split_and!; [lia| |cbn; lia]. f_equal. destruct (Nat.min_spec (Z.to_nat n0) (length d)) as [[_ ->]|[Hl ->]]; [done|].
    by rewrite !take_ge.
Qed.
Next Obligation.
  intros f d [sel acc rcv [|[n0 e0] l] snt lg] n e w'; cbn; intros E Hn; injection E as <- <- <-; cbn [mo_sent].
  - destruct d; [|cbn in Hn; lia]. by rewrite sent_to_app, app_nil_r.
  - rewrite sent_to_app. destruct (Z.ltb_spec 0 n0) as [H0|H0].
    + rewrite length_take in Hn. destruct d; [by rewrite take_nil, app_nil_r|]. cbn [length] in Hn. lia.
    + replace (Z.to_nat n0) with 0%nat by lia. by rewrite take_0, app_nil_r.
Qed.
Next Obligation.
  intros f d [sel acc rcv [|[n0 e0] l] snt lg] n w'; cbn; intros E Hn; [done|]. injection E as _ _ <-. cbn. lia.
Qed.

Definition ls : Z := 3.
Definition ntop (a : SockAddr) : bytes := [112].

(** A client connects on descriptor 5; then a signal interrupts [select], which
    leaves the set as it was. *)
Definition boot : OS :=
  mkOS [(1, EOTHER, Some {[ls]}); (-1, EINTR, None)] [(5, AF_INET6 1)] [] [] [] [].
Definition start : Server * PosixTransport OS := (Server0 32768, PosixTransport0 boot).
Definition accepted : Server * PosixTransport OS := default start (main_step 1000 ntop ls start).
Definition interrupted : Server * PosixTransport OS := default start (main_step 1000 ntop ls accepted).

Lemma accepted_reachable : host_reachable 1000 ntop ls accepted.
Proof.
  apply (hr_step _ _ _ start); [by apply (hr_start _ _ _ 0 0 boot)|]. vm_compute. reflexivity.
Qed.
End Mock.

(** ** Correctness of the host *)

(** C10: the POSIX server keeps its descriptor table in step with the sessions: at
    the head of the main loop, whatever the system calls returned so far, the
    server is in a state reachable through its interface, a slot holds a
    descriptor exactly if its session is in use, and [select] is asked to watch
    the listening socket and exactly those descriptors, all below its first
    argument. *)
Theorem host_tracks_sessions {W} `{Posix W} fuel inet_ntop ls (w : Server * PosixTransport W) :
  host_reachable fuel inet_ntop ls w →
  reachable 32768 w.1 ∧ (∀ i, 0 <= fd w.2 i ↔ s_phase (sess w.1 i) ≠ FREE) ∧
  let '(s, m) := read_set ls w.2 in
  (∀ f, f ∈ s ↔ f = ls ∨ ∃ i, s_phase (sess w.1 i) ≠ FREE ∧ f = fd w.2 i) ∧ (∀ f, f ∈ s → f < m + 1).
Proof.
  intros [Hr Ho Ht]%host_in_sync. cbn [opened table_ok posix_laws] in Ho, Ht.
  destruct (reachable_good _ _ Hr) as [Hg _].
  assert (∀ i, 0 <= fd w.2 i ↔ s_phase (sess w.1 i) ≠ FREE) as Hi.
  { intros i. rewrite <-open_fds_elem, Ho. apply live_elem, inv_len_sessions, Hg. }
  split_and!; [done|done|]. pose proof (read_set_spec ls w.2 Ht) as Hs. destruct (read_set ls w.2) as [s m].
  destruct Hs as [H1 H2]. split; [|intros f Hf; specialize (H2 f Hf); lia].
  intros f. rewrite H1. by setoid_rewrite Hi.
Qed.
Lemma host_tracks_sessions_witness :
  fd Mock.accepted.2 0 = 5 ∧ s_phase (sess Mock.accepted.1 0) ≠ FREE.
Proof.
  assert (fd Mock.accepted.2 0 = 5) as H by (vm_compute; reflexivity). split; [exact H|].
  destruct (host_tracks_sessions 1000 Mock.ntop Mock.ls Mock.accepted Mock.accepted_reachable) as (_ & Hi & _).
  apply (proj1 (Hi 0%nat)). rewrite H. discriminate.
Defined.

(** C39: [send_frame] of the POSIX transport hands over the whole frame.  With
    enough fuel for the bytes and the interruptions to come, the loop ends, and
    either the frame was sent completely, or [send] failed with an error other
    than [EINTR] after a prefix of it; interruptions and partial sends neither
    lose nor repeat bytes, and the descriptors do not change. *)
Theorem posix_send_frame_complete {W} `{PosixLaws W} fuel (t : PosixTransport W) i frame :
  0 <= fd t i → (length frame + interrupts (os t) < fuel)%nat →
  let t' := tp_send_frame (Transport := posix_transport fuel) i frame t in
  fds t' = fds t ∧
  (∃ k, (k ≤ length frame)%nat ∧ sent (fd t i) (os t') = sent (fd t i) (os t) ++ take k frame ∧
     (k = length frame ∨ send_failed (fd t i) frame (os t'))) ∧
  ∀ fuel', (fuel ≤ fuel')%nat → tp_send_frame (Transport := posix_transport fuel') i frame t = t'.
Proof.
  intros Hf Hfuel t'. unfold t'. cbn [tp_send_frame posix_transport]. rewrite (proj2 (Z.ltb_ge _ _)) by done.
  destruct (send_loop_post fuel (fd t i) frame 0 (os t)) as (k & Hk & Hs & Hc & Hm); [lia|lia|].
  cbn [fds os]. rewrite Nat.sub_0_r, drop_0 in Hs. split_and!; [done| |].
  - exists k. by split; [lia|].
  - intros fuel' Hle. by rewrite Hm.
Qed.
Lemma posix_send_frame_complete_witness :
  let t := mkPosix [7] (Mock.mkOS [] [] [] [(2, EOTHER); (-1, EINTR); (1, EOTHER)] [] []) in
  let t' := tp_send_frame (Transport := posix_transport 10) 0 [10; 11; 12; 13; 14] t in
  sent 7 (os t') = [10; 11; 12; 13; 14] ∧ fds t' = [7].
Proof.
  cbv zeta. split; [vm_compute; reflexivity|].
  apply (posix_send_frame_complete 10 (mkPosix [7] (Mock.mkOS [] [] [] [(2, EOTHER); (-1, EINTR); (1, EOTHER)] [] [])) 0
    [10; 11; 12; 13; 14]); apply (bool_decide_unpack _); vm_compute; exact I.
Defined.

(** A signal that interrupts [select] makes the loop read from every connection:
    the result is checked before accepting but not before reading, and a failed
    [select] leaves the sets as they were.  Here nothing is readable, yet [recv]
    is called on descriptor 5, whose socket is in blocking mode. *)
Theorem interrupted_select_reads :
  read_set Mock.ls Mock.accepted.2 = ({[5; Mock.ls]}, 5) ∧
  Mock.mo_received_from (os Mock.accepted.2) = [] ∧
  Mock.mo_received_from (os Mock.interrupted.2) = [5].
Proof.
  split; [|split; vm_compute; reflexivity]. apply (bool_decide_unpack _). vm_compute. exact I.
Qed.
