(* ===== verification/HostTests.v ===== *)
(** * The test program (host/test_main.cpp)

    The scenario tests of the repository, run on the model.  The [Rig] of the
    tests is a state: the server with the log of what it sent, the clock, the
    sequence number of each client, and the outcome of every [CHECK] so far.  A
    test is a program in the state monad over it.  [tests_pass] evaluates
    [main]: every check the program makes of the C++ code holds of the model. *)
From Stdlib Require Import String.
From S2P Require Import Prelude Double Wire Tlv Msg State Ffsplit Select Handlers Lifecycle Safety Scenarios Status.
From stdpp Require Import gmap.
Open Scope Z_scope.

(** ** The rig *)

Record Rig : Type := mkRig {
  server : Server;
  now : Z;
  clients : gmap Z Z;      (* [MockClient::seq] *)
  checks : list bool;
}.
(** [Rig r;], in a program that has made [l]. *)
Definition Rig0 (l : list bool) : Rig := mkRig (Server0 32768) 1000 ∅ l.

(** Programs over a rig. *)
Definition T (A : Type) : Type := Rig → A * Rig.
#[export] Instance T_ret : MRet T := λ A x r, (x, r).
#[export] Instance T_bind : MBind T := λ A B k m r, let '(x, r) := m r in k x r.

Definition gets {A} (f : Rig → A) : T A := λ r, (f r, r).
Definition modify (f : Server → Server) : T unit := λ r, (tt, mkRig (f (server r)) (now r) (clients r) (checks r)).

(** [CHECK(cond)]. *)
Definition CHECK (cond : bool) : T unit := λ r, (tt, mkRig (server r) (now r) (clients r) (checks r ++ [cond])).
Definition when (b : bool) (m : T unit) : T unit := if b then m else mret tt.

(** ** [MockTransport] *)

(** [sent] and [closed]: the effects the transport has seen. *)
Definition sent (r : Rig) : list (nat * Frame) :=
  sv_out (server r) ≫= λ e, match e with ESend i f => [(i, f)] | _ => [] end.
Definition closed (r : Rig) : list nat :=
  sv_out (server r) ≫= λ e, match e with EClose i => [i] | _ => [] end.
Definition mark : T nat := gets (λ r, length (sent r)).

(** The frames for a slot; one that does not decode fails the [assert]. *)
Definition frames_for (slot : Z) (from : nat) : T (list MsgDecoded) :=
  l ← gets (λ r, filter (λ s, Z.of_nat s.1 = slot) (drop from (sent r)));
  let ms := (λ s, frame_decode s.2) <$> l in
  when (existsb (λ o, negb (bool_decide (is_Some (match o with Ok m => Some (m_type m) | _ => None end)))) ms) (CHECK false) ≫= λ _,
  mret (ms ≫= λ o, match o with Ok m => [m] | _ => [] end).

(** [fr.size() == 1 && ...] of the first frame. *)
Definition single (fr : list MsgDecoded) (p : MsgDecoded → bool) : bool :=
  match fr with [m] => p m | _ => false end.
Definition is_type (t : MsgType) (m : MsgDecoded) : bool := bool_decide (m_type m = t).
Definition is_vote (v : Vote) (m : MsgDecoded) : bool := bool_decide (m_vote m = v).

(** ** [Rig] *)

Definition connect : T Z := λ r,
  let '(s, st) := on_connect (now r) (str "test-peer") (server r) in
  (s, mkRig st (now r) (clients r) (checks r)).
Definition feed (slot : Z) (f : Frame) : T unit := t ← gets now; modify (on_data slot f t).
Definition advance (ms : Z) : T unit := λ r, (tt, mkRig (server r) (now r + ms) (clients r) (checks r)).

(** [++seq] of the client of a slot. *)
Definition next_seq (slot : Z) : T Z := λ r,
  let n := u32 (default 0 (clients r !! slot) + 1) in
  (n, mkRig (server r) (now r) (<[slot := n]> (clients r)) (checks r)).
Definition feed_seq (slot : Z) (f : Z → Frame) : T unit := n ← next_seq slot; feed slot (f n).

Definition cluster : bytes := str "testcluster".
Definition FFSPLIT_init (node_id : Z) (ring : RingId) (hb : Z) (tb : TieBreaker) (seq : Z) : Frame :=
  MockClient.init seq node_id ring hb tb ALG_FFSPLIT.
Definition preinit (seq : Z) : Frame := MockClient.preinit seq cluster.
Definition initial_config (ids : list Z) (seq : Z) : Frame := MockClient.config_list seq NLT_INITIAL_CONFIG ids None.
Definition membership (ring : RingId) (ids : list Z) (h : Heuristics) (seq : Z) : Frame := MockClient.membership seq ring ids h.

Definition join (node_id : Z) (ring : RingId) (tb : TieBreaker) : T Z :=
  s ← connect; feed_seq s preinit ≫= λ _, feed_seq s (FFSPLIT_init node_id ring 8000 tb) ≫= λ _, mret s.

(** [last_vote_info(slot, v, from)]: the sequence number and the vote, from [v]. *)
Definition last_vote_info (slot : Z) (v : Vote) (from : nat) : T (Z * Vote) :=
  fr ← frames_for slot from;
  mret (foldl (λ a m, if is_type MT_VOTE_INFO m then (m_seq_number m, m_vote m) else a) (0, v) fr).
Definition count_vote_infos (slot : Z) (v : Vote) (from : nat) : T nat :=
  fr ← frames_for slot from;
  mret (length (List.filter (λ m, is_type MT_VOTE_INFO m && is_vote v m) fr)).
Definition answer_if (slot seq : Z) : T unit := when (negb (seq =? 0)) (feed slot (MockClient.vote_info_reply seq)).
Definition CHECKr (f : Rig → bool) : T unit := b ← gets f; CHECK b.

(** ** The tests *)

Notation "m ;; k" := (mbind (λ _, k) m) (at level 100, k at level 200, right associativity).

(** The bytes of two replies. *)
Definition golden_preinit_reply : Frame :=
  [0; 1; 0; 0; 0; 18;  0; 0; 0; 4; 0; 0; 0; 7;  0; 2; 0; 1; 0;  0; 3; 0; 1; 0].
Definition golden_ring : bytes := [0; 13; 0; 12; 0; 0; 0; 4; 0; 0; 0; 0; 0; 0; 11; 124].
Definition test_golden_bytes : T unit :=
  let f := build_preinit_reply true 7 TLS_UNSUPPORTED 0 in
  CHECK (length f =? length golden_preinit_reply)%nat ;;
  CHECK (bool_decide (f = golden_preinit_reply)) ;;
  let v := build_vote_info 1 (mkRingId 4 2940) VOTE_ACK in
  CHECK (length v =? 6 + 8 + 5 + 16)%nat ;;
  CHECK (bool_decide (take 16 (drop (6 + 8 + 5) v) = golden_ring)) ;;
  match frame_decode v with
  | Ok m =>
      CHECK true ;;
      CHECK (is_type MT_VOTE_INFO m && m_vote_set m && is_vote VOTE_ACK m) ;;
      CHECK (m_ring_id_set m && (ri_node_id (m_ring_id m) =? 4) && (ri_seq (m_ring_id m) =? 2940))
  | _ => CHECK false
  end.

Definition ring41 : RingId := mkRingId 4 1.
Definition test_handshake_and_ordering : T unit :=
  s ← connect; CHECK (s =? 0) ;;
  (* INIT before PREINIT *)
  feed_seq s (FFSPLIT_init 4 ring41 8000 TieBreaker0) ;;
  fr ← frames_for s 0; CHECK (single fr (is_type MT_SERVER_ERROR)) ;; CHECKr (λ r, bool_decide (closed r = [])) ;;
  mk ← mark; feed_seq s preinit ;;
  fr ← frames_for s mk; CHECK (single fr (is_type MT_PREINIT_REPLY)) ;;
  CHECK (single fr (λ m, m_tls_supported_set m && bool_decide (m_tls_supported m = TLS_UNSUPPORTED))) ;;
  (* a heartbeat below the minimum *)
  mk ← mark; feed_seq s (FFSPLIT_init 4 ring41 100 TieBreaker0) ;;
  fr ← frames_for s mk; CHECK (single fr (is_type MT_INIT_REPLY)) ;;
  mk ← mark; feed_seq s (FFSPLIT_init 4 ring41 8000 TieBreaker0) ;;
  fr ← frames_for s mk; CHECK (single fr (is_type MT_INIT_REPLY)) ;; CHECKr (λ r, connected_clients (server r) =? 1) ;;
  mk ← mark; n ← next_seq s; feed s (MockClient.echo_request n) ;;
  fr ← frames_for s mk; CHECK (single fr (is_type MT_ECHO_REPLY)) ;;
  seq ← gets (λ r, default 0 (clients r !! s));
  CHECK (single fr (λ m, m_seq_number_set m && (m_seq_number m =? seq))).

Definition ring2 : RingId := mkRingId 2 100.
Definition test_two_nodes_join_ack : T unit :=
  a ← join 4 ring2 TieBreaker0;
  mk ← mark; feed_seq a (initial_config [2; 4]) ;;
  fr ← frames_for a mk; CHECK (single fr (λ m, is_type MT_NODE_LIST_REPLY m && is_vote VOTE_ASK_LATER m)) ;;
  mk ← mark; feed_seq a (membership ring2 [2; 4] HEUR_UNDEFINED) ;;
  sv ← last_vote_info a VOTE_UNDEFINED mk; CHECK (negb (sv.1 =? 0) && bool_decide (sv.2 = VOTE_ACK)) ;;
  feed a (MockClient.vote_info_reply sv.1) ;;
  (* B boots later *)
  b ← join 2 ring2 TieBreaker0; feed_seq b (initial_config [2; 4]) ;;
  mk ← mark; feed_seq b (membership ring2 [2; 4] HEUR_UNDEFINED) ;;
  sa ← last_vote_info a VOTE_UNDEFINED mk; sb ← last_vote_info b VOTE_UNDEFINED mk;
  CHECK (bool_decide (sb.2 = VOTE_ACK)) ;; answer_if a sa.1 ;; answer_if b sb.1 ;;
  CHECKr (λ r, any_ack (server r)) ;;
  na ← count_vote_infos a VOTE_NACK 0; CHECK (na =? 0)%nat ;;
  nb ← count_vote_infos b VOTE_NACK 0; CHECK (nb =? 0)%nat.

Definition test_first_reporter_waits_for_silent_peer : T unit :=
  a ← join 4 ring2 TieBreaker0; b ← join 2 ring2 TieBreaker0; feed_seq a (initial_config [2; 4]) ;;
  mk ← mark; feed_seq a (membership ring2 [2; 4] HEUR_UNDEFINED) ;;
  fr ← frames_for a mk; CHECK (single fr (is_type MT_NODE_LIST_REPLY)) ;; CHECK (single fr (is_vote VOTE_WAIT_FOR_REPLY)) ;;
  sv ← last_vote_info a VOTE_UNDEFINED mk; CHECK (sv.1 =? 0).

(** Two ACKed nodes; the final [assert] is a check. *)
Definition ack_two_nodes : T (Z * Z) :=
  a ← join 4 ring2 TieBreaker0; b ← join 2 ring2 TieBreaker0;
  feed_seq a (initial_config [2; 4]) ;; feed_seq a (membership ring2 [2; 4] HEUR_UNDEFINED) ;;
  s1 ← last_vote_info a VOTE_UNDEFINED 0; answer_if a s1.1 ;;
  feed_seq b (initial_config [2; 4]) ;;
  mk ← mark; feed_seq b (membership ring2 [2; 4] HEUR_UNDEFINED) ;;
  s2 ← last_vote_info b VOTE_UNDEFINED mk; s3 ← last_vote_info a VOTE_UNDEFINED mk;
  answer_if b s2.1 ;; answer_if a s3.1 ;; CHECKr (λ r, any_ack (server r)) ;;
  mret (a, b).

Definition test_node_reboot_survivor_keeps_vote : T unit :=
  ab ← ack_two_nodes; let '(a, b) := ab in
  mk ← mark; modify (on_disconnected b) ;;
  feed_seq a (membership (mkRingId 4 101) [4] HEUR_UNDEFINED) ;;
  sv ← last_vote_info a VOTE_UNDEFINED mk; CHECK (negb (sv.1 =? 0) && bool_decide (sv.2 = VOTE_ACK)) ;;
  feed a (MockClient.vote_info_reply sv.1) ;;
  CHECKr (λ r, any_ack (server r)) ;;
  n ← count_vote_infos a VOTE_NACK mk; CHECK (n =? 0)%nat.

Definition test_split_brain_exactly_one_ack : T unit :=
  ab ← ack_two_nodes; let '(a, b) := ab in
  mk ← mark; feed_seq a (membership (mkRingId 4 200) [4] HEUR_UNDEFINED) ;;
  fr ← frames_for a mk; CHECK (single fr (is_type MT_NODE_LIST_REPLY)) ;; CHECK (single fr (is_vote VOTE_WAIT_FOR_REPLY)) ;;
  mk ← mark; feed_seq b (membership (mkRingId 2 201) [2] HEUR_UNDEFINED) ;;
  sa ← last_vote_info a VOTE_UNDEFINED mk; sb ← last_vote_info b VOTE_UNDEFINED mk;
  CHECK (negb (sa.1 =? 0) && bool_decide (sa.2 = VOTE_NACK)) ;;
  CHECK (sb.1 =? 0) ;;
  (* the loser acknowledges its NACK; only now may the winner see ACK *)
  feed a (MockClient.vote_info_reply sa.1) ;;
  sb ← last_vote_info b sb.2 mk; CHECK (negb (sb.1 =? 0) && bool_decide (sb.2 = VOTE_ACK)) ;;
  feed b (MockClient.vote_info_reply sb.1) ;;
  na ← count_vote_infos a VOTE_ACK mk; CHECK (na =? 0)%nat ;;
  nb ← count_vote_infos b VOTE_ACK mk; CHECK (nb =? 1)%nat.

Definition test_split_with_dead_loser_needs_dpd : T unit :=
  ab ← ack_two_nodes; let '(a, b) := ab in
  mk ← mark; feed_seq a (membership (mkRingId 4 300) [4] HEUR_UNDEFINED) ;;
  fr ← frames_for a mk; CHECK (match fr with m :: _ => is_vote VOTE_WAIT_FOR_REPLY m | [] => false end) ;;
  sv ← last_vote_info a VOTE_UNDEFINED mk; CHECK (sv.1 =? 0) ;;
  (* the survivor keeps heartbeating, B stays silent *)
  advance 6500 ;; t ← gets now; modify (tick t) ;;
  feed_seq a MockClient.echo_request ;;
  advance 6500 ;; t ← gets now; modify (tick t) ;;
  CHECKr (λ r, bool_decide (closed r = [Z.to_nat b])) ;;
  sv ← last_vote_info a sv.2 mk; CHECK (negb (sv.1 =? 0) && bool_decide (sv.2 = VOTE_ACK)) ;;
  feed a (MockClient.vote_info_reply sv.1) ;;
  CHECKr (λ r, any_ack (server r)).

Definition test_stale_vote_info_reply_ignored : T unit :=
  ab ← ack_two_nodes; let '(a, b) := ab in
  mk ← mark; feed_seq a (membership (mkRingId 4 400) [4] HEUR_UNDEFINED) ;;
  feed_seq b (membership (mkRingId 2 401) [2] HEUR_UNDEFINED) ;;
  sa ← last_vote_info a VOTE_UNDEFINED mk; CHECK (negb (sa.1 =? 0) && bool_decide (sa.2 = VOTE_NACK)) ;;
  feed a (MockClient.vote_info_reply (u32 (sa.1 - 1))) ;;
  sb ← last_vote_info b VOTE_UNDEFINED mk; CHECK (sb.1 =? 0) ;;
  feed a (MockClient.vote_info_reply sa.1) ;;
  sb ← last_vote_info b sb.2 mk; CHECK (negb (sb.1 =? 0) && bool_decide (sb.2 = VOTE_ACK)).

(** A client whose INIT is answered but which is not admitted. *)
Definition refused (f : Z → Frame) : T unit :=
  s ← connect; feed_seq s preinit ;;
  mk ← mark; feed_seq s f ;;
  fr ← frames_for s mk; CHECK (single fr (is_type MT_INIT_REPLY)) ;; CHECKr (λ r, connected_clients (server r) =? 1).

Definition ring1 : RingId := mkRingId 2 1.
Definition test_init_consistency_errors : T unit :=
  a ← join 4 ring1 TieBreaker0; CHECKr (λ r, connected_clients (server r) =? 1) ;;
  refused (FFSPLIT_init 4 ring1 8000 TieBreaker0) ;;
  refused (FFSPLIT_init 2 ring1 8000 (mkTieBreaker TBM_HIGHEST 0)) ;;
  refused (λ seq, MockClient.init seq 2 ring1 8000 TieBreaker0 ALG_LMS).

(** The last part uses a second rig, [r2]. *)
Definition test_malformed_and_oversize : T unit :=
  s ← connect; feed s [0; 0; 0; 16; 0; 0] ;;
  CHECKr (λ r, negb (bool_decide (closed r = []))) ;;
  s2 ← connect; feed s2 (be_put32 (be_put16 [] 0) 3 ++ [0; 1; 0]) ;;
  CHECKr (λ r, bool_decide (Z.to_nat s2 ∈ closed r)) ;;
  (λ r, (tt, Rig0 (checks r))) ;;
  a ← join 4 ring1 TieBreaker0;
  mk ← mark; feed a (be_put32 (be_put16 [] 11) 0) ;;
  fr ← frames_for a mk; CHECK (single fr (is_type MT_SERVER_ERROR)) ;;
  CHECKr (λ r, bool_decide (closed r = [])).

Definition test_quorum_list_informative : T unit :=
  ab ← ack_two_nodes; let '(a, b) := ab in
  mk ← mark; feed_seq a (λ seq, MockClient.quorum_list seq true [2; 4]) ;;
  fr ← frames_for a mk; CHECK (single fr (is_type MT_NODE_LIST_REPLY)) ;;
  CHECK (single fr (is_vote VOTE_NO_CHANGE)).

Definition test_fragmented_delivery : T unit :=
  s ← connect; n ← next_seq s;
  foldr (λ byte k, feed s [byte] ;; k) (mret tt) (preinit n) ;;
  fr ← frames_for s 0; CHECK (single fr (is_type MT_PREINIT_REPLY)).

Definition test_heuristics_break_the_split : T unit :=
  ab ← ack_two_nodes; let '(a, b) := ab in
  mk ← mark; feed_seq a (membership (mkRingId 4 500) [4] HEUR_PASS) ;;
  feed_seq b (membership (mkRingId 2 501) [2] HEUR_FAIL) ;;
  sb ← last_vote_info b VOTE_UNDEFINED mk; CHECK (negb (sb.1 =? 0) && bool_decide (sb.2 = VOTE_NACK)) ;;
  feed b (MockClient.vote_info_reply sb.1) ;;
  sa ← last_vote_info a VOTE_UNDEFINED mk; CHECK (negb (sa.1 =? 0) && bool_decide (sa.2 = VOTE_ACK)).

(** [main]: each test with its own rig; the outcome of every check. *)
Definition main_tests : list (T unit) :=
  [test_golden_bytes; test_handshake_and_ordering; test_two_nodes_join_ack; test_first_reporter_waits_for_silent_peer;
   test_node_reboot_survivor_keeps_vote; test_split_brain_exactly_one_ack; test_split_with_dead_loser_needs_dpd;
   test_stale_vote_info_reply_ignored; test_init_consistency_errors; test_malformed_and_oversize;
   test_quorum_list_informative; test_fragmented_delivery; test_heuristics_break_the_split].
Definition main : list bool := foldl (λ l t, checks (t (Rig0 l)).2) [] main_tests.

(** Every check passes: the 60 of the tests, and the [assert] of the 6 tests that
    start from [ack_two_nodes]. *)
Example tests_pass : forallb id main = true ∧ length main = 66%nat.
Proof. vm_compute. done. Qed.
